(** * A shallow embedding of kimera_dsg's DynamicSceneGraph

    The development follows [src/kimera_dsg/src/dynamic_scene_graph.cpp].
    Every member function of [DynamicSceneGraph] that the verified
    properties talk about is translated to a function on an explicit graph
    state.  C++ containers are finite maps ([std::map] is [gmap],
    [std::set] is [gset]); [size_t] counters are [N] with the wrap-around at
    [2^64] written out; an access through [.at()] that finds no entry throws
    [std::out_of_range] in the source and is [None] here (the [option]
    monad), so a function that can throw returns an [option].

    A loop over a [std::map] visits its entries by ascending key.  Where
    what a function hands back depends on that order (the vector of
    [getMeshConnectionIndices], the list of removed nodes, the loops of
    [mergeGraph], which give out mesh edge ids as they go) the loop runs
    over [ascending], the entries sorted by key.  The remaining loops add
    up sizes or take out entries that do not interfere with one another;
    they run over [map_to_list] or [elements]. *)

From stdpp Require Import gmap list option sorting.
From Stdlib Require Import NArith Lia.

Local Open Scope N_scope.

(** ** Identifiers and scalar types *)

Abbreviation NodeId := N (only parsing).
Abbreviation LayerId := N (only parsing).
Abbreviation LayerPrefix := N (only parsing).

(** [size_t] arithmetic: 64-bit unsigned with wrap-around. *)
Definition size_t_modulus : N := 2 ^ 64.

Definition wrap (n : N) : N := n mod size_t_modulus.

(** Attribute payloads are opaque to the graph; only moving and cloning
    them is observable here. *)
Definition NodeAttributes : Type := N.
Definition EdgeAttributes : Type := N.

Definition clone (a : EdgeAttributes) : EdgeAttributes := a.

(** [std::make_unique<EdgeAttributes>()] *)
Definition default_edge_attributes : EdgeAttributes := 0.

(** Monadic left fold: a loop whose body may throw. *)
Fixpoint foldM {A S : Type} (f : S → A → option S) (l : list A) (s : S)
  : option S :=
  match l with
  | [] => Some s
  | x :: l' => s' ← f s x; foldM f l' s'
  end.

(** [std::map::emplace]: does nothing when the key is taken. *)
Definition map_emplace {V : Type} (k : N) (v : V) (m : gmap N V) : gmap N V :=
  match m !! k with
  | Some _ => m
  | None => <[k := v]> m
  end.

(** ** Iteration order *)

(** Entries of a map keyed by ids compare by their keys. *)
Definition key_le {V : Type} (x y : N * V) : Prop := x.1 ≤ y.1.

#[global] Instance key_le_dec {V : Type} : RelDecision (@key_le V).
Proof. intros x y. unfold key_le. apply _. Defined.

(** The entries of a [std::map] keyed by ids, as a loop visits them: by
    ascending key. *)
Definition ascending {V : Type} (m : gmap N V) : list (N * V) :=
  merge_sort key_le (map_to_list m).

(** Edge keys are pairs of node ids and compare by the first id, then by
    the second. *)
Definition edge_key_le {V : Type} (x y : N * N * V) : Prop :=
  x.1.1 < y.1.1 ∨ (x.1.1 = y.1.1 ∧ x.1.2 ≤ y.1.2).

#[global] Instance edge_key_le_dec {V : Type} : RelDecision (@edge_key_le V).
Proof. intros x y. unfold edge_key_le. apply _. Defined.

(** The entries of a [std::map] keyed by edge keys, by ascending key. *)
Definition ascending_edges {V : Type} (m : gmap (N * N) V)
  : list (N * N * V) :=
  merge_sort edge_key_le (map_to_list m).

(** ** Layer keys *)

Record LayerKey : Type := mkLayerKey {
  key_layer : LayerId;
  key_prefix : LayerPrefix;
  key_dynamic : bool
}.

#[global] Instance LayerKey_eq_dec : EqDecision LayerKey.
Proof. solve_decision. Defined.

(** Modelled from the spec: [LayerKey] and its operators are declared in a
    header, not in this source file.  "Equality ignores prefix when not
    dynamic." *)
Definition key_eqb (a b : LayerKey) : bool :=
  if negb (eqb (key_dynamic a) (key_dynamic b)) then false
  else if negb (key_dynamic a) then key_layer a =? key_layer b
  else (key_layer a =? key_layer b) && (key_prefix a =? key_prefix b).

(** The implicit conversions [LayerKey(LayerId)] and
    [LayerKey(LayerId, LayerPrefix)] used by [node_lookup_[id] = layer_id]
    and [node_lookup_[id] = {layer, prefix}]. *)
Definition static_key (l : LayerId) : LayerKey := mkLayerKey l 0 false.
Definition dynamic_key (l : LayerId) (p : LayerPrefix) : LayerKey :=
  mkLayerKey l p true.

(** The codec between node ids and (prefix, sequence index), and the layer
    hierarchy test, are consumed by the graph and declared elsewhere; the
    graph is parametrised by them. *)
Class LayerInterface : Type := {
  isParent : LayerKey → LayerKey → bool;
  makeId : LayerPrefix → N → NodeId;
  categoryId : NodeId → N
}.

(** ** Nodes and edges *)

Inductive Status : Type := Unchanged | New | Removed.

#[global] Instance Status_eq_dec : EqDecision Status.
Proof. solve_decision. Defined.

Record SceneGraphNode : Type := mkNode {
  node_id : NodeId;
  node_layer : LayerId;
  attributes_ : NodeAttributes;
  parent_ : option NodeId;
  children_ : gset N;
  siblings_ : gset N
}.

(** Modelled from the spec: the accessors of [SceneGraphNode] that the
    graph calls; a node has at most one parent, a set of children and a
    set of siblings. *)
Definition hasParent (n : SceneGraphNode) : bool :=
  match parent_ n with Some _ => true | None => false end.

Definition setParent (p : NodeId) (n : SceneGraphNode) : SceneGraphNode :=
  mkNode (node_id n) (node_layer n) (attributes_ n) (Some p)
         (children_ n) (siblings_ n).

Definition clearParent (n : SceneGraphNode) : SceneGraphNode :=
  mkNode (node_id n) (node_layer n) (attributes_ n) None
         (children_ n) (siblings_ n).

Definition with_children (f : gset N → gset N) (n : SceneGraphNode)
  : SceneGraphNode :=
  mkNode (node_id n) (node_layer n) (attributes_ n) (parent_ n)
         (f (children_ n)) (siblings_ n).

Definition with_siblings (f : gset N → gset N) (n : SceneGraphNode)
  : SceneGraphNode :=
  mkNode (node_id n) (node_layer n) (attributes_ n) (parent_ n)
         (children_ n) (f (siblings_ n)).

Definition with_attributes (a : NodeAttributes) (n : SceneGraphNode)
  : SceneGraphNode :=
  mkNode (node_id n) (node_layer n) a (parent_ n) (children_ n) (siblings_ n).

Record SceneGraphEdge : Type := mkEdge {
  edge_source : NodeId;
  edge_target : NodeId;
  edge_info : EdgeAttributes
}.

Record MeshEdge : Type := mkMeshEdge {
  source_node : NodeId;
  mesh_vertex : N
}.

#[global] Instance MeshEdge_eq_dec : EqDecision MeshEdge.
Proof. solve_decision. Defined.

(** ** Edge containers *)

(** Modelled from the spec: [EdgeContainer] is declared outside this
    source file.  It is "keyed by an unordered node-id pair" and tracks
    "newly-added and newly-removed entries". *)
Definition EdgeKey (s t : NodeId) : N * N := (N.min s t, N.max s t).

(** Modelled from the spec: the edges on file and their change markers. *)
Record EdgeContainer : Type := mkEdges {
  edges : gmap (N * N) SceneGraphEdge;
  edge_status : gmap (N * N) Status
}.

(** Modelled from the spec: the operations of [EdgeContainer] that the
    graph calls. *)
Module Edges.

Definition empty : EdgeContainer := mkEdges ∅ ∅.

Definition contains (c : EdgeContainer) (s t : NodeId) : bool :=
  bool_decide (is_Some (edges c !! EdgeKey s t)).

Definition get (c : EdgeContainer) (s t : NodeId) : option SceneGraphEdge :=
  edges c !! EdgeKey s t.

Definition insert (c : EdgeContainer) (s t : NodeId) (a : EdgeAttributes)
  : EdgeContainer :=
  mkEdges (<[EdgeKey s t := mkEdge s t a]> (edges c))
          (<[EdgeKey s t := New]> (edge_status c)).

Definition remove (c : EdgeContainer) (s t : NodeId) : EdgeContainer :=
  mkEdges (delete (EdgeKey s t) (edges c))
          (<[EdgeKey s t := Removed]> (edge_status c)).

Definition size (c : EdgeContainer) : N := N.of_nat (base.size (edges c)).

End Edges.

(** ** Layers *)

(** Modelled from the spec: the layer capability ([SceneGraphLayer],
    [DynamicSceneGraphLayer], their common base [BaseLayer]) is implemented
    outside this source file.  A layer "owns nodes and intra-layer edges
    for one abstraction level; exposes insert/emplace/remove/has/get for
    nodes and edges, merge-from-other-layer, and new/removed change
    queries".  The fields [nodes_], [nodes_status_], [edges_] and
    [next_node_] are the ones the graph reaches into. *)
Record SceneGraphLayer : Type := mkLayer {
  layer_id : LayerId;
  nodes_ : gmap N SceneGraphNode;
  nodes_status_ : gmap N Status;
  edges_ : EdgeContainer
}.

(** Modelled from the spec: a time-indexed layer; its nodes are stored by
    sequence index. *)
Record DynamicSceneGraphLayer : Type := mkDynLayer {
  dyn_id : LayerId;
  dyn_prefix : LayerPrefix;
  dyn_nodes_ : gmap N SceneGraphNode;
  dyn_status_ : gmap N Status;
  times_ : gset N;
  next_node_ : N;
  dyn_edges_ : EdgeContainer
}.

(** Modelled from the spec: removing a node from a layer drops the
    intra-layer edges that touch it. *)
Definition touches (n : NodeId) (k : N * N) : bool :=
  (k.1 =? n) || (k.2 =? n).

(** Modelled from the spec: the container without the edges of [n]. *)
Definition drop_edges_of (n : NodeId) (c : EdgeContainer) : EdgeContainer :=
  mkEdges (filter (λ kv, touches n kv.1 = false) (edges c))
          (((λ _, Removed) <$> filter (λ kv, touches n kv.1 = true) (edges c))
             ∪ edge_status c).

(** Modelled from the spec: the operations of [SceneGraphLayer]. *)
Module Layer.

Definition new (l : LayerId) : SceneGraphLayer := mkLayer l ∅ ∅ Edges.empty.

Definition hasNode (l : SceneGraphLayer) (n : NodeId) : bool :=
  bool_decide (is_Some (nodes_ l !! n)).

Definition insertNode (l : SceneGraphLayer) (node : SceneGraphNode)
  : bool * SceneGraphLayer :=
  if hasNode l (node_id node) then (false, l)
  else (true, mkLayer (layer_id l)
                      (<[node_id node := node]> (nodes_ l))
                      (<[node_id node := New]> (nodes_status_ l))
                      (edges_ l)).

Definition emplaceNode (l : SceneGraphLayer) (n : NodeId) (a : NodeAttributes)
  : bool * SceneGraphLayer :=
  insertNode l (mkNode n (layer_id l) a None ∅ ∅).

Definition removeNode (l : SceneGraphLayer) (n : NodeId)
  : bool * SceneGraphLayer :=
  if hasNode l n
  then (true, mkLayer (layer_id l)
                      (delete n (nodes_ l))
                      (<[n := Removed]> (nodes_status_ l))
                      (drop_edges_of n (edges_ l)))
  else (false, l).

Definition hasEdge (l : SceneGraphLayer) (s t : NodeId) : bool :=
  Edges.contains (edges_ l) s t.

Definition insertEdge (l : SceneGraphLayer) (s t : NodeId) (a : EdgeAttributes)
  : bool * SceneGraphLayer :=
  if hasEdge l s t then (false, l)
  else if hasNode l s && hasNode l t
  then (true, mkLayer (layer_id l) (nodes_ l) (nodes_status_ l)
                      (Edges.insert (edges_ l) s t a))
  else (false, l).

Definition removeEdge (l : SceneGraphLayer) (s t : NodeId)
  : bool * SceneGraphLayer :=
  if hasEdge l s t
  then (true, mkLayer (layer_id l) (nodes_ l) (nodes_status_ l)
                      (Edges.remove (edges_ l) s t))
  else (false, l).

Definition numNodes (l : SceneGraphLayer) : N := N.of_nat (size (nodes_ l)).

Definition numEdges (l : SceneGraphLayer) : N := Edges.size (edges_ l).

(** [getRemovedNodes(out, clear)]: appends the ids stamped removed. *)
Definition removedNodes (l : SceneGraphLayer) : list NodeId :=
  (ascending (filter (λ kv, kv.2 = Removed) (nodes_status_ l))).*1.

End Layer.

(** Modelled from the spec: the operations of [DynamicSceneGraphLayer]. *)
Module DynLayer.

Definition new (l : LayerId) (p : LayerPrefix) : DynamicSceneGraphLayer :=
  mkDynLayer l p ∅ ∅ ∅ 0 Edges.empty.

Section WithInterface.
Context `{LayerInterface}.

Definition hasNode (l : DynamicSceneGraphLayer) (n : NodeId) : bool :=
  bool_decide (is_Some (dyn_nodes_ l !! categoryId n)).

(** Modelled from the spec: time-indexed node creation.  The node takes
    the id made from the layer's prefix and [next_node_]; a timestamp
    already held by the layer is refused.  With [add_edge] the new node is
    linked to the previous one in sequence by an edge of this layer. *)
Definition emplaceNode (l : DynamicSceneGraphLayer) (time : N)
    (a : NodeAttributes) (add_edge : bool) : bool * DynamicSceneGraphLayer :=
  if bool_decide (time ∈ times_ l) then (false, l)
  else
    let idx := next_node_ l in
    let new_id := makeId (dyn_prefix l) idx in
    let linked :=
      add_edge && (0 <? idx)
      && bool_decide (is_Some (dyn_nodes_ l !! (idx - 1))) in
    (true, mkDynLayer (dyn_id l) (dyn_prefix l)
             (<[idx := mkNode new_id (dyn_id l) a None ∅ ∅]> (dyn_nodes_ l))
             (<[idx := New]> (dyn_status_ l))
             ({[time]} ∪ times_ l)
             (wrap (idx + 1))
             (if linked
              then Edges.insert (dyn_edges_ l)
                     (makeId (dyn_prefix l) (idx - 1)) new_id
                     default_edge_attributes
              else dyn_edges_ l)).

Definition removeNode (l : DynamicSceneGraphLayer) (n : NodeId)
  : bool * DynamicSceneGraphLayer :=
  if hasNode l n
  then (true, mkDynLayer (dyn_id l) (dyn_prefix l)
                (delete (categoryId n) (dyn_nodes_ l))
                (<[categoryId n := Removed]> (dyn_status_ l))
                (times_ l) (next_node_ l)
                (drop_edges_of n (dyn_edges_ l)))
  else (false, l).

Definition hasEdge (l : DynamicSceneGraphLayer) (s t : NodeId) : bool :=
  Edges.contains (dyn_edges_ l) s t.

Definition insertEdge (l : DynamicSceneGraphLayer) (s t : NodeId)
    (a : EdgeAttributes) : bool * DynamicSceneGraphLayer :=
  if hasEdge l s t then (false, l)
  else if hasNode l s && hasNode l t
  then (true, mkDynLayer (dyn_id l) (dyn_prefix l) (dyn_nodes_ l)
                (dyn_status_ l) (times_ l) (next_node_ l)
                (Edges.insert (dyn_edges_ l) s t a))
  else (false, l).

Definition removeEdge (l : DynamicSceneGraphLayer) (s t : NodeId)
  : bool * DynamicSceneGraphLayer :=
  if hasEdge l s t
  then (true, mkDynLayer (dyn_id l) (dyn_prefix l) (dyn_nodes_ l)
                (dyn_status_ l) (times_ l) (next_node_ l)
                (Edges.remove (dyn_edges_ l) s t))
  else (false, l).

End WithInterface.

Definition numNodes (l : DynamicSceneGraphLayer) : N :=
  N.of_nat (size (dyn_nodes_ l)).

Definition numEdges (l : DynamicSceneGraphLayer) : N :=
  Edges.size (dyn_edges_ l).

End DynLayer.

(** Modelled from the spec: the polymorphic base through which
    [layerFromKey] hands out a layer. *)
Inductive BaseLayer : Type :=
  | StaticLayer (l : SceneGraphLayer)
  | DynamicLayer (l : DynamicSceneGraphLayer).

(** Modelled from the spec: the virtual calls on [BaseLayer]. *)
Module Base.
Section WithInterface.
Context `{LayerInterface}.

Definition hasEdge (b : BaseLayer) (s t : NodeId) : bool :=
  match b with
  | StaticLayer l => Layer.hasEdge l s t
  | DynamicLayer l => DynLayer.hasEdge l s t
  end.

Definition insertEdge (b : BaseLayer) (s t : NodeId) (a : EdgeAttributes)
  : bool * BaseLayer :=
  match b with
  | StaticLayer l => prod_map id StaticLayer (Layer.insertEdge l s t a)
  | DynamicLayer l => prod_map id DynamicLayer (DynLayer.insertEdge l s t a)
  end.

Definition removeEdge (b : BaseLayer) (s t : NodeId) : bool * BaseLayer :=
  match b with
  | StaticLayer l => prod_map id StaticLayer (Layer.removeEdge l s t)
  | DynamicLayer l => prod_map id DynamicLayer (DynLayer.removeEdge l s t)
  end.

Definition removeNode (b : BaseLayer) (n : NodeId) : bool * BaseLayer :=
  match b with
  | StaticLayer l => prod_map id StaticLayer (Layer.removeNode l n)
  | DynamicLayer l => prod_map id DynamicLayer (DynLayer.removeNode l n)
  end.

End WithInterface.
End Base.

(** ** The graph *)

(** The mesh geometry is external; the graph consults only whether it is
    set and how many vertices it has. *)
Definition MeshVertices : Type := list (N * N * N).
Definition MeshFaces : Type := list (list N).

Definition vertex_count (v : MeshVertices) : N := N.of_nat (length v).

Record DynamicSceneGraph : Type := mkGraph {
  mesh_layer_id : LayerId;
  layer_ids : list LayerId;
  layers_ : gmap N SceneGraphLayer;
  dynamic_layers_ : gmap N (gmap N DynamicSceneGraphLayer);
  node_lookup_ : gmap N LayerKey;
  interlayer_edges_ : EdgeContainer;
  dynamic_interlayer_edges_ : EdgeContainer;
  mesh_vertices_ : option MeshVertices;
  mesh_faces_ : option MeshFaces;
  mesh_edges_ : gmap N MeshEdge;
  mesh_edges_node_lookup_ : gmap N (gmap N N);
  mesh_edges_vertex_lookup_ : gmap N (gmap N N);
  next_mesh_edge_idx_ : N
}.

Definition set_layers (x : gmap N SceneGraphLayer) (g : DynamicSceneGraph)
  : DynamicSceneGraph :=
  mkGraph (mesh_layer_id g) (layer_ids g) x (dynamic_layers_ g)
    (node_lookup_ g) (interlayer_edges_ g) (dynamic_interlayer_edges_ g)
    (mesh_vertices_ g) (mesh_faces_ g) (mesh_edges_ g)
    (mesh_edges_node_lookup_ g) (mesh_edges_vertex_lookup_ g)
    (next_mesh_edge_idx_ g).

Definition set_dynamic_layers (x : gmap N (gmap N DynamicSceneGraphLayer))
    (g : DynamicSceneGraph) : DynamicSceneGraph :=
  mkGraph (mesh_layer_id g) (layer_ids g) (layers_ g) x
    (node_lookup_ g) (interlayer_edges_ g) (dynamic_interlayer_edges_ g)
    (mesh_vertices_ g) (mesh_faces_ g) (mesh_edges_ g)
    (mesh_edges_node_lookup_ g) (mesh_edges_vertex_lookup_ g)
    (next_mesh_edge_idx_ g).

Definition set_node_lookup (x : gmap N LayerKey) (g : DynamicSceneGraph)
  : DynamicSceneGraph :=
  mkGraph (mesh_layer_id g) (layer_ids g) (layers_ g) (dynamic_layers_ g)
    x (interlayer_edges_ g) (dynamic_interlayer_edges_ g)
    (mesh_vertices_ g) (mesh_faces_ g) (mesh_edges_ g)
    (mesh_edges_node_lookup_ g) (mesh_edges_vertex_lookup_ g)
    (next_mesh_edge_idx_ g).

Definition set_interlayer_edges (x : EdgeContainer) (g : DynamicSceneGraph)
  : DynamicSceneGraph :=
  mkGraph (mesh_layer_id g) (layer_ids g) (layers_ g) (dynamic_layers_ g)
    (node_lookup_ g) x (dynamic_interlayer_edges_ g)
    (mesh_vertices_ g) (mesh_faces_ g) (mesh_edges_ g)
    (mesh_edges_node_lookup_ g) (mesh_edges_vertex_lookup_ g)
    (next_mesh_edge_idx_ g).

Definition set_dynamic_interlayer_edges (x : EdgeContainer)
    (g : DynamicSceneGraph) : DynamicSceneGraph :=
  mkGraph (mesh_layer_id g) (layer_ids g) (layers_ g) (dynamic_layers_ g)
    (node_lookup_ g) (interlayer_edges_ g) x
    (mesh_vertices_ g) (mesh_faces_ g) (mesh_edges_ g)
    (mesh_edges_node_lookup_ g) (mesh_edges_vertex_lookup_ g)
    (next_mesh_edge_idx_ g).

Definition set_mesh (v : option MeshVertices) (f : option MeshFaces)
    (g : DynamicSceneGraph) : DynamicSceneGraph :=
  mkGraph (mesh_layer_id g) (layer_ids g) (layers_ g) (dynamic_layers_ g)
    (node_lookup_ g) (interlayer_edges_ g) (dynamic_interlayer_edges_ g)
    v f (mesh_edges_ g)
    (mesh_edges_node_lookup_ g) (mesh_edges_vertex_lookup_ g)
    (next_mesh_edge_idx_ g).

Definition set_mesh_edges (e : gmap N MeshEdge) (by_node by_vertex : gmap N (gmap N N))
    (next : N) (g : DynamicSceneGraph) : DynamicSceneGraph :=
  mkGraph (mesh_layer_id g) (layer_ids g) (layers_ g) (dynamic_layers_ g)
    (node_lookup_ g) (interlayer_edges_ g) (dynamic_interlayer_edges_ g)
    (mesh_vertices_ g) (mesh_faces_ g) e by_node by_vertex next.

(** *** Mesh edges *)

Definition clearMeshEdges (g : DynamicSceneGraph) : DynamicSceneGraph :=
  set_mesh_edges ∅ ∅ ∅ (next_mesh_edge_idx_ g) g.

Definition hasNode (g : DynamicSceneGraph) (n : NodeId) : bool :=
  bool_decide (is_Some (node_lookup_ g !! n)).

Definition hasMesh (g : DynamicSceneGraph) : bool :=
  bool_decide (is_Some (mesh_vertices_ g))
  && bool_decide (is_Some (mesh_faces_ g)).

Definition hasMeshEdge (g : DynamicSceneGraph) (source : NodeId) (v : N)
  : bool :=
  match mesh_edges_node_lookup_ g !! source with
  | None => false
  | Some by_vertex => bool_decide (is_Some (by_vertex !! v))
  end.

(** [m[a][b] = x] on a map of maps: the inner map is created on demand. *)
Definition insert2 (a b x : N) (m : gmap N (gmap N N)) : gmap N (gmap N N) :=
  <[a := <[b := x]> (default ∅ (m !! a))]> m.

(** [m.at(a).erase(b); if (m.at(a).empty()) m.erase(a);] for an [a] that is
    known to be present. *)
Definition erase2 (a b : N) (inner : gmap N N) (m : gmap N (gmap N N))
  : gmap N (gmap N N) :=
  if decide (delete b inner = ∅) then delete a m
  else <[a := delete b inner]> m.

Definition insertMeshEdge (g : DynamicSceneGraph) (source : NodeId) (v : N)
    (allow_invalid_mesh : bool) : bool * DynamicSceneGraph :=
  if negb (hasNode g source) then (false, g)
  else if negb allow_invalid_mesh
          && match mesh_vertices_ g with
             | None => true
             | Some vs => vertex_count vs <=? v
             end
  then (false, g)
  else if hasMeshEdge g source v then (false, g)
  else
    let idx := next_mesh_edge_idx_ g in
    (true, set_mesh_edges
             (map_emplace idx (mkMeshEdge source v) (mesh_edges_ g))
             (insert2 source v idx (mesh_edges_node_lookup_ g))
             (insert2 v source idx (mesh_edges_vertex_lookup_ g))
             (wrap (idx + 1)) g).

Definition removeMeshEdge (g : DynamicSceneGraph) (source : NodeId) (v : N)
  : option (bool * DynamicSceneGraph) :=
  if negb (hasMeshEdge g source v) then Some (false, g)
  else
    by_vertex ← mesh_edges_node_lookup_ g !! source;
    idx ← by_vertex !! v;
    by_node ← mesh_edges_vertex_lookup_ g !! v;
    Some (true, set_mesh_edges
                  (delete idx (mesh_edges_ g))
                  (erase2 source v by_vertex (mesh_edges_node_lookup_ g))
                  (erase2 v source by_node (mesh_edges_vertex_lookup_ g))
                  (wrap (next_mesh_edge_idx_ g + 1)) g).

(** The body of the loops that call [removeMeshEdge] and drop its result. *)
Definition removeMeshEdge_ (g : DynamicSceneGraph) (e : N * N)
  : option DynamicSceneGraph :=
  snd <$> removeMeshEdge g e.1 e.2.

(** The first loop of [setMesh]: the edges of every vertex at or beyond
    [max_vertex], read from [mesh_edges_] through the by-vertex index. *)
Definition invalid_edges_of (g : DynamicSceneGraph) (max_vertex : N)
  : option (list MeshEdge) :=
  foldM (λ invalid_edges (vertex_map_pair : N * gmap N N),
           if vertex_map_pair.1 <? max_vertex then Some invalid_edges
           else foldM (λ invalid_edges' (node_edge_pair : N * N),
                         edge ← mesh_edges_ g !! node_edge_pair.2;
                         Some (invalid_edges' ++ [edge]))
                      (map_to_list vertex_map_pair.2) invalid_edges)
        (map_to_list (mesh_edges_vertex_lookup_ g)) [].

Definition setMesh (g : DynamicSceneGraph) (vertices : option MeshVertices)
    (faces : option MeshFaces) (invalidate_all_edges : bool)
  : option DynamicSceneGraph :=
  match vertices with
  | None => Some (clearMeshEdges (set_mesh None None g))
  | Some vs =>
      let g1 := set_mesh (Some vs) faces g in
      if invalidate_all_edges then Some (clearMeshEdges g1)
      else
        invalid_edges ← invalid_edges_of g1 (vertex_count vs);
        foldM (λ g' e, removeMeshEdge_ g' (source_node e, mesh_vertex e))
              invalid_edges g1
  end.

Definition invalidateMeshVertex (g : DynamicSceneGraph) (index : N)
  : option DynamicSceneGraph :=
  match mesh_edges_vertex_lookup_ g !! index with
  | None => Some g
  | Some by_node =>
      foldM (λ g' node, removeMeshEdge_ g' (node, index))
            (map_to_list by_node).*1 g
  end.

Definition getMeshConnectionIndices (g : DynamicSceneGraph) (node : NodeId)
  : list N :=
  match mesh_edges_node_lookup_ g !! node with
  | None => []
  | Some by_vertex => (ascending by_vertex).*1
  end.

(** *** Layers and counts *)

(** [hasLayer(LayerId)] *)
Definition hasLayer (g : DynamicSceneGraph) (l : LayerId) : bool :=
  if negb (l =? mesh_layer_id g)
  then bool_decide (is_Some (layers_ g !! l))
  else hasMesh g.

(** [hasLayer(LayerId, LayerPrefix)] *)
Definition hasDynamicLayer (g : DynamicSceneGraph) (l : LayerId)
    (p : LayerPrefix) : bool :=
  match dynamic_layers_ g !! l with
  | None => false
  | Some group => bool_decide (is_Some (group !! p))
  end.

(** [total += x] on [size_t]. *)
Definition add_size (x total : N) : N := wrap (total + x).

Definition numDynamicNodes (g : DynamicSceneGraph) : N :=
  foldl (λ total layer_group,
           foldl (λ total' prefix_layer_pair,
                    add_size (DynLayer.numNodes prefix_layer_pair.2) total')
                 total (map_to_list layer_group.2))
        0 (map_to_list (dynamic_layers_ g)).

Definition numNodes (g : DynamicSceneGraph) : N :=
  let total_nodes :=
    foldl (λ total id_layer_pair,
             add_size (Layer.numNodes id_layer_pair.2) total)
          0 (map_to_list (layers_ g)) in
  wrap (wrap (total_nodes + numDynamicNodes g)
        + match mesh_vertices_ g with
          | None => 0
          | Some vs => vertex_count vs
          end).

(** *** Construction *)

Definition clear (g : DynamicSceneGraph) : DynamicSceneGraph :=
  mkGraph (mesh_layer_id g) (layer_ids g)
    (foldl (λ layers id, <[id := Layer.new id]> layers) ∅ (layer_ids g))
    ∅ ∅ Edges.empty Edges.empty None None ∅ ∅ ∅ (next_mesh_edge_idx_ g).

(** The constructor; [None] is the [std::domain_error] it throws. *)
Definition construct (ids : list LayerId) (mesh_id : LayerId)
  : option DynamicSceneGraph :=
  if decide (ids = []) then None
  else if decide (mesh_id ∈ ids) then None
  else Some (clear (mkGraph mesh_id ids ∅ ∅ ∅ Edges.empty Edges.empty
                            None None ∅ ∅ ∅ 0)).

(** *** Access to layers and nodes *)

Definition getDynamicLayer (g : DynamicSceneGraph) (l : LayerId)
    (p : LayerPrefix) : option DynamicSceneGraphLayer :=
  group ← dynamic_layers_ g !! l; group !! p.

Definition putDynamicLayer (l : LayerId) (p : LayerPrefix)
    (x : DynamicSceneGraphLayer) (g : DynamicSceneGraph)
  : DynamicSceneGraph :=
  set_dynamic_layers
    (<[l := <[p := x]> (default ∅ (dynamic_layers_ g !! l))]>
       (dynamic_layers_ g)) g.

Definition putLayer (l : LayerId) (x : SceneGraphLayer)
    (g : DynamicSceneGraph) : DynamicSceneGraph :=
  set_layers (<[l := x]> (layers_ g)) g.

Definition layerFromKey (g : DynamicSceneGraph) (key : LayerKey)
  : option BaseLayer :=
  if key_dynamic key
  then DynamicLayer <$> getDynamicLayer g (key_layer key) (key_prefix key)
  else StaticLayer <$> layers_ g !! key_layer key.

(** The layer handed out by [layerFromKey] is mutated in place; here the
    mutated layer is written back under the key it was read from. *)
Definition storeLayer (key : LayerKey) (b : BaseLayer)
    (g : DynamicSceneGraph) : DynamicSceneGraph :=
  match b with
  | StaticLayer l => putLayer (key_layer key) l g
  | DynamicLayer l => putDynamicLayer (key_layer key) (key_prefix key) l g
  end.

Definition set_nodes (x : gmap N SceneGraphNode) (l : SceneGraphLayer)
  : SceneGraphLayer :=
  mkLayer (layer_id l) x (nodes_status_ l) (edges_ l).

Definition set_dyn_nodes (x : gmap N SceneGraphNode)
    (l : DynamicSceneGraphLayer) : DynamicSceneGraphLayer :=
  mkDynLayer (dyn_id l) (dyn_prefix l) x (dyn_status_ l) (times_ l)
             (next_node_ l) (dyn_edges_ l).

Section Graph.
Context `{LayerInterface}.

Definition getNodePtr (g : DynamicSceneGraph) (node : NodeId)
    (info : LayerKey) : option SceneGraphNode :=
  if key_dynamic info
  then l ← getDynamicLayer g (key_layer info) (key_prefix info);
       dyn_nodes_ l !! categoryId node
  else l ← layers_ g !! key_layer info;
       nodes_ l !! node.

(** A write through the pointer returned by [getNodePtr]. *)
Definition modifyNode (node : NodeId) (info : LayerKey)
    (f : SceneGraphNode → SceneGraphNode) (g : DynamicSceneGraph)
  : DynamicSceneGraph :=
  if key_dynamic info
  then set_dynamic_layers
         (alter (alter (λ l, set_dyn_nodes
                               (alter f (categoryId node) (dyn_nodes_ l)) l)
                       (key_prefix info))
                (key_layer info) (dynamic_layers_ g)) g
  else set_layers
         (alter (λ l, set_nodes (alter f node (nodes_ l)) l)
                (key_layer info) (layers_ g)) g.

(** *** Nodes *)

Definition createDynamicLayer (g : DynamicSceneGraph) (l : LayerId)
    (p : LayerPrefix) : bool * DynamicSceneGraph :=
  if hasDynamicLayer g l p then (false, g)
  else
    (true, set_dynamic_layers
             (<[l := map_emplace p (DynLayer.new l p)
                       (default ∅ (dynamic_layers_ g !! l))]>
                (dynamic_layers_ g)) g).

(** [emplaceNode(LayerId, NodeId, NodeAttributes::Ptr&&)] *)
Definition emplaceNode (g : DynamicSceneGraph) (l : LayerId) (n : NodeId)
    (attrs : NodeAttributes) : bool * DynamicSceneGraph :=
  match layers_ g !! l with
  | None => (false, g)
  | Some layer =>
      if hasNode g n then (false, g)
      else
        let '(successful, layer') := Layer.emplaceNode layer n attrs in
        let g' := putLayer l layer' g in
        (successful,
         if successful
         then set_node_lookup (<[n := static_key l]> (node_lookup_ g')) g'
         else g')
  end.

(** [emplaceNode(LayerId, LayerPrefix, nanoseconds, NodeAttributes::Ptr&&,
    bool)] *)
Definition emplaceDynamicNode (g : DynamicSceneGraph) (l : LayerId)
    (p : LayerPrefix) (time : N) (attrs : NodeAttributes) (add_edge : bool)
  : option (bool * DynamicSceneGraph) :=
  let has_layer := hasDynamicLayer g l p in
  new_node_id ←
    (if has_layer
     then layer ← getDynamicLayer g l p; Some (makeId p (next_node_ layer))
     else Some (makeId p 0));
  if hasNode g new_node_id then Some (false, g)
  else
    let g1 := if has_layer then g else (createDynamicLayer g l p).2 in
    layer ← getDynamicLayer g1 l p;
    let '(ok, layer') := DynLayer.emplaceNode layer time attrs add_edge in
    let g2 := putDynamicLayer l p layer' g1 in
    if ok
    then Some (true, set_node_lookup
                       (<[new_node_id := dynamic_key l p]> (node_lookup_ g2))
                       g2)
    else Some (false, g2).

(** [insertNode]; the argument is [None] for a null pointer.  When the
    node's layer is the mesh layer and a mesh is set, [hasLayer] lets the
    call through to a layer that does not exist. *)
Definition insertNode (g : DynamicSceneGraph) (node : option SceneGraphNode)
  : option (bool * DynamicSceneGraph) :=
  match node with
  | None => Some (false, g)
  | Some node =>
      if hasNode g (node_id node) then Some (false, g)
      else if negb (hasLayer g (node_layer node)) then Some (false, g)
      else
        layer ← layers_ g !! node_layer node;
        let '(successful, layer') := Layer.insertNode layer node in
        let g' := putLayer (node_layer node) layer' g in
        Some (successful,
              if successful
              then set_node_lookup
                     (<[node_id node := static_key (node_layer node)]>
                        (node_lookup_ g')) g'
              else g')
  end.

(** *** Ancestry *)

Definition addAncestry (g : DynamicSceneGraph) (source target : NodeId)
    (source_key target_key : LayerKey) : option (bool * DynamicSceneGraph) :=
  source_node ← getNodePtr g source source_key;
  target_node ← getNodePtr g target target_key;
  if isParent source_key target_key then
    if hasParent target_node then Some (false, g)
    else Some (true,
               modifyNode target target_key (setParent source)
                 (modifyNode source source_key
                    (with_children (λ c, {[target]} ∪ c)) g))
  else if isParent target_key source_key then
    if hasParent source_node then Some (false, g)
    else Some (true,
               modifyNode source source_key (setParent target)
                 (modifyNode target target_key
                    (with_children (λ c, {[source]} ∪ c)) g))
  else
    Some (true,
          modifyNode target target_key (with_siblings (λ c, {[source]} ∪ c))
            (modifyNode source source_key
               (with_siblings (λ c, {[target]} ∪ c)) g)).

Definition removeAncestry (g : DynamicSceneGraph) (source target : NodeId)
    (source_key target_key : LayerKey) : option DynamicSceneGraph :=
  _ ← getNodePtr g source source_key;
  _ ← getNodePtr g target target_key;
  if isParent source_key target_key then
    Some (modifyNode target target_key clearParent
            (modifyNode source source_key
               (with_children (λ c, c ∖ {[target]})) g))
  else if isParent target_key source_key then
    Some (modifyNode source source_key clearParent
            (modifyNode target target_key
               (with_children (λ c, c ∖ {[source]})) g))
  else
    Some (modifyNode target target_key (with_siblings (λ c, c ∖ {[source]}))
            (modifyNode source source_key
               (with_siblings (λ c, c ∖ {[target]})) g)).

(** *** Edges *)

(** [hasEdge] with its two out-parameters: they are written together, once
    both endpoints are found, and are [None] (left default-constructed,
    i.e. invalid) otherwise. *)
Definition hasEdge (g : DynamicSceneGraph) (source target : NodeId)
  : option (bool * option (LayerKey * LayerKey)) :=
  match node_lookup_ g !! source with
  | None => Some (false, None)
  | Some source_key =>
      match node_lookup_ g !! target with
      | None => Some (false, None)
      | Some target_key =>
          if key_eqb source_key target_key then
            layer ← layerFromKey g source_key;
            Some (Base.hasEdge layer source target,
                  Some (source_key, target_key))
          else if key_dynamic source_key || key_dynamic target_key then
            Some (Edges.contains (dynamic_interlayer_edges_ g) source target,
                  Some (source_key, target_key))
          else
            Some (Edges.contains (interlayer_edges_ g) source target,
                  Some (source_key, target_key))
      end
  end.

Definition insertEdge (g : DynamicSceneGraph) (source target : NodeId)
    (edge_info : option EdgeAttributes)
  : option (bool * DynamicSceneGraph) :=
  '(has, keys) ← hasEdge g source target;
  if (has : bool) then Some (false, g)
  else
    match keys with
    | None => Some (false, g)
    | Some (source_key, target_key) =>
        let attrs := default default_edge_attributes edge_info in
        if key_eqb source_key target_key then
          layer ← layerFromKey g source_key;
          let '(ok, layer') := Base.insertEdge layer source target attrs in
          Some (ok, storeLayer source_key layer' g)
        else
          '(ok, g1) ← addAncestry g source target source_key target_key;
          if negb ok then Some (false, g1)
          else if key_dynamic source_key || key_dynamic target_key then
            Some (true,
                  set_dynamic_interlayer_edges
                    (Edges.insert (dynamic_interlayer_edges_ g1)
                                  source target attrs) g1)
          else
            Some (true,
                  set_interlayer_edges
                    (Edges.insert (interlayer_edges_ g1) source target attrs)
                    g1)
    end.

Definition removeInterlayerEdge (g : DynamicSceneGraph)
    (source target : NodeId) (source_key target_key : LayerKey)
  : option DynamicSceneGraph :=
  g1 ← removeAncestry g source target source_key target_key;
  if key_dynamic source_key || key_dynamic target_key then
    Some (set_dynamic_interlayer_edges
            (Edges.remove (dynamic_interlayer_edges_ g1) source target) g1)
  else
    Some (set_interlayer_edges
            (Edges.remove (interlayer_edges_ g1) source target) g1).

(** Modelled from the spec: the two-argument overload
    [removeInterlayerEdge(source, target)] that [removeNode] calls is
    defined in the class header; it "removes any parent edge and all child
    edges (via 4.3)", that is, it resolves the two keys through the node
    index and removes the interlayer edge. *)
Definition removeInterlayerEdge2 (g : DynamicSceneGraph)
    (source target : NodeId) : option DynamicSceneGraph :=
  source_key ← node_lookup_ g !! source;
  target_key ← node_lookup_ g !! target;
  removeInterlayerEdge g source target source_key target_key.

Definition removeEdge (g : DynamicSceneGraph) (source target : NodeId)
  : option (bool * DynamicSceneGraph) :=
  '(has, keys) ← hasEdge g source target;
  if negb has then Some (false, g)
  else
    match keys with
    | None => Some (false, g)
    | Some (source_key, target_key) =>
        if key_eqb source_key target_key then
          layer ← layerFromKey g source_key;
          let '(ok, layer') := Base.removeEdge layer source target in
          Some (ok, storeLayer source_key layer' g)
        else
          g1 ← removeInterlayerEdge g source target source_key target_key;
          Some (true, g1)
    end.

Definition take_edge (c : EdgeContainer) (source target : NodeId)
  : option (EdgeAttributes * EdgeContainer) :=
  edge ← Edges.get c source target;
  Some (clone (edge_info edge), Edges.remove c source target).

Definition rewireInterlayerEdge (g : DynamicSceneGraph)
    (source target new_source new_target : NodeId)
  : option DynamicSceneGraph :=
  if (source =? new_source) && (target =? new_target) then Some g
  else
    source_key ← node_lookup_ g !! source;
    target_key ← node_lookup_ g !! target;
    '(has, new_keys) ← hasEdge g new_source new_target;
    if (has : bool) then
      removeInterlayerEdge g source target source_key target_key
    else
      g1 ← removeAncestry g source target source_key target_key;
      '(new_source_key, new_target_key) ← new_keys;
      '(_, g2) ← addAncestry g1 new_source new_target
                   new_source_key new_target_key;
      '(attrs, g3) ←
        (if key_dynamic source_key || key_dynamic target_key then
           '(a, c) ← take_edge (dynamic_interlayer_edges_ g2) source target;
           Some (a, set_dynamic_interlayer_edges c g2)
         else
           '(a, c) ← take_edge (interlayer_edges_ g2) source target;
           Some (a, set_interlayer_edges c g2));
      if key_dynamic new_source_key || key_dynamic target_key then
        Some (set_dynamic_interlayer_edges
                (Edges.insert (dynamic_interlayer_edges_ g3)
                              new_source new_target attrs) g3)
      else
        Some (set_interlayer_edges
                (Edges.insert (interlayer_edges_ g3)
                              new_source new_target attrs) g3).

Definition removeNode (g : DynamicSceneGraph) (n : NodeId)
  : option (bool * DynamicSceneGraph) :=
  match node_lookup_ g !! n with
  | None => Some (false, g)
  | Some info =>
      g1 ← match mesh_edges_node_lookup_ g !! n with
           | None => Some g
           | Some by_vertex =>
               foldM (λ g' vertex, removeMeshEdge_ g' (n, vertex))
                     (map_to_list by_vertex).*1 g
           end;
      node ← getNodePtr g1 n info;
      g2 ← match parent_ node with
           | Some parent => removeInterlayerEdge2 g1 n parent
           | None => Some g1
           end;
      node' ← getNodePtr g2 n info;
      g3 ← foldM (λ g' target, removeInterlayerEdge2 g' n target)
                 (elements (children_ node')) g2;
      layer ← layerFromKey g3 info;
      let g4 := storeLayer info (Base.removeNode layer n).2 g3 in
      Some (true, set_node_lookup (delete n (node_lookup_ g4)) g4)
  end.

End Graph.

(** *** Merging *)

(** Modelled from the spec: [mergeLayer] of the static and of the dynamic
    layer is implemented outside this source file.  It has the
    signature [mergeLayer(other, &global_index, update_attrs) -> void] and
    merges "node-by-node": a node of [other] that the layer already has
    gets its attributes overwritten when [update_attrs] is set and is
    otherwise left alone; a node the layer does not have yet is added with
    a copy of the attributes, stamped new, and registered in the global
    index under the key of this layer. *)
Definition refresh (update : bool) (theirs : gmap N SceneGraphNode)
    (n : N) (mine : SceneGraphNode) : option SceneGraphNode :=
  Some (if update
        then match theirs !! n with
             | Some node => with_attributes (attributes_ node) mine
             | None => mine
             end
        else mine).

(** Modelled from the spec: [SceneGraphLayer::mergeLayer]. *)
Definition Layer_mergeLayer (l other : SceneGraphLayer)
    (global_index : gmap N LayerKey) (update_attrs : bool)
  : SceneGraphLayer * gmap N LayerKey :=
  let fresh := nodes_ other ∖ nodes_ l in
  (mkLayer (layer_id l)
     (map_imap (λ n node,
                  Some (mkNode n (layer_id l) (attributes_ node) None ∅ ∅))
               fresh
      ∪ map_imap (refresh update_attrs (nodes_ other)) (nodes_ l))
     (((λ _, New) <$> fresh) ∪ nodes_status_ l)
     (edges_ l),
   ((λ _, static_key (layer_id l)) <$> fresh) ∪ global_index).

Section MergeDynamic.
Context `{LayerInterface}.

(** Modelled from the spec: [DynamicSceneGraphLayer::mergeLayer]; the new
    nodes are registered under the ids made from this layer's prefix. *)
Definition DynLayer_mergeLayer (l other : DynamicSceneGraphLayer)
    (global_index : gmap N LayerKey) (update_attrs : bool)
  : DynamicSceneGraphLayer * gmap N LayerKey :=
  let fresh := dyn_nodes_ other ∖ dyn_nodes_ l in
  (mkDynLayer (dyn_id l) (dyn_prefix l)
     (map_imap (λ idx node,
                  Some (mkNode (makeId (dyn_prefix l) idx) (dyn_id l)
                               (attributes_ node) None ∅ ∅))
               fresh
      ∪ map_imap (refresh update_attrs (dyn_nodes_ other)) (dyn_nodes_ l))
     (((λ _, New) <$> fresh) ∪ dyn_status_ l)
     (times_ other ∪ times_ l)
     (N.max (next_node_ l) (next_node_ other))
     (dyn_edges_ l),
   list_to_map ((λ kv, (makeId (dyn_prefix l) kv.1,
                        dynamic_key (dyn_id l) (dyn_prefix l)))
                  <$> map_to_list fresh)
   ∪ global_index).

(** The first loop of [mergeGraph], over the dynamic layers of [other]. *)
Definition mergeDynamicLayer (update_dynamic : bool) (l : LayerId)
    (g : DynamicSceneGraph) (prefix_layer : N * DynamicSceneGraphLayer)
  : option DynamicSceneGraph :=
  let p := prefix_layer.1 in
  let g1 := if hasDynamicLayer g l p then g
            else (createDynamicLayer g l p).2 in
  mine ← getDynamicLayer g1 l p;
  let '(mine', index') :=
    DynLayer_mergeLayer mine prefix_layer.2 (node_lookup_ g1)
                        update_dynamic in
  Some (set_node_lookup index' (putDynamicLayer l p mine' g1)).

Definition mergeDynamicLayers (g other : DynamicSceneGraph)
    (update_dynamic : bool) : option DynamicSceneGraph :=
  foldM (λ g' (id_layers : N * gmap N DynamicSceneGraphLayer),
           foldM (mergeDynamicLayer update_dynamic id_layers.1)
                 (ascending id_layers.2) g')
        (ascending (dynamic_layers_ other)) g.

(** The second loop, over the static layers of [other]; it also collects
    the nodes [other] reports as removed.  [layers_[layer]] on a layer
    that [hasLayer] reports (the mesh layer with a mesh set) but that is
    not in [layers_] dereferences a null pointer. *)
Definition mergeStaticLayer (update_map : option (gmap N bool))
    (st : DynamicSceneGraph * list NodeId) (id_layer : N * SceneGraphLayer)
  : option (DynamicSceneGraph * list NodeId) :=
  let '(g, removed_nodes) := st in
  let l := id_layer.1 in
  if negb (hasLayer g l) then Some (g, removed_nodes)
  else
    let update :=
      match update_map with
      | Some m => default true (m !! l)
      | None => true
      end in
    mine ← layers_ g !! l;
    let '(mine', index') :=
      Layer_mergeLayer mine id_layer.2 (node_lookup_ g) update in
    Some (set_node_lookup index' (putLayer l mine' g),
          removed_nodes ++ Layer.removedNodes id_layer.2).

Definition removeNode_ (g : DynamicSceneGraph) (n : NodeId)
  : option DynamicSceneGraph :=
  snd <$> removeNode g n.

Definition insertEdge_ (g : DynamicSceneGraph) (edge : SceneGraphEdge)
  : option DynamicSceneGraph :=
  snd <$> insertEdge g (edge_source edge) (edge_target edge)
            (Some (clone (edge_info edge))).

Definition insertMeshEdge_ (allow_invalid_mesh : bool)
    (g : DynamicSceneGraph) (edge : MeshEdge) : DynamicSceneGraph :=
  (insertMeshEdge g (source_node edge) (mesh_vertex edge)
                  allow_invalid_mesh).2.

Definition mergeGraph (g other : DynamicSceneGraph)
    (allow_invalid_mesh clear_mesh_edges : bool)
    (update_map : option (gmap N bool)) (update_dynamic : bool)
  : option (bool * DynamicSceneGraph) :=
  g1 ← mergeDynamicLayers g other update_dynamic;
  '(g2, removed_nodes) ←
    foldM (mergeStaticLayer update_map) (ascending (layers_ other))
          (g1, []);
  g3 ← foldM removeNode_ removed_nodes g2;
  g4 ← foldM insertEdge_
             (ascending_edges (edges (interlayer_edges_ other))).*2 g3;
  g5 ← foldM insertEdge_
             (ascending_edges (edges (dynamic_interlayer_edges_ other))).*2
             g4;
  let g6 := if clear_mesh_edges then clearMeshEdges g5 else g5 in
  Some (true,
        foldl (insertMeshEdge_ allow_invalid_mesh) g6
              (ascending (mesh_edges_ other)).*2).

End MergeDynamic.

(** ** Specification-side definitions *)

(** The id under which the mesh edge [(source, v)] is filed, if any. *)
Definition meshEdgeId (g : DynamicSceneGraph) (source : NodeId) (v : N)
  : option N :=
  by_vertex ← mesh_edges_node_lookup_ g !! source; by_vertex !! v.

Definition meshEdgeId_by_vertex (g : DynamicSceneGraph) (source : NodeId)
    (v : N) : option N :=
  by_node ← mesh_edges_vertex_lookup_ g !! v; by_node !! source.

(** The three mesh-edge tables describe the same edges: the by-node and
    by-vertex indices file every edge under the same id, and that id leads
    to the edge in [mesh_edges_] and back. *)
Definition mesh_consistent (g : DynamicSceneGraph) : Prop :=
  map_Forall (λ n by_vertex,
      map_Forall (λ v i,
          mesh_edges_ g !! i = Some (mkMeshEdge n v)
          ∧ meshEdgeId_by_vertex g n v = Some i) by_vertex)
    (mesh_edges_node_lookup_ g)
  ∧ map_Forall (λ v by_node,
      map_Forall (λ n i, meshEdgeId g n v = Some i) by_node)
    (mesh_edges_vertex_lookup_ g)
  ∧ map_Forall (λ i e,
      meshEdgeId g (source_node e) (mesh_vertex e) = Some i)
    (mesh_edges_ g).

#[global] Instance mesh_consistent_dec (g : DynamicSceneGraph) :
  Decision (mesh_consistent g).
Proof. unfold mesh_consistent. apply _. Defined.

(** Sequences of calls to the two mesh-edge mutators.  Running a sequence
    records, for every [insertMeshEdge] that returned true, the counter
    before the call, the id found in the table after it, and the counter
    after it. *)
Inductive MeshOp : Type :=
  | OpInsert (source : NodeId) (v : N) (allow_invalid_mesh : bool)
  | OpRemove (source : NodeId) (v : N).

Fixpoint run_mesh_ops (ops : list MeshOp) (g : DynamicSceneGraph)
  : option (list (N * option N * N) * DynamicSceneGraph) :=
  match ops with
  | [] => Some ([], g)
  | OpInsert s v a :: ops' =>
      let '(ok, g1) := insertMeshEdge g s v a in
      '(log, g2) ← run_mesh_ops ops' g1;
      Some (if (ok : bool)
            then (next_mesh_edge_idx_ g, meshEdgeId g1 s v,
                  next_mesh_edge_idx_ g1) :: log
            else log, g2)
  | OpRemove s v :: ops' =>
      '(_, g1) ← removeMeshEdge g s v;
      run_mesh_ops ops' g1
  end.

Definition assigned_ids (log : list (N * option N * N)) : list N :=
  omap (λ e, e.1.2) log.

(** Plain sums, without wrap-around. *)
Definition sumN (l : list N) : N := foldr N.add 0 l.

Definition static_node_count (g : DynamicSceneGraph) : N :=
  sumN ((λ p, Layer.numNodes p.2) <$> map_to_list (layers_ g)).

Definition dynamic_node_count (g : DynamicSceneGraph) : N :=
  sumN ((λ group, sumN ((λ p, DynLayer.numNodes p.2)
                          <$> map_to_list group.2))
          <$> map_to_list (dynamic_layers_ g)).

Definition mesh_vertex_count (g : DynamicSceneGraph) : N :=
  match mesh_vertices_ g with
  | None => 0
  | Some vs => vertex_count vs
  end.

(** *** Well-formed inputs of a merge *)

Section MergeInputs.
Context `{LayerInterface}.

(** Every dynamic layer is filed under its own prefix. *)
Definition prefixes_agree (g : DynamicSceneGraph) : Prop :=
  map_Forall (λ _ group, map_Forall (λ p d, dyn_prefix d = p) group)
             (dynamic_layers_ g).

(** Every node of a layer is in the node index. *)
Definition index_covers_nodes (o : DynamicSceneGraph) : Prop :=
  map_Forall (λ _ lo,
      map_Forall (λ n _, is_Some (node_lookup_ o !! n)) (nodes_ lo))
    (layers_ o)
  ∧ map_Forall (λ _ group,
      map_Forall (λ p d,
          map_Forall (λ idx _, is_Some (node_lookup_ o !! makeId p idx))
                     (dyn_nodes_ d)) group)
    (dynamic_layers_ o).

(** The nodes the static layers report as removed. *)
Definition removed_nodes_of (o : DynamicSceneGraph) : list NodeId :=
  (map_to_list (layers_ o)).*2 ≫= Layer.removedNodes.

(** A node reported as removed is no longer in the node index. *)
Definition removed_not_indexed (o : DynamicSceneGraph) : Prop :=
  Forall (λ R, node_lookup_ o !! R = None) (removed_nodes_of o).

(** The nodes that [o] reports as removed are not dynamic nodes of [g]. *)
Definition removed_not_dynamic (g o : DynamicSceneGraph) : Prop :=
  Forall (λ R, key_dynamic <$> node_lookup_ g !! R ≠ Some true)
         (removed_nodes_of o).

Definition merge_inputs_ok (g o : DynamicSceneGraph) : Prop :=
  prefixes_agree g ∧ index_covers_nodes o ∧ removed_not_indexed o
  ∧ removed_not_dynamic g o.

#[global] Instance merge_inputs_ok_dec (g o : DynamicSceneGraph) :
  Decision (merge_inputs_ok g o).
Proof.
  unfold merge_inputs_ok, prefixes_agree, index_covers_nodes,
    removed_not_indexed, removed_not_dynamic.
  apply _.
Defined.

End MergeInputs.

(** ** A concrete interface for running examples *)

(** Modelled from the spec: [LayerKey::isParent], [LayerPrefix::makeId] and
    [NodeSymbol::categoryId] are declared outside this source file.  For
    [isParent], "only layer id ordering matters for classification"
    (finer layers are children of coarser ones).  The spec fixes no layout
    for the codec; the examples put the prefix in the top byte of the
    64-bit id and the sequence index in the low 56 bits. *)
Definition layer_order (self other : LayerKey) : bool :=
  key_layer other <? key_layer self.

(** Modelled from the spec: prefix in the top byte, index below. *)
Definition symbol_makeId (p : LayerPrefix) (index : N) : NodeId :=
  N.lor (N.shiftl p 56) index.

(** Modelled from the spec: the sequence index of an id. *)
Definition symbol_categoryId (n : NodeId) : N := N.land n (2 ^ 56 - 1).

Definition symbols : LayerInterface :=
  {| isParent := layer_order;
     makeId := symbol_makeId;
     categoryId := symbol_categoryId |}.

(** ** Example graphs

    A graph with two static layers (objects: 2, places: 3) and mesh layer
    1; an object node 10, a place node 20, and agent nodes in a dynamic
    layer with layer id 2 and prefix 97 (the letter a). *)
Module Example.

#[local] Existing Instance symbols.

Definition scene : DynamicSceneGraph :=
  clear (mkGraph 1 [2; 3] ∅ ∅ ∅ Edges.empty Edges.empty None None ∅ ∅ ∅ 0).

Definition object1 : NodeId := 10.
Definition object2 : NodeId := 11.
Definition place1 : NodeId := 20.
Definition place2 : NodeId := 21.
Definition agent0 : NodeId := symbol_makeId 97 0.
Definition agent1 : NodeId := symbol_makeId 97 1.

(** Runs a step that may throw; a throw leaves the graph as it was (used
    only to name the intermediate graphs of the examples, none of which
    throws). *)
Definition after (g : DynamicSceneGraph)
    (r : option (bool * DynamicSceneGraph)) : DynamicSceneGraph :=
  match r with Some (_, g') => g' | None => g end.

Definition with_objects : DynamicSceneGraph :=
  (emplaceNode (emplaceNode scene 2 object1 0).2 2 object2 0).2.

Definition with_places : DynamicSceneGraph :=
  (emplaceNode (emplaceNode with_objects 3 place1 0).2 3 place2 0).2.

Definition with_agent : DynamicSceneGraph :=
  after with_places (emplaceDynamicNode with_places 2 97 0 0 false).

Definition triangle : MeshVertices := [(0, 0, 0); (1, 0, 0); (0, 1, 0)].

Definition with_mesh : DynamicSceneGraph :=
  default with_agent (setMesh with_agent (Some triangle) (Some [[0; 1; 2]]) true).

(** Three mesh edges of [object1], to vertices 0, 2 and 7 (the last one
    out of range, let in by [allow_invalid_mesh]). *)
Definition with_mesh_edges : DynamicSceneGraph :=
  (insertMeshEdge
     (insertMeshEdge (insertMeshEdge with_mesh object1 0 false).2
                     object1 7 true).2
     object1 2 false).2.

(** [place1] becomes the parent of [object1]. *)
Definition with_parent : DynamicSceneGraph :=
  after with_agent (insertEdge with_agent place1 object1 None).

(** [object1] (static layer 2) and [agent0] (dynamic layer 2) are joined by
    an interlayer edge; neither layer is the parent of the other, so the
    two nodes become siblings. *)
Definition with_sibling : DynamicSceneGraph :=
  after with_agent (insertEdge with_agent object1 agent0 None).

(** The agent node is removed and its id is reused for an object. *)
Definition agent_removed : DynamicSceneGraph :=
  after with_sibling (removeNode with_sibling agent0).

Definition id_reused : DynamicSceneGraph :=
  (emplaceNode agent_removed 2 agent0 0).2.

(** A graph to merge from: it has lost [object2], has the parent edge from
    [place1] to [object1], the sibling edge between [object1] and
    [agent0], and a mesh edge of [object1]; and a graph to merge into,
    which still has [object2]. *)
Definition merge_other : DynamicSceneGraph :=
  let g := after with_parent (insertEdge with_parent object1 agent0 None) in
  (insertMeshEdge (after g (removeNode g object2)) object1 5 true).2.

Definition merge_target : DynamicSceneGraph :=
  (emplaceNode scene 2 object2 7).2.

(** Both objects get a parent; the parent edge of [object1] is then rewired
    to [object2], the call that [mergeNodes(object1, object2)] makes for
    the parent of [object1]; last the edge from [place2] to [object2] is
    removed, which leaves [object2] without a parent. *)
Definition two_parents : DynamicSceneGraph :=
  after with_parent (insertEdge with_parent place2 object2 None).

Definition parent_rewired : DynamicSceneGraph :=
  default two_parents
    (rewireInterlayerEdge two_parents object1 place1 object2 place1).

Definition parent_lost : DynamicSceneGraph :=
  after parent_rewired (removeEdge parent_rewired place2 object2).

Definition mesh_ops : list MeshOp :=
  [OpInsert object1 1 false; OpRemove object1 1; OpInsert object1 1 false;
   OpInsert object2 1 false].

End Example.

(** ** Relations between graphs

    The relations below compare the graph before and after a mutator.
    They are what the theorems about merging are stated and proved
    with. *)

Section Relations.
Context `{LayerInterface}.

(** Only the mesh-edge tables (and the counter) differ between two
    graphs. *)
Definition mesh_edges_only (g g' : DynamicSceneGraph) : Prop :=
  g' = set_mesh_edges (mesh_edges_ g') (mesh_edges_node_lookup_ g')
         (mesh_edges_vertex_lookup_ g') (next_mesh_edge_idx_ g') g.


(** The interlayer container an edge between keys [ks] and [kt] goes to. *)
Definition interlayer_container (ks kt : LayerKey) (g : DynamicSceneGraph)
  : EdgeContainer :=
  if key_dynamic ks || key_dynamic kt
  then dynamic_interlayer_edges_ g
  else interlayer_edges_ g.


(** [ext S S'] says that [S'] has the node index of [S], has every layer
    and every node of [S] (and no further node in those layers), that a
    node with a parent in [S] has a parent in [S'], and that every edge
    on file in [S] is on file in [S'].  Attributes, change markers and the
    mesh tables are free to differ. *)
Definition node_ext (node node' : SceneGraphNode) : Prop :=
  is_Some (parent_ node) → is_Some (parent_ node').

Definition nodes_ext (m m' : gmap N SceneGraphNode) : Prop :=
  ∀ n, option_Forall2 node_ext (m !! n) (m' !! n).

Definition edges_sub (c c' : EdgeContainer) : Prop :=
  ∀ k, is_Some (edges c !! k) → is_Some (edges c' !! k).

Definition layer_ext (l l' : SceneGraphLayer) : Prop :=
  nodes_ext (nodes_ l) (nodes_ l') ∧ edges_sub (edges_ l) (edges_ l').

Definition dyn_ext (d d' : DynamicSceneGraphLayer) : Prop :=
  nodes_ext (dyn_nodes_ d) (dyn_nodes_ d')
  ∧ edges_sub (dyn_edges_ d) (dyn_edges_ d').

Record ext (S S' : DynamicSceneGraph) : Prop := mkExt {
  ext_lookup : node_lookup_ S' = node_lookup_ S;
  ext_static : ∀ L l, layers_ S !! L = Some l →
               ∃ l', layers_ S' !! L = Some l' ∧ layer_ext l l';
  ext_dynamic : ∀ l p d, getDynamicLayer S l p = Some d →
                ∃ d', getDynamicLayer S' l p = Some d' ∧ dyn_ext d d';
  ext_interlayer : edges_sub (interlayer_edges_ S) (interlayer_edges_ S');
  ext_dynamic_interlayer :
    edges_sub (dynamic_interlayer_edges_ S) (dynamic_interlayer_edges_ S')
}.


(** The two layers behind a key, before and after. *)
Inductive base_ext : BaseLayer → BaseLayer → Prop :=
  | base_ext_static l l' :
      layer_ext l l' → base_ext (StaticLayer l) (StaticLayer l')
  | base_ext_dynamic d d' :
      dyn_ext d d' → base_ext (DynamicLayer d) (DynamicLayer d').


(** [same_nodes S S'] says that [S'] has the node index, the mesh, the
    layer set and, layer by layer, the node set of [S]. *)
Record same_nodes (S S' : DynamicSceneGraph) : Prop := mkSameNodes {
  sn_lookup : node_lookup_ S' = node_lookup_ S;
  sn_mesh_layer : mesh_layer_id S' = mesh_layer_id S;
  sn_vertices : mesh_vertices_ S' = mesh_vertices_ S;
  sn_faces : mesh_faces_ S' = mesh_faces_ S;
  sn_layers : dom (layers_ S') = dom (layers_ S);
  sn_static : ∀ L l, layers_ S !! L = Some l →
              ∃ l', layers_ S' !! L = Some l'
                    ∧ dom (nodes_ l') = dom (nodes_ l);
  sn_dynamic : ∀ l p d, getDynamicLayer S l p = Some d →
               ∃ d', getDynamicLayer S' l p = Some d'
                     ∧ dom (dyn_nodes_ d') = dom (dyn_nodes_ d)
                     ∧ dyn_prefix d' = dyn_prefix d
}.


(** The condition under which [insertMeshEdge] goes on to look the edge
    up. *)
Definition mesh_valid (S : DynamicSceneGraph) (allow_invalid_mesh : bool)
    (e : MeshEdge) : bool :=
  hasNode S (source_node e)
  && (allow_invalid_mesh
      || match mesh_vertices_ S with
         | None => false
         | Some vs => mesh_vertex e <? vertex_count vs
         end).


(** The layers of [S] hold every node of the corresponding layers of
    [o]. *)
Definition covers_static (o S : DynamicSceneGraph) : Prop :=
  ∀ L lo, layers_ o !! L = Some lo → hasLayer S L = true →
          ∃ l, layers_ S !! L = Some l
               ∧ ∀ n, is_Some (nodes_ lo !! n) → is_Some (nodes_ l !! n).

Definition covers_dynamic (o S : DynamicSceneGraph) : Prop :=
  ∀ l p dlo, getDynamicLayer o l p = Some dlo →
             ∃ d, getDynamicLayer S l p = Some d
                  ∧ ∀ idx, is_Some (dyn_nodes_ dlo !! idx) →
                           is_Some (dyn_nodes_ d !! idx).

Definition mesh_tables (S : DynamicSceneGraph)
  : gmap N MeshEdge * gmap N (gmap N N) * gmap N (gmap N N) * N :=
  (mesh_edges_ S, mesh_edges_node_lookup_ S, mesh_edges_vertex_lookup_ S,
   next_mesh_edge_idx_ S).

(** [quiet S S']: [S'] extends [S] and differs from it at most in the
    attributes, change markers and clocks of its layers. *)
Record quiet (S S' : DynamicSceneGraph) : Prop := mkQuiet {
  q_ext : ext S S';
  q_same : same_nodes S S';
  q_interlayer : interlayer_edges_ S' = interlayer_edges_ S;
  q_dynamic_interlayer :
    dynamic_interlayer_edges_ S' = dynamic_interlayer_edges_ S;
  q_mesh : mesh_tables S' = mesh_tables S
}.


(** The ids under which the dynamic nodes of [o] are registered. *)
Definition new_dynamic_id (o : DynamicSceneGraph) (X : NodeId) : Prop :=
  ∃ l p dlo idx, getDynamicLayer o l p = Some dlo
                 ∧ is_Some (dyn_nodes_ dlo !! idx) ∧ X = makeId p idx.

(** [grows o S S']: the node phase of a merge of [o] leads from [S] to
    [S']. *)
Record grows (o S S' : DynamicSceneGraph) : Prop := mkGrows {
  g_mesh_layer : mesh_layer_id S' = mesh_layer_id S;
  g_vertices : mesh_vertices_ S' = mesh_vertices_ S;
  g_faces : mesh_faces_ S' = mesh_faces_ S;
  g_layers : dom (layers_ S') = dom (layers_ S);
  g_static : ∀ L l, layers_ S !! L = Some l →
             ∃ l', layers_ S' !! L = Some l'
                   ∧ ∀ n, is_Some (nodes_ l !! n) → is_Some (nodes_ l' !! n);
  g_dynamic : ∀ l p d, getDynamicLayer S l p = Some d →
              ∃ d', getDynamicLayer S' l p = Some d'
                    ∧ ∀ idx, is_Some (dyn_nodes_ d !! idx) →
                             is_Some (dyn_nodes_ d' !! idx);
  g_lookup : ∀ X, node_lookup_ S' !! X = node_lookup_ S !! X
                  ∨ new_dynamic_id o X
                  ∨ ∃ k, node_lookup_ S' !! X = Some k
                         ∧ key_dynamic k = false
}.


End Relations.

(** ** Queries, counts and the remaining mutators

    The member functions of [DynamicSceneGraph] read by the theorems of the
    second half of the development.  As before, a call that throws (or
    dereferences a null pointer) is [None]; a [std::optional] result is an
    [option] of its own, inside the one for the exception where both can
    occur. *)

(** [getLayer(LayerId)]: throws [std::out_of_range] itself when [hasLayer]
    says no, and through [layers_.at] when the id is not a key of
    [layers_]. *)
Definition getLayer (g : DynamicSceneGraph) (layer : LayerId)
  : option SceneGraphLayer :=
  if negb (hasLayer g layer) then None else layers_ g !! layer.

Definition getLayerForNode (g : DynamicSceneGraph) (node_id : NodeId)
  : option LayerKey :=
  node_lookup_ g !! node_id.

Definition isDynamic (g : DynamicSceneGraph) (source : NodeId) : bool :=
  match node_lookup_ g !! source with
  | None => false
  | Some key => key_dynamic key
  end.

Definition numDynamicLayersOfType (g : DynamicSceneGraph) (layer : LayerId)
  : N :=
  match dynamic_layers_ g !! layer with
  | None => 0
  | Some group => N.of_nat (size group)
  end.

Definition numDynamicLayers (g : DynamicSceneGraph) : N :=
  foldl (λ num_layers id_layer_group,
           add_size (N.of_nat (size id_layer_group.2)) num_layers)
        0 (map_to_list (dynamic_layers_ g)).

(** [numLayers]: the static layers, one more for the mesh, and the
    dynamic layer ids that are neither a static layer nor the mesh layer. *)
Definition numLayers (g : DynamicSceneGraph) : N :=
  let static_size := wrap (N.of_nat (size (layers_ g)) + 1) in
  let unique_dynamic_layers :=
    foldl (λ count (id_layer_group_pair : N * gmap N DynamicSceneGraphLayer),
             if negb (bool_decide (is_Some (layers_ g !! id_layer_group_pair.1)))
                && negb (id_layer_group_pair.1 =? mesh_layer_id g)
             then wrap (count + 1) else count)
          0 (map_to_list (dynamic_layers_ g)) in
  wrap (static_size + unique_dynamic_layers).

Definition numEdges (g : DynamicSceneGraph) : N :=
  let total_edges :=
    foldl (λ total id_layer_pair,
             add_size (Layer.numEdges id_layer_pair.2) total)
          (Edges.size (interlayer_edges_ g)) (map_to_list (layers_ g)) in
  let total_edges' :=
    foldl (λ total id_group_pair,
             foldl (λ total' prefix_layer_pair,
                      add_size (DynLayer.numEdges prefix_layer_pair.2) total')
                   total (map_to_list id_group_pair.2))
          total_edges (map_to_list (dynamic_layers_ g)) in
  wrap (wrap (total_edges' + N.of_nat (size (mesh_edges_ g)))
        + Edges.size (dynamic_interlayer_edges_ g)).

(** Modelled from the spec: [getEdge] of a layer, to which the graph
    forwards for two nodes under equal keys, is declared outside this
    source file; it reads the layer's edge container. *)
Definition Base_getEdge (b : BaseLayer) (s t : NodeId)
  : option SceneGraphEdge :=
  match b with
  | StaticLayer l => Edges.get (edges_ l) s t
  | DynamicLayer l => Edges.get (dyn_edges_ l) s t
  end.

(** Modelled from the spec: [SceneGraphLayer::reset] is declared outside
    this source file; it leaves the layer empty, under the same id. *)
Definition Layer_reset (l : SceneGraphLayer) : SceneGraphLayer :=
  Layer.new (layer_id l).

Section Queries.
Context `{LayerInterface}.

(** [getNode]: the inner [None] is [std::nullopt]. *)
Definition getNode (g : DynamicSceneGraph) (node_id : NodeId)
  : option (option SceneGraphNode) :=
  match node_lookup_ g !! node_id with
  | None => Some None
  | Some info => node ← getNodePtr g node_id info; Some (Some node)
  end.

(** Modelled from the spec: the layer's own [getNode], to which
    [getDynamicNode] forwards, looks the node up by its sequence index. *)
Definition DynLayer_getNode (l : DynamicSceneGraphLayer) (n : NodeId)
  : option SceneGraphNode :=
  dyn_nodes_ l !! categoryId n.

Definition getDynamicNode (g : DynamicSceneGraph) (node_id : NodeId)
  : option (option SceneGraphNode) :=
  match node_lookup_ g !! node_id with
  | None => Some None
  | Some info =>
      if negb (key_dynamic info) then Some None
      else
        layer ← getDynamicLayer g (key_layer info) (key_prefix info);
        Some (DynLayer_getNode layer node_id)
  end.

(** [getEdge]: the inner [None] is [std::nullopt]. *)
Definition getEdge (g : DynamicSceneGraph) (source target : NodeId)
  : option (option SceneGraphEdge) :=
  '(has, _) ← hasEdge g source target;
  if negb has then Some None
  else
    source_key ← node_lookup_ g !! source;
    target_key ← node_lookup_ g !! target;
    if key_eqb source_key target_key then
      layer ← layerFromKey g source_key;
      Some (Base_getEdge layer source target)
    else if key_dynamic source_key || key_dynamic target_key then
      edge ← Edges.get (dynamic_interlayer_edges_ g) source target;
      Some (Some edge)
    else
      edge ← Edges.get (interlayer_edges_ g) source target;
      Some (Some edge).

(** *** [updateFromLayer]

    The function works on the target layer through a reference
    ([internal_layer]) and on the node index of the graph; the loop state
    below is that pair. *)

(** The body of the loop over [other_layer.nodes_]. *)
Definition updateNode (st : SceneGraphLayer * gmap N LayerKey)
    (id_node_pair : N * SceneGraphNode) : SceneGraphLayer * gmap N LayerKey :=
  let '(internal_layer, index) := st in
  let id := id_node_pair.1 in
  if Layer.hasNode internal_layer id then
    (set_nodes (alter (with_attributes (attributes_ id_node_pair.2)) id
                      (nodes_ internal_layer))
               internal_layer,
     index)
  else
    (mkLayer (layer_id internal_layer)
             (<[id := id_node_pair.2]> (nodes_ internal_layer))
             (<[id := New]> (nodes_status_ internal_layer))
             (edges_ internal_layer),
     <[id := static_key (layer_id internal_layer)]> index).

(** The body of the loop over [*edges]; [edges_.edges.at(key)] throws when
    the key the caller filed the edge under is not the one the layer has it
    under. *)
Definition updateEdge (internal_layer : SceneGraphLayer)
    (id_edge_pair : (N * N) * SceneGraphEdge) : option SceneGraphLayer :=
  let edge := id_edge_pair.2 in
  if Layer.hasEdge internal_layer (edge_source edge) (edge_target edge) then
    old ← edges (edges_ internal_layer) !! id_edge_pair.1;
    Some (mkLayer (layer_id internal_layer) (nodes_ internal_layer)
            (nodes_status_ internal_layer)
            (mkEdges (<[id_edge_pair.1 :=
                          mkEdge (edge_source old) (edge_target old)
                                 (edge_info edge)]>
                        (edges (edges_ internal_layer)))
                     (edge_status (edges_ internal_layer))))
  else
    Some (Layer.insertEdge internal_layer (edge_source edge)
            (edge_target edge) (edge_info edge)).2.

(** [updateFromLayer(other_layer, edges)]; the result carries the graph and
    [other_layer], which is passed by reference.  [edges] is [None] for a
    null pointer. *)
Definition updateFromLayer (g : DynamicSceneGraph)
    (other_layer : SceneGraphLayer)
    (edges : option (gmap (N * N) SceneGraphEdge))
  : option (bool * DynamicSceneGraph * SceneGraphLayer) :=
  match layers_ g !! layer_id other_layer with
  | None => Some (false, g, other_layer)
  | Some internal_layer =>
      let '(internal_layer1, index) :=
        foldl updateNode (internal_layer, node_lookup_ g)
              (ascending (nodes_ other_layer)) in
      internal_layer2 ←
        match edges with
        | None => Some internal_layer1
        | Some edges =>
            foldM updateEdge (ascending_edges edges) internal_layer1
        end;
      Some (true,
            set_node_lookup index
              (putLayer (layer_id other_layer) internal_layer2 g),
            Layer_reset other_layer)
  end.

(** *** [mergeNodes]

    The layer's own [mergeNodes], which the graph calls last, is
    implemented elsewhere; the graph function is stated for any such
    function.  The children, a [std::set], are rewired in ascending
    order of their ids. *)
Section MergeNodes.
Variable Layer_mergeNodes :
  SceneGraphLayer → NodeId → NodeId → SceneGraphLayer.

Definition mergeNodes (g : DynamicSceneGraph) (node_from node_to : NodeId)
  : option (bool * DynamicSceneGraph) :=
  if negb (hasNode g node_from) || negb (hasNode g node_to)
  then Some (false, g)
  else if node_from =? node_to then Some (false, g)
  else
    info ← node_lookup_ g !! node_from;
    info_to ← node_lookup_ g !! node_to;
    if negb (key_eqb info info_to) then Some (false, g)
    else
      layer ← layers_ g !! key_layer info;
      node ← nodes_ layer !! node_from;
      g1 ← match parent_ node with
           | Some parent =>
               rewireInterlayerEdge g node_from parent node_to parent
           | None => Some g
           end;
      layer1 ← layers_ g1 !! key_layer info;
      node1 ← nodes_ layer1 !! node_from;
      g2 ← foldM (λ g' target,
                    rewireInterlayerEdge g' node_from target node_to target)
                 (merge_sort N.le (elements (children_ node1))) g1;
      layer2 ← layers_ g2 !! key_layer info;
      let g3 := putLayer (key_layer info)
                         (Layer_mergeNodes layer2 node_from node_to) g2 in
      Some (true, set_node_lookup (delete node_from (node_lookup_ g3)) g3).

End MergeNodes.

End Queries.

(** ** Specification-side definitions for the mesh tables *)

(** Every id in use is below the counter, so the next id is free. *)
Definition mesh_ids_below (g : DynamicSceneGraph) : Prop :=
  map_Forall (λ i _, i < next_mesh_edge_idx_ g) (mesh_edges_ g).

#[global] Instance mesh_ids_below_dec (g : DynamicSceneGraph) :
  Decision (mesh_ids_below g).
Proof. unfold mesh_ids_below. apply _. Defined.

(** Plain counts of layers and edges, without wrap-around. *)
Definition static_edge_count (g : DynamicSceneGraph) : N :=
  sumN ((λ p, Layer.numEdges p.2) <$> map_to_list (layers_ g)).

Definition dynamic_edge_count (g : DynamicSceneGraph) : N :=
  sumN ((λ group, sumN ((λ p, DynLayer.numEdges p.2)
                          <$> map_to_list group.2))
          <$> map_to_list (dynamic_layers_ g)).

(** ** Relations for removals *)

(** A node whose ancestry fields have only lost entries. *)
Definition node_shrinks (x x' : SceneGraphNode) : Prop :=
  children_ x' ⊆ children_ x
  ∧ siblings_ x' ⊆ siblings_ x
  ∧ (parent_ x' = parent_ x ∨ parent_ x' = None).

Section Unlinking.
Context `{LayerInterface}.

(** [unlinks S S']: [S'] has the node index, the layers, the nodes and the
    mesh tables of [S]; ancestry fields and interlayer edges have only
    been taken away. *)
Record unlinks (S S' : DynamicSceneGraph) : Prop := mkUnlinks {
  ul_lookup : node_lookup_ S' = node_lookup_ S;
  ul_nodes : ∀ x k node, getNodePtr S x k = Some node →
             ∃ node', getNodePtr S' x k = Some node'
                      ∧ node_shrinks node node';
  ul_interlayer : edges_sub (interlayer_edges_ S') (interlayer_edges_ S);
  ul_dynamic_interlayer :
    edges_sub (dynamic_interlayer_edges_ S') (dynamic_interlayer_edges_ S);
  ul_mesh : mesh_tables S' = mesh_tables S
}.

(** The parent [p] of a node filed under [info] is itself in the graph,
    under a key of a layer above the node's. *)
Definition parent_link_ok (g : DynamicSceneGraph) (info : LayerKey)
    (p : NodeId) : bool :=
  match node_lookup_ g !! p with
  | None => false
  | Some kp =>
      bool_decide (is_Some (getNodePtr g p kp))
      && negb (key_eqb info kp)
      && isParent kp info && negb (isParent info kp)
  end.

(** The child [c] of a node filed under [info] is in the graph, under a
    key of a layer below the node's. *)
Definition child_link_ok (g : DynamicSceneGraph) (info : LayerKey)
    (c : NodeId) : bool :=
  match node_lookup_ g !! c with
  | None => false
  | Some kc =>
      bool_decide (is_Some (getNodePtr g c kc))
      && negb (key_eqb info kc)
      && isParent info kc
  end.

(** The parent and the children a node names can all be reached. *)
Definition links_ok (g : DynamicSceneGraph) (info : LayerKey)
    (node : SceneGraphNode) : bool :=
  from_option (parent_link_ok g info) true (parent_ node)
  && forallb (child_link_ok g info) (elements (children_ node)).

End Unlinking.

(** [same_geometry S S']: [S'] has the mesh layer id, the mesh vertices
    and faces and the set of static layers of [S]. *)
Definition same_geometry (S S' : DynamicSceneGraph) : Prop :=
  mesh_layer_id S' = mesh_layer_id S
  ∧ mesh_vertices_ S' = mesh_vertices_ S
  ∧ mesh_faces_ S' = mesh_faces_ S
  ∧ dom (layers_ S') = dom (layers_ S).

(** ** A second example graph

    Three static layers (objects: 2, places: 3, rooms: 4) and mesh layer
    1.  Room 30 is the parent of place 20, which is the parent of the
    objects 10 and 11; place 21 and object 12 have no edges.  A mesh of
    one triangle is set, with a mesh edge from object 10 to vertex 0 and
    one from place 20 to vertex 1. *)
Module House.

#[local] Existing Instance symbols.

Definition empty : DynamicSceneGraph :=
  clear (mkGraph 1 [2; 3; 4] ∅ ∅ ∅ Edges.empty Edges.empty None None ∅ ∅ ∅ 0).

Definition room : NodeId := 30.
Definition place1 : NodeId := 20.
Definition place2 : NodeId := 21.
Definition object1 : NodeId := 10.
Definition object2 : NodeId := 11.
Definition object3 : NodeId := 12.

Definition with_nodes : DynamicSceneGraph :=
  foldl (λ g (ln : LayerId * NodeId), (emplaceNode g ln.1 ln.2 0).2) empty
        [(4, room); (3, place1); (3, place2);
         (2, object1); (2, object2); (2, object3)].

Definition with_edges : DynamicSceneGraph :=
  foldl (λ g (st : NodeId * NodeId),
           Example.after g (insertEdge g st.1 st.2 None))
        with_nodes
        [(room, place1); (place1, object1); (place1, object2)].

Definition with_mesh : DynamicSceneGraph :=
  default with_edges
    (setMesh with_edges (Some Example.triangle) (Some [[0; 1; 2]]) true).

Definition house : DynamicSceneGraph :=
  (insertMeshEdge (insertMeshEdge with_mesh object1 0 false).2
                  place1 1 false).2.

(** The node [place1] as [house] stores it. *)
Definition place1_node : SceneGraphNode :=
  mkNode place1 3 0 (Some room) {[object1; object2]} ∅.

End House.

(** * Theorems *)

(** ** Iteration order *)

Section Ascending.
Context {V : Type}.

Lemma ascending_perm (m : gmap N V) : ascending m ≡ₚ map_to_list m.
Proof. apply merge_sort_Permutation. Qed.

Lemma elem_of_ascending (m : gmap N V) (k : N) (v : V) :
  (k, v) ∈ ascending m ↔ m !! k = Some v.
Proof. rewrite ascending_perm. apply elem_of_map_to_list. Qed.

Lemma ascending_empty : ascending (∅ : gmap N V) = [].
Proof.
  apply Permutation_nil_r. rewrite ascending_perm. by rewrite map_to_list_empty.
Qed.

Lemma NoDup_fst_ascending (m : gmap N V) : NoDup (ascending m).*1.
Proof. rewrite ascending_perm. apply NoDup_fst_map_to_list. Qed.

(** The keys come in strictly increasing order. *)
Lemma ascending_sorted (m : gmap N V) :
  StronglySorted N.lt (ascending m).*1.
Proof.
  assert (Hle : StronglySorted key_le (ascending m)).
  { apply StronglySorted_merge_sort.
    - intros x y z. apply N.le_trans.
    - intros x y. apply N.le_ge_cases. }
  pose proof (NoDup_fst_ascending m) as Hnd.
  induction Hle as [|x l _ IH Hall]; simpl; [constructor|].
  apply NoDup_cons in Hnd as [Hx Hnd]. constructor; [by apply IH|].
  apply Forall_fmap, Forall_forall. intros y Hy. simpl.
  pose proof (proj1 (Forall_forall _ _) Hall y Hy) as Hxy.
  unfold key_le in Hxy.
  assert (x.1 ≠ y.1); [|lia].
  intros Heq. apply Hx. rewrite Heq. by apply list_elem_of_fmap_2.
Qed.

Lemma list_to_map_ascending (m : gmap N V) :
  list_to_map (ascending m) = m.
Proof.
  rewrite (list_to_map_proper _ (map_to_list m));
    [apply list_to_map_to_list|apply NoDup_fst_ascending|apply ascending_perm].
Qed.

Lemma ascending_edges_perm (m : gmap (N * N) V) :
  ascending_edges m ≡ₚ map_to_list m.
Proof. apply merge_sort_Permutation. Qed.

Lemma elem_of_ascending_edges (m : gmap (N * N) V) (k : N * N) (v : V) :
  (k, v) ∈ ascending_edges m ↔ m !! k = Some v.
Proof. rewrite ascending_edges_perm. apply elem_of_map_to_list. Qed.

Lemma NoDup_fst_ascending_edges (m : gmap (N * N) V) :
  NoDup (ascending_edges m).*1.
Proof. rewrite ascending_edges_perm. apply NoDup_fst_map_to_list. Qed.

Lemma list_to_map_ascending_edges (m : gmap (N * N) V) :
  list_to_map (ascending_edges m) = m.
Proof.
  rewrite (list_to_map_proper _ (map_to_list m));
    [apply list_to_map_to_list|apply NoDup_fst_ascending_edges
    |apply ascending_edges_perm].
Qed.

End Ascending.

(** ** Layer queries *)

Section LayerQueries.

Lemma hasMesh_spec (g : DynamicSceneGraph) :
  hasMesh g = true ↔ is_Some (mesh_vertices_ g) ∧ is_Some (mesh_faces_ g).
Proof.
  unfold hasMesh. rewrite andb_true_iff, !bool_decide_eq_true. done.
Qed.

(** C9: [hasLayer] asked about the mesh layer id reports whether both the
    mesh vertices and the mesh faces are set; asked about any other id it
    reports whether a static layer with that id exists. *)
Theorem hasLayer_mesh_or_static (g : DynamicSceneGraph) (l : LayerId) :
  hasLayer g l = true ↔
  if decide (l = mesh_layer_id g)
  then is_Some (mesh_vertices_ g) ∧ is_Some (mesh_faces_ g)
  else is_Some (layers_ g !! l).
Proof.
  unfold hasLayer. case_decide as Hl.
  - subst l. rewrite N.eqb_refl. simpl. apply hasMesh_spec.
  - apply N.eqb_neq in Hl. rewrite Hl. simpl. apply bool_decide_eq_true.
Qed.

End LayerQueries.

(** ** Node counts *)

Section Counts.

Lemma wrap_wrap (n : N) : wrap (wrap n) = wrap n.
Proof. unfold wrap. apply N.Div0.mod_mod. Qed.

Lemma wrap_add_l (a b : N) : wrap (wrap a + b) = wrap (a + b).
Proof. unfold wrap. apply N.Div0.add_mod_idemp_l. Qed.

Lemma wrap_add_r (a b : N) : wrap (a + wrap b) = wrap (a + b).
Proof. unfold wrap. apply N.Div0.add_mod_idemp_r. Qed.

Lemma wrap_small (n : N) : n < size_t_modulus → wrap n = n.
Proof. intros. unfold wrap. by apply N.mod_small. Qed.

(** An accumulation loop on [size_t] computes the plain sum modulo
    [2^64]. *)
Lemma foldl_add_size {A : Type} (f : A → N) (l : list A) (a : N) :
  wrap (foldl (λ total x, add_size (f x) total) a l)
  = wrap (a + sumN (f <$> l)).
Proof.
  revert a. induction l as [|x l IH]; intros a; simpl.
  - by rewrite N.add_0_r.
  - rewrite IH. unfold add_size. rewrite wrap_add_l. f_equal.
    symmetry. apply N.add_assoc.
Qed.

Lemma foldl_nested_add_size {A B : Type} (inner : A → list B) (f : B → N)
    (l : list A) (a : N) :
  wrap (foldl (λ total x,
                 foldl (λ total' y, add_size (f y) total') total (inner x))
              a l)
  = wrap (a + sumN ((λ x, sumN (f <$> inner x)) <$> l)).
Proof.
  revert a. induction l as [|x l IH]; intros a; simpl.
  - by rewrite N.add_0_r.
  - rewrite IH. rewrite <- wrap_add_l, foldl_add_size, wrap_add_l.
    f_equal. symmetry. apply N.add_assoc.
Qed.

Lemma numDynamicNodes_sum (g : DynamicSceneGraph) :
  wrap (numDynamicNodes g) = wrap (dynamic_node_count g).
Proof.
  unfold numDynamicNodes, dynamic_node_count.
  rewrite (foldl_nested_add_size (λ x, map_to_list x.2)
             (λ p, DynLayer.numNodes p.2)).
  by rewrite N.add_0_l.
Qed.

Lemma wrap_add_proper (a a' b b' : N) :
  wrap a = wrap a' → wrap b = wrap b' → wrap (a + b) = wrap (a' + b').
Proof.
  intros Ha Hb.
  rewrite <- wrap_add_l, <- wrap_add_r, Ha, Hb, wrap_add_l, wrap_add_r. done.
Qed.

Lemma numNodes_wrapped_sum (g : DynamicSceneGraph) :
  numNodes g
  = wrap (static_node_count g + dynamic_node_count g + mesh_vertex_count g).
Proof.
  unfold numNodes. fold (mesh_vertex_count g).
  rewrite wrap_add_l.
  apply wrap_add_proper; [|done].
  apply wrap_add_proper; [|apply numDynamicNodes_sum].
  rewrite (foldl_add_size (λ p, Layer.numNodes p.2)), N.add_0_l. done.
Qed.

Lemma setMesh_keeps_nodes (g g' : DynamicSceneGraph) (vs : option MeshVertices)
    (faces : option MeshFaces) (invalidate : bool) :
  setMesh g vs faces invalidate = Some g' →
  layers_ g' = layers_ g ∧ dynamic_layers_ g' = dynamic_layers_ g
  ∧ node_lookup_ g' = node_lookup_ g ∧ mesh_vertices_ g' = vs.
Proof.
  assert (Hfold : ∀ (l : list MeshEdge) (g1 g2 : DynamicSceneGraph),
    foldM (λ g' e, removeMeshEdge_ g' (source_node e, mesh_vertex e)) l g1
      = Some g2 →
    layers_ g2 = layers_ g1 ∧ dynamic_layers_ g2 = dynamic_layers_ g1
    ∧ node_lookup_ g2 = node_lookup_ g1
    ∧ mesh_vertices_ g2 = mesh_vertices_ g1).
  { induction l as [|e l IH]; intros g1 g2; simpl.
    - by intros [= ->].
    - destruct (removeMeshEdge_ g1 _) as [g3|] eqn:Hrm; simpl; [|done].
      intros Hrest. apply IH in Hrest as (-> & -> & -> & ->).
      unfold removeMeshEdge_, removeMeshEdge in Hrm. simpl in Hrm.
      destruct (negb _); simpl in Hrm; [by injection Hrm as <-|].
      destruct (mesh_edges_node_lookup_ g1 !! _) as [bv|]; simpl in Hrm;
        [|done].
      destruct (bv !! _); simpl in Hrm; [|done].
      destruct (mesh_edges_vertex_lookup_ g1 !! _); simpl in Hrm; [|done].
      by injection Hrm as <-. }
  unfold setMesh. destruct vs as [vs|].
  - destruct invalidate.
    + by intros [= <-].
    + destruct (invalid_edges_of _ _) as [inv|]; simpl; [|done].
      intros Hf. by apply Hfold in Hf.
  - by intros [= <-].
Qed.

(** C10: [numNodes] is the sum, on [size_t], of the node counts of all
    static layers, of all dynamic-layer instances and of the vertex count
    of the current mesh (zero when no mesh is set); setting a mesh registers
    no node and changes no layer, yet [numNodes] then counts the new
    vertices. *)
Theorem numNodes_counts_mesh_vertices (g : DynamicSceneGraph) :
  numNodes g
  = wrap (static_node_count g + dynamic_node_count g + mesh_vertex_count g)
  ∧ (mesh_vertices_ g = None → mesh_vertex_count g = 0)
  ∧ (static_node_count g + dynamic_node_count g + mesh_vertex_count g
       < size_t_modulus →
     numNodes g
     = static_node_count g + dynamic_node_count g + mesh_vertex_count g)
  ∧ ∀ (vs : MeshVertices) (faces : option MeshFaces) (invalidate : bool)
      (g' : DynamicSceneGraph),
      setMesh g (Some vs) faces invalidate = Some g' →
      node_lookup_ g' = node_lookup_ g
      ∧ layers_ g' = layers_ g
      ∧ dynamic_layers_ g' = dynamic_layers_ g
      ∧ numNodes g'
        = wrap (static_node_count g + dynamic_node_count g
                + vertex_count vs).
Proof.
  split; [apply numNodes_wrapped_sum|].
  split; [unfold mesh_vertex_count; by intros ->|].
  split.
  - intros Hsmall. rewrite numNodes_wrapped_sum. by apply wrap_small.
  - intros vs faces invalidate g' Hset.
    apply setMesh_keeps_nodes in Hset as (Hl & Hd & Hn & Hv).
    rewrite numNodes_wrapped_sum.
    unfold static_node_count, dynamic_node_count, mesh_vertex_count.
    by rewrite Hl, Hd, Hn, Hv.
Qed.

End Counts.

(** ** Mesh-edge ids *)

Section MeshEdgeIds.

Lemma lookup_insert2_eq (a b x : N) (m : gmap N (gmap N N)) :
  (insert2 a b x m !! a ≫= (.!! b)) = Some x.
Proof. unfold insert2. rewrite lookup_insert_eq. simpl. apply lookup_insert_eq. Qed.

Lemma lookup_insert2_ne (a b a' b' x : N) (m : gmap N (gmap N N)) :
  (a, b) ≠ (a', b') →
  (insert2 a b x m !! a' ≫= (.!! b')) = (m !! a' ≫= (.!! b')).
Proof.
  intros Hne. unfold insert2. destruct (decide (a = a')) as [->|Ha].
  - rewrite lookup_insert_eq. simpl.
    rewrite lookup_insert_ne by congruence.
    by destruct (m !! a').
  - by rewrite lookup_insert_ne.
Qed.

Lemma insertMeshEdge_false (g g' : DynamicSceneGraph) (s v : N) (a : bool) :
  insertMeshEdge g s v a = (false, g') → g' = g.
Proof.
  unfold insertMeshEdge.
  destruct (negb (hasNode g s)); [by intros [= <-]|].
  destruct (negb a && _); [by intros [= <-]|].
  destruct (hasMeshEdge g s v); [by intros [= <-]|done].
Qed.

(** A successful [insertMeshEdge] files the edge under the current counter
    value in both indices and bumps the counter. *)
Lemma insertMeshEdge_true (g g' : DynamicSceneGraph) (s v : N) (a : bool) :
  insertMeshEdge g s v a = (true, g') →
  meshEdgeId g' s v = Some (next_mesh_edge_idx_ g)
  ∧ meshEdgeId_by_vertex g' s v = Some (next_mesh_edge_idx_ g)
  ∧ next_mesh_edge_idx_ g' = wrap (next_mesh_edge_idx_ g + 1)
  ∧ (mesh_edges_ g !! next_mesh_edge_idx_ g = None →
     mesh_edges_ g' !! next_mesh_edge_idx_ g = Some (mkMeshEdge s v)).
Proof.
  unfold insertMeshEdge.
  destruct (negb (hasNode g s)); [done|].
  destruct (negb a && _); [done|].
  destruct (hasMeshEdge g s v); [done|].
  intros [= <-].
  unfold meshEdgeId, meshEdgeId_by_vertex. simpl.
  split; [apply lookup_insert2_eq|].
  split; [apply lookup_insert2_eq|].
  split; [done|].
  intros Hfresh. unfold map_emplace. rewrite Hfresh. apply lookup_insert_eq.
Qed.

Lemma removeMeshEdge_counter (g g' : DynamicSceneGraph) (s v : N) (b : bool) :
  removeMeshEdge g s v = Some (b, g') →
  next_mesh_edge_idx_ g' = next_mesh_edge_idx_ g
  ∨ next_mesh_edge_idx_ g' = wrap (next_mesh_edge_idx_ g + 1).
Proof.
  unfold removeMeshEdge. destruct (negb _).
  - intros [= <- <-]. by left.
  - intros Hrm. right.
    destruct (mesh_edges_node_lookup_ g !! s) as [bv|]; simpl in Hrm; [|done].
    destruct (bv !! v); simpl in Hrm; [|done].
    destruct (mesh_edges_vertex_lookup_ g !! v); simpl in Hrm; [|done].
    by injection Hrm as <- <-.
Qed.

Lemma run_mesh_ops_log (ops : list MeshOp) :
  ∀ (g g' : DynamicSceneGraph) (log : list (N * option N * N)),
    next_mesh_edge_idx_ g + N.of_nat (length ops) < size_t_modulus →
    run_mesh_ops ops g = Some (log, g') →
    next_mesh_edge_idx_ g ≤ next_mesh_edge_idx_ g'
    ∧ next_mesh_edge_idx_ g' ≤ next_mesh_edge_idx_ g + N.of_nat (length ops)
    ∧ Forall (λ e, e.1.2 = Some e.1.1 ∧ e.2 = e.1.1 + 1) log
    ∧ Forall (λ i, next_mesh_edge_idx_ g ≤ i) (assigned_ids log)
    ∧ StronglySorted N.lt (assigned_ids log).
Proof.
  induction ops as [|op ops IH]; intros g g' log Hbound Hrun.
  - injection Hrun as <- <-. simpl.
    repeat split; try lia; constructor.
  - cbn [length] in *. rewrite Nat2N.inj_succ in *.
    destruct op as [s v a|s v]; simpl in Hrun.
    + destruct (insertMeshEdge g s v a) as [ok g1] eqn:Hins.
      destruct (run_mesh_ops ops g1) as [[log1 g2]|] eqn:Hrest;
        simpl in Hrun; [|done].
      injection Hrun as <- <-.
      destruct ok.
      * apply insertMeshEdge_true in Hins as (Hid & _ & Hnext & _).
        rewrite wrap_small in Hnext by lia.
        apply IH in Hrest as (Hle & Hub & Hlog & Hlow & Hsorted); [|lia].
        rewrite Hnext in Hle, Hub, Hlow.
        split; [lia|]. split; [lia|].
        split; [constructor; [split; [done|]; simpl; lia|done]|].
        unfold assigned_ids. simpl. rewrite Hid. simpl.
        fold (assigned_ids log1).
        split.
        { constructor; [lia|].
          eapply Forall_impl; [exact Hlow|]. simpl. intros; lia. }
        constructor; [done|].
        eapply Forall_impl; [exact Hlow|]. simpl. intros; lia.
      * apply insertMeshEdge_false in Hins as ->.
        apply IH in Hrest as (Hle & Hub & Hlog & Hlow & Hsorted); [|lia].
        repeat split; try done; lia.
    + destruct (removeMeshEdge g s v) as [[b g1]|] eqn:Hrm;
        simpl in Hrun; [|done].
      apply removeMeshEdge_counter in Hrm.
      assert (Hstep : next_mesh_edge_idx_ g ≤ next_mesh_edge_idx_ g1
                      ∧ next_mesh_edge_idx_ g1 ≤ next_mesh_edge_idx_ g + 1).
      { destruct Hrm as [->| ->]; [lia|].
        rewrite wrap_small by lia. lia. }
      apply IH in Hrun as (Hle & Hub & Hlog & Hlow & Hsorted); [|lia].
      split; [lia|]. split; [lia|]. split; [done|]. split; [|done].
      eapply Forall_impl; [exact Hlow|]. simpl. intros; lia.
Qed.

Lemma StronglySorted_lt_NoDup (l : list N) : StronglySorted N.lt l → NoDup l.
Proof.
  induction 1 as [|x l Hs IH Hall]; constructor; [|done].
  intros Hin. rewrite Forall_forall in Hall. specialize (Hall x Hin). lia.
Qed.

(** C8: over any sequence of [insertMeshEdge] and [removeMeshEdge] calls
    that stays clear of the 64-bit overflow of the counter, every
    successful [insertMeshEdge] files its edge under the value the counter
    had before the call and leaves the counter one higher; the ids handed
    out are strictly increasing in call order, so none is handed out
    twice, whatever was removed in between. *)
Theorem mesh_edge_ids_never_reused (ops : list MeshOp)
    (g g' : DynamicSceneGraph) (log : list (N * option N * N)) :
  next_mesh_edge_idx_ g + N.of_nat (length ops) < size_t_modulus →
  run_mesh_ops ops g = Some (log, g') →
  Forall (λ e, e.1.2 = Some e.1.1 ∧ e.2 = e.1.1 + 1) log
  ∧ length (assigned_ids log) = length log
  ∧ StronglySorted N.lt (assigned_ids log)
  ∧ NoDup (assigned_ids log).
Proof.
  intros Hbound Hrun.
  destruct (run_mesh_ops_log ops g g' log Hbound Hrun)
    as (_ & _ & Hlog & _ & Hsorted).
  split; [done|]. split; [|split; [done|by apply StronglySorted_lt_NoDup]].
  clear -Hlog. induction Hlog as [|e log [He _] _ IH]; [done|].
  unfold assigned_ids in *. simpl. rewrite He. simpl. by f_equal.
Qed.

End MeshEdgeIds.

(** ** The mesh-edge tables *)

Section MeshTables.

Lemma foldM_app {A S : Type} (f : S → A → option S) (l1 l2 : list A) (s : S) :
  foldM f (l1 ++ l2) s = s' ← foldM f l1 s; foldM f l2 s'.
Proof.
  revert s. induction l1 as [|x l1 IH]; intros s; simpl; [done|].
  destruct (f s x); simpl; [apply IH|done].
Qed.

Lemma lookup2_Some (m : gmap N (gmap N N)) (a b i : N) :
  (m !! a ≫= (.!! b)) = Some i ↔ ∃ inner, m !! a = Some inner ∧ inner !! b = Some i.
Proof. apply bind_Some. Qed.

Lemma lookup_erase2 (m : gmap N (gmap N N)) (inner : gmap N N) (a b a' b' : N) :
  m !! a = Some inner →
  (erase2 a b inner m !! a' ≫= (.!! b'))
  = if decide ((a', b') = (a, b)) then None else (m !! a' ≫= (.!! b')).
Proof.
  intros Ha. unfold erase2.
  destruct (decide (a' = a)) as [->|Hne].
  - rewrite Ha. simpl. case_decide as Hempty.
    + rewrite lookup_delete_eq. simpl.
      case_decide as Hb; [done|].
      assert (Hb' : b' ≠ b) by congruence.
      rewrite <- (lookup_delete_ne inner b b') by done.
      by rewrite Hempty, lookup_empty.
    + rewrite lookup_insert_eq. simpl.
      case_decide as Hb.
      * injection Hb as ->. apply lookup_delete_eq.
      * apply lookup_delete_ne. congruence.
  - destruct (decide ((a', b') = (a, b))) as [[= ? ?]|_]; [done|].
    case_decide; [by rewrite lookup_delete_ne|by rewrite lookup_insert_ne].
Qed.

Lemma hasMeshEdge_meshEdgeId (g : DynamicSceneGraph) (s v : N) :
  hasMeshEdge g s v = bool_decide (is_Some (meshEdgeId g s v)).
Proof.
  unfold hasMeshEdge, meshEdgeId.
  by destruct (mesh_edges_node_lookup_ g !! s) as [bv|].
Qed.

(** The consistency of the tables, pointwise. *)
Lemma mesh_consistent_alt (g : DynamicSceneGraph) :
  mesh_consistent g ↔
  (∀ n v i, meshEdgeId g n v = Some i →
            mesh_edges_ g !! i = Some (mkMeshEdge n v)
            ∧ meshEdgeId_by_vertex g n v = Some i)
  ∧ (∀ n v i, meshEdgeId_by_vertex g n v = Some i → meshEdgeId g n v = Some i)
  ∧ (∀ i e, mesh_edges_ g !! i = Some e →
            meshEdgeId g (source_node e) (mesh_vertex e) = Some i).
Proof.
  unfold mesh_consistent, map_Forall. split.
  - intros (H1 & H2 & H3). split; [|split; [|done]].
    + intros n v i (bv & Hn & Hv)%bind_Some. by eapply H1.
    + intros n v i (bn & Hv & Hn)%bind_Some. by eapply H2.
  - intros (H1 & H2 & H3). split; [|split; [|done]].
    + intros n bv Hn v i Hv. apply H1. apply bind_Some. eauto.
    + intros v bn Hv n i Hn. apply H2. apply bind_Some. eauto.
Qed.

Lemma mesh_consistent_indices_agree (g : DynamicSceneGraph) (n v : N) :
  mesh_consistent g → meshEdgeId_by_vertex g n v = meshEdgeId g n v.
Proof.
  intros (H1 & H2 & _)%mesh_consistent_alt.
  destruct (meshEdgeId g n v) as [i|] eqn:Hi.
  - by apply H1.
  - destruct (meshEdgeId_by_vertex g n v) as [i|] eqn:Hv; [|done].
    apply H2 in Hv. congruence.
Qed.

Lemma mesh_edges_only_refl (g : DynamicSceneGraph) : mesh_edges_only g g.
Proof. by destruct g. Qed.

Lemma mesh_edges_only_trans (g1 g2 g3 : DynamicSceneGraph) :
  mesh_edges_only g1 g2 → mesh_edges_only g2 g3 → mesh_edges_only g1 g3.
Proof.
  unfold mesh_edges_only. intros H12 H23. rewrite H23 at 1. rewrite H12 at 1.
  done.
Qed.

(** What one [removeMeshEdge] does to consistent tables: it never throws,
    the edge [(s, v)] is gone from all three tables, every other edge stays
    as it was. *)
Lemma removeMeshEdge_consistent (g : DynamicSceneGraph) (s v : N) :
  mesh_consistent g →
  ∃ b g',
    removeMeshEdge g s v = Some (b, g')
    ∧ b = hasMeshEdge g s v
    ∧ mesh_consistent g'
    ∧ mesh_edges_only g g'
    ∧ (∀ n w, meshEdgeId g' n w
              = if decide ((n, w) = (s, v)) then None else meshEdgeId g n w)
    ∧ (∀ i, mesh_edges_ g' !! i
            = e ← mesh_edges_ g !! i;
              if decide (e = mkMeshEdge s v) then None else Some e).
Proof.
  intros Hc. pose proof Hc as (H1 & H2 & H3)%mesh_consistent_alt.
  unfold removeMeshEdge. rewrite hasMeshEdge_meshEdgeId.
  destruct (meshEdgeId g s v) as [idx|] eqn:Hid.
  - rewrite bool_decide_eq_true_2 by eauto. simpl.
    destruct (H1 _ _ _ Hid) as [Hedge Hbv].
    apply bind_Some in Hid as (bv & Hs & Hv).
    apply bind_Some in Hbv as (bn & Hv' & Hs').
    rewrite Hs. simpl. rewrite Hv. simpl. rewrite Hv'. simpl.
    eexists _, _. split; [done|]. split; [done|].
    assert (Hnode : ∀ n w,
      meshEdgeId (set_mesh_edges (delete idx (mesh_edges_ g))
                    (erase2 s v bv (mesh_edges_node_lookup_ g))
                    (erase2 v s bn (mesh_edges_vertex_lookup_ g))
                    (wrap (next_mesh_edge_idx_ g + 1)) g) n w
      = if decide ((n, w) = (s, v)) then None else meshEdgeId g n w).
    { intros n w. unfold meshEdgeId. simpl. by apply lookup_erase2. }
    assert (Hvert : ∀ n w,
      meshEdgeId_by_vertex (set_mesh_edges (delete idx (mesh_edges_ g))
                    (erase2 s v bv (mesh_edges_node_lookup_ g))
                    (erase2 v s bn (mesh_edges_vertex_lookup_ g))
                    (wrap (next_mesh_edge_idx_ g + 1)) g) n w
      = if decide ((n, w) = (s, v)) then None
        else meshEdgeId_by_vertex g n w).
    { intros n w. unfold meshEdgeId_by_vertex. simpl.
      rewrite (lookup_erase2 _ _ _ _ _ _ Hv').
      destruct (decide ((w, n) = (v, s))) as [[= ? ?]|Hne1];
        destruct (decide ((n, w) = (s, v))) as [[= ? ?]|Hne2];
        try done; subst; exfalso; auto. }
    assert (Hid : meshEdgeId g s v = Some idx).
    { apply bind_Some. eauto. }
    assert (Hedges : ∀ i,
      delete idx (mesh_edges_ g) !! i
      = e ← mesh_edges_ g !! i;
        if decide (e = mkMeshEdge s v) then None else Some e).
    { intros i. destruct (decide (i = idx)) as [->|Hne].
      - rewrite lookup_delete_eq, Hedge. simpl. by rewrite decide_True.
      - rewrite lookup_delete_ne by done.
        destruct (mesh_edges_ g !! i) as [e|] eqn:He; simpl; [|done].
        case_decide as Heq; [|done].
        apply H3 in He. rewrite Heq in He. simpl in He. congruence. }
    split; [|split; [by destruct g|split; [done|done]]].
    apply mesh_consistent_alt. split; [|split].
    + intros n w i. rewrite Hnode, Hvert. simpl.
      case_decide as Hnw; [done|]. intros Hi.
      destruct (H1 _ _ _ Hi) as [He Hb]. split; [|done].
      rewrite Hedges, He. simpl. rewrite decide_False; [done|].
      intros [= -> ->]. done.
    + intros n w i. rewrite Hnode, Hvert. case_decide; [done|]. apply H2.
    + intros i e. simpl. rewrite Hedges, Hnode.
      destruct (mesh_edges_ g !! i) as [e'|] eqn:He; simpl; [|done].
      case_decide as Hne; [done|]. intros [= <-].
      rewrite decide_False; [by apply H3|].
      intros Heq. apply Hne. destruct e'. simpl in Heq. congruence.
  - rewrite bool_decide_eq_false_2 by (by intros [? ?]). simpl.
    eexists _, _. split; [done|]. split; [done|]. split; [done|].
    split; [apply mesh_edges_only_refl|]. split.
    + intros n w. case_decide as Heq; [|done]. by injection Heq as -> ->.
    + intros i. destruct (mesh_edges_ g !! i) as [e|] eqn:He; simpl; [|done].
      case_decide as Heq; [|done].
      apply H3 in He. rewrite Heq in He. simpl in He. congruence.
Qed.

(** A loop of [removeMeshEdge] calls over a list of edges. *)
Lemma removeMeshEdge_loop (l : list MeshEdge) :
  ∀ g : DynamicSceneGraph,
    mesh_consistent g →
    ∃ g',
      foldM (λ g' e, removeMeshEdge_ g' (source_node e, mesh_vertex e)) l g
        = Some g'
      ∧ mesh_consistent g'
      ∧ mesh_edges_only g g'
      ∧ (∀ n w, meshEdgeId g' n w
                = if decide (mkMeshEdge n w ∈ l) then None
                  else meshEdgeId g n w)
      ∧ (∀ i, mesh_edges_ g' !! i
              = e ← mesh_edges_ g !! i;
                if decide (e ∈ l) then None else Some e).
Proof.
  induction l as [|e l IH]; intros g Hc.
  - exists g. split; [done|]. split; [done|].
    split; [apply mesh_edges_only_refl|]. split.
    + intros n w. destruct (decide (_ ∈ [])) as [Hin|_];
        [by apply elem_of_nil in Hin|done].
    + intros i. destruct (mesh_edges_ g !! i) as [e|]; simpl; [|done].
      destruct (decide (e ∈ [])) as [Hin|_];
        [by apply elem_of_nil in Hin|done].
  - destruct (removeMeshEdge_consistent g (source_node e) (mesh_vertex e) Hc)
      as (b & g1 & Hrm & _ & Hc1 & Honly1 & Hid1 & Hed1).
    assert (Hrm' : removeMeshEdge_ g (source_node e, mesh_vertex e)
                   = Some g1).
    { unfold removeMeshEdge_. simpl. by rewrite Hrm. }
    cbn [foldM]. rewrite Hrm'. simpl.
    destruct (IH g1 Hc1) as (g' & Hfold & Hc' & Honly' & Hid' & Hed').
    exists g'. split; [done|]. split; [done|].
    split; [by eapply mesh_edges_only_trans|]. split.
    + intros n w. rewrite Hid', Hid1.
      destruct e as [s v]. simpl.
      destruct (decide (mkMeshEdge n w ∈ l)) as [Hl|Hl].
      * rewrite decide_True; [done|]. by apply list_elem_of_further.
      * destruct (decide ((n, w) = (s, v))) as [[= -> ->]|Hne].
        { rewrite decide_True; [done|]. apply list_elem_of_here. }
        rewrite decide_False; [done|].
        intros [[= -> ->]|?]%elem_of_cons; done.
    + intros i. rewrite Hed', Hed1.
      destruct (mesh_edges_ g !! i) as [e'|]; simpl; [|done].
      destruct e as [s v]. simpl.
      destruct (decide (e' = mkMeshEdge s v)) as [->|Hne]; simpl.
      * rewrite decide_True; [done|]. apply list_elem_of_here.
      * destruct (decide (e' ∈ l)) as [Hl|Hl].
        { rewrite decide_True; [done|]. by apply list_elem_of_further. }
        rewrite decide_False; [done|].
        intros [?|?]%elem_of_cons; done.
Qed.

End MeshTables.

(** ** Replacing the mesh *)

Section SetMesh.

Lemma foldM_collect {A B : Type} (get : A → option B) (ys : list A) :
  ∀ acc : list B,
    (∀ y, y ∈ ys → is_Some (get y)) →
    foldM (λ acc' y, e ← get y; Some (acc' ++ [e])) ys acc
    = Some (acc ++ omap get ys).
Proof.
  induction ys as [|y ys IH]; intros acc Hall; simpl.
  - by rewrite app_nil_r.
  - destruct (Hall y) as [e He]; [apply list_elem_of_here|].
    rewrite He. simpl. rewrite IH.
    + by rewrite <- app_assoc.
    + intros y' Hy'. apply Hall. by apply list_elem_of_further.
Qed.

Lemma foldM_collect_nested {A B C : Type} (skip : A → bool)
    (inner : A → list B) (get : B → option C) (xs : list A) :
  ∀ acc : list C,
    (∀ x, x ∈ xs → skip x = false → ∀ y, y ∈ inner x → is_Some (get y)) →
    foldM (λ acc' x,
             if skip x then Some acc'
             else foldM (λ acc'' y, e ← get y; Some (acc'' ++ [e]))
                        (inner x) acc')
          xs acc
    = Some (acc ++ (xs ≫= λ x, if skip x then [] else omap get (inner x))).
Proof.
  induction xs as [|x xs IH]; intros acc Hall; simpl.
  - by rewrite app_nil_r.
  - assert (Hrest : ∀ x', x' ∈ xs → skip x' = false →
                    ∀ y, y ∈ inner x' → is_Some (get y)).
    { intros x' Hx'. apply Hall. by apply list_elem_of_further. }
    destruct (skip x) eqn:Hskip; simpl.
    + by apply IH.
    + rewrite foldM_collect.
      * simpl. rewrite IH by done. by rewrite <- app_assoc.
      * by apply Hall; [apply list_elem_of_here|].
Qed.

(** The edges [setMesh] collects for removal are the edges of the table
    whose vertex is at or beyond the bound. *)
Lemma invalid_edges_of_spec (g : DynamicSceneGraph) (max_vertex : N) :
  mesh_consistent g →
  ∃ l, invalid_edges_of g max_vertex = Some l
       ∧ ∀ e, e ∈ l ↔ is_Some (meshEdgeId g (source_node e) (mesh_vertex e))
                      ∧ max_vertex ≤ mesh_vertex e.
Proof.
  intros Hc. pose proof Hc as (H1 & H2 & H3)%mesh_consistent_alt.
  unfold invalid_edges_of.
  rewrite (foldM_collect_nested (λ p : N * gmap N N, p.1 <? max_vertex)
             (λ p, map_to_list p.2)
             (λ q : N * N, mesh_edges_ g !! q.2)).
  - eexists. split; [done|]. intros e. simpl.
    rewrite list_elem_of_bind. split.
    + intros ([v bn] & Hin & Hv%elem_of_map_to_list). simpl in Hin.
      destruct (v <? max_vertex) eqn:Hlt; [by apply elem_of_nil in Hin|].
      apply list_elem_of_omap in Hin as ([n i] & Hn%elem_of_map_to_list & He).
      simpl in He.
      assert (Hid : meshEdgeId g n v = Some i).
      { apply H2. apply bind_Some. eauto. }
      destruct (H1 _ _ _ Hid) as [Hedge _].
      rewrite Hedge in He. injection He as <-. simpl.
      split; [eauto|]. by apply N.ltb_ge.
    + intros [[i Hid] Hge].
      destruct (H1 _ _ _ Hid) as [Hedge Hbv].
      apply bind_Some in Hbv as (bn & Hv & Hn).
      exists (mesh_vertex e, bn). split; [|by apply elem_of_map_to_list].
      simpl. apply N.ltb_ge in Hge. rewrite Hge.
      apply list_elem_of_omap. exists (source_node e, i).
      split; [by apply elem_of_map_to_list|]. simpl. rewrite Hedge.
      by destruct e.
  - intros [v bn] Hv%elem_of_map_to_list _ [n i] Hn%elem_of_map_to_list.
    simpl in *.
    assert (Hid : meshEdgeId g n v = Some i).
    { apply H2. apply bind_Some. eauto. }
    destruct (H1 _ _ _ Hid) as [Hedge _]. eauto.
Qed.

Lemma mesh_consistent_set_mesh (g : DynamicSceneGraph)
    (vs : option MeshVertices) (faces : option MeshFaces) :
  mesh_consistent g → mesh_consistent (set_mesh vs faces g).
Proof. done. Qed.

(** C6: [setMesh] with null vertices unsets the mesh and clears every mesh
    edge; with vertices and [invalidate_all_edges] it clears every mesh
    edge; with vertices and without [invalidate_all_edges] it removes,
    from consistent tables, exactly the mesh edges whose vertex index is
    at or beyond the vertex count of the new mesh. *)
Theorem setMesh_purges_mesh_edges (g : DynamicSceneGraph)
    (faces : option MeshFaces) :
  (∀ invalidate_all_edges, ∃ g',
      setMesh g None faces invalidate_all_edges = Some g'
      ∧ mesh_vertices_ g' = None ∧ mesh_faces_ g' = None
      ∧ hasMesh g' = false
      ∧ mesh_edges_ g' = ∅
      ∧ mesh_edges_node_lookup_ g' = ∅
      ∧ mesh_edges_vertex_lookup_ g' = ∅)
  ∧ (∀ vs, ∃ g',
      setMesh g (Some vs) faces true = Some g'
      ∧ mesh_vertices_ g' = Some vs ∧ mesh_faces_ g' = faces
      ∧ mesh_edges_ g' = ∅
      ∧ mesh_edges_node_lookup_ g' = ∅
      ∧ mesh_edges_vertex_lookup_ g' = ∅)
  ∧ (∀ vs, mesh_consistent g → ∃ g',
      setMesh g (Some vs) faces false = Some g'
      ∧ mesh_vertices_ g' = Some vs ∧ mesh_faces_ g' = faces
      ∧ mesh_consistent g'
      ∧ mesh_edges_ g'
        = filter (λ kv, mesh_vertex kv.2 < vertex_count vs) (mesh_edges_ g)
      ∧ ∀ n v,
          meshEdgeId g' n v
          = (if decide (v < vertex_count vs) then meshEdgeId g n v else None)
          ∧ meshEdgeId_by_vertex g' n v
            = (if decide (v < vertex_count vs)
               then meshEdgeId_by_vertex g n v else None)).
Proof.
  split; [|split].
  - intros invalidate. eexists. split; [done|]. by repeat split.
  - intros vs. eexists. split; [done|]. by repeat split.
  - intros vs Hc. unfold setMesh.
    pose proof (mesh_consistent_set_mesh g (Some vs) faces Hc) as Hc1.
    destruct (invalid_edges_of_spec _ (vertex_count vs) Hc1)
      as (l & Hl & Hmem).
    rewrite Hl. simpl.
    destruct (removeMeshEdge_loop l _ Hc1)
      as (g' & Hfold & Hc' & Honly & Hid & Hed).
    exists g'. split; [done|].
    split; [by rewrite Honly|]. split; [by rewrite Honly|].
    split; [done|].
    assert (Hnode : ∀ n v,
      meshEdgeId g' n v
      = if decide (v < vertex_count vs) then meshEdgeId g n v else None).
    { intros n v. rewrite Hid.
      change (meshEdgeId (set_mesh (Some vs) faces g) n v)
        with (meshEdgeId g n v).
      destruct (decide (mkMeshEdge n v ∈ l)) as [Hin|Hin].
      - apply Hmem in Hin as [_ Hge]. simpl in Hge.
        rewrite decide_False; [done|lia].
      - case_decide as Hlt; [done|].
        destruct (meshEdgeId g n v) as [i|] eqn:Hi; [|done].
        exfalso. apply Hin, Hmem. simpl. split; [by eexists|lia]. }
    split.
    + apply map_eq. intros i. rewrite Hed, map_lookup_filter.
      change (mesh_edges_ (set_mesh (Some vs) faces g)) with (mesh_edges_ g).
      destruct (mesh_edges_ g !! i) as [e|] eqn:He; simpl; [|done].
      apply mesh_consistent_alt in Hc as (_ & _ & H3).
      pose proof (H3 _ _ He) as Hi.
      destruct (decide (e ∈ l)) as [Hin|Hin].
      * apply Hmem in Hin as [_ Hge].
        rewrite option_guard_False; [done|]. simpl. lia.
      * rewrite option_guard_True; [done|]. simpl.
        apply N.lt_nge. intros Hge. apply Hin, Hmem.
        split; [by eexists|done].
    + intros n v. split; [apply Hnode|].
      rewrite !mesh_consistent_indices_agree by done. apply Hnode.
Qed.

End SetMesh.

(** ** Nodes behind layer keys *)

Section NodeAccess.
Context `{LayerInterface}.

Lemma key_eqb_false_cases (k k' : LayerKey) :
  key_eqb k k' = false →
  key_dynamic k ≠ key_dynamic k'
  ∨ (key_dynamic k = false ∧ key_dynamic k' = false
     ∧ key_layer k ≠ key_layer k')
  ∨ (key_dynamic k = true ∧ key_dynamic k' = true
     ∧ (key_layer k ≠ key_layer k' ∨ key_prefix k ≠ key_prefix k')).
Proof.
  unfold key_eqb. destruct k as [l p d], k' as [l' p' d']. simpl.
  destruct d, d'; simpl; intros Heq.
  - right. right. split; [done|]. split; [done|].
    apply andb_false_iff in Heq as [Hl%N.eqb_neq|Hp%N.eqb_neq]; auto.
  - by left.
  - by left.
  - right. left. apply N.eqb_neq in Heq. done.
Qed.

Lemma getDynamicLayer_put (g : DynamicSceneGraph) (l p l' p' : N)
    (x : DynamicSceneGraphLayer) :
  getDynamicLayer (putDynamicLayer l p x g) l' p'
  = if decide ((l', p') = (l, p)) then Some x else getDynamicLayer g l' p'.
Proof.
  unfold getDynamicLayer, putDynamicLayer. simpl.
  destruct (decide (l' = l)) as [->|Hl].
  - rewrite lookup_insert_eq. simpl.
    destruct (decide (p' = p)) as [->|Hp].
    + rewrite lookup_insert_eq. by rewrite decide_True.
    + rewrite lookup_insert_ne by done.
      rewrite decide_False by (by intros [= ?]).
      by destruct (dynamic_layers_ g !! l).
  - rewrite lookup_insert_ne by done.
    by rewrite decide_False by (by intros [= ? ?]).
Qed.

Lemma hasDynamicLayer_get (g : DynamicSceneGraph) (l p : N) :
  hasDynamicLayer g l p = bool_decide (is_Some (getDynamicLayer g l p)).
Proof.
  unfold hasDynamicLayer, getDynamicLayer.
  by destruct (dynamic_layers_ g !! l).
Qed.

Lemma getNodePtr_modifyNode_same (g : DynamicSceneGraph) (n : NodeId)
    (k : LayerKey) (f : SceneGraphNode → SceneGraphNode) :
  getNodePtr (modifyNode n k f g) n k = f <$> getNodePtr g n k.
Proof.
  unfold getNodePtr, modifyNode, getDynamicLayer.
  destruct (key_dynamic k); simpl.
  - rewrite lookup_alter_eq.
    destruct (dynamic_layers_ g !! key_layer k) as [group|]; simpl; [|done].
    rewrite lookup_alter_eq.
    destruct (group !! key_prefix k) as [layer|]; simpl; [|done].
    by rewrite lookup_alter_eq.
  - rewrite lookup_alter_eq.
    destruct (layers_ g !! key_layer k) as [layer|]; simpl; [|done].
    by rewrite lookup_alter_eq.
Qed.

(** Nodes filed under different keys live in different layers: a write
    through one key is not seen through the other. *)
Lemma getNodePtr_modifyNode_other (g : DynamicSceneGraph) (n n' : NodeId)
    (k k' : LayerKey) (f : SceneGraphNode → SceneGraphNode) :
  key_eqb k k' = false →
  getNodePtr (modifyNode n k f g) n' k' = getNodePtr g n' k'.
Proof.
  intros Hk. apply key_eqb_false_cases in Hk.
  unfold getNodePtr, modifyNode, getDynamicLayer.
  destruct Hk as [Hd|[(Hd & Hd' & Hl)|(Hd & Hd' & Hlp)]].
  - destruct (key_dynamic k), (key_dynamic k'); done.
  - rewrite Hd, Hd'. simpl. by rewrite lookup_alter_ne.
  - rewrite Hd, Hd'. simpl.
    destruct (decide (key_layer k = key_layer k')) as [Heq|Hne].
    + rewrite <- Heq. rewrite lookup_alter_eq.
      destruct (dynamic_layers_ g !! key_layer k) as [group|]; simpl; [|done].
      rewrite lookup_alter_ne; [done|]. destruct Hlp; congruence.
    + by rewrite lookup_alter_ne.
Qed.

(** What a write to a node leaves alone. *)
Lemma modifyNode_node_lookup (g : DynamicSceneGraph) (n : NodeId)
    (k : LayerKey) (f : SceneGraphNode → SceneGraphNode) :
  node_lookup_ (modifyNode n k f g) = node_lookup_ g.
Proof. unfold modifyNode. by destruct (key_dynamic k). Qed.

Lemma modifyNode_interlayer_edges (g : DynamicSceneGraph) (n : NodeId)
    (k : LayerKey) (f : SceneGraphNode → SceneGraphNode) :
  interlayer_edges_ (modifyNode n k f g) = interlayer_edges_ g.
Proof. unfold modifyNode. by destruct (key_dynamic k). Qed.

Lemma modifyNode_dynamic_interlayer_edges (g : DynamicSceneGraph)
    (n : NodeId) (k : LayerKey) (f : SceneGraphNode → SceneGraphNode) :
  dynamic_interlayer_edges_ (modifyNode n k f g)
  = dynamic_interlayer_edges_ g.
Proof. unfold modifyNode. by destruct (key_dynamic k). Qed.

End NodeAccess.

(** ** Inserting interlayer edges *)

Section InsertEdge.
Context `{LayerInterface}.

Lemma key_eqb_sym (k k' : LayerKey) : key_eqb k k' = key_eqb k' k.
Proof.
  unfold key_eqb. destruct k as [l p d], k' as [l' p' d']. simpl.
  rewrite (N.eqb_sym l l'), (N.eqb_sym p p'). by destruct d, d'.
Qed.

Lemma hasEdge_interlayer (g : DynamicSceneGraph) (s t : NodeId)
    (ks kt : LayerKey) :
  node_lookup_ g !! s = Some ks →
  node_lookup_ g !! t = Some kt →
  key_eqb ks kt = false →
  hasEdge g s t
  = Some (Edges.contains (interlayer_container ks kt g) s t, Some (ks, kt)).
Proof.
  intros Hs Ht Hk. unfold hasEdge, interlayer_container.
  rewrite Hs, Ht, Hk. by destruct (key_dynamic ks || key_dynamic kt).
Qed.

Lemma contains_insert (c : EdgeContainer) (s t : NodeId) (a : EdgeAttributes) :
  Edges.contains (Edges.insert c s t a) s t = true.
Proof.
  unfold Edges.contains, Edges.insert. simpl.
  apply bool_decide_eq_true. rewrite lookup_insert_eq. eauto.
Qed.

Lemma addAncestry_interlayer (g g1 : DynamicSceneGraph) (s t : NodeId)
    (ks kt : LayerKey) (ok : bool) :
  addAncestry g s t ks kt = Some (ok, g1) →
  interlayer_edges_ g1 = interlayer_edges_ g
  ∧ dynamic_interlayer_edges_ g1 = dynamic_interlayer_edges_ g.
Proof.
  unfold addAncestry. intros Hadd.
  destruct (getNodePtr g s ks) as [ns|]; [|done].
  destruct (getNodePtr g t kt) as [nt|]; [|done]. simpl in Hadd.
  destruct (isParent ks kt); [|destruct (isParent kt ks)].
  1: destruct (hasParent nt).
  3: destruct (hasParent ns).
  all: injection Hadd as <- <-.
  all: by rewrite ?modifyNode_interlayer_edges,
            ?modifyNode_dynamic_interlayer_edges.
Qed.

(** An edge between nodes under different keys that [insertEdge] accepts
    is added to the container picked by the two keys, and the other
    interlayer container is left as it was. *)
Lemma insertEdge_files_interlayer (g g' : DynamicSceneGraph) (s t : NodeId)
    (ks kt : LayerKey) (info : option EdgeAttributes) :
  node_lookup_ g !! s = Some ks →
  node_lookup_ g !! t = Some kt →
  key_eqb ks kt = false →
  insertEdge g s t info = Some (true, g') →
  let attrs := default default_edge_attributes info in
  if key_dynamic ks || key_dynamic kt
  then dynamic_interlayer_edges_ g'
       = Edges.insert (dynamic_interlayer_edges_ g) s t attrs
       ∧ interlayer_edges_ g' = interlayer_edges_ g
  else interlayer_edges_ g' = Edges.insert (interlayer_edges_ g) s t attrs
       ∧ dynamic_interlayer_edges_ g' = dynamic_interlayer_edges_ g.
Proof.
  intros Hs Ht Hk. unfold insertEdge.
  rewrite (hasEdge_interlayer g s t ks kt) by done. simpl.
  destruct (Edges.contains _ s t); [done|]. rewrite Hk.
  destruct (addAncestry g s t ks kt) as [[ok g1]|] eqn:Hadd; [|done].
  simpl. destruct (addAncestry_interlayer _ _ _ _ _ _ _ Hadd) as [Hi Hd].
  destruct ok; [|done]. simpl.
  destruct (key_dynamic ks || key_dynamic kt); intros [= <-]; simpl;
    by rewrite Hi, Hd.
Qed.

(** C4, as amended: for two existing nodes under different keys, [s] in a
    layer that is the parent of [t]'s layer: if [t] has no parent and
    [hasEdge] finds no edge between the two, [insertEdge] returns true,
    sets [t]'s parent to [s], adds [t] to [s]'s children and files the
    edge; and whenever the node that would become the child already has a
    parent, [insertEdge] returns false and the graph is unchanged. *)
Theorem insertEdge_parent_child (g : DynamicSceneGraph) (s t : NodeId)
    (ks kt : LayerKey) (ns nt : SceneGraphNode)
    (info : option EdgeAttributes) :
  node_lookup_ g !! s = Some ks →
  node_lookup_ g !! t = Some kt →
  key_eqb ks kt = false →
  getNodePtr g s ks = Some ns →
  getNodePtr g t kt = Some nt →
  (isParent ks kt = true →
   parent_ nt = None →
   fst <$> hasEdge g s t = Some false →
   ∃ g',
     insertEdge g s t info = Some (true, g')
     ∧ getNodePtr g' t kt = Some (setParent s nt)
     ∧ getNodePtr g' s ks = Some (with_children (λ c, {[t]} ∪ c) ns)
     ∧ Edges.contains (interlayer_container ks kt g') s t = true
     ∧ node_lookup_ g' = node_lookup_ g)
  ∧ ((isParent ks kt = true ∧ is_Some (parent_ nt))
     ∨ (isParent ks kt = false ∧ isParent kt ks = true
        ∧ is_Some (parent_ ns)) →
     insertEdge g s t info = Some (false, g)).
Proof.
  intros Hs Ht Hk Hns Hnt.
  assert (Hk' : key_eqb kt ks = false) by (by rewrite key_eqb_sym).
  split.
  - intros Hpar Hnone Hno.
    assert (Hfree : Edges.contains (interlayer_container ks kt g) s t = false).
    { rewrite (hasEdge_interlayer g s t ks kt) in Hno by done.
      by injection Hno. }
    unfold insertEdge. rewrite (hasEdge_interlayer g s t ks kt) by done.
    simpl. rewrite Hfree, Hk. unfold addAncestry.
    rewrite Hns, Hnt. simpl. rewrite Hpar. unfold hasParent. rewrite Hnone.
    simpl. unfold interlayer_container.
    destruct (key_dynamic ks || key_dynamic kt); eexists;
      (split; [reflexivity|]);
      (split; [|split; [|split]]).
    all: try apply contains_insert.
    all: try (change (getNodePtr (set_dynamic_interlayer_edges ?c ?g') ?n ?k)
                with (getNodePtr g' n k);
              change (getNodePtr (set_interlayer_edges ?c ?g') ?n ?k)
                with (getNodePtr g' n k)).
    all: try (rewrite getNodePtr_modifyNode_same,
                getNodePtr_modifyNode_other, Hnt by done; done).
    all: try (rewrite getNodePtr_modifyNode_other,
                getNodePtr_modifyNode_same, Hns by done; done).
    all: simpl; by rewrite !modifyNode_node_lookup.
  - intros Hchild. unfold insertEdge.
    rewrite (hasEdge_interlayer g s t ks kt) by done. simpl.
    destruct (Edges.contains _ s t); [done|]. rewrite Hk.
    unfold addAncestry. rewrite Hns, Hnt. simpl.
    destruct Hchild as [[Hpar [p Hp]]|(Hnpar & Hpar & [p Hp])].
    + rewrite Hpar. unfold hasParent. by rewrite Hp.
    + rewrite Hnpar, Hpar. unfold hasParent. by rewrite Hp.
Qed.

End InsertEdge.

(** ** Time-indexed node creation *)

Section EmplaceDynamicNode.
Context `{LayerInterface}.

Lemma createDynamicLayer_get (g : DynamicSceneGraph) (l p : N) :
  getDynamicLayer g l p = None →
  (createDynamicLayer g l p).2
  = putDynamicLayer l p (DynLayer.new l p) g.
Proof.
  intros Hnone. unfold createDynamicLayer.
  rewrite hasDynamicLayer_get, Hnone. simpl.
  unfold putDynamicLayer, map_emplace. f_equal.
  unfold getDynamicLayer in Hnone.
  destruct (dynamic_layers_ g !! l) as [group|]; simpl in *.
  - by rewrite Hnone.
  - by rewrite lookup_empty.
Qed.

Lemma getDynamicLayer_set_node_lookup (g : DynamicSceneGraph)
    (x : gmap N LayerKey) (l p : N) :
  getDynamicLayer (set_node_lookup x g) l p = getDynamicLayer g l p.
Proof. done. Qed.

(** C7: the dynamic [emplaceNode] derives the id of the new node from the
    prefix and the next sequence index of the layer instance for
    [(l, p)] (index 0 when there is no such instance yet); if that id is
    taken, it returns false and the graph is unchanged; otherwise the
    instance exists afterwards, neither interlayer edge set is touched, a
    successful call registers the new id under the dynamic key and files
    the node at the sequence index, and with [add_edge] the edge to the
    previous node of the sequence is in the instance's own edge
    container. *)
Theorem emplaceDynamicNode_spec (g : DynamicSceneGraph) (l : LayerId)
    (p : LayerPrefix) (time : N) (attrs : NodeAttributes) (add_edge : bool) :
  let idx := from_option next_node_ 0 (getDynamicLayer g l p) in
  let new_id := makeId p idx in
  (hasNode g new_id = true →
   emplaceDynamicNode g l p time attrs add_edge = Some (false, g))
  ∧ (hasNode g new_id = false →
     ∃ ok g' layer',
       emplaceDynamicNode g l p time attrs add_edge = Some (ok, g')
       ∧ getDynamicLayer g' l p = Some layer'
       ∧ interlayer_edges_ g' = interlayer_edges_ g
       ∧ dynamic_interlayer_edges_ g' = dynamic_interlayer_edges_ g
       ∧ (ok = false → node_lookup_ g' = node_lookup_ g)
       ∧ (ok = true →
          node_lookup_ g' = <[new_id := dynamic_key l p]> (node_lookup_ g)
          ∧ attributes_ <$> dyn_nodes_ layer' !! idx = Some attrs
          ∧ next_node_ layer' = wrap (idx + 1)
          ∧ (dyn_prefix layer' = p →
             node_id <$> dyn_nodes_ layer' !! idx = Some new_id)
          ∧ (add_edge = true → 0 < idx → dyn_prefix layer' = p →
             (∃ layer prev, getDynamicLayer g l p = Some layer
                            ∧ dyn_nodes_ layer !! (idx - 1) = Some prev) →
             Edges.contains (dyn_edges_ layer') (makeId p (idx - 1)) new_id
             = true))).
Proof.
  intros idx new_id. subst idx new_id. unfold emplaceDynamicNode.
  rewrite hasDynamicLayer_get.
  destruct (getDynamicLayer g l p) as [layer|] eqn:Hlayer; simpl.
  - split; [by intros ->|]. intros ->.
    rewrite Hlayer. simpl.
    unfold DynLayer.emplaceNode.
    destruct (bool_decide (time ∈ times_ layer)).
    + exists false, (putDynamicLayer l p layer g), layer.
      split; [done|].
      split; [by rewrite getDynamicLayer_put, decide_True|].
      by repeat split.
    + eexists true, _, _. split; [reflexivity|].
      split; [by rewrite getDynamicLayer_set_node_lookup,
                getDynamicLayer_put, decide_True|].
      split; [done|]. split; [done|]. split; [done|]. intros _.
      split; [done|]. simpl.
      split; [by rewrite lookup_insert_eq|]. split; [done|].
      split; [intros ->; by rewrite lookup_insert_eq|].
      intros -> Hpos -> (layer0 & prev & [= <-] & Hprev).
      rewrite Hprev.
      apply N.ltb_lt in Hpos. rewrite Hpos. simpl.
      apply contains_insert.
  - split; [by intros ->|]. intros ->.
    rewrite createDynamicLayer_get by done.
    rewrite getDynamicLayer_put, decide_True by done. simpl.
    unfold DynLayer.emplaceNode. simpl.
    eexists true, _, _. split; [reflexivity|].
    split; [by rewrite getDynamicLayer_set_node_lookup,
              getDynamicLayer_put, decide_True|].
    split; [done|]. split; [done|]. split; [done|]. intros _.
    split; [done|]. simpl.
    split; [by rewrite lookup_insert_eq|]. split; [done|].
    split; [intros _; by rewrite lookup_insert_eq|].
    intros _ Hpos. lia.
Qed.

End EmplaceDynamicNode.

(** ** Where the code departs from the stated properties *)

Section Defects.
#[local] Existing Instance symbols.

(** C4 as stated, without the condition that no edge is on file: [place1]
    is a node of the coarser static layer 3, [object2] a node of the finer
    layer 2 that has no parent, and [insertEdge place1 object2] returns
    false and leaves the graph as it is.  The edge between the two is on
    file already: it was filed when the parent edge of [object1] was
    rewired to [object2], which had a parent then and so was not given a
    new one.  Every call on the way to this graph succeeds. *)
Lemma insertEdge_refused_without_parent :
  insertEdge Example.with_agent Example.place1 Example.object1 None
  = Some (true, Example.with_parent)
  ∧ insertEdge Example.with_parent Example.place2 Example.object2 None
    = Some (true, Example.two_parents)
  ∧ rewireInterlayerEdge Example.two_parents Example.object1 Example.place1
                         Example.object2 Example.place1
    = Some Example.parent_rewired
  ∧ removeEdge Example.parent_rewired Example.place2 Example.object2
    = Some (true, Example.parent_lost)
  ∧ node_lookup_ Example.parent_lost !! Example.place1 = Some (static_key 3)
  ∧ node_lookup_ Example.parent_lost !! Example.object2
    = Some (static_key 2)
  ∧ isParent (static_key 3) (static_key 2) = true
  ∧ getNodePtr Example.parent_lost Example.object2 (static_key 2)
    = Some (mkNode Example.object2 2 0 None ∅ ∅)
  ∧ insertEdge Example.parent_lost Example.place1 Example.object2 None
    = Some (false, Example.parent_lost).
Proof. repeat split; vm_compute; reflexivity. Qed.

(** C1: [removeNode] unwinds the mesh edges, the parent edge and the child
    edges of the node, but not its sibling edges.  In the example,
    [object1] and [agent0] are siblings through an interlayer edge;
    [removeNode object1] returns true, and afterwards the edge is still in
    the dynamic interlayer set and [agent0] still lists [object1] as a
    sibling, although [object1] is no longer a node of the graph. *)
Theorem removeNode_leaves_sibling_edge :
  ∃ g' agent,
    hasNode Example.with_sibling Example.object1 = true
    ∧ removeNode Example.with_sibling Example.object1 = Some (true, g')
    ∧ hasNode g' Example.object1 = false
    ∧ Edges.contains (dynamic_interlayer_edges_ g')
        Example.object1 Example.agent0 = true
    ∧ getNodePtr g' Example.agent0 (dynamic_key 2 97) = Some agent
    ∧ Example.object1 ∈ siblings_ agent.
Proof.
  destruct (removeNode Example.with_sibling Example.object1)
    as [[b g']|] eqn:Hrm; [|vm_compute in Hrm; discriminate].
  destruct (getNodePtr g' Example.agent0 (dynamic_key 2 97))
    as [agent|] eqn:Hagent;
    [|vm_compute in Hrm; injection Hrm as _ <-;
      vm_compute in Hagent; discriminate].
  exists g', agent.
  vm_compute in Hrm. injection Hrm as <- <-.
  vm_compute in Hagent. injection Hagent as <-.
  repeat split; vm_compute; reflexivity.
Qed.

(** C2: after [removeNode agent0] the sibling edge between [object1] and
    [agent0] stays in the dynamic interlayer set; once the id of [agent0]
    is given to a new node of static layer 2, the edge joins two nodes with
    equal layer keys but is stored in the dynamic interlayer set and not in
    the edge container of layer 2, and [hasEdge] does not find it. *)
Theorem stale_edge_in_wrong_container :
  ∃ key layer,
    node_lookup_ Example.id_reused !! Example.object1 = Some key
    ∧ node_lookup_ Example.id_reused !! Example.agent0 = Some key
    ∧ key_eqb key key = true
    ∧ Edges.contains (dynamic_interlayer_edges_ Example.id_reused)
        Example.object1 Example.agent0 = true
    ∧ layers_ Example.id_reused !! key_layer key = Some layer
    ∧ Layer.hasEdge layer Example.object1 Example.agent0 = false
    ∧ hasEdge Example.id_reused Example.object1 Example.agent0
      = Some (false, Some (key, key)).
Proof.
  destruct (layers_ Example.id_reused !! 2) as [layer|] eqn:Hlayer;
    [|vm_compute in Hlayer; discriminate].
  exists (static_key 2), layer.
  vm_compute in Hlayer. injection Hlayer as <-.
  repeat split; vm_compute; reflexivity.
Qed.

(** C3: [rewireInterlayerEdge] picks the container of the rewired edge
    from the key of the new source and the key of the OLD target.  In the
    example the static edge from [place1] to [object1] is rewired to end at
    the dynamic node [agent0]: the new edge has a dynamic endpoint, yet it
    is stored in the static interlayer set, the dynamic set does not hold
    it and [hasEdge] does not find it. *)
Theorem rewire_files_edge_by_old_target :
  ∃ g',
    rewireInterlayerEdge Example.with_parent
      Example.place1 Example.object1 Example.place1 Example.agent0
    = Some g'
    ∧ key_dynamic <$> node_lookup_ g' !! Example.agent0 = Some true
    ∧ Edges.contains (interlayer_edges_ g') Example.place1 Example.agent0
      = true
    ∧ Edges.contains (dynamic_interlayer_edges_ g')
        Example.place1 Example.agent0 = false
    ∧ Edges.contains (interlayer_edges_ g') Example.place1 Example.object1
      = false
    ∧ hasEdge g' Example.place1 Example.agent0
      = Some (false, Some (static_key 3, dynamic_key 2 97)).
Proof.
  destruct (rewireInterlayerEdge Example.with_parent
              Example.place1 Example.object1 Example.place1 Example.agent0)
    as [g'|] eqn:Hrw; [|vm_compute in Hrw; discriminate].
  exists g'. vm_compute in Hrw. injection Hrw as <-.
  repeat split; vm_compute; reflexivity.
Qed.

End Defects.

(** ** Graphs that only grow

    [ext S S'] says that [S'] has the node index of [S], has every layer
    and every node of [S] (and no further node in those layers), that a
    node with a parent in [S] has a parent in [S'], and that every edge
    on file in [S] is on file in [S'].  Attributes, change markers and the
    mesh tables are free to differ. *)

Section Extension.
Context `{LayerInterface}.

Lemma nodes_ext_refl (m : gmap N SceneGraphNode) : nodes_ext m m.
Proof. intros n. destruct (m !! n); constructor. by intros ?. Qed.

Lemma nodes_ext_trans (m1 m2 m3 : gmap N SceneGraphNode) :
  nodes_ext m1 m2 → nodes_ext m2 m3 → nodes_ext m1 m3.
Proof.
  intros H12 H23 n. specialize (H12 n). specialize (H23 n).
  destruct H12 as [x y Hxy|]; inversion H23 as [? z Hyz|]; subst;
    constructor.
  intros Hx. by apply Hyz, Hxy.
Qed.

Lemma edges_sub_refl (c : EdgeContainer) : edges_sub c c.
Proof. by intros k. Qed.

Lemma edges_sub_trans (c1 c2 c3 : EdgeContainer) :
  edges_sub c1 c2 → edges_sub c2 c3 → edges_sub c1 c3.
Proof. intros H12 H23 k Hk. by apply H23, H12. Qed.

Lemma edges_sub_insert (c : EdgeContainer) (s t : NodeId) (a : EdgeAttributes) :
  edges_sub c (Edges.insert c s t a).
Proof.
  intros k Hk. unfold Edges.insert. simpl.
  destruct (decide (EdgeKey s t = k)) as [<-|Hne].
  - rewrite lookup_insert_eq. eauto.
  - by rewrite lookup_insert_ne.
Qed.

Lemma layer_ext_refl (l : SceneGraphLayer) : layer_ext l l.
Proof. split; [apply nodes_ext_refl|apply edges_sub_refl]. Qed.

Lemma layer_ext_trans (l1 l2 l3 : SceneGraphLayer) :
  layer_ext l1 l2 → layer_ext l2 l3 → layer_ext l1 l3.
Proof.
  intros [Hn12 He12] [Hn23 He23].
  split; [by eapply nodes_ext_trans|by eapply edges_sub_trans].
Qed.

Lemma dyn_ext_refl (d : DynamicSceneGraphLayer) : dyn_ext d d.
Proof. split; [apply nodes_ext_refl|apply edges_sub_refl]. Qed.

Lemma dyn_ext_trans (d1 d2 d3 : DynamicSceneGraphLayer) :
  dyn_ext d1 d2 → dyn_ext d2 d3 → dyn_ext d1 d3.
Proof.
  intros [Hn12 He12] [Hn23 He23].
  split; [by eapply nodes_ext_trans|by eapply edges_sub_trans].
Qed.

Lemma ext_refl (S : DynamicSceneGraph) : ext S S.
Proof.
  split; [done| | |apply edges_sub_refl|apply edges_sub_refl].
  - intros L l Hl. exists l. split; [done|apply layer_ext_refl].
  - intros l p d Hd. exists d. split; [done|apply dyn_ext_refl].
Qed.

Lemma ext_trans (S1 S2 S3 : DynamicSceneGraph) :
  ext S1 S2 → ext S2 S3 → ext S1 S3.
Proof.
  intros [Hl12 Hs12 Hd12 Hi12 Hdi12] [Hl23 Hs23 Hd23 Hi23 Hdi23].
  split.
  - congruence.
  - intros L l Hl. destruct (Hs12 _ _ Hl) as (l2 & Hl2 & He12).
    destruct (Hs23 _ _ Hl2) as (l3 & Hl3 & He23).
    exists l3. split; [done|by eapply layer_ext_trans].
  - intros l p d Hd. destruct (Hd12 _ _ _ Hd) as (d2 & Hd2 & He12).
    destruct (Hd23 _ _ _ Hd2) as (d3 & Hd3 & He23).
    exists d3. split; [done|by eapply dyn_ext_trans].
  - by eapply edges_sub_trans.
  - by eapply edges_sub_trans.
Qed.

(** *** What persists along [ext] *)

Lemma nodes_ext_lookup (m m' : gmap N SceneGraphNode) (n : N)
    (node : SceneGraphNode) :
  nodes_ext m m' → m !! n = Some node →
  ∃ node', m' !! n = Some node' ∧ node_ext node node'.
Proof.
  intros Hext Hn. specialize (Hext n). rewrite Hn in Hext.
  inversion Hext as [? node' Hnode|]; subst. eauto.
Qed.

Lemma nodes_ext_is_Some (m m' : gmap N SceneGraphNode) (n : N) :
  nodes_ext m m' →
  bool_decide (is_Some (m' !! n)) = bool_decide (is_Some (m !! n)).
Proof.
  intros Hext. specialize (Hext n).
  destruct Hext; [rewrite !bool_decide_eq_true_2 by eauto; done|].
  rewrite !bool_decide_eq_false_2 by (by intros [? ?]). done.
Qed.

Lemma ext_getNodePtr (S S' : DynamicSceneGraph) (n : NodeId) (k : LayerKey)
    (node : SceneGraphNode) :
  ext S S' → getNodePtr S n k = Some node →
  ∃ node', getNodePtr S' n k = Some node' ∧ node_ext node node'.
Proof.
  intros Hext. unfold getNodePtr. destruct (key_dynamic k).
  - intros (d & Hd & Hn)%bind_Some.
    destruct (ext_dynamic _ _ Hext _ _ _ Hd) as (d' & Hd' & [Hnodes _]).
    rewrite Hd'. simpl. by eapply nodes_ext_lookup.
  - intros (l & Hl & Hn)%bind_Some.
    destruct (ext_static _ _ Hext _ _ Hl) as (l' & Hl' & [Hnodes _]).
    rewrite Hl'. simpl. by eapply nodes_ext_lookup.
Qed.

Lemma contains_sub (c c' : EdgeContainer) (s t : NodeId) :
  edges_sub c c' → Edges.contains c s t = true → Edges.contains c' s t = true.
Proof.
  intros Hsub. unfold Edges.contains. rewrite !bool_decide_eq_true.
  apply Hsub.
Qed.

Lemma ext_layerFromKey (S S' : DynamicSceneGraph) (k : LayerKey)
    (b : BaseLayer) :
  ext S S' → layerFromKey S k = Some b →
  ∃ b', layerFromKey S' k = Some b' ∧ base_ext b b'.
Proof.
  intros Hext. unfold layerFromKey. destruct (key_dynamic k).
  - intros (d & Hd & ->)%fmap_Some.
    destruct (ext_dynamic _ _ Hext _ _ _ Hd) as (d' & Hd' & Hde).
    rewrite Hd'. simpl. eexists. split; [done|by constructor].
  - intros (l & Hl & ->)%fmap_Some.
    destruct (ext_static _ _ Hext _ _ Hl) as (l' & Hl' & Hle).
    rewrite Hl'. simpl. eexists. split; [done|by constructor].
Qed.

Lemma base_ext_hasEdge (b b' : BaseLayer) (s t : NodeId) :
  base_ext b b' → Base.hasEdge b s t = true → Base.hasEdge b' s t = true.
Proof.
  intros [l l' [_ He]|d d' [_ He]]; simpl;
    unfold Layer.hasEdge, DynLayer.hasEdge; by apply contains_sub.
Qed.

End Extension.

(** ** Re-inserting an edge *)

Section InsertAgain.
Context `{LayerInterface}.

Lemma set_layers_id (S : DynamicSceneGraph) : set_layers (layers_ S) S = S.
Proof. by destruct S. Qed.

Lemma set_dynamic_layers_id (S : DynamicSceneGraph) :
  set_dynamic_layers (dynamic_layers_ S) S = S.
Proof. by destruct S. Qed.

Lemma storeLayer_same (S : DynamicSceneGraph) (k : LayerKey) (b : BaseLayer) :
  layerFromKey S k = Some b → storeLayer k b S = S.
Proof.
  unfold layerFromKey, storeLayer. destruct (key_dynamic k).
  - intros (d & Hd & ->)%fmap_Some. unfold putDynamicLayer.
    unfold getDynamicLayer in Hd.
    apply bind_Some in Hd as (group & Hgroup & Hd).
    rewrite Hgroup. simpl. rewrite (insert_id group) by done.
    rewrite insert_id by done. apply set_dynamic_layers_id.
  - intros (l & Hl & ->)%fmap_Some. unfold putLayer.
    rewrite insert_id by done. apply set_layers_id.
Qed.

Lemma layerFromKey_storeLayer (S : DynamicSceneGraph) (k : LayerKey)
    (b b' : BaseLayer) :
  layerFromKey S k = Some b →
  (match b, b' with
   | StaticLayer _, StaticLayer _ | DynamicLayer _, DynamicLayer _ => True
   | _, _ => False
   end) →
  layerFromKey (storeLayer k b' S) k = Some b'.
Proof.
  unfold layerFromKey, storeLayer. destruct (key_dynamic k).
  - intros (d & Hd & ->)%fmap_Some. destruct b'; [done|]. intros _.
    by rewrite getDynamicLayer_put, decide_True.
  - intros (l & Hl & ->)%fmap_Some. destruct b'; [|done]. intros _.
    unfold putLayer. simpl. by rewrite lookup_insert_eq.
Qed.

Lemma hasEdge_ext (S S' : DynamicSceneGraph) (s t : NodeId) (b : bool)
    (keys : option (LayerKey * LayerKey)) :
  ext S S' → hasEdge S s t = Some (b, keys) →
  ∃ b', hasEdge S' s t = Some (b', keys) ∧ (b = true → b' = true).
Proof.
  intros Hext. unfold hasEdge. rewrite (ext_lookup _ _ Hext).
  destruct (node_lookup_ S !! s) as [ks|]; [|intros [= <- <-]; eauto].
  destruct (node_lookup_ S !! t) as [kt|]; [|intros [= <- <-]; eauto].
  destruct (key_eqb ks kt).
  - intros (layer & Hlayer & [= <- <-])%bind_Some.
    destruct (ext_layerFromKey _ _ _ _ Hext Hlayer) as (layer' & -> & Hbase).
    simpl. eexists. split; [done|]. by apply base_ext_hasEdge.
  - destruct (key_dynamic ks || key_dynamic kt); intros [= <- <-];
      (eexists; split; [done|]); apply contains_sub; apply Hext.
Qed.

(** Writes to a node that keep a parent once it is set. *)
Lemma modifyNode_ext (S : DynamicSceneGraph) (n : NodeId) (k : LayerKey)
    (f : SceneGraphNode → SceneGraphNode) :
  (∀ node, node_ext node (f node)) → ext S (modifyNode n k f S).
Proof.
  intros Hf.
  assert (Halter : ∀ (m : gmap N SceneGraphNode) i,
             nodes_ext m (alter f i m)).
  { intros m i j. destruct (decide (i = j)) as [->|Hne].
    - rewrite lookup_alter_eq. destruct (m !! j); constructor. apply Hf.
    - rewrite lookup_alter_ne by done. apply nodes_ext_refl. }
  unfold modifyNode. destruct (key_dynamic k).
  - split; [done| | |apply edges_sub_refl|apply edges_sub_refl]; simpl.
    + intros L l Hl. exists l. split; [done|apply layer_ext_refl].
    + intros l p d. unfold getDynamicLayer. simpl.
      intros (group & Hgroup & Hd)%bind_Some.
      destruct (decide (key_layer k = l)) as [<-|Hl].
      * rewrite lookup_alter_eq, Hgroup. simpl.
        destruct (decide (key_prefix k = p)) as [<-|Hp].
        { rewrite lookup_alter_eq, Hd. simpl. eexists. split; [done|].
          split; [apply Halter|apply edges_sub_refl]. }
        rewrite lookup_alter_ne by done. exists d.
        split; [done|apply dyn_ext_refl].
      * rewrite lookup_alter_ne, Hgroup by done. simpl. exists d.
        split; [done|apply dyn_ext_refl].
  - split; [done| | |apply edges_sub_refl|apply edges_sub_refl]; simpl.
    + intros L l Hl. destruct (decide (key_layer k = L)) as [<-|HL].
      * rewrite lookup_alter_eq, Hl. simpl. eexists. split; [done|].
        split; [apply Halter|apply edges_sub_refl].
      * rewrite lookup_alter_ne by done. exists l.
        split; [done|apply layer_ext_refl].
    + intros l p d Hd. exists d. split; [done|apply dyn_ext_refl].
Qed.

Lemma addAncestry_ext (S S1 : DynamicSceneGraph) (s t : NodeId)
    (ks kt : LayerKey) (b : bool) :
  addAncestry S s t ks kt = Some (b, S1) → ext S S1.
Proof.
  unfold addAncestry.
  destruct (getNodePtr S s ks) as [ns|]; simpl; [|done].
  destruct (getNodePtr S t kt) as [nt|]; simpl; [|done].
  assert (Hset : ∀ p node, node_ext node (setParent p node)).
  { intros p node _. simpl. eauto. }
  assert (Hch : ∀ f node, node_ext node (with_children f node)).
  { by intros f node Hp. }
  assert (Hsb : ∀ f node, node_ext node (with_siblings f node)).
  { by intros f node Hp. }
  destruct (isParent ks kt).
  - destruct (hasParent nt); intros [= <- <-]; [apply ext_refl|].
    eapply ext_trans; apply modifyNode_ext; auto.
  - destruct (isParent kt ks).
    + destruct (hasParent ns); intros [= <- <-]; [apply ext_refl|].
      eapply ext_trans; apply modifyNode_ext; auto.
    + intros [= <- <-]. eapply ext_trans; apply modifyNode_ext; auto.
Qed.

Lemma ext_set_interlayer_edges (S : DynamicSceneGraph) (s t : NodeId)
    (a : EdgeAttributes) :
  ext S (set_interlayer_edges (Edges.insert (interlayer_edges_ S) s t a) S).
Proof.
  split; [done| | |apply edges_sub_insert|apply edges_sub_refl]; simpl.
  - intros L l Hl. exists l. split; [done|apply layer_ext_refl].
  - intros l p d Hd. exists d. split; [done|apply dyn_ext_refl].
Qed.

Lemma ext_set_dynamic_interlayer_edges (S : DynamicSceneGraph) (s t : NodeId)
    (a : EdgeAttributes) :
  ext S (set_dynamic_interlayer_edges
           (Edges.insert (dynamic_interlayer_edges_ S) s t a) S).
Proof.
  split; [done| | |apply edges_sub_refl|apply edges_sub_insert]; simpl.
  - intros L l Hl. exists l. split; [done|apply layer_ext_refl].
  - intros l p d Hd. exists d. split; [done|apply dyn_ext_refl].
Qed.

Lemma base_insertEdge_spec (b : BaseLayer) (s t : NodeId) (a : EdgeAttributes) :
  ∃ ok b',
    Base.insertEdge b s t a = (ok, b')
    ∧ base_ext b b'
    ∧ (ok = true → Base.hasEdge b' s t = true)
    ∧ (ok = false → b' = b)
    ∧ (Base.hasEdge b s t = false → ok = false →
       ∀ b2 a', base_ext b b2 → Base.hasEdge b2 s t = false →
                Base.insertEdge b2 s t a' = (false, b2)).
Proof.
  destruct b as [l|d]; simpl.
  - unfold Layer.insertEdge.
    destruct (Layer.hasEdge l s t) eqn:Hhas; simpl.
    { exists false, (StaticLayer l). split; [done|].
      split; [constructor; apply layer_ext_refl|]. by repeat split. }
    destruct (Layer.hasNode l s && Layer.hasNode l t) eqn:Hnodes; simpl.
    + eexists true, _. split; [done|].
      split; [constructor; split; [apply nodes_ext_refl|apply edges_sub_insert]|].
      split; [intros _; apply contains_insert|]. by split.
    + exists false, (StaticLayer l). split; [done|].
      split; [constructor; apply layer_ext_refl|].
      split; [done|]. split; [done|]. intros _ _ b2 a' Hb2 Hhas2.
      inversion Hb2 as [? l2 [Hn2 _]|]; subst. simpl in *.
      unfold Layer.insertEdge. rewrite Hhas2.
      unfold Layer.hasNode in *.
      by rewrite !(nodes_ext_is_Some _ _ _ Hn2), Hnodes.
  - unfold DynLayer.insertEdge.
    destruct (DynLayer.hasEdge d s t) eqn:Hhas; simpl.
    { exists false, (DynamicLayer d). split; [done|].
      split; [constructor; apply dyn_ext_refl|]. by repeat split. }
    destruct (DynLayer.hasNode d s && DynLayer.hasNode d t) eqn:Hnodes; simpl.
    + eexists true, _. split; [done|].
      split; [constructor; split; [apply nodes_ext_refl|apply edges_sub_insert]|].
      split; [intros _; apply contains_insert|]. by split.
    + exists false, (DynamicLayer d). split; [done|].
      split; [constructor; apply dyn_ext_refl|].
      split; [done|]. split; [done|]. intros _ _ b2 a' Hb2 Hhas2.
      inversion Hb2 as [|? d2 [Hn2 _]]; subst. simpl in *.
      unfold DynLayer.insertEdge. rewrite Hhas2.
      unfold DynLayer.hasNode in *.
      by rewrite !(nodes_ext_is_Some _ _ _ Hn2), Hnodes.
Qed.


Lemma hasEdge_inv (S : DynamicSceneGraph) (s t : NodeId) (b : bool)
    (ks kt : LayerKey) :
  hasEdge S s t = Some (b, Some (ks, kt)) →
  node_lookup_ S !! s = Some ks ∧ node_lookup_ S !! t = Some kt
  ∧ if key_eqb ks kt
    then ∃ layer, layerFromKey S ks = Some layer ∧ b = Base.hasEdge layer s t
    else b = Edges.contains (interlayer_container ks kt S) s t.
Proof.
  unfold hasEdge, interlayer_container.
  destruct (node_lookup_ S !! s) as [ks'|]; [|done].
  destruct (node_lookup_ S !! t) as [kt'|]; [|done].
  destruct (key_eqb ks' kt') eqn:Hk.
  - intros (layer & Hlayer & [= <- <- <-])%bind_Some. rewrite Hk. eauto.
  - destruct (key_dynamic ks' || key_dynamic kt') eqn:Hd;
      intros [= <- <- <-]; by rewrite Hk, Hd.
Qed.

Lemma hasEdge_intro (S : DynamicSceneGraph) (s t : NodeId) (ks kt : LayerKey) :
  node_lookup_ S !! s = Some ks → node_lookup_ S !! t = Some kt →
  (∀ layer, key_eqb ks kt = true → layerFromKey S ks = Some layer →
            hasEdge S s t = Some (Base.hasEdge layer s t, Some (ks, kt)))
  ∧ (key_eqb ks kt = false →
     hasEdge S s t
     = Some (Edges.contains (interlayer_container ks kt S) s t,
             Some (ks, kt))).
Proof.
  intros Hs Ht. unfold hasEdge, interlayer_container. rewrite Hs, Ht. split.
  - intros layer -> ->. done.
  - intros ->. by destruct (key_dynamic ks || key_dynamic kt).
Qed.

Lemma storeLayer_node_lookup (S : DynamicSceneGraph) (k : LayerKey)
    (b : BaseLayer) :
  node_lookup_ (storeLayer k b S) = node_lookup_ S.
Proof. by destruct b. Qed.

Lemma base_ext_variant (b b' : BaseLayer) :
  base_ext b b' →
  match b, b' with
  | StaticLayer _, StaticLayer _ | DynamicLayer _, DynamicLayer _ => True
  | _, _ => False
  end.
Proof. by intros []. Qed.

Lemma storeLayer_ext (S : DynamicSceneGraph) (k : LayerKey) (b b' : BaseLayer) :
  layerFromKey S k = Some b → base_ext b b' → ext S (storeLayer k b' S).
Proof.
  unfold layerFromKey. intros Hfrom Hbase.
  destruct Hbase as [l l' Hl|d d' Hd]; simpl.
  - destruct (key_dynamic k); [by apply fmap_Some in Hfrom as (? & _ & ?)|].
    apply fmap_Some in Hfrom as (l0 & Hl0 & [= <-]).
    split; [done| | |apply edges_sub_refl|apply edges_sub_refl]; simpl.
    + intros L l1 Hl1. destruct (decide (key_layer k = L)) as [<-|HL].
      * rewrite lookup_insert_eq. eexists. split; [done|]. congruence.
      * rewrite lookup_insert_ne by done. exists l1.
        split; [done|apply layer_ext_refl].
    + intros l1 p d Hd. exists d. split; [done|apply dyn_ext_refl].
  - destruct (key_dynamic k); [|by apply fmap_Some in Hfrom as (? & _ & ?)].
    apply fmap_Some in Hfrom as (d0 & Hd0 & [= <-]).
    split; [done| | |apply edges_sub_refl|apply edges_sub_refl].
    + intros L l1 Hl1. exists l1. split; [done|apply layer_ext_refl].
    + intros l1 p d1 Hd1.
      change (getDynamicLayer
                (putDynamicLayer (key_layer k) (key_prefix k) d' S) l1 p)
        with (getDynamicLayer
                (putDynamicLayer (key_layer k) (key_prefix k) d' S) l1 p).
      unfold storeLayer. rewrite getDynamicLayer_put.
      case_decide as Heq.
      * injection Heq as -> ->. eexists. split; [done|]. congruence.
      * exists d1. split; [done|apply dyn_ext_refl].
Qed.

Lemma addAncestry_false (S S0 : DynamicSceneGraph) (s t : NodeId)
    (ks kt : LayerKey) :
  addAncestry S s t ks kt = Some (false, S0) →
  S0 = S
  ∧ ∃ ns nt, getNodePtr S s ks = Some ns ∧ getNodePtr S t kt = Some nt
      ∧ ((isParent ks kt = true ∧ is_Some (parent_ nt))
         ∨ (isParent ks kt = false ∧ isParent kt ks = true
            ∧ is_Some (parent_ ns))).
Proof.
  unfold addAncestry, hasParent.
  destruct (getNodePtr S s ks) as [ns|]; simpl; [|done].
  destruct (getNodePtr S t kt) as [nt|]; simpl; [|done].
  destruct (isParent ks kt).
  - destruct (parent_ nt) eqn:Hp; [|done]. intros [= <-].
    split; [done|]. exists ns, nt. rewrite Hp. eauto 10.
  - destruct (isParent kt ks); [|done].
    destruct (parent_ ns) eqn:Hp; [|done]. intros [= <-].
    split; [done|]. exists ns, nt. rewrite Hp. eauto 10.
Qed.

Lemma addAncestry_refuses (S : DynamicSceneGraph) (s t : NodeId)
    (ks kt : LayerKey) (ns nt : SceneGraphNode) :
  getNodePtr S s ks = Some ns → getNodePtr S t kt = Some nt →
  (isParent ks kt = true ∧ is_Some (parent_ nt))
  ∨ (isParent ks kt = false ∧ isParent kt ks = true ∧ is_Some (parent_ ns)) →
  addAncestry S s t ks kt = Some (false, S).
Proof.
  intros Hns Hnt Hchild. unfold addAncestry, hasParent.
  rewrite Hns, Hnt. simpl.
  destruct Hchild as [[-> [p ->]]|(-> & -> & [p ->])]; done.
Qed.

(** An [insertEdge] leaves a graph that extends the one it started
    from. *)
Lemma insertEdge_ext (S S1 : DynamicSceneGraph) (s t : NodeId)
    (a : option EdgeAttributes) (b : bool) :
  insertEdge S s t a = Some (b, S1) → ext S S1.
Proof.
  unfold insertEdge.
  destruct (hasEdge S s t) as [[has keys]|] eqn:Hhas; simpl; [|done].
  destruct has; [intros [= <- <-]; apply ext_refl|].
  destruct keys as [[ks kt]|]; [|intros [= <- <-]; apply ext_refl].
  apply hasEdge_inv in Hhas as (Hs & Ht & Hcase).
  destruct (key_eqb ks kt).
  - destruct Hcase as (layer & Hlayer & _). rewrite Hlayer. simpl.
    destruct (base_insertEdge_spec layer s t
                (default default_edge_attributes a))
      as (ok & layer' & -> & Hbase & _).
    intros [= <- <-]. by eapply storeLayer_ext.
  - destruct (addAncestry S s t ks kt) as [[ok S0]|] eqn:Hanc; simpl; [|done].
    apply addAncestry_ext in Hanc.
    destruct ok; simpl; [|by intros [= <- <-]].
    destruct (key_dynamic ks || key_dynamic kt); intros [= <- <-].
    + eapply ext_trans; [done|apply ext_set_dynamic_interlayer_edges].
    + eapply ext_trans; [done|apply ext_set_interlayer_edges].
Qed.

(** Once [insertEdge] has been tried on a pair of nodes, trying it again
    on any extension of the resulting graph returns false and changes
    nothing: either the edge is on file by now, or what made the first
    attempt fail still holds. *)
Lemma insertEdge_again (S S1 S' : DynamicSceneGraph) (s t : NodeId)
    (a a' : option EdgeAttributes) (b : bool) :
  insertEdge S s t a = Some (b, S1) → ext S1 S' →
  insertEdge S' s t a' = Some (false, S').
Proof.
  unfold insertEdge at 1.
  destruct (hasEdge S s t) as [[has keys]|] eqn:Hhas; simpl; [|done].
  destruct has.
  { intros [= <- <-] Hext.
    destruct (hasEdge_ext _ _ _ _ _ _ Hext Hhas) as (b' & Hhas' & Hb').
    unfold insertEdge. rewrite Hhas', Hb' by done. done. }
  destruct keys as [[ks kt]|].
  2:{ intros [= <- <-] Hext.
      destruct (hasEdge_ext _ _ _ _ _ _ Hext Hhas) as (b' & Hhas' & _).
      unfold insertEdge. rewrite Hhas'. simpl. by destruct b'. }
  pose proof (hasEdge_inv _ _ _ _ _ _ Hhas) as (Hs & Ht & Hcase).
  destruct (key_eqb ks kt) eqn:Hk.
  - destruct Hcase as (layer & Hlayer & Hnone). rewrite Hlayer. simpl.
    destruct (base_insertEdge_spec layer s t
                (default default_edge_attributes a))
      as (ok & layer' & -> & Hbase & Hok & Hfail & Hagain).
    intros [= <- <-] Hext. destruct ok.
    + assert (Hhas1 : hasEdge (storeLayer ks layer' S) s t
                      = Some (true, Some (ks, kt))).
      { destruct (hasEdge_intro (storeLayer ks layer' S) s t ks kt)
          as [Hintra _]; [by rewrite storeLayer_node_lookup ..|].
        rewrite (Hintra layer') by
          (try done; by eapply layerFromKey_storeLayer, base_ext_variant).
        by rewrite Hok. }
      destruct (hasEdge_ext _ _ _ _ _ _ Hext Hhas1) as (b' & Hhas' & Hb').
      unfold insertEdge. rewrite Hhas', Hb' by done. done.
    + rewrite Hfail in Hext by done. rewrite storeLayer_same in Hext by done.
      destruct (hasEdge_ext _ _ _ _ _ _ Hext Hhas) as (b' & Hhas' & _).
      unfold insertEdge. rewrite Hhas'. simpl.
      destruct b'; [done|].
      apply hasEdge_inv in Hhas' as (_ & _ & Hcase'). rewrite Hk in Hcase'.
      destruct Hcase' as (layer2 & Hlayer2 & Hnone2).
      rewrite Hk, Hlayer2. simpl.
      destruct (ext_layerFromKey _ _ _ _ Hext Hlayer) as (layer2' & Hl2 & Hb2).
      assert (layer2' = layer2) as -> by congruence.
      rewrite (Hagain (eq_sym Hnone) eq_refl layer2 _ Hb2 (eq_sym Hnone2)).
      by rewrite storeLayer_same.
  - destruct (addAncestry S s t ks kt) as [[ok S0]|] eqn:Hanc; simpl; [|done].
    destruct ok; simpl.
    + pose proof (ext_lookup _ _ (addAncestry_ext _ _ _ _ _ _ _ Hanc)) as Hl0.
      intros Hins Hext.
      assert (Hhas1 : hasEdge S1 s t = Some (true, Some (ks, kt))).
      { destruct (hasEdge_intro S1 s t ks kt) as [_ Hinter].
        - destruct (key_dynamic ks || key_dynamic kt);
            injection Hins as <- <-; simpl; congruence.
        - destruct (key_dynamic ks || key_dynamic kt);
            injection Hins as <- <-; simpl; congruence.
        - rewrite Hinter by done. unfold interlayer_container.
          destruct (key_dynamic ks || key_dynamic kt);
            injection Hins as <- <-; simpl; by rewrite contains_insert. }
      destruct (hasEdge_ext _ _ _ _ _ _ Hext Hhas1) as (b' & Hhas' & Hb').
      unfold insertEdge. rewrite Hhas', Hb' by done. done.
    + intros [= <- <-] Hext.
      apply addAncestry_false in Hanc as (-> & ns & nt & Hns & Hnt & Hchild).
      destruct (hasEdge_ext _ _ _ _ _ _ Hext Hhas) as (b' & Hhas' & _).
      unfold insertEdge. rewrite Hhas'. simpl.
      destruct b'; [done|]. rewrite Hk.
      destruct (ext_getNodePtr _ _ _ _ _ Hext Hns) as (ns' & Hns' & Hes).
      destruct (ext_getNodePtr _ _ _ _ _ Hext Hnt) as (nt' & Hnt' & Het).
      rewrite (addAncestry_refuses S' s t ks kt ns' nt'); [done..|].
      destruct Hchild as [[? ?]|(? & ? & ?)]; [left|right]; auto.
Qed.

End InsertAgain.

(** ** What the mutators leave alone

    [same_nodes S S'] says that [S'] has the node index, the mesh, the
    layer set and, layer by layer, the node set of [S]. *)

Section Frames.
Context `{LayerInterface}.

Lemma same_nodes_refl (S : DynamicSceneGraph) : same_nodes S S.
Proof. split; eauto. Qed.

Lemma same_nodes_trans (S1 S2 S3 : DynamicSceneGraph) :
  same_nodes S1 S2 → same_nodes S2 S3 → same_nodes S1 S3.
Proof.
  intros [? ? ? ? ? Hs12 Hd12] [? ? ? ? ? Hs23 Hd23].
  split; try congruence.
  - intros L l Hl. destruct (Hs12 _ _ Hl) as (l2 & Hl2 & He12).
    destruct (Hs23 _ _ Hl2) as (l3 & Hl3 & He23).
    exists l3. split; [done|congruence].
  - intros l p d Hd. destruct (Hd12 _ _ _ Hd) as (d2 & Hd2 & He12 & Hp12).
    destruct (Hd23 _ _ _ Hd2) as (d3 & Hd3 & He23 & Hp23).
    exists d3. split; [done|]. split; congruence.
Qed.

Lemma same_nodes_hasLayer (S S' : DynamicSceneGraph) (L : LayerId) :
  same_nodes S S' → hasLayer S' L = hasLayer S L.
Proof.
  intros Hsn. unfold hasLayer, hasMesh.
  rewrite (sn_mesh_layer _ _ Hsn), (sn_vertices _ _ Hsn), (sn_faces _ _ Hsn).
  destruct (negb (L =? mesh_layer_id S)); [|done].
  apply bool_decide_ext. rewrite <- !elem_of_dom. by rewrite (sn_layers _ _ Hsn).
Qed.

Lemma same_nodes_foldM {A : Type} (f : DynamicSceneGraph → A → option DynamicSceneGraph)
    (l : list A) :
  (∀ S x S', f S x = Some S' → same_nodes S S') →
  ∀ S S', foldM f l S = Some S' → same_nodes S S'.
Proof.
  intros Hf. induction l as [|x l IH]; intros S S'; simpl.
  - intros [= <-]. apply same_nodes_refl.
  - destruct (f S x) as [S1|] eqn:Hx; simpl; [|done].
    intros Hrest. eapply same_nodes_trans; [by eapply Hf|by apply IH].
Qed.

Lemma mesh_edges_only_same_nodes (S S' : DynamicSceneGraph) :
  mesh_edges_only S S' → same_nodes S S'.
Proof. intros ->. split; eauto. Qed.

Lemma same_nodes_set_interlayer_edges (S : DynamicSceneGraph)
    (c : EdgeContainer) :
  same_nodes S (set_interlayer_edges c S).
Proof. split; eauto. Qed.

Lemma same_nodes_set_dynamic_interlayer_edges (S : DynamicSceneGraph)
    (c : EdgeContainer) :
  same_nodes S (set_dynamic_interlayer_edges c S).
Proof. split; eauto. Qed.

Lemma modifyNode_same_nodes (S : DynamicSceneGraph) (n : NodeId)
    (k : LayerKey) (f : SceneGraphNode → SceneGraphNode) :
  same_nodes S (modifyNode n k f S).
Proof.
  unfold modifyNode. destruct (key_dynamic k).
  - split; simpl; eauto.
    intros l p d. unfold getDynamicLayer. simpl.
    intros (group & Hgroup & Hd)%bind_Some.
    destruct (decide (key_layer k = l)) as [<-|Hl].
    + rewrite lookup_alter_eq, Hgroup. simpl.
      destruct (decide (key_prefix k = p)) as [<-|Hp].
      * rewrite lookup_alter_eq, Hd. simpl. eexists. split; [done|].
        simpl. split; [apply dom_alter_L|done].
      * rewrite lookup_alter_ne by done. eauto.
    + rewrite lookup_alter_ne, Hgroup by done. simpl. eauto.
  - split; simpl; eauto.
    + apply dom_alter_L.
    + intros L l Hl. destruct (decide (key_layer k = L)) as [<-|HL].
      * rewrite lookup_alter_eq, Hl. simpl. eexists. split; [done|].
        simpl. apply dom_alter_L.
      * rewrite lookup_alter_ne by done. eauto.
Qed.

Lemma removeMeshEdge_mesh_edges_only (S S' : DynamicSceneGraph) (s v : N)
    (b : bool) :
  removeMeshEdge S s v = Some (b, S') → mesh_edges_only S S'.
Proof.
  unfold removeMeshEdge. destruct (negb _).
  - intros [= <- <-]. apply mesh_edges_only_refl.
  - intros Hrm.
    destruct (mesh_edges_node_lookup_ S !! s) as [bv|]; simpl in Hrm; [|done].
    destruct (bv !! v); simpl in Hrm; [|done].
    destruct (mesh_edges_vertex_lookup_ S !! v); simpl in Hrm; [|done].
    injection Hrm as <- <-. by destruct S.
Qed.

Lemma removeAncestry_same_nodes (S S' : DynamicSceneGraph) (s t : NodeId)
    (ks kt : LayerKey) :
  removeAncestry S s t ks kt = Some S' → same_nodes S S'.
Proof.
  unfold removeAncestry.
  destruct (getNodePtr S s ks); simpl; [|done].
  destruct (getNodePtr S t kt); simpl; [|done].
  destruct (isParent ks kt); [|destruct (isParent kt ks)]; intros [= <-];
    (eapply same_nodes_trans; apply modifyNode_same_nodes).
Qed.

Lemma removeInterlayerEdge_same_nodes (S S' : DynamicSceneGraph)
    (s t : NodeId) (ks kt : LayerKey) :
  removeInterlayerEdge S s t ks kt = Some S' → same_nodes S S'.
Proof.
  unfold removeInterlayerEdge.
  destruct (removeAncestry S s t ks kt) as [S1|] eqn:Hanc; simpl; [|done].
  apply removeAncestry_same_nodes in Hanc.
  destruct (key_dynamic ks || key_dynamic kt); intros [= <-];
    (eapply same_nodes_trans; [done|]).
  - apply same_nodes_set_dynamic_interlayer_edges.
  - apply same_nodes_set_interlayer_edges.
Qed.

Lemma removeInterlayerEdge2_same_nodes (S S' : DynamicSceneGraph)
    (s t : NodeId) :
  removeInterlayerEdge2 S s t = Some S' → same_nodes S S'.
Proof.
  unfold removeInterlayerEdge2.
  destruct (node_lookup_ S !! s); simpl; [|done].
  destruct (node_lookup_ S !! t); simpl; [|done].
  apply removeInterlayerEdge_same_nodes.
Qed.

(** [removeNode] of a node that the index files under a static key: the
    id leaves the index, every layer is still there, and no node other
    than the removed one leaves its layer. *)
Lemma removeNode_static_frame (S S' : DynamicSceneGraph) (R : NodeId)
    (b : bool) :
  removeNode S R = Some (b, S') →
  (∀ k, node_lookup_ S !! R = Some k → key_dynamic k = false) →
  node_lookup_ S' = delete R (node_lookup_ S)
  ∧ mesh_layer_id S' = mesh_layer_id S
  ∧ mesh_vertices_ S' = mesh_vertices_ S
  ∧ mesh_faces_ S' = mesh_faces_ S
  ∧ dom (layers_ S') = dom (layers_ S)
  ∧ (∀ L l, layers_ S !! L = Some l →
            ∃ l', layers_ S' !! L = Some l'
                  ∧ dom (nodes_ l) ∖ {[R]} ⊆ dom (nodes_ l'))
  ∧ (∀ l p d, getDynamicLayer S l p = Some d →
              ∃ d', getDynamicLayer S' l p = Some d'
                    ∧ dom (dyn_nodes_ d') = dom (dyn_nodes_ d)
                    ∧ dyn_prefix d' = dyn_prefix d).
Proof.
  unfold removeNode. intros Hrm Hstatic.
  destruct (node_lookup_ S !! R) as [info|] eqn:Hinfo.
  2:{ injection Hrm as <- <-. rewrite delete_id by done.
      repeat split; eauto. intros L l Hl. exists l. split; [done|].
      by apply subseteq_difference_l. }
  specialize (Hstatic _ eq_refl).
  destruct (match mesh_edges_node_lookup_ S !! R with
            | Some by_vertex => _ | None => _ end) as [g1|] eqn:H1;
    simpl in Hrm; [|done].
  assert (Hsn1 : same_nodes S g1).
  { destruct (mesh_edges_node_lookup_ S !! R).
    - eapply same_nodes_foldM; [|exact H1]. intros S0 x S0' Hx.
      unfold removeMeshEdge_ in Hx.
      apply fmap_Some in Hx as ([b0 S1] & Hx & ->).
      by eapply mesh_edges_only_same_nodes, removeMeshEdge_mesh_edges_only.
    - injection H1 as <-. apply same_nodes_refl. }
  destruct (getNodePtr g1 R info) as [node|]; simpl in Hrm; [|done].
  destruct (match parent_ node with Some parent => _ | None => _ end)
    as [g2|] eqn:H2; simpl in Hrm; [|done].
  assert (Hsn2 : same_nodes g1 g2).
  { destruct (parent_ node).
    - by eapply removeInterlayerEdge2_same_nodes.
    - injection H2 as <-. apply same_nodes_refl. }
  destruct (getNodePtr g2 R info) as [node'|]; simpl in Hrm; [|done].
  destruct (foldM _ _ g2) as [g3|] eqn:H3; simpl in Hrm; [|done].
  assert (Hsn3 : same_nodes g2 g3).
  { eapply same_nodes_foldM; [|exact H3]. intros S0 x S0'.
    apply removeInterlayerEdge2_same_nodes. }
  pose proof (same_nodes_trans _ _ _ Hsn1 (same_nodes_trans _ _ _ Hsn2 Hsn3))
    as [Hl Hml Hv Hf Hdl Hs Hd].
  unfold layerFromKey in Hrm. rewrite Hstatic in Hrm.
  destruct (layers_ g3 !! key_layer info) as [layer|] eqn:Hlayer;
    simpl in Hrm; [|done].
  injection Hrm as <- <-. simpl.
  split; [by rewrite Hl|]. split; [done|]. split; [done|]. split; [done|].
  split.
  { rewrite dom_insert_L, <- Hdl.
    apply elem_of_dom_2 in Hlayer.
    by apply subseteq_union_1_L, singleton_subseteq_l. }
  split; [|done].
  intros L l HL. destruct (Hs _ _ HL) as (l3 & Hl3 & Hdom).
  destruct (decide (key_layer info = L)) as [<-|Hne].
  - rewrite lookup_insert_eq. eexists. split; [done|].
    assert (l3 = layer) as -> by congruence.
    unfold Layer.removeNode. destruct (Layer.hasNode layer R); simpl.
    + rewrite dom_delete_L, Hdom. done.
    + rewrite Hdom. by apply subseteq_difference_l.
  - rewrite lookup_insert_ne by done. exists l3.
    split; [done|]. rewrite Hdom. by apply subseteq_difference_l.
Qed.


Lemma addAncestry_same_nodes (S S1 : DynamicSceneGraph) (s t : NodeId)
    (ks kt : LayerKey) (b : bool) :
  addAncestry S s t ks kt = Some (b, S1) → same_nodes S S1.
Proof.
  unfold addAncestry.
  destruct (getNodePtr S s ks) as [ns|]; simpl; [|done].
  destruct (getNodePtr S t kt) as [nt|]; simpl; [|done].
  destruct (isParent ks kt).
  - destruct (hasParent nt); intros [= <- <-]; [apply same_nodes_refl|].
    eapply same_nodes_trans; apply modifyNode_same_nodes.
  - destruct (isParent kt ks).
    + destruct (hasParent ns); intros [= <- <-]; [apply same_nodes_refl|].
      eapply same_nodes_trans; apply modifyNode_same_nodes.
    + intros [= <- <-].
      eapply same_nodes_trans; apply modifyNode_same_nodes.
Qed.

Lemma base_insertEdge_same_nodes (S : DynamicSceneGraph) (k : LayerKey)
    (layer : BaseLayer) (s t : NodeId) (a : EdgeAttributes) :
  layerFromKey S k = Some layer →
  same_nodes S (storeLayer k (Base.insertEdge layer s t a).2 S).
Proof.
  unfold layerFromKey. destruct (key_dynamic k).
  - intros (d & Hd & ->)%fmap_Some. simpl.
    assert (Hres : ∃ d', (DynLayer.insertEdge d s t a).2 = d'
                         ∧ dyn_nodes_ d' = dyn_nodes_ d
                         ∧ dyn_prefix d' = dyn_prefix d).
    { unfold DynLayer.insertEdge.
      destruct (DynLayer.hasEdge d s t); [by eexists|].
      destruct (_ && _); by eexists. }
    destruct Hres as (d' & Hd' & Hnodes & Hprefix).
    destruct (DynLayer.insertEdge d s t a) as [ok d2]. simpl in *. subst d2.
    split; eauto.
    intros l p d0 Hd0. rewrite getDynamicLayer_put.
    case_decide as Heq; [|eauto].
    injection Heq as -> ->. exists d'. split; [done|].
    assert (d0 = d) as -> by congruence. by rewrite Hnodes, Hprefix.
  - intros (l & Hl & ->)%fmap_Some. simpl.
    assert (Hres : ∃ l', (Layer.insertEdge l s t a).2 = l'
                         ∧ nodes_ l' = nodes_ l).
    { unfold Layer.insertEdge.
      destruct (Layer.hasEdge l s t); [by eexists|].
      destruct (_ && _); by eexists. }
    destruct Hres as (l' & Hl' & Hnodes).
    destruct (Layer.insertEdge l s t a) as [ok l2]. simpl in *. subst l2.
    split; simpl; eauto.
    + rewrite dom_insert_L. apply elem_of_dom_2 in Hl.
      by apply subseteq_union_1_L, singleton_subseteq_l.
    + intros L l0 Hl0. destruct (decide (key_layer k = L)) as [<-|Hne].
      * rewrite lookup_insert_eq. exists l'. split; [done|].
        assert (l0 = l) as -> by congruence. by rewrite Hnodes.
      * rewrite lookup_insert_ne by done. eauto.
Qed.

Lemma insertEdge_same_nodes (S S1 : DynamicSceneGraph) (s t : NodeId)
    (a : option EdgeAttributes) (b : bool) :
  insertEdge S s t a = Some (b, S1) → same_nodes S S1.
Proof.
  unfold insertEdge.
  destruct (hasEdge S s t) as [[has keys]|]; simpl; [|done].
  destruct has; [intros [= <- <-]; apply same_nodes_refl|].
  destruct keys as [[ks kt]|]; [|intros [= <- <-]; apply same_nodes_refl].
  destruct (key_eqb ks kt).
  - destruct (layerFromKey S ks) as [layer|] eqn:Hlayer; simpl; [|done].
    pose proof (base_insertEdge_same_nodes S ks layer s t
                  (default default_edge_attributes a) Hlayer) as Hsn.
    destruct (Base.insertEdge layer s t _) as [ok layer'].
    by intros [= <- <-].
  - destruct (addAncestry S s t ks kt) as [[ok S0]|] eqn:Hanc; simpl; [|done].
    apply addAncestry_same_nodes in Hanc.
    destruct ok; simpl; [|by intros [= <- <-]].
    destruct (key_dynamic ks || key_dynamic kt); intros [= <- <-];
      (eapply same_nodes_trans; [done|]).
    + apply same_nodes_set_dynamic_interlayer_edges.
    + apply same_nodes_set_interlayer_edges.
Qed.

(** *** The mesh-edge loop of [mergeGraph] *)

Lemma insertMeshEdge_mesh_edges_only (S : DynamicSceneGraph) (s v : N)
    (a : bool) :
  mesh_edges_only S (insertMeshEdge S s v a).2.
Proof.
  unfold insertMeshEdge.
  destruct (negb (hasNode S s)); [apply mesh_edges_only_refl|].
  destruct (negb a && _); [apply mesh_edges_only_refl|].
  destruct (hasMeshEdge S s v); [apply mesh_edges_only_refl|].
  by destruct S.
Qed.

Lemma clearMeshEdges_mesh_edges_only (S : DynamicSceneGraph) :
  mesh_edges_only S (clearMeshEdges S).
Proof. by destruct S. Qed.

Lemma insertMeshEdge_hasMeshEdge (S : DynamicSceneGraph) (e : MeshEdge)
    (a : bool) (n w : N) :
  hasMeshEdge (insertMeshEdge_ a S e) n w
  = hasMeshEdge S n w
    || (mesh_valid S a e && bool_decide (mkMeshEdge n w = e)).
Proof.
  destruct e as [s v]. unfold insertMeshEdge_, insertMeshEdge, mesh_valid.
  simpl. destruct (hasNode S s); simpl; [|by rewrite orb_false_r].
  assert (Hrange : (negb a && match mesh_vertices_ S with
                              | Some vs => vertex_count vs <=? v
                              | None => true
                              end)
                   = negb (a || match mesh_vertices_ S with
                                | Some vs => v <? vertex_count vs
                                | None => false
                                end)).
  { destruct a; simpl; [done|]. destruct (mesh_vertices_ S); [|done].
    by rewrite N.ltb_antisym, negb_involutive. }
  rewrite Hrange. destruct (a || _); simpl; [|by rewrite orb_false_r].
  destruct (hasMeshEdge S s v) eqn:Hhas; simpl.
  - destruct (bool_decide (mkMeshEdge n w = mkMeshEdge s v)) eqn:Heq.
    + apply bool_decide_eq_true in Heq. injection Heq as -> ->.
      by rewrite Hhas.
    + by rewrite orb_false_r.
  - rewrite !hasMeshEdge_meshEdgeId. unfold meshEdgeId. simpl.
    destruct (decide ((s, v) = (n, w))) as [[= -> ->]|Hne].
    + rewrite lookup_insert2_eq. rewrite bool_decide_eq_true_2 by eauto.
      rewrite (bool_decide_eq_true_2 (_ = _)) by done.
      by rewrite orb_true_r.
    + rewrite lookup_insert2_ne by done.
      rewrite (bool_decide_eq_false_2 (_ = _)); [by rewrite orb_false_r|].
      intros [= -> ->]. done.
Qed.

Lemma mesh_valid_mesh_edges_only (S S' : DynamicSceneGraph) (a : bool)
    (e : MeshEdge) :
  mesh_edges_only S S' → mesh_valid S' a e = mesh_valid S a e.
Proof. by intros ->. Qed.

Lemma existsb_pointwise {A : Type} (f g : A → bool) (l : list A) :
  (∀ x, f x = g x) → existsb f l = existsb g l.
Proof. intros Hfg. induction l as [|x l IH]; simpl; [done|]. by rewrite Hfg, IH. Qed.

Lemma mesh_loop (a : bool) (es : list MeshEdge) :
  ∀ S : DynamicSceneGraph,
    mesh_edges_only S (foldl (insertMeshEdge_ a) S es)
    ∧ ∀ n w, hasMeshEdge (foldl (insertMeshEdge_ a) S es) n w
             = hasMeshEdge S n w
               || existsb (λ e, mesh_valid S a e
                                && bool_decide (mkMeshEdge n w = e)) es.
Proof.
  induction es as [|e es IH]; intros S; simpl.
  - split; [apply mesh_edges_only_refl|]. intros. by rewrite orb_false_r.
  - destruct (IH (insertMeshEdge_ a S e)) as [Honly Hhas].
    pose proof (insertMeshEdge_mesh_edges_only S (source_node e)
                  (mesh_vertex e) a) as Hstep.
    split; [by eapply mesh_edges_only_trans|].
    intros n w. rewrite Hhas, insertMeshEdge_hasMeshEdge, <- orb_assoc.
    f_equal. f_equal. apply existsb_pointwise.
    intros e'. by rewrite (mesh_valid_mesh_edges_only _ _ _ _ Hstep).
Qed.

Lemma mesh_edges_only_ext (S S' : DynamicSceneGraph) :
  mesh_edges_only S S' → ext S S'.
Proof.
  intros ->.
  split; [done| | |apply edges_sub_refl|apply edges_sub_refl].
  - intros L l Hl. exists l. split; [done|apply layer_ext_refl].
  - intros l p d Hd. exists d. split; [done|apply dyn_ext_refl].
Qed.

End Frames.

(** ** Merging layers *)

Section MergeLayer.
Context `{LayerInterface}.

Lemma refresh_parent (update : bool) (theirs : gmap N SceneGraphNode)
    (n : N) (mine node : SceneGraphNode) :
  refresh update theirs n mine = Some node → parent_ node = parent_ mine.
Proof.
  unfold refresh. intros [= <-].
  destruct update; [|done]. by destruct (theirs !! n).
Qed.

Lemma merged_nodes_lookup (mine theirs : gmap N SceneGraphNode)
    (mk : N → SceneGraphNode → SceneGraphNode) (update : bool) (n : N) :
  (map_imap (λ i node, Some (mk i node)) (theirs ∖ mine)
   ∪ map_imap (refresh update theirs) mine) !! n
  = match mine !! n with
    | Some node => refresh update theirs n node
    | None => mk n <$> theirs !! n
    end.
Proof.
  rewrite lookup_union, !map_lookup_imap, lookup_difference.
  destruct (mine !! n) as [node|]; simpl; [done|].
  by destruct (theirs !! n).
Qed.

Lemma merged_nodes_is_Some (mine theirs : gmap N SceneGraphNode)
    (mk : N → SceneGraphNode → SceneGraphNode) (update : bool) (n : N) :
  is_Some ((map_imap (λ i node, Some (mk i node)) (theirs ∖ mine)
            ∪ map_imap (refresh update theirs) mine) !! n)
  ↔ is_Some (mine !! n) ∨ is_Some (theirs !! n).
Proof.
  rewrite merged_nodes_lookup.
  destruct (mine !! n) as [node|]; simpl.
  - split; [eauto|]. intros _. unfold refresh. eauto.
  - rewrite fmap_is_Some. split; [eauto|]. by intros [[? ?]|?].
Qed.

Lemma difference_covered (mine theirs : gmap N SceneGraphNode) :
  (∀ n, is_Some (theirs !! n) → is_Some (mine !! n)) → theirs ∖ mine = ∅.
Proof.
  intros Hcov. apply map_eq. intros n.
  rewrite lookup_difference, lookup_empty.
  destruct (mine !! n) eqn:Hm; [done|].
  destruct (theirs !! n) eqn:Ht; [|done].
  destruct (Hcov n) as [? ?]; [eauto|congruence].
Qed.

Lemma merged_nodes_ext (mine theirs : gmap N SceneGraphNode)
    (mk : N → SceneGraphNode → SceneGraphNode) (update : bool) :
  (∀ n, is_Some (theirs !! n) → is_Some (mine !! n)) →
  nodes_ext mine
    (map_imap (λ i node, Some (mk i node)) (theirs ∖ mine)
     ∪ map_imap (refresh update theirs) mine).
Proof.
  intros Hcov n. rewrite merged_nodes_lookup.
  destruct (mine !! n) as [node|] eqn:Hm; simpl.
  - constructor. unfold node_ext.
    by rewrite (refresh_parent update theirs n node _ eq_refl).
  - destruct (theirs !! n) eqn:Ht; simpl; [|constructor].
    destruct (Hcov n) as [? ?]; [eauto|congruence].
Qed.

End MergeLayer.

(** ** Merging nodes that are already there *)

Section Quiet.
Context `{LayerInterface}.

Lemma quiet_refl (S : DynamicSceneGraph) : quiet S S.
Proof.
  split; [apply ext_refl|apply same_nodes_refl|done..].
Qed.

Lemma mesh_edges_only_fields (S S' : DynamicSceneGraph) :
  mesh_edges_only S S' ↔
  mesh_layer_id S' = mesh_layer_id S ∧ layer_ids S' = layer_ids S
  ∧ layers_ S' = layers_ S ∧ dynamic_layers_ S' = dynamic_layers_ S
  ∧ node_lookup_ S' = node_lookup_ S
  ∧ interlayer_edges_ S' = interlayer_edges_ S
  ∧ dynamic_interlayer_edges_ S' = dynamic_interlayer_edges_ S
  ∧ mesh_vertices_ S' = mesh_vertices_ S ∧ mesh_faces_ S' = mesh_faces_ S.
Proof.
  unfold mesh_edges_only. split.
  - intros ->. by repeat split.
  - intros (? & ? & ? & ? & ? & ? & ? & ? & ?).
    destruct S, S'. simpl in *. by subst.
Qed.

Lemma quiet_trans (S1 S2 S3 : DynamicSceneGraph) :
  quiet S1 S2 → quiet S2 S3 → quiet S1 S3.
Proof.
  intros [He12 Hs12 Hi12 Hd12 Hm12] [He23 Hs23 Hi23 Hd23 Hm23].
  split; [by eapply ext_trans|by eapply same_nodes_trans|congruence..].
Qed.

Lemma same_nodes_covers_static (o S S' : DynamicSceneGraph) :
  same_nodes S S' → covers_static o S → covers_static o S'.
Proof.
  intros Hsn Hcov L lo Hlo Hhas.
  rewrite (same_nodes_hasLayer _ _ _ Hsn) in Hhas.
  destruct (Hcov _ _ Hlo Hhas) as (l & Hl & Hnodes).
  destruct (sn_static _ _ Hsn _ _ Hl) as (l' & Hl' & Hdom).
  exists l'. split; [done|]. intros n Hn.
  apply elem_of_dom. rewrite Hdom. apply elem_of_dom. auto.
Qed.

Lemma same_nodes_covers_dynamic (o S S' : DynamicSceneGraph) :
  same_nodes S S' → covers_dynamic o S → covers_dynamic o S'.
Proof.
  intros Hsn Hcov l p dlo Hdlo.
  destruct (Hcov _ _ _ Hdlo) as (d & Hd & Hnodes).
  destruct (sn_dynamic _ _ Hsn _ _ _ Hd) as (d' & Hd' & Hdom & _).
  exists d'. split; [done|]. intros n Hn.
  apply elem_of_dom. rewrite Hdom. apply elem_of_dom. auto.
Qed.

Lemma nodes_ext_dom (m m' : gmap N SceneGraphNode) :
  nodes_ext m m' → dom m' = dom m.
Proof.
  intros Hext. apply set_eq. intros n. rewrite !elem_of_dom.
  specialize (Hext n). destruct Hext; [by split; eauto|].
  split; by intros [? ?].
Qed.

(** Merging a dynamic layer whose nodes are all there already. *)
Lemma mergeDynamicLayer_quiet (S : DynamicSceneGraph) (l p : N)
    (d dlo : DynamicSceneGraphLayer) (update_dynamic : bool) :
  getDynamicLayer S l p = Some d →
  (∀ idx, is_Some (dyn_nodes_ dlo !! idx) → is_Some (dyn_nodes_ d !! idx)) →
  ∃ S', mergeDynamicLayer update_dynamic l S (p, dlo) = Some S'
        ∧ quiet S S'.
Proof.
  intros Hd Hcov. unfold mergeDynamicLayer. simpl.
  rewrite hasDynamicLayer_get, Hd. simpl. rewrite Hd. simpl.
  rewrite (difference_covered _ _ Hcov).
  rewrite map_to_list_empty. simpl. rewrite (left_id_L ∅ (∪)).
  eexists. split; [done|].
  pose proof (merged_nodes_ext (dyn_nodes_ d) (dyn_nodes_ dlo)
                (λ idx node, mkNode (makeId (dyn_prefix d) idx) (dyn_id d)
                                    (attributes_ node) None ∅ ∅)
                update_dynamic Hcov) as Hnodes.
  rewrite (difference_covered _ _ Hcov) in Hnodes.
  split; simpl.
  - split; [done| | |apply edges_sub_refl|apply edges_sub_refl]; simpl.
    + intros L l0 Hl0. exists l0. split; [done|apply layer_ext_refl].
    + intros l0 p0 d0 Hd0.
      change (getDynamicLayer (set_node_lookup ?x ?g) l0 p0)
        with (getDynamicLayer g l0 p0).
      rewrite getDynamicLayer_put. case_decide as Heq.
      * injection Heq as -> ->. eexists. split; [done|].
        assert (d0 = d) as -> by congruence.
        split; [exact Hnodes|apply edges_sub_refl].
      * exists d0. split; [done|apply dyn_ext_refl].
  - split; simpl; eauto.
    intros l0 p0 d0 Hd0.
    change (getDynamicLayer (set_node_lookup ?x ?g) l0 p0)
      with (getDynamicLayer g l0 p0).
    rewrite getDynamicLayer_put. case_decide as Heq; [|eauto].
    injection Heq as -> ->. eexists. split; [done|].
    assert (d0 = d) as -> by congruence. simpl.
    split; [by apply nodes_ext_dom|done].
  - done.
  - done.
  - done.
Qed.

(** Merging a static layer whose nodes are all there already. *)
Lemma mergeStaticLayer_quiet (o S : DynamicSceneGraph) (L : N)
    (lo : SceneGraphLayer) (update_map : option (gmap N bool))
    (removed : list NodeId) :
  covers_static o S → layers_ o !! L = Some lo →
  ∃ S', mergeStaticLayer update_map (S, removed) (L, lo)
        = Some (S', removed ++ if hasLayer S L then Layer.removedNodes lo
                               else [])
        ∧ quiet S S'.
Proof.
  intros Hcov Hlo. unfold mergeStaticLayer. simpl.
  destruct (hasLayer S L) eqn:Hhas; simpl.
  2:{ exists S. rewrite app_nil_r. split; [done|apply quiet_refl]. }
  destruct (Hcov _ _ Hlo Hhas) as (l & Hl & Hnodes).
  rewrite Hl. simpl. rewrite (difference_covered _ _ Hnodes).
  rewrite fmap_empty, (left_id_L ∅ (∪)).
  eexists. split; [done|].
  pose proof (merged_nodes_ext (nodes_ l) (nodes_ lo)
                (λ n node, mkNode n (layer_id l) (attributes_ node) None ∅ ∅)
                (match update_map with
                 | Some m => default true (m !! L)
                 | None => true
                 end) Hnodes) as Hext.
  rewrite (difference_covered _ _ Hnodes) in Hext.
  split; simpl.
  - split; [done| | |apply edges_sub_refl|apply edges_sub_refl]; simpl.
    + intros L0 l0 Hl0. destruct (decide (L = L0)) as [<-|Hne].
      * rewrite lookup_insert_eq. eexists. split; [done|].
        assert (l0 = l) as -> by congruence.
        split; [exact Hext|apply edges_sub_refl].
      * rewrite lookup_insert_ne by done. exists l0.
        split; [done|apply layer_ext_refl].
    + intros l0 p0 d0 Hd0. exists d0. split; [done|apply dyn_ext_refl].
  - split; simpl; eauto.
    + rewrite dom_insert_L. apply elem_of_dom_2 in Hl.
      by apply subseteq_union_1_L, singleton_subseteq_l.
    + intros L0 l0 Hl0. destruct (decide (L = L0)) as [<-|Hne].
      * rewrite lookup_insert_eq. eexists. split; [done|].
        assert (l0 = l) as -> by congruence. simpl.
        by apply nodes_ext_dom.
      * rewrite lookup_insert_ne by done. eauto.
  - done.
  - done.
  - done.
Qed.

End Quiet.

(** ** Merging nodes into a graph *)

Section Grows.
Context `{LayerInterface}.
Variable o : DynamicSceneGraph.

Lemma grows_refl (S : DynamicSceneGraph) : grows o S S.
Proof. split; eauto. Qed.

Lemma grows_trans (S1 S2 S3 : DynamicSceneGraph) :
  grows o S1 S2 → grows o S2 S3 → grows o S1 S3.
Proof.
  intros [? ? ? ? Hs12 Hd12 Hl12] [? ? ? ? Hs23 Hd23 Hl23].
  split; try congruence.
  - intros L l Hl. destruct (Hs12 _ _ Hl) as (l2 & Hl2 & Hn12).
    destruct (Hs23 _ _ Hl2) as (l3 & Hl3 & Hn23). eauto.
  - intros l p d Hd. destruct (Hd12 _ _ _ Hd) as (d2 & Hd2 & Hn12).
    destruct (Hd23 _ _ _ Hd2) as (d3 & Hd3 & Hn23). eauto.
  - intros X. destruct (Hl23 X) as [Heq|[Hnew|Hst]]; [|by auto..].
    rewrite Heq. destruct (Hl12 X) as [Heq'|[Hnew|(k & Hk & Hst)]]; auto.
Qed.

Lemma grows_hasLayer (S S' : DynamicSceneGraph) (L : LayerId) :
  grows o S S' → hasLayer S' L = hasLayer S L.
Proof.
  intros Hg. unfold hasLayer, hasMesh.
  rewrite (g_mesh_layer _ _ _ Hg), (g_vertices _ _ _ Hg), (g_faces _ _ _ Hg).
  destruct (negb (L =? mesh_layer_id S)); [|done].
  apply bool_decide_ext. rewrite <- !elem_of_dom. by rewrite (g_layers _ _ _ Hg).
Qed.

Lemma prefixes_agree_alt (S : DynamicSceneGraph) :
  prefixes_agree S ↔
  ∀ l p d, getDynamicLayer S l p = Some d → dyn_prefix d = p.
Proof.
  unfold prefixes_agree, map_Forall, getDynamicLayer. split.
  - intros Hp l p d (group & Hgroup & Hd)%bind_Some. by eapply Hp.
  - intros Hp l group Hgroup p d Hd. apply (Hp l). apply bind_Some. eauto.
Qed.

(** One dynamic layer of [o] is merged. *)
Lemma mergeDynamicLayer_grows (S S' : DynamicSceneGraph) (l p : N)
    (dlo : DynamicSceneGraphLayer) (update_dynamic : bool) :
  prefixes_agree S → getDynamicLayer o l p = Some dlo →
  mergeDynamicLayer update_dynamic l S (p, dlo) = Some S' →
  grows o S S' ∧ prefixes_agree S'
  ∧ ∃ d, getDynamicLayer S' l p = Some d
         ∧ ∀ idx, is_Some (dyn_nodes_ dlo !! idx) →
                  is_Some (dyn_nodes_ d !! idx).
Proof.
  intros Hpre Hdlo. unfold mergeDynamicLayer. simpl.
  pose proof (proj1 (prefixes_agree_alt S) Hpre) as Hpre'.
  set (g1 := if hasDynamicLayer S l p then S
             else (createDynamicLayer S l p).2).
  assert (Hg1 : ∃ mine,
             getDynamicLayer g1 l p = Some mine ∧ dyn_prefix mine = p
             ∧ grows o S g1 ∧ prefixes_agree g1
             ∧ node_lookup_ g1 = node_lookup_ S).
  { subst g1. rewrite hasDynamicLayer_get.
    destruct (getDynamicLayer S l p) as [mine|] eqn:Hmine; simpl.
    - exists mine. split; [done|].
      split; [by eapply Hpre'|].
      split; [apply grows_refl|done].
    - rewrite createDynamicLayer_get by done.
      exists (DynLayer.new l p).
      split; [by rewrite getDynamicLayer_put, decide_True|].
      split; [done|]. split; [|split; [|done]].
      + split; simpl; eauto.
        intros l0 p0 d0 Hd0. rewrite getDynamicLayer_put.
        case_decide as Heq; [|eauto]. injection Heq as -> ->. congruence.
      + apply prefixes_agree_alt. intros l0 p0 d0.
        rewrite getDynamicLayer_put. case_decide as Heq.
        * injection Heq as -> ->. by intros [= <-].
        * apply Hpre'. }
  destruct Hg1 as (mine & Hmine & Hprefix & Hgrow1 & Hpre1 & Hlook1).
  rewrite Hmine. simpl. intros [= <-].
  split; [|split].
  - eapply grows_trans; [exact Hgrow1|].
    split; simpl; eauto.
    + intros l0 p0 d0 Hd0.
      change (getDynamicLayer (set_node_lookup ?x ?g) l0 p0)
        with (getDynamicLayer g l0 p0).
      rewrite getDynamicLayer_put. case_decide as Heq; [|eauto].
      injection Heq as -> ->. eexists. split; [done|].
      assert (d0 = mine) as -> by congruence. simpl.
      intros idx Hidx. apply merged_nodes_is_Some. by left.
    + intros X. rewrite lookup_union.
      destruct (list_to_map _ !! X) as [k|] eqn:Hnew; [|left].
      * right. left.
        apply elem_of_list_to_map_2, list_elem_of_fmap in Hnew
          as ([idx node] & [= -> _] & Hin).
        apply elem_of_map_to_list, lookup_difference_Some in Hin as [Hin _].
        exists l, p, dlo, idx. simpl. rewrite Hprefix. eauto.
      * by rewrite (left_id_L None (∪)).
  - apply prefixes_agree_alt. intros l0 p0 d0.
    change (getDynamicLayer (set_node_lookup ?x ?g) l0 p0)
      with (getDynamicLayer g l0 p0).
    rewrite getDynamicLayer_put. case_decide as Heq.
    + injection Heq as -> ->. by intros [= <-].
    + apply (proj1 (prefixes_agree_alt g1) Hpre1).
  - eexists. split.
    + change (getDynamicLayer (set_node_lookup ?x ?g) l p)
        with (getDynamicLayer g l p).
      by rewrite getDynamicLayer_put, decide_True.
    + simpl. intros idx Hidx. apply merged_nodes_is_Some. by right.
Qed.

(** One static layer of [o] is merged (or skipped). *)
Lemma mergeStaticLayer_grows (S S' : DynamicSceneGraph) (L : N)
    (lo : SceneGraphLayer) (update_map : option (gmap N bool))
    (removed removed' : list NodeId) :
  mergeStaticLayer update_map (S, removed) (L, lo) = Some (S', removed') →
  grows o S S'
  ∧ dynamic_layers_ S' = dynamic_layers_ S
  ∧ removed' = removed ++ (if hasLayer S L then Layer.removedNodes lo
                           else [])
  ∧ (hasLayer S L = true →
     ∃ l', layers_ S' !! L = Some l'
           ∧ ∀ n, is_Some (nodes_ lo !! n) → is_Some (nodes_ l' !! n)).
Proof.
  unfold mergeStaticLayer. simpl.
  destruct (hasLayer S L); simpl.
  2:{ intros [= <- <-]. rewrite app_nil_r.
      split; [apply grows_refl|]. by repeat split. }
  destruct (layers_ S !! L) as [l|] eqn:Hl; simpl; [|done].
  intros [= <- <-]. split; [|split; [done|split; [done|]]].
  - split; simpl; eauto.
    + rewrite dom_insert_L. apply elem_of_dom_2 in Hl.
      by apply subseteq_union_1_L, singleton_subseteq_l.
    + intros L0 l0 Hl0. destruct (decide (L = L0)) as [<-|Hne].
      * rewrite lookup_insert_eq. eexists. split; [done|]. simpl.
        assert (l0 = l) as -> by congruence.
        intros n Hn. apply merged_nodes_is_Some. by left.
      * rewrite lookup_insert_ne by done. eauto.
    + intros X. rewrite lookup_union, lookup_fmap.
      destruct ((nodes_ lo ∖ nodes_ l) !! X); simpl.
      * right. right. exists (static_key (layer_id l)).
        split; [by destruct (node_lookup_ S !! X)|done].
      * left. by rewrite (left_id_L None (∪)).
  - intros _. simpl. rewrite lookup_insert_eq. eexists. split; [done|].
    simpl. intros n Hn. apply merged_nodes_is_Some. by right.
Qed.

End Grows.

(** ** The phases of [mergeGraph] *)

Section Phases.
Context `{LayerInterface}.
Variable o : DynamicSceneGraph.

Lemma grows_covers_dynamic (S S' : DynamicSceneGraph) :
  grows o S S' → covers_dynamic o S → covers_dynamic o S'.
Proof.
  intros Hg Hcov l p dlo Hdlo.
  destruct (Hcov _ _ _ Hdlo) as (d & Hd & Hnodes).
  destruct (g_dynamic _ _ _ Hg _ _ _ Hd) as (d' & Hd' & Hincl). eauto.
Qed.

Lemma foldM_grows {A : Type}
    (f : DynamicSceneGraph → A → option DynamicSceneGraph)
    (I : DynamicSceneGraph → Prop) (P : A → DynamicSceneGraph → Prop)
    (items : list A) :
  (∀ x S S', grows o S S' → P x S → P x S') →
  (∀ S x S', x ∈ items → I S → f S x = Some S' →
             grows o S S' ∧ I S' ∧ P x S') →
  ∀ S S', I S → foldM f items S = Some S' →
          grows o S S' ∧ I S' ∧ ∀ x, x ∈ items → P x S'.
Proof.
  intros Hmono. induction items as [|x items IH]; intros Hstep S S' HI; simpl.
  - intros [= <-]. split; [apply grows_refl|]. split; [done|].
    by intros x Hx%elem_of_nil.
  - destruct (f S x) as [S1|] eqn:Hx; simpl; [|done]. intros Hrest.
    destruct (Hstep S x S1) as (Hg1 & HI1 & HP1);
      [apply list_elem_of_here|done..|].
    destruct (IH (λ S0 y S0' Hy, Hstep S0 y S0' (list_elem_of_further _ _ _ Hy))
                 S1 S' HI1 Hrest) as (Hg & HI' & HP).
    split; [by eapply grows_trans|]. split; [done|].
    intros y [->|Hy]%elem_of_cons; [by eapply Hmono|by apply HP].
Qed.

(** The dynamic layers of [o] are merged: afterwards the dynamic layers of
    the graph hold every dynamic node of [o]. *)
Lemma mergeDynamicLayers_grows (g S : DynamicSceneGraph)
    (update_dynamic : bool) :
  prefixes_agree g → mergeDynamicLayers g o update_dynamic = Some S →
  grows o g S ∧ covers_dynamic o S.
Proof.
  intros Hpre Hmerge. unfold mergeDynamicLayers in Hmerge.
  pose (Pin := λ (l : N) (x : N * DynamicSceneGraphLayer)
                 (S0 : DynamicSceneGraph),
          ∃ d, getDynamicLayer S0 l x.1 = Some d
               ∧ ∀ idx, is_Some (dyn_nodes_ x.2 !! idx) →
                        is_Some (dyn_nodes_ d !! idx)).
  assert (Hmono : ∀ l x S0 S0', grows o S0 S0' → Pin l x S0 → Pin l x S0').
  { intros l x S0 S0' Hg (d & Hd & Hincl).
    destruct (g_dynamic _ _ _ Hg _ _ _ Hd) as (d' & Hd' & Hincl').
    exists d'. eauto. }
  destruct (foldM_grows
              (λ g' (id_layers : N * gmap N DynamicSceneGraphLayer),
                 foldM (mergeDynamicLayer update_dynamic id_layers.1)
                       (ascending id_layers.2) g')
              prefixes_agree
              (λ id_layers S0,
                 ∀ x, x ∈ ascending id_layers.2 → Pin id_layers.1 x S0)
              (ascending (dynamic_layers_ o))) with g S
    as (Hgrow & _ & Hall); [| |done|done|].
  - intros [l group] S0 S0' Hg HP x Hx. eapply Hmono; [done|]. by apply HP.
  - intros S0 [l group] S0' Hgroup%elem_of_ascending HI Hfold. simpl in *.
    eapply (foldM_grows (mergeDynamicLayer update_dynamic l) prefixes_agree
              (Pin l) (ascending group)); [apply Hmono| |done|done].
    intros S1 [p dlo] S1' Hdlo%elem_of_ascending HI1 Hstep.
    eapply mergeDynamicLayer_grows; [done| |done].
    unfold getDynamicLayer. rewrite Hgroup. done.
  - split; [done|]. intros l p dlo (group & Hgroup & Hdlo)%bind_Some.
    apply (Hall (l, group) (proj2 (elem_of_ascending _ _ _) Hgroup)
                (p, dlo) (proj2 (elem_of_ascending _ _ _) Hdlo)).
Qed.

(** The static layers of [o] are merged: afterwards every layer the graph
    shares with [o] holds the nodes of [o]'s layer, and the collected list
    holds exactly the removed nodes of the shared layers. *)
Lemma mergeStaticLayers_grows (update_map : option (gmap N bool))
    (items : list (N * SceneGraphLayer)) :
  ∀ (S S' : DynamicSceneGraph) (removed removed' : list NodeId),
    foldM (mergeStaticLayer update_map) items (S, removed)
    = Some (S', removed') →
    grows o S S'
    ∧ dynamic_layers_ S' = dynamic_layers_ S
    ∧ (∀ x, x ∈ items → hasLayer S x.1 = true →
            ∃ l', layers_ S' !! x.1 = Some l'
                  ∧ ∀ n, is_Some (nodes_ x.2 !! n) → is_Some (nodes_ l' !! n))
    ∧ (∀ R, R ∈ removed' ↔
            R ∈ removed
            ∨ ∃ x, x ∈ items ∧ hasLayer S x.1 = true
                   ∧ R ∈ Layer.removedNodes x.2).
Proof.
  induction items as [|[L lo] items IH]; intros S S' removed removed';
    cbn [foldM].
  - intros [= <- <-]. split; [apply grows_refl|]. split; [done|].
    split; [by intros x Hx%elem_of_nil|].
    intros R. split; [auto|]. intros [?|(x & Hx%elem_of_nil & _)]; done.
  - destruct (mergeStaticLayer update_map (S, removed) (L, lo))
      as [[S1 removed1]|] eqn:Hstep; simpl; [|done].
    intros Hrest.
    apply mergeStaticLayer_grows with (o := o) in Hstep
      as (Hg1 & Hd1 & Hrem1 & Hcov1).
    apply IH in Hrest as (Hg & Hd & Hcov & Hrem).
    split; [by eapply grows_trans|]. split; [congruence|]. split.
    + intros x [->|Hx]%elem_of_cons Hhas.
      * simpl in *. destruct (Hcov1 Hhas) as (l1 & Hl1 & Hincl1).
        destruct (g_static _ _ _ Hg _ _ Hl1) as (l' & Hl' & Hincl').
        exists l'. eauto.
      * apply Hcov; [done|]. by rewrite (grows_hasLayer _ _ _ _ Hg1).
    + intros R. rewrite Hrem, Hrem1, elem_of_app. split.
      * intros [[?|Hnew]|(x & Hx & Hhas & HR)]; [by left| |].
        { right. exists (L, lo). simpl.
          destruct (hasLayer S L); [|by apply elem_of_nil in Hnew].
          split; [apply list_elem_of_here|done]. }
        right. exists x. split; [by apply list_elem_of_further|].
        by rewrite <- (grows_hasLayer _ _ _ _ Hg1).
      * intros [?|(x & [->|Hx]%elem_of_cons & Hhas & HR)]; [by auto| |].
        { simpl in *. rewrite Hhas. auto. }
        right. exists x. by rewrite (grows_hasLayer _ _ _ _ Hg1).
Qed.

(** The removals: the removed nodes leave the index, the nodes of [o]
    stay. *)
Lemma removal_phase (removed : list NodeId) :
  ∀ S S' : DynamicSceneGraph,
    foldM removeNode_ removed S = Some S' →
    (∀ R, R ∈ removed → ∀ k, node_lookup_ S !! R = Some k →
          key_dynamic k = false) →
    (∀ R, R ∈ removed → ∀ L lo, layers_ o !! L = Some lo →
          nodes_ lo !! R = None) →
    covers_static o S → covers_dynamic o S →
    covers_static o S' ∧ covers_dynamic o S'
    ∧ (∀ R, R ∈ removed → node_lookup_ S' !! R = None)
    ∧ (∀ X, node_lookup_ S !! X = None → node_lookup_ S' !! X = None)
    ∧ (∀ L, hasLayer S' L = hasLayer S L).
Proof.
  induction removed as [|R removed IH]; intros S S'; cbn [foldM].
  - intros [= <-] _ _ Hcs Hcd. split; [done|]. split; [done|].
    split; [by intros R HR%elem_of_nil|done].
  - destruct (removeNode_ S R) as [S1|] eqn:Hrm; simpl; [|done].
    apply fmap_Some in Hrm as ([b S1'] & Hrm & ->). simpl.
    intros Hrest Hstatic Hgone Hcs Hcd.
    destruct (removeNode_static_frame S S1' R b Hrm)
      as (Hlook & Hml & Hv & Hf & Hdom & Hst & Hdy).
    { apply Hstatic. apply list_elem_of_here. }
    assert (Hhas : ∀ L, hasLayer S1' L = hasLayer S L).
    { intros L. unfold hasLayer, hasMesh. rewrite Hml, Hv, Hf.
      destruct (negb (L =? mesh_layer_id S)); [|done].
      apply bool_decide_ext. rewrite <- !elem_of_dom. by rewrite Hdom. }
    destruct (IH S1' S' Hrest) as (Hcs' & Hcd' & Habsent & Hshrink & Hhas').
    + intros R' HR' k. rewrite Hlook. intros Hk%lookup_delete_Some.
      eapply Hstatic; [by apply list_elem_of_further|apply Hk].
    + intros R' HR'. apply Hgone. by apply list_elem_of_further.
    + intros L lo Hlo HL. rewrite Hhas in HL.
      destruct (Hcs _ _ Hlo HL) as (l & Hl & Hincl).
      destruct (Hst _ _ Hl) as (l' & Hl' & Hsub).
      exists l'. split; [done|]. intros n Hn.
      apply elem_of_dom, Hsub, elem_of_difference.
      split; [by apply elem_of_dom, Hincl|].
      intros ->%elem_of_singleton.
      rewrite (Hgone R (list_elem_of_here _ _) _ _ Hlo) in Hn.
      by destruct Hn.
    + intros l p dlo Hdlo. destruct (Hcd _ _ _ Hdlo) as (d & Hd & Hincl).
      destruct (Hdy _ _ _ Hd) as (d' & Hd' & Hdom' & _).
      exists d'. split; [done|]. intros idx Hidx.
      apply elem_of_dom. rewrite Hdom'. by apply elem_of_dom, Hincl.
    + split; [done|]. split; [done|]. split; [|split].
      * intros R' [->|HR']%elem_of_cons; [|by apply Habsent].
        apply Hshrink. rewrite Hlook. apply lookup_delete_eq.
      * intros X HX. apply Hshrink. rewrite Hlook.
        by apply lookup_delete_None; right.
      * intros L. by rewrite Hhas', Hhas.
Qed.

(** Removing nodes that are not in the index does nothing. *)
Lemma removal_noop (removed : list NodeId) (S : DynamicSceneGraph) :
  (∀ R, R ∈ removed → node_lookup_ S !! R = None) →
  foldM removeNode_ removed S = Some S.
Proof.
  induction removed as [|R removed IH]; intros Habsent; cbn [foldM]; [done|].
  assert (Hskip : removeNode_ S R = Some S).
  { unfold removeNode_, removeNode.
    by rewrite (Habsent R) by apply list_elem_of_here. }
  rewrite Hskip. simpl.
  apply IH. intros R' HR'. apply Habsent. by apply list_elem_of_further.
Qed.

(** The edge loop: the graph it leaves extends the one it started from,
    and on any extension of the graph it leaves, inserting one of its
    edges again returns false and changes nothing. *)
Lemma edge_phase (es : list SceneGraphEdge) :
  ∀ S Sf : DynamicSceneGraph,
    foldM insertEdge_ es S = Some Sf →
    ext S Sf ∧ same_nodes S Sf
    ∧ ∀ e G a, e ∈ es → ext Sf G →
               insertEdge G (edge_source e) (edge_target e) a
               = Some (false, G).
Proof.
  induction es as [|e es IH]; intros S Sf; cbn [foldM].
  - intros [= <-]. split; [apply ext_refl|]. split; [apply same_nodes_refl|].
    by intros e G a He%elem_of_nil.
  - destruct (insertEdge_ S e) as [S1|] eqn:Hins; simpl; [|done].
    apply fmap_Some in Hins as ([b S1'] & Hins & ->). simpl.
    intros Hrest. apply IH in Hrest as (Hext & Hsn & Hagain).
    split; [eapply ext_trans; [by eapply insertEdge_ext|done]|].
    split; [eapply same_nodes_trans; [by eapply insertEdge_same_nodes|done]|].
    intros e' G a [->|He']%elem_of_cons HG; [|by apply Hagain].
    eapply insertEdge_again; [exact Hins|]. by eapply ext_trans.
Qed.

Lemma edge_phase_noop (es : list SceneGraphEdge) (G : DynamicSceneGraph) :
  (∀ e a, e ∈ es →
          insertEdge G (edge_source e) (edge_target e) a = Some (false, G)) →
  foldM insertEdge_ es G = Some G.
Proof.
  induction es as [|e es IH]; intros Hnoop; cbn [foldM]; [done|].
  assert (Hskip : insertEdge_ G e = Some G).
  { unfold insertEdge_. by rewrite Hnoop by apply list_elem_of_here. }
  rewrite Hskip. simpl.
  apply IH. intros e' a He'. apply Hnoop. by apply list_elem_of_further.
Qed.

(** The node phase of a second merge. *)
Lemma foldM_quiet {A : Type}
    (f : DynamicSceneGraph → A → option DynamicSceneGraph)
    (I : DynamicSceneGraph → Prop) (items : list A) :
  (∀ S S', quiet S S' → I S → I S') →
  (∀ S x, x ∈ items → I S → ∃ S', f S x = Some S' ∧ quiet S S') →
  ∀ S, I S → ∃ S', foldM f items S = Some S' ∧ quiet S S'.
Proof.
  intros Hmono. induction items as [|x items IH]; intros Hstep S HI;
    cbn [foldM].
  - exists S. split; [done|apply quiet_refl].
  - destruct (Hstep S x) as (S1 & -> & Hq1); [apply list_elem_of_here|done|].
    simpl.
    destruct (IH (λ S0 y Hy, Hstep S0 y (list_elem_of_further _ _ _ Hy)) S1)
      as (S' & Hfold & Hq); [by eapply Hmono|].
    exists S'. split; [done|by eapply quiet_trans].
Qed.

Lemma mergeDynamicLayers_quiet (S : DynamicSceneGraph)
    (update_dynamic : bool) :
  covers_dynamic o S →
  ∃ S', mergeDynamicLayers S o update_dynamic = Some S' ∧ quiet S S'.
Proof.
  intros Hcov. unfold mergeDynamicLayers.
  assert (Hmono : ∀ S0 S0', quiet S0 S0' → covers_dynamic o S0 →
                            covers_dynamic o S0').
  { intros S0 S0' Hq. apply same_nodes_covers_dynamic, Hq. }
  apply (foldM_quiet _ (covers_dynamic o)); [done| |done].
  intros S0 [l group] Hgroup%elem_of_ascending Hcov0. simpl.
  apply (foldM_quiet _ (covers_dynamic o)); [done| |done].
  intros S1 [p dlo] Hdlo%elem_of_ascending Hcov1.
  destruct (Hcov1 l p dlo) as (d & Hd & Hincl).
  { unfold getDynamicLayer. by rewrite Hgroup. }
  by eapply mergeDynamicLayer_quiet.
Qed.

Lemma mergeStaticLayers_quiet (update_map : option (gmap N bool))
    (items : list (N * SceneGraphLayer)) :
  (∀ x, x ∈ items → layers_ o !! x.1 = Some x.2) →
  ∀ (S : DynamicSceneGraph) (removed : list NodeId),
    covers_static o S →
    ∃ S' removed',
      foldM (mergeStaticLayer update_map) items (S, removed)
      = Some (S', removed')
      ∧ quiet S S'
      ∧ ∀ R, R ∈ removed' →
             R ∈ removed
             ∨ ∃ x, x ∈ items ∧ hasLayer S x.1 = true
                    ∧ R ∈ Layer.removedNodes x.2.
Proof.
  induction items as [|[L lo] items IH]; intros Hitems S removed Hcov;
    cbn [foldM].
  - exists S, removed. split; [done|]. split; [apply quiet_refl|auto].
  - destruct (mergeStaticLayer_quiet o S L lo update_map removed Hcov)
      as (S1 & -> & Hq1).
    { apply (Hitems (L, lo)). apply list_elem_of_here. }
    simpl.
    destruct (IH (λ x Hx, Hitems x (list_elem_of_further _ _ _ Hx)) S1
                 (removed ++ (if hasLayer S L then Layer.removedNodes lo
                              else [])))
      as (S' & removed' & Hfold & Hq & Hrem).
    { eapply same_nodes_covers_static; [apply Hq1|done]. }
    exists S', removed'. split; [done|].
    split; [by eapply quiet_trans|].
    intros R [[?|Hnew]%elem_of_app|(x & Hx & Hhas & HR)]%Hrem; [by left| |].
    + right. exists (L, lo). simpl.
      destruct (hasLayer S L); [|by apply elem_of_nil in Hnew].
      split; [apply list_elem_of_here|done].
    + right. exists x. split; [by apply list_elem_of_further|].
      by rewrite <- (same_nodes_hasLayer _ _ _ (q_same _ _ Hq1)).
Qed.

End Phases.

(** ** Merging the same graph twice *)

Section MergeTwice.
Context `{LayerInterface}.

Lemma elem_of_removed_nodes_of (o : DynamicSceneGraph) (R : NodeId) :
  R ∈ removed_nodes_of o ↔
  ∃ L lo, layers_ o !! L = Some lo ∧ R ∈ Layer.removedNodes lo.
Proof.
  unfold removed_nodes_of. rewrite list_elem_of_bind. split.
  - intros (lo & HR & ([L lo'] & -> & Hin%elem_of_map_to_list)%list_elem_of_fmap).
    eauto.
  - intros (L & lo & Hlo & HR). exists lo. split; [done|].
    apply list_elem_of_fmap. exists (L, lo). split; [done|].
    by apply elem_of_map_to_list.
Qed.

(** What the conditions on the inputs say about a node reported as
    removed. *)
Lemma removed_node_facts (g o : DynamicSceneGraph) (R : NodeId) :
  merge_inputs_ok g o → R ∈ removed_nodes_of o →
  (∀ L lo, layers_ o !! L = Some lo → nodes_ lo !! R = None)
  ∧ ¬ new_dynamic_id o R
  ∧ (∀ k, node_lookup_ g !! R = Some k → key_dynamic k = false).
Proof.
  intros (_ & [Hstatic Hdynamic] & Hgone & Hnotdyn) HR.
  unfold removed_not_indexed, removed_not_dynamic in *.
  rewrite Forall_forall in Hgone, Hnotdyn.
  specialize (Hgone R HR). specialize (Hnotdyn R HR).
  split; [|split].
  - intros L lo Hlo. destruct (nodes_ lo !! R) as [node|] eqn:Hnode; [|done].
    destruct (Hstatic L lo Hlo R node Hnode) as [k Hk]. congruence.
  - intros (l & p & dlo & idx & Hdlo & [node Hnode] & ->).
    apply bind_Some in Hdlo as (group & Hgroup & Hdlo).
    destruct (Hdynamic l group Hgroup p dlo Hdlo idx node Hnode) as [k Hk].
    congruence.
  - intros k Hk. rewrite Hk in Hnotdyn. simpl in Hnotdyn.
    destruct (key_dynamic k); [done|done].
Qed.

(** C5: for well-formed inputs (every dynamic layer of the target is
    filed under its own prefix; the index of [o] covers the nodes of its
    layers; the nodes [o] reports as removed are not in its index and are
    not dynamic nodes of the target), if [mergeGraph g o] returns a graph
    [g1], then merging [o] into [g1] again returns true as well and leaves
    a graph with the same node index, the same node set in every layer,
    the same two interlayer edge sets and the same mesh edges; and
    re-inserting any interlayer edge of [o] into [g1] returns false and
    changes nothing. *)
Theorem mergeGraph_twice (g o g1 : DynamicSceneGraph)
    (allow_invalid_mesh clear_mesh_edges : bool)
    (update_map : option (gmap N bool)) (update_dynamic b : bool) :
  merge_inputs_ok g o →
  mergeGraph g o allow_invalid_mesh clear_mesh_edges update_map update_dynamic
  = Some (b, g1) →
  ∃ g2,
    mergeGraph g1 o allow_invalid_mesh clear_mesh_edges update_map
               update_dynamic
    = Some (true, g2)
    ∧ node_lookup_ g2 = node_lookup_ g1
    ∧ same_nodes g1 g2
    ∧ interlayer_edges_ g2 = interlayer_edges_ g1
    ∧ dynamic_interlayer_edges_ g2 = dynamic_interlayer_edges_ g1
    ∧ (∀ n v, hasMeshEdge g2 n v = hasMeshEdge g1 n v)
    ∧ (∀ e a, e ∈ (map_to_list (edges (interlayer_edges_ o))).*2
                  ++ (map_to_list (edges (dynamic_interlayer_edges_ o))).*2 →
              insertEdge g1 (edge_source e) (edge_target e) a
              = Some (false, g1)).
Proof.
  intros Hok Hm1. pose proof Hok as (Hpre & _).
  unfold mergeGraph in Hm1.
  destruct (mergeDynamicLayers g o update_dynamic) as [S1|] eqn:HD;
    simpl in Hm1; [|done].
  destruct (foldM (mergeStaticLayer update_map) _ (S1, []))
    as [[S2 removed]|] eqn:HS; simpl in Hm1; [|done].
  destruct (foldM removeNode_ removed S2) as [S3|] eqn:HRm;
    simpl in Hm1; [|done].
  destruct (foldM insertEdge_ _ S3) as [S4|] eqn:HE1; simpl in Hm1; [|done].
  destruct (foldM insertEdge_ _ S4) as [S5|] eqn:HE2; simpl in Hm1; [|done].
  injection Hm1 as <- <-.
  set (es1 := (ascending_edges (edges (interlayer_edges_ o))).*2) in *.
  set (es2 := (ascending_edges (edges (dynamic_interlayer_edges_ o))).*2)
    in *.
  set (ms := (ascending (mesh_edges_ o)).*2) in *.
  set (g6 := if clear_mesh_edges then clearMeshEdges S5 else S5).
  set (g1 := foldl (insertMeshEdge_ allow_invalid_mesh) g6 ms).
  (* the first merge, phase by phase *)
  destruct (mergeDynamicLayers_grows o g S1 update_dynamic Hpre HD)
    as [Hg1 Hcd1].
  destruct (mergeStaticLayers_grows o update_map _ _ _ _ _ HS)
    as (Hg2 & _ & Hcov2 & Hrem).
  assert (Hitems : ∀ x, x ∈ ascending (layers_ o) →
                        layers_ o !! x.1 = Some x.2).
  { intros [L lo] Hx. by apply elem_of_ascending. }
  assert (Hcs2 : covers_static o S2).
  { intros L lo Hlo Hhas. rewrite (grows_hasLayer _ _ _ _ Hg2) in Hhas.
    apply (Hcov2 (L, lo)); [by apply elem_of_ascending|done]. }
  pose proof (grows_covers_dynamic o _ _ Hg2 Hcd1) as Hcd2.
  assert (Hremoved : ∀ R, R ∈ removed → R ∈ removed_nodes_of o).
  { intros R [HR%elem_of_nil|(x & Hx & _ & HR)]%Hrem; [done|].
    apply elem_of_removed_nodes_of. exists x.1, x.2. split; [|done].
    by apply Hitems. }
  destruct (removal_phase o removed S2 S3 HRm)
    as (Hcs3 & Hcd3 & Habsent3 & _ & Hhas3); [| |done|done|].
  { intros R HR k Hk.
    destruct (removed_node_facts g o R Hok (Hremoved R HR))
      as (_ & Hnew & Hstatic).
    destruct (g_lookup _ _ _ (grows_trans _ _ _ _ Hg1 Hg2) R)
      as [Heq|[?|(k' & Hk' & ?)]]; [|done|congruence].
    apply Hstatic. congruence. }
  { intros R HR. by apply (removed_node_facts g o R Hok), Hremoved. }
  destruct (edge_phase es1 S3 S4 HE1) as (Hext4 & Hsn4 & Hagain1).
  destruct (edge_phase es2 S4 S5 HE2) as (Hext5 & Hsn5 & Hagain2).
  assert (Honly6 : mesh_edges_only S5 g6).
  { subst g6. destruct clear_mesh_edges;
      [apply clearMeshEdges_mesh_edges_only|apply mesh_edges_only_refl]. }
  destruct (mesh_loop allow_invalid_mesh ms g6) as [Honly1 Hmesh1].
  fold g1 in Honly1, Hmesh1.
  pose proof (mesh_edges_only_trans _ _ _ Honly6 Honly1) as Honly.
  assert (Hsn31 : same_nodes S3 g1).
  { eapply same_nodes_trans; [exact Hsn4|].
    eapply same_nodes_trans; [exact Hsn5|].
    by apply mesh_edges_only_same_nodes. }
  pose proof (same_nodes_covers_static o _ _ Hsn31 Hcs3) as Hcs.
  pose proof (same_nodes_covers_dynamic o _ _ Hsn31 Hcd3) as Hcd.
  pose proof (mesh_edges_only_ext _ _ Honly) as Hext51.
  (* the second merge *)
  destruct (mergeDynamicLayers_quiet o g1 update_dynamic Hcd)
    as (G1 & HD' & Hq1).
  destruct (mergeStaticLayers_quiet o update_map _ Hitems G1 []
              (same_nodes_covers_static o _ _ (q_same _ _ Hq1) Hcs))
    as (G2 & removed' & HS' & Hq2 & Hrem').
  pose proof (quiet_trans _ _ _ Hq1 Hq2) as Hq.
  assert (Habsent' : ∀ R, R ∈ removed' → node_lookup_ G2 !! R = None).
  { intros R [HR%elem_of_nil|(x & Hx & Hhas & HR)]%Hrem'; [done|].
    rewrite (ext_lookup _ _ (q_ext _ _ Hq)), (sn_lookup _ _ Hsn31).
    apply Habsent3, Hrem. right. exists x. split; [done|]. split; [|done].
    rewrite (same_nodes_hasLayer _ _ _ (q_same _ _ Hq1)) in Hhas.
    rewrite (same_nodes_hasLayer _ _ _ Hsn31), Hhas3 in Hhas.
    by rewrite <- (grows_hasLayer _ _ _ _ Hg2). }
  assert (Hnoop1 : ∀ e a, e ∈ es1 →
            insertEdge G2 (edge_source e) (edge_target e) a
            = Some (false, G2)).
  { intros e a He. apply Hagain1; [done|].
    eapply ext_trans; [exact Hext5|].
    eapply ext_trans; [exact Hext51|apply Hq]. }
  assert (Hnoop2 : ∀ e a, e ∈ es2 →
            insertEdge G2 (edge_source e) (edge_target e) a
            = Some (false, G2)).
  { intros e a He. apply Hagain2; [done|].
    eapply ext_trans; [exact Hext51|apply Hq]. }
  set (G6 := if clear_mesh_edges then clearMeshEdges G2 else G2).
  exists (foldl (insertMeshEdge_ allow_invalid_mesh) G6 ms).
  assert (HonlyG6 : mesh_edges_only G2 G6).
  { subst G6. destruct clear_mesh_edges;
      [apply clearMeshEdges_mesh_edges_only|apply mesh_edges_only_refl]. }
  destruct (mesh_loop allow_invalid_mesh ms G6) as [Honly2 Hmesh2].
  pose proof (mesh_edges_only_trans _ _ _ HonlyG6 Honly2) as HonlyG.
  split.
  { unfold mergeGraph. rewrite HD'. simpl. rewrite HS'. simpl.
    rewrite (removal_noop removed' G2 Habsent'). simpl.
    fold es1. rewrite (edge_phase_noop es1 G2) by (intros; by apply Hnoop1).
    simpl. fold es2.
    rewrite (edge_phase_noop es2 G2) by (intros; by apply Hnoop2).
    done. }
  apply mesh_edges_only_fields in HonlyG
    as (_ & _ & _ & _ & Hlookup & Hinter & Hdyninter & Hvert & _).
  split; [by rewrite Hlookup, (ext_lookup _ _ (q_ext _ _ Hq))|].
  split.
  { eapply same_nodes_trans; [apply Hq|].
    apply mesh_edges_only_same_nodes.
    by eapply mesh_edges_only_trans. }
  split; [by rewrite Hinter, (q_interlayer _ _ Hq)|].
  split; [by rewrite Hdyninter, (q_dynamic_interlayer _ _ Hq)|].
  split.
  - intros n v. rewrite Hmesh2, Hmesh1.
    assert (Hvalid : ∀ e, mesh_valid G6 allow_invalid_mesh e
                          = mesh_valid g6 allow_invalid_mesh e).
    { intros e. rewrite (mesh_valid_mesh_edges_only _ _ _ _ HonlyG6).
      rewrite <- (mesh_valid_mesh_edges_only _ _ _ _ Honly1).
      unfold mesh_valid, hasNode.
      by rewrite (ext_lookup _ _ (q_ext _ _ Hq)),
        (sn_vertices _ _ (q_same _ _ Hq)). }
    rewrite (existsb_pointwise
               (λ e, mesh_valid G6 allow_invalid_mesh e
                     && bool_decide (mkMeshEdge n v = e))
               (λ e, mesh_valid g6 allow_invalid_mesh e
                     && bool_decide (mkMeshEdge n v = e)))
      by (intros e; by rewrite Hvalid).
    subst G6 g6. destruct clear_mesh_edges.
    + done.
    + assert (Hsame : hasMeshEdge G2 n v = hasMeshEdge g1 n v).
      { unfold hasMeshEdge.
        pose proof (q_mesh _ _ Hq) as [= _ -> _ _]. done. }
      rewrite Hsame, Hmesh1. by destruct (hasMeshEdge S5 n v), (existsb _ ms).
  - intros e a [He|He]%elem_of_app;
      rewrite <- ascending_edges_perm in He.
    + apply Hagain1; [done|]. by eapply ext_trans.
    + by apply Hagain2.
Qed.

End MergeTwice.

(** ** The statements above at concrete graphs *)

Section Witnesses.

Lemma construct_example : construct [2; 3] 1 = Some Example.scene.
Proof. reflexivity. Qed.

Lemma numNodes_counts_mesh_vertices_witness :
  mesh_vertex_count Example.with_agent = 0
  ∧ numNodes Example.with_agent = 5
  ∧ numNodes Example.with_mesh = 8
  ∧ node_lookup_ Example.with_mesh = node_lookup_ Example.with_agent.
Proof.
  destruct (numNodes_counts_mesh_vertices Example.with_agent)
    as (_ & Hnone & Hsum & Hset).
  split; [apply Hnone; reflexivity|].
  split; [rewrite Hsum; vm_compute; reflexivity|].
  destruct (Hset Example.triangle (Some [[0; 1; 2]]) true Example.with_mesh)
    as (Hnodes & _ & _ & Hcount); [reflexivity|].
  split; [rewrite Hcount; vm_compute; reflexivity|exact Hnodes].
Defined.

Lemma mesh_edge_ids_never_reused_witness :
  ∃ log g',
    run_mesh_ops Example.mesh_ops Example.with_mesh_edges = Some (log, g')
    ∧ assigned_ids log = [3; 5; 6]
    ∧ NoDup (assigned_ids log).
Proof.
  destruct (run_mesh_ops Example.mesh_ops Example.with_mesh_edges)
    as [[log g']|] eqn:Hrun; [|vm_compute in Hrun; discriminate].
  exists log, g'. split; [reflexivity|].
  split; [vm_compute in Hrun; injection Hrun as <- _; reflexivity|].
  eapply (mesh_edge_ids_never_reused Example.mesh_ops
            Example.with_mesh_edges g' log); [vm_compute; reflexivity|].
  exact Hrun.
Defined.

Lemma setMesh_purges_mesh_edges_witness :
  ∃ g',
    setMesh Example.with_mesh_edges (Some [(0, 0, 0); (1, 0, 0)]) None false
      = Some g'
    ∧ mesh_edges_ g' = {[ 0 := mkMeshEdge Example.object1 0 ]}
    ∧ meshEdgeId g' Example.object1 0 = Some 0
    ∧ meshEdgeId g' Example.object1 2 = None
    ∧ meshEdgeId g' Example.object1 7 = None.
Proof.
  destruct (setMesh_purges_mesh_edges Example.with_mesh_edges None)
    as (_ & _ & Hkeep).
  destruct (Hkeep [(0, 0, 0); (1, 0, 0)]) as (g' & Hset & _ & _ & _ & He & Hid).
  { apply (bool_decide_unpack _). vm_compute. reflexivity. }
  exists g'. split; [exact Hset|].
  split; [rewrite He; vm_compute; reflexivity|].
  split; [rewrite (proj1 (Hid _ _)); vm_compute; reflexivity|].
  split; rewrite (proj1 (Hid _ _)); vm_compute; reflexivity.
Defined.

#[local] Existing Instance symbols.

Lemma insertEdge_parent_child_witness :
  (∃ g',
     insertEdge Example.with_agent Example.place1 Example.object1 None
     = Some (true, g')
     ∧ parent_ <$> getNodePtr g' Example.object1 (static_key 2)
       = Some (Some Example.place1)
     ∧ (λ n, bool_decide (Example.object1 ∈ children_ n))
         <$> getNodePtr g' Example.place1 (static_key 3) = Some true)
  ∧ insertEdge Example.with_parent Example.place2 Example.object1 None
    = Some (false, Example.with_parent).
Proof.
  split.
  - pose proof (insertEdge_parent_child Example.with_agent
                  Example.place1 Example.object1
                  (static_key 3) (static_key 2)
                  (mkNode Example.place1 3 0 None ∅ ∅)
                  (mkNode Example.object1 2 0 None ∅ ∅) None) as Hthm.
    do 5 (lapply Hthm; [clear Hthm; intros Hthm|vm_compute; reflexivity]).
    destruct Hthm as [Hinsert _].
    do 3 (lapply Hinsert;
          [clear Hinsert; intros Hinsert|vm_compute; reflexivity]).
    destruct Hinsert as (g' & Hins & Hchild & Hparent & _).
    exists g'. split; [exact Hins|].
    rewrite Hchild, Hparent. split; vm_compute; reflexivity.
  - pose proof (insertEdge_parent_child Example.with_parent
                  Example.place2 Example.object1
                  (static_key 3) (static_key 2)
                  (mkNode Example.place2 3 0 None ∅ ∅)
                  (mkNode Example.object1 2 0 (Some Example.place1) ∅ ∅)
                  None) as Hthm.
    do 5 (lapply Hthm; [clear Hthm; intros Hthm|vm_compute; reflexivity]).
    destruct Hthm as [_ Hrefuse].
    apply Hrefuse. left. split; [vm_compute; reflexivity|]. simpl. eauto.
Defined.

Lemma emplaceDynamicNode_spec_witness :
  ∃ g' layer',
    emplaceDynamicNode Example.with_agent 2 97 1 0 true = Some (true, g')
    ∧ node_lookup_ g' !! Example.agent1 = Some (dynamic_key 2 97)
    ∧ getDynamicLayer g' 2 97 = Some layer'
    ∧ Edges.contains (dyn_edges_ layer') Example.agent0 Example.agent1 = true
    ∧ interlayer_edges_ g' = interlayer_edges_ Example.with_agent
    ∧ dynamic_interlayer_edges_ g'
      = dynamic_interlayer_edges_ Example.with_agent.
Proof.
  destruct (emplaceDynamicNode_spec Example.with_agent 2 97 1 0 true)
    as [_ Hfresh].
  destruct Hfresh as (ok & g' & layer' & Hemp & Hlayer & Hst & Hdyn & _ & Hok);
    [vm_compute; reflexivity|].
  assert (Htrue : ok = true).
  { vm_compute in Hemp. by injection Hemp as <- _. }
  subst ok. destruct (Hok eq_refl) as (Hlookup & _ & _ & _ & Hedge).
  exists g', layer'. split; [exact Hemp|].
  split; [rewrite Hlookup; vm_compute; reflexivity|].
  split; [exact Hlayer|]. split; [|split; [exact Hst|exact Hdyn]].
  apply Hedge; [reflexivity|vm_compute; reflexivity| |].
  - vm_compute in Hemp. injection Hemp as <-.
    vm_compute in Hlayer. injection Hlayer as <-. reflexivity.
  - eexists _, _. split; vm_compute; reflexivity.
Defined.

Lemma mergeGraph_twice_witness :
  ∃ g1 g2,
    mergeGraph Example.merge_target Example.merge_other true false None true
    = Some (true, g1)
    ∧ mergeGraph g1 Example.merge_other true false None true = Some (true, g2)
    ∧ hasNode g1 Example.object2 = false
    ∧ node_lookup_ g2 = node_lookup_ g1
    ∧ interlayer_edges_ g2 = interlayer_edges_ g1
    ∧ dynamic_interlayer_edges_ g2 = dynamic_interlayer_edges_ g1
    ∧ hasMeshEdge g2 Example.object1 5 = hasMeshEdge g1 Example.object1 5.
Proof.
  destruct (mergeGraph Example.merge_target Example.merge_other
              true false None true) as [[b g1]|] eqn:Hmerge;
    [|vm_compute in Hmerge; discriminate].
  assert (Hok : merge_inputs_ok Example.merge_target Example.merge_other).
  { apply (bool_decide_unpack _). vm_compute. reflexivity. }
  destruct (mergeGraph_twice _ _ _ _ _ _ _ _ Hok Hmerge)
    as (g2 & Hagain & Hlookup & _ & Hstatic & Hdynamic & Hmesh & _).
  assert (Hb : b = true ∧ hasNode g1 Example.object2 = false).
  { clear -Hmerge. vm_compute in Hmerge. injection Hmerge as <- <-.
    split; vm_compute; reflexivity. }
  destruct Hb as [-> Hgone].
  exists g1, g2. split; [reflexivity|]. split; [exact Hagain|].
  split; [exact Hgone|]. split; [exact Hlookup|].
  split; [exact Hstatic|]. split; [exact Hdynamic|]. apply Hmesh.
Defined.

End Witnesses.

(** ** Mesh edges: the two mutators together *)

Section MeshMutators.

Lemma foldM_fmap {A B S : Type} (f : S → B → option S) (h : A → B)
    (l : list A) (s : S) :
  foldM f (h <$> l) s = foldM (λ s' x, f s' (h x)) l s.
Proof.
  revert s. induction l as [|x l IH]; intros s; cbn [foldM fmap list_fmap];
    [done|].
  destruct (f s (h x)); simpl; [apply IH|done].
Qed.

(** The tables after an [insertMeshEdge] that went through. *)
Lemma insertMeshEdge_tables (g g' : DynamicSceneGraph) (s v : N) (a : bool) :
  insertMeshEdge g s v a = (true, g') →
  hasNode g s = true
  ∧ hasMeshEdge g s v = false
  ∧ g' = set_mesh_edges
           (map_emplace (next_mesh_edge_idx_ g) (mkMeshEdge s v)
                        (mesh_edges_ g))
           (insert2 s v (next_mesh_edge_idx_ g) (mesh_edges_node_lookup_ g))
           (insert2 v s (next_mesh_edge_idx_ g) (mesh_edges_vertex_lookup_ g))
           (wrap (next_mesh_edge_idx_ g + 1)) g
  ∧ (∀ n w, meshEdgeId g' n w
            = if decide ((n, w) = (s, v)) then Some (next_mesh_edge_idx_ g)
              else meshEdgeId g n w)
  ∧ (∀ n w, meshEdgeId_by_vertex g' n w
            = if decide ((n, w) = (s, v)) then Some (next_mesh_edge_idx_ g)
              else meshEdgeId_by_vertex g n w).
Proof.
  unfold insertMeshEdge.
  destruct (hasNode g s); simpl; [|done].
  destruct (negb a && _); [done|].
  destruct (hasMeshEdge g s v); [done|].
  intros [= <-]. split; [done|]. split; [done|]. split; [done|].
  unfold meshEdgeId, meshEdgeId_by_vertex. simpl. split; intros n w.
  - destruct (decide ((n, w) = (s, v))) as [[= -> ->]|Hne].
    + apply lookup_insert2_eq.
    + apply lookup_insert2_ne. congruence.
  - destruct (decide ((n, w) = (s, v))) as [[= -> ->]|Hne].
    + apply lookup_insert2_eq.
    + apply lookup_insert2_ne. congruence.
Qed.

Lemma mesh_ids_below_fresh (g : DynamicSceneGraph) :
  mesh_ids_below g → mesh_edges_ g !! next_mesh_edge_idx_ g = None.
Proof.
  intros Hbelow. destruct (mesh_edges_ g !! _) as [e|] eqn:He; [|done].
  apply Hbelow in He. simpl in He. lia.
Qed.

Lemma insertMeshEdge_invariant (g : DynamicSceneGraph) (s v : N) (a : bool) :
  mesh_consistent g → mesh_ids_below g →
  next_mesh_edge_idx_ g + 1 < size_t_modulus →
  mesh_consistent (insertMeshEdge g s v a).2
  ∧ mesh_ids_below (insertMeshEdge g s v a).2.
Proof.
  intros Hcons Hbelow Hsmall.
  destruct (insertMeshEdge g s v a) as [[|] g'] eqn:Hins; simpl.
  2:{ by apply insertMeshEdge_false in Hins as ->. }
  pose proof (mesh_ids_below_fresh g Hbelow) as Hfresh.
  apply insertMeshEdge_tables in Hins as (_ & Hnew & -> & Hid & Hidv).
  rewrite hasMeshEdge_meshEdgeId in Hnew. apply bool_decide_eq_false in Hnew.
  set (idx := next_mesh_edge_idx_ g) in *.
  assert (Hedges : ∀ i, map_emplace idx (mkMeshEdge s v) (mesh_edges_ g) !! i
                        = if decide (i = idx) then Some (mkMeshEdge s v)
                          else mesh_edges_ g !! i).
  { intros i. unfold map_emplace. rewrite Hfresh.
    destruct (decide (i = idx)) as [->|Hne];
      [apply lookup_insert_eq|by apply lookup_insert_ne]. }
  apply mesh_consistent_alt in Hcons as (H1 & H2 & H3).
  split.
  - apply mesh_consistent_alt. split; [|split].
    + intros n w i. rewrite Hid, Hidv. simpl. rewrite Hedges.
      destruct (decide ((n, w) = (s, v))) as [[= -> ->]|Hne].
      * intros [= <-]. by rewrite decide_True.
      * intros Hi. destruct (H1 _ _ _ Hi) as [He Hv].
        rewrite decide_False; [done|].
        intros ->. by rewrite Hfresh in He.
    + intros n w i. rewrite Hid, Hidv.
      destruct (decide ((n, w) = (s, v))); [done|apply H2].
    + intros i e. simpl. rewrite Hedges, Hid.
      destruct (decide (i = idx)) as [->|Hne].
      * intros [= <-]. simpl. by rewrite decide_True.
      * intros He. pose proof (H3 _ _ He) as Hi.
        rewrite decide_False; [done|].
        intros [= Hs Hv]. rewrite Hs, Hv in Hi. apply Hnew. eauto.
  - intros i e. simpl. rewrite Hedges. rewrite wrap_small by done.
    destruct (decide (i = idx)) as [->|Hne]; [intros _; unfold idx; lia|].
    intros He. apply Hbelow in He. simpl in He. unfold idx. lia.
Qed.

Lemma removeMeshEdge_invariant (g : DynamicSceneGraph) (s v : N) :
  mesh_consistent g → mesh_ids_below g →
  next_mesh_edge_idx_ g + 1 < size_t_modulus →
  ∃ b g', removeMeshEdge g s v = Some (b, g')
          ∧ mesh_consistent g' ∧ mesh_ids_below g'.
Proof.
  intros Hcons Hbelow Hsmall.
  destruct (removeMeshEdge_consistent g s v Hcons)
    as (b & g' & Hrm & _ & Hcons' & _ & _ & Hedges).
  exists b, g'. split; [done|]. split; [done|].
  intros i e He. rewrite Hedges in He.
  apply bind_Some in He as (e0 & He0 & _). apply Hbelow in He0. simpl in *.
  apply removeMeshEdge_counter in Hrm as [-> | ->]; [done|].
  rewrite wrap_small by done. lia.
Qed.

(** X1: starting from mesh tables that agree with one another and use only
    ids below the counter, no sequence of [insertMeshEdge] and
    [removeMeshEdge] calls throws, and the tables agree again after it, as
    long as the counter stays clear of its 64-bit overflow. *)
Theorem mesh_ops_keep_tables_consistent (ops : list MeshOp)
    (g : DynamicSceneGraph) :
  mesh_consistent g → mesh_ids_below g →
  next_mesh_edge_idx_ g + N.of_nat (length ops) < size_t_modulus →
  ∃ log g', run_mesh_ops ops g = Some (log, g')
            ∧ mesh_consistent g' ∧ mesh_ids_below g'.
Proof.
  revert g. induction ops as [|op ops IH]; intros g Hcons Hbelow Hbound.
  - exists [], g. split; [done|]. by split.
  - cbn [length] in Hbound. rewrite Nat2N.inj_succ in Hbound.
    destruct op as [s v a|s v]; cbn [run_mesh_ops].
    + destruct (insertMeshEdge_invariant g s v a Hcons Hbelow) as [Hc Hb];
        [lia|].
      destruct (insertMeshEdge g s v a) as [ok g1] eqn:Hins. simpl in Hc, Hb.
      assert (Hnext : next_mesh_edge_idx_ g1 ≤ next_mesh_edge_idx_ g + 1).
      { destruct ok.
        - apply insertMeshEdge_true in Hins as (_ & _ & -> & _).
          rewrite wrap_small by lia. lia.
        - apply insertMeshEdge_false in Hins as ->. lia. }
      destruct (IH g1 Hc Hb) as (log & g' & -> & Hc' & Hb'); [lia|].
      simpl. eauto 6.
    + destruct (removeMeshEdge_invariant g s v Hcons Hbelow)
        as (b & g1 & Hrm & Hc & Hb); [lia|].
      rewrite Hrm. simpl.
      assert (Hnext : next_mesh_edge_idx_ g1 ≤ next_mesh_edge_idx_ g + 1).
      { apply removeMeshEdge_counter in Hrm as [-> | ->]; [lia|].
        rewrite wrap_small by lia. lia. }
      apply IH; [done|done|lia].
Qed.

(** X2: on consistent tables, removing a mesh edge right after inserting
    it gives back the mesh tables as they were (the same edges under the
    same ids, in all three tables) and touches nothing else of the graph;
    only the counter has moved on, by two. *)
Theorem insert_then_remove_mesh_edge (g g1 : DynamicSceneGraph) (s v : N)
    (a : bool) :
  mesh_consistent g → mesh_ids_below g →
  insertMeshEdge g s v a = (true, g1) →
  ∃ g2,
    removeMeshEdge g1 s v = Some (true, g2)
    ∧ mesh_edges_ g2 = mesh_edges_ g
    ∧ (∀ n w, meshEdgeId g2 n w = meshEdgeId g n w)
    ∧ (∀ n w, meshEdgeId_by_vertex g2 n w = meshEdgeId_by_vertex g n w)
    ∧ next_mesh_edge_idx_ g2 = wrap (wrap (next_mesh_edge_idx_ g + 1) + 1)
    ∧ mesh_edges_only g g2.
Proof.
  intros Hcons Hfresh%mesh_ids_below_fresh Hins.
  pose proof (mesh_consistent_indices_agree g s v Hcons) as Hagree.
  apply insertMeshEdge_tables in Hins as (_ & Hnew & -> & _ & _).
  rewrite hasMeshEdge_meshEdgeId in Hnew. apply bool_decide_eq_false in Hnew.
  set (idx := next_mesh_edge_idx_ g) in *.
  assert (Hn : insert2 s v idx (mesh_edges_node_lookup_ g) !! s
               = Some (<[v := idx]>
                         (default ∅ (mesh_edges_node_lookup_ g !! s))))
    by apply lookup_insert_eq.
  assert (Hv : insert2 v s idx (mesh_edges_vertex_lookup_ g) !! v
               = Some (<[s := idx]>
                         (default ∅ (mesh_edges_vertex_lookup_ g !! v))))
    by apply lookup_insert_eq.
  unfold removeMeshEdge, hasMeshEdge. simpl. rewrite Hn. simpl.
  rewrite lookup_insert_eq. rewrite bool_decide_eq_true_2 by eauto.
  simpl. rewrite Hv. simpl.
  eexists. split; [reflexivity|]. simpl.
  split; [|split; [|split; [|split; [done|done]]]].
  - unfold map_emplace. rewrite Hfresh. by apply delete_insert_id.
  - intros n w. unfold meshEdgeId. simpl.
    rewrite lookup_erase2 by exact Hn.
    destruct (decide ((n, w) = (s, v))) as [[= -> ->]|Hne].
    + symmetry. apply eq_None_not_Some. exact Hnew.
    + apply lookup_insert2_ne. congruence.
  - intros n w. unfold meshEdgeId_by_vertex. simpl.
    rewrite lookup_erase2 by exact Hv.
    destruct (decide ((w, n) = (v, s))) as [[= -> ->]|Hne].
    + fold (meshEdgeId_by_vertex g s v). rewrite Hagree.
      symmetry. apply eq_None_not_Some. exact Hnew.
    + apply lookup_insert2_ne. congruence.
Qed.

(** Removing the edges of a list of nodes to one vertex, as the loops of
    [invalidateMeshVertex] and [removeNode] do. *)
Lemma removeMeshEdge_pairs (l : list (N * N)) (g : DynamicSceneGraph) :
  mesh_consistent g →
  ∃ g',
    foldM removeMeshEdge_ l g = Some g'
    ∧ mesh_consistent g'
    ∧ mesh_edges_only g g'
    ∧ (∀ n w, meshEdgeId g' n w
              = if decide ((n, w) ∈ l) then None else meshEdgeId g n w)
    ∧ (∀ i, mesh_edges_ g' !! i
            = e ← mesh_edges_ g !! i;
              if decide ((source_node e, mesh_vertex e) ∈ l) then None
              else Some e).
Proof.
  intros Hcons.
  destruct (removeMeshEdge_loop ((λ p, mkMeshEdge p.1 p.2) <$> l) g Hcons)
    as (g' & Hrun & Hcons' & Honly & Hid & Hedges).
  rewrite foldM_fmap in Hrun. simpl in Hrun.
  assert (Hin : ∀ n w, mkMeshEdge n w ∈ (λ p, mkMeshEdge p.1 p.2) <$> l
                       ↔ (n, w) ∈ l).
  { intros n w. rewrite list_elem_of_fmap. split.
    - intros ([n' w'] & [= -> ->] & Hin). done.
    - intros Hin. by exists (n, w). }
  exists g'. split.
  { rewrite <- Hrun. clear. revert g.
    induction l as [|[n w] l IH]; intros g; cbn [foldM fst snd]; [done|].
    destruct (removeMeshEdge_ g (n, w)); cbn [mbind option_bind];
      [apply IH|done]. }
  split; [done|]. split; [done|]. split.
  - intros n w. rewrite Hid.
    destruct (decide ((n, w) ∈ l)) as [Hl|Hl].
    + rewrite decide_True; [done|by apply Hin].
    + rewrite decide_False; [done|by rewrite Hin].
  - intros i. rewrite Hedges. destruct (mesh_edges_ g !! i) as [[n w]|]; [|done].
    simpl. destruct (decide ((n, w) ∈ l)) as [Hl|Hl].
    + rewrite decide_True; [done|by apply Hin].
    + rewrite decide_False; [done|by rewrite Hin].
Qed.

(** X3: on consistent tables [invalidateMeshVertex] does not throw; it
    removes every mesh edge to the given vertex, from all three tables,
    keeps every other mesh edge under its id, and changes nothing else of
    the graph. *)
Theorem invalidateMeshVertex_purges_vertex (g : DynamicSceneGraph)
    (index : N) :
  mesh_consistent g →
  ∃ g',
    invalidateMeshVertex g index = Some g'
    ∧ mesh_consistent g'
    ∧ mesh_edges_only g g'
    ∧ (∀ n w, meshEdgeId g' n w
              = if decide (w = index) then None else meshEdgeId g n w)
    ∧ (∀ i, mesh_edges_ g' !! i
            = e ← mesh_edges_ g !! i;
              if decide (mesh_vertex e = index) then None else Some e).
Proof.
  intros Hcons. pose proof Hcons as (H1 & H2 & H3)%mesh_consistent_alt.
  assert (Hby : ∀ n i by_node,
            mesh_edges_vertex_lookup_ g !! index = by_node →
            meshEdgeId g n index = Some i →
            ∃ m, by_node = Some m ∧ m !! n = Some i).
  { intros n i by_node <- Hi. apply H1 in Hi as [_ Hi].
    apply bind_Some in Hi as (m & Hm & Hn). eauto. }
  unfold invalidateMeshVertex.
  destruct (mesh_edges_vertex_lookup_ g !! index) as [by_node|] eqn:Hlookup.
  - set (l := (λ n, (n, index)) <$> (map_to_list by_node).*1).
    destruct (removeMeshEdge_pairs l g Hcons)
      as (g' & Hrun & Hcons' & Honly & Hid & Hedges).
    unfold l in Hrun. rewrite foldM_fmap in Hrun.
    assert (Hin : ∀ n w, (n, w) ∈ l ↔ w = index ∧ is_Some (by_node !! n)).
    { intros n w. unfold l. rewrite list_elem_of_fmap. split.
      - intros (n' & [= -> ->] & Hn). split; [done|].
        apply list_elem_of_fmap in Hn as ([n2 i] & -> & Hni).
        apply elem_of_map_to_list in Hni. simpl. eauto.
      - intros [-> [i Hi]]. exists n. split; [done|].
        apply list_elem_of_fmap. exists (n, i). split; [done|].
        by apply elem_of_map_to_list. }
    assert (Hid' : ∀ n w, meshEdgeId g' n w
                          = if decide (w = index) then None
                            else meshEdgeId g n w).
    { intros n w. rewrite Hid.
      destruct (decide (w = index)) as [->|Hne].
      - destruct (decide ((n, index) ∈ l)) as [_|Hl]; [done|].
        destruct (meshEdgeId g n index) as [i|] eqn:Hi; [|done].
        destruct (Hby n i _ eq_refl Hi) as (m & [= <-] & Hn).
        exfalso. apply Hl, Hin. eauto.
      - rewrite decide_False; [done|]. rewrite Hin. by intros [? _]. }
    exists g'. split; [exact Hrun|]. split; [done|]. split; [done|].
    split; [done|].
    intros i. rewrite Hedges.
    destruct (mesh_edges_ g !! i) as [[n w]|] eqn:He; [|done]. simpl.
    destruct (decide (w = index)) as [->|Hne].
    + rewrite decide_True; [done|]. apply Hin. split; [done|].
      apply H3 in He. simpl in He.
      destruct (Hby n i _ eq_refl He) as (m & [= <-] & Hn). eauto.
    + rewrite decide_False; [done|]. rewrite Hin. by intros [? _].
  - exists g. split; [done|]. split; [done|].
    split; [apply mesh_edges_only_refl|]. split.
    + intros n w. destruct (decide (w = index)) as [->|]; [|done].
      destruct (meshEdgeId g n index) as [i|] eqn:Hi; [|done].
      by destruct (Hby n i _ eq_refl Hi) as (m & ? & _).
    + intros i. destruct (mesh_edges_ g !! i) as [[n w]|] eqn:He; [|done].
      simpl. destruct (decide (w = index)) as [->|]; [|done].
      apply H3 in He. simpl in He.
      by destruct (Hby n i _ eq_refl He) as (m & ? & _).
Qed.

Lemma getMeshConnectionIndices_default (g : DynamicSceneGraph) (n : NodeId) :
  getMeshConnectionIndices g n
  = (ascending (default ∅ (mesh_edges_node_lookup_ g !! n))).*1.
Proof.
  unfold getMeshConnectionIndices.
  destruct (mesh_edges_node_lookup_ g !! n); simpl; [done|].
  by rewrite ascending_empty.
Qed.

(** X4: [insertMeshEdge] goes through exactly when the node is in the
    graph, the vertex is in range of the mesh that is set (or
    [allow_invalid_mesh] is given) and the node has no edge to the vertex
    yet.  A refused call leaves the graph as it was; an accepted one adds
    the vertex to the node's connections, once, and leaves every other
    connection and everything outside the mesh tables alone. *)
Theorem insertMeshEdge_spec (g : DynamicSceneGraph) (s : NodeId) (v : N)
    (a : bool) :
  ((insertMeshEdge g s v a).1 = true
   ↔ hasNode g s = true
     ∧ (a = true
        ∨ ∃ vs, mesh_vertices_ g = Some vs ∧ v < vertex_count vs)
     ∧ hasMeshEdge g s v = false)
  ∧ ((insertMeshEdge g s v a).1 = false → (insertMeshEdge g s v a).2 = g)
  ∧ ((insertMeshEdge g s v a).1 = true →
     let g' := (insertMeshEdge g s v a).2 in
     hasMeshEdge g' s v = true
     ∧ (∀ n w, (n, w) ≠ (s, v) → hasMeshEdge g' n w = hasMeshEdge g n w)
     ∧ getMeshConnectionIndices g' s ≡ₚ v :: getMeshConnectionIndices g s
     ∧ (∀ n, n ≠ s →
             getMeshConnectionIndices g' n = getMeshConnectionIndices g n)
     ∧ mesh_edges_only g g').
Proof.
  split; [|split].
  - unfold insertMeshEdge.
    destruct (hasNode g s); simpl; [|by split; [|intros [? _]]].
    destruct a; simpl.
    + destruct (hasMeshEdge g s v); simpl; [by split; [|intros (_ & _ & ?)]|].
      split; [|done]. intros _. split; [done|]. split; [by left|done].
    + destruct (mesh_vertices_ g) as [vs|]; simpl.
      * destruct (vertex_count vs <=? v) eqn:Hle; simpl.
        -- apply N.leb_le in Hle. split; [done|].
           intros (_ & [?|(vs' & [= <-] & Hlt)] & _); [done|lia].
        -- apply N.leb_gt in Hle.
           destruct (hasMeshEdge g s v); simpl;
             [by split; [|intros (_ & _ & ?)]|].
           split; [|done]. intros _. split; [done|]. split; [|done].
           right. eauto.
      * split; [done|]. by intros (_ & [?|(vs' & ? & _)] & _).
  - destruct (insertMeshEdge g s v a) as [ok g'] eqn:Hins. simpl.
    intros ->. by apply insertMeshEdge_false in Hins.
  - destruct (insertMeshEdge g s v a) as [ok g'] eqn:Hins. simpl.
    intros ->. pose proof Hins as (_ & Hnew & Hg' & Hid & _)%insertMeshEdge_tables.
    split; [|split; [|split; [|split]]].
    + rewrite hasMeshEdge_meshEdgeId, Hid, decide_True by done.
      apply bool_decide_eq_true. eauto.
    + intros n w Hne. by rewrite !hasMeshEdge_meshEdgeId, Hid, decide_False.
    + rewrite !getMeshConnectionIndices_default. rewrite Hg'. simpl.
      unfold insert2. rewrite lookup_insert_eq. simpl.
      rewrite !ascending_perm. rewrite map_to_list_insert; [done|].
      rewrite hasMeshEdge_meshEdgeId in Hnew.
      apply bool_decide_eq_false in Hnew. unfold meshEdgeId in Hnew.
      destruct (mesh_edges_node_lookup_ g !! s) as [inner|]; simpl in *;
        [by apply eq_None_not_Some|done].
    + intros n Hne. rewrite !getMeshConnectionIndices_default. rewrite Hg'.
      simpl. unfold insert2. by rewrite lookup_insert_ne.
    + replace g' with (insertMeshEdge g s v a).2 by (by rewrite Hins).
      apply insertMeshEdge_mesh_edges_only.
Qed.

(** X25: [getMeshConnectionIndices] lists the vertices the node has a
    mesh edge to, in strictly ascending order (so each once) and nothing
    else; for a node without mesh edges, known or not, the list is
    empty. *)
Theorem getMeshConnectionIndices_spec (g : DynamicSceneGraph) (n : NodeId) :
  StronglySorted N.lt (getMeshConnectionIndices g n)
  ∧ (∀ w, w ∈ getMeshConnectionIndices g n ↔ hasMeshEdge g n w = true)
  ∧ (getMeshConnectionIndices g n = [] ↔ ∀ w, hasMeshEdge g n w = false).
Proof.
  assert (Hmem : ∀ w, w ∈ getMeshConnectionIndices g n
                      ↔ hasMeshEdge g n w = true).
  { intros w. rewrite getMeshConnectionIndices_default. unfold hasMeshEdge.
    rewrite list_elem_of_fmap. split.
    - intros ([w' i] & -> & Hin%elem_of_ascending). simpl.
      destruct (mesh_edges_node_lookup_ g !! n) as [by_vertex|];
        simpl in Hin; [|done].
      apply bool_decide_eq_true. eauto.
    - destruct (mesh_edges_node_lookup_ g !! n) as [by_vertex|]; [|done].
      intros [i Hi]%bool_decide_eq_true. exists (w, i). split; [done|].
      by apply elem_of_ascending. }
  split; [|split; [done|]].
  - rewrite getMeshConnectionIndices_default. apply ascending_sorted.
  - split.
    + intros Hnil w. destruct (hasMeshEdge g n w) eqn:Hw; [|done].
      apply Hmem in Hw. rewrite Hnil in Hw. by apply elem_of_nil in Hw.
    + intros Hnone.
      destruct (getMeshConnectionIndices g n) as [|w l] eqn:Hl; [done|].
      assert (Hw : hasMeshEdge g n w = true)
        by (apply Hmem; apply list_elem_of_here).
      by rewrite Hnone in Hw.
Qed.

End MeshMutators.

(** ** Construction and layers *)

Section Construction.

Lemma clear_layers_lookup (ids : list LayerId) (m : gmap N SceneGraphLayer)
    (l : LayerId) :
  foldl (λ layers id, <[id := Layer.new id]> layers) m ids !! l
  = if decide (l ∈ ids) then Some (Layer.new l) else m !! l.
Proof.
  revert m. induction ids as [|id ids IH]; intros m; cbn [foldl].
  - destruct (decide (l ∈ [])) as [Hin|]; [by apply elem_of_nil in Hin|done].
  - rewrite IH. destruct (decide (l ∈ ids)) as [Hin|Hnin].
    + rewrite decide_True; [done|by apply list_elem_of_further].
    + destruct (decide (l = id)) as [->|Hne].
      * rewrite lookup_insert_eq.
        rewrite decide_True; [done|apply list_elem_of_here].
      * rewrite lookup_insert_ne by done.
        rewrite decide_False; [done|].
        intros [?|?]%elem_of_cons; done.
Qed.

Lemma sumN_zero (l : list N) : Forall (λ x, x = 0) l → sumN l = 0.
Proof. induction 1 as [|x l -> _ IH]; simpl; [done|by rewrite IH]. Qed.

Lemma clear_numNodes (g : DynamicSceneGraph) : numNodes (clear g) = 0.
Proof.
  rewrite numNodes_wrapped_sum.
  unfold static_node_count, dynamic_node_count, mesh_vertex_count. simpl.
  rewrite map_to_list_empty. simpl.
  rewrite sumN_zero; [done|].
  apply Forall_fmap, Forall_forall. intros [l layer] Hl. simpl.
  apply elem_of_map_to_list in Hl. rewrite clear_layers_lookup in Hl.
  rewrite lookup_empty in Hl. case_decide; [|done].
  injection Hl as <-. done.
Qed.

(** X5: the constructor refuses an empty list of layer ids and a mesh
    layer id that is one of the layer ids, and nothing else.  The graph it
    builds has one empty layer for every listed id and no other, no node,
    no mesh and no edge; [hasLayer] holds of exactly the listed ids. *)
Theorem construct_spec (ids : list LayerId) (mesh_id : LayerId) :
  (construct ids mesh_id = None ↔ ids = [] ∨ mesh_id ∈ ids)
  ∧ ∀ g, construct ids mesh_id = Some g →
      mesh_layer_id g = mesh_id
      ∧ layer_ids g = ids
      ∧ (∀ l, layers_ g !! l
              = if decide (l ∈ ids) then Some (Layer.new l) else None)
      ∧ (∀ l, hasLayer g l = true ↔ l ∈ ids)
      ∧ dynamic_layers_ g = ∅
      ∧ node_lookup_ g = ∅
      ∧ hasMesh g = false
      ∧ interlayer_edges_ g = Edges.empty
      ∧ dynamic_interlayer_edges_ g = Edges.empty
      ∧ mesh_edges_ g = ∅
      ∧ next_mesh_edge_idx_ g = 0
      ∧ numNodes g = 0.
Proof.
  unfold construct. split.
  - destruct (decide (ids = [])) as [->|Hne]; [by split; [left|]|].
    destruct (decide (mesh_id ∈ ids)) as [Hin|Hnin]; [by split; [right|]|].
    split; [done|]. by intros [?|?].
  - intros g. destruct (decide (ids = [])) as [|Hne]; [done|].
    destruct (decide (mesh_id ∈ ids)) as [|Hnin]; [done|].
    intros [= <-].
    assert (Hl : ∀ l, layers_ (clear (mkGraph mesh_id ids ∅ ∅ ∅ Edges.empty
                                 Edges.empty None None ∅ ∅ ∅ 0)) !! l
                      = if decide (l ∈ ids) then Some (Layer.new l) else None).
    { intros l. simpl. rewrite clear_layers_lookup, lookup_empty. done. }
    split; [done|]. split; [done|]. split; [exact Hl|].
    split.
    { intros l. unfold hasLayer. rewrite Hl.
      change (mesh_layer_id (clear _)) with mesh_id.
      destruct (decide (l = mesh_id)) as [->|Hlm].
      - rewrite N.eqb_refl. simpl. unfold hasMesh. simpl. done.
      - apply N.eqb_neq in Hlm. rewrite Hlm. simpl.
        rewrite bool_decide_eq_true.
        destruct (decide (l ∈ ids)) as [Hl1|Hl2].
        + split; [done|eauto].
        + split; [by intros [? ?]|done]. }
    repeat (split; [done|]). apply clear_numNodes.
Qed.

(** X6: [clear] brings any graph back to what the constructor builds from
    its layer ids, with one exception: the mesh-edge id counter is not
    reset.  In particular a cleared graph has no node and no edge left,
    and clearing twice is clearing once. *)
Theorem clear_spec (g : DynamicSceneGraph) :
  clear g
  = set_mesh_edges ∅ ∅ ∅ (next_mesh_edge_idx_ g)
      (clear (mkGraph (mesh_layer_id g) (layer_ids g) ∅ ∅ ∅ Edges.empty
                      Edges.empty None None ∅ ∅ ∅ 0))
  ∧ (layer_ids g ≠ [] → mesh_layer_id g ∉ layer_ids g →
     ∃ g0, construct (layer_ids g) (mesh_layer_id g) = Some g0
           ∧ clear g = set_mesh_edges ∅ ∅ ∅ (next_mesh_edge_idx_ g) g0)
  ∧ next_mesh_edge_idx_ (clear g) = next_mesh_edge_idx_ g
  ∧ (∀ n, hasNode (clear g) n = false)
  ∧ (∀ s t, hasEdge (clear g) s t = Some (false, None))
  ∧ (∀ n v, hasMeshEdge (clear g) n v = false)
  ∧ numNodes (clear g) = 0
  ∧ clear (clear g) = clear g.
Proof.
  split; [done|]. split.
  { intros Hne Hnin. unfold construct.
    rewrite decide_False, decide_False by done. eauto. }
  split; [done|]. split; [done|]. split; [done|]. split; [done|].
  split; [apply clear_numNodes|done].
Qed.

End Construction.

(** ** Dynamic layers *)

Section DynamicLayers.
Context `{LayerInterface}.

Lemma getDynamicLayer_createDynamicLayer (g : DynamicSceneGraph)
    (l p l' p' : N) :
  getDynamicLayer (createDynamicLayer g l p).2 l' p'
  = if decide ((l', p') = (l, p))
    then Some (default (DynLayer.new l p) (getDynamicLayer g l p))
    else getDynamicLayer g l' p'.
Proof.
  destruct (getDynamicLayer g l p) as [d|] eqn:Hd; simpl.
  - unfold createDynamicLayer. rewrite hasDynamicLayer_get, Hd.
    rewrite bool_decide_eq_true_2 by eauto. simpl.
    destruct (decide ((l', p') = (l, p))) as [[= -> ->]|]; done.
  - rewrite createDynamicLayer_get by done.
    rewrite getDynamicLayer_put.
    destruct (decide ((l', p') = (l, p))); done.
Qed.

(** X7: [createDynamicLayer] returns true exactly when the graph has no
    dynamic layer for the (layer id, prefix) pair yet; it then adds an
    empty one and leaves every other dynamic layer, the static layers and
    the node index as they were.  A refused call changes nothing, and a
    second call for the same pair is always refused. *)
Theorem createDynamicLayer_spec (g : DynamicSceneGraph) (l : LayerId)
    (p : LayerPrefix) :
  let g' := (createDynamicLayer g l p).2 in
  (createDynamicLayer g l p).1 = negb (hasDynamicLayer g l p)
  ∧ (hasDynamicLayer g l p = true → g' = g)
  ∧ (hasDynamicLayer g l p = false →
     getDynamicLayer g' l p = Some (DynLayer.new l p))
  ∧ hasDynamicLayer g' l p = true
  ∧ (∀ l' p', (l', p') ≠ (l, p) →
              getDynamicLayer g' l' p' = getDynamicLayer g l' p')
  ∧ layers_ g' = layers_ g
  ∧ node_lookup_ g' = node_lookup_ g
  ∧ createDynamicLayer g' l p = (false, g').
Proof.
  intros g'.
  assert (Hhas : hasDynamicLayer g' l p = true).
  { rewrite hasDynamicLayer_get. unfold g'.
    rewrite getDynamicLayer_createDynamicLayer, decide_True by done.
    apply bool_decide_eq_true. eauto. }
  split; [unfold createDynamicLayer; by destruct (hasDynamicLayer g l p)|].
  split.
  { intros Hyes. unfold g', createDynamicLayer. by rewrite Hyes. }
  split.
  { intros Hno. unfold g'.
    rewrite getDynamicLayer_createDynamicLayer, decide_True by done.
    rewrite hasDynamicLayer_get in Hno. apply bool_decide_eq_false in Hno.
    destruct (getDynamicLayer g l p); [|done]. exfalso. eauto. }
  split; [done|]. split.
  { intros l' p' Hne. unfold g'.
    by rewrite getDynamicLayer_createDynamicLayer, decide_False. }
  split; [unfold g', createDynamicLayer; by destruct (hasDynamicLayer g l p)|].
  split; [unfold g', createDynamicLayer; by destruct (hasDynamicLayer g l p)|].
  unfold createDynamicLayer at 1. by rewrite Hhas.
Qed.

End DynamicLayers.

(** ** Counting layers, nodes and edges *)

(** Arithmetic over sums of mapped lists: the unfolded [list_fmap] is put
    back into its notation before [lia] runs. *)
Ltac sum_lia :=
  repeat match goal with
         | |- context [list_fmap ?A ?B ?f ?l] =>
             change (list_fmap A B f l) with (f <$> l)
         | H : context [list_fmap ?A ?B ?f ?l] |- _ =>
             change (list_fmap A B f l) with (f <$> l) in H
         end;
  lia.

Section Sums.

Lemma sumN_app (l1 l2 : list N) : sumN (l1 ++ l2) = sumN l1 + sumN l2.
Proof.
  induction l1 as [|x l1 IH]; simpl; [done|]. rewrite IH. apply N.add_assoc.
Qed.

Lemma sumN_perm (l1 l2 : list N) : l1 ≡ₚ l2 → sumN l1 = sumN l2.
Proof.
  induction 1 as [|x l1 l2 _ IH|x y l|l1 l2 l3 _ IH1 _ IH2]; simpl.
  - done.
  - by rewrite IH.
  - rewrite !N.add_assoc. f_equal. apply N.add_comm.
  - by rewrite IH1.
Qed.

Lemma sumN_map_insert_None {V : Type} (f : N * V → N) (m : gmap N V)
    (k : N) (y : V) :
  m !! k = None →
  sumN (f <$> map_to_list (<[k := y]> m))
  = f (k, y) + sumN (f <$> map_to_list m).
Proof.
  intros Hk. rewrite (sumN_perm _ (f <$> (k, y) :: map_to_list m)); [done|].
  apply fmap_Permutation. by apply map_to_list_insert.
Qed.

Lemma sumN_map_insert_Some {V : Type} (f : N * V → N) (m : gmap N V)
    (k : N) (x y : V) :
  m !! k = Some x →
  sumN (f <$> map_to_list (<[k := y]> m)) + f (k, x)
  = f (k, y) + sumN (f <$> map_to_list m).
Proof.
  intros Hk.
  rewrite <- (insert_delete_eq m k y).
  rewrite sumN_map_insert_None by apply lookup_delete_eq.
  rewrite <- (insert_delete_id m k x Hk) at 2.
  rewrite sumN_map_insert_None by apply lookup_delete_eq.
  lia.
Qed.

Lemma foldl_add_size_wrapped {A : Type} (f : A → N) (l : list A) (a : N) :
  wrap a = a →
  foldl (λ total x, add_size (f x) total) a l = wrap (a + sumN (f <$> l)).
Proof.
  intros Ha. rewrite <- foldl_add_size.
  destruct l as [|x l _] using rev_ind; simpl; [done|].
  rewrite foldl_app. simpl. unfold add_size. by rewrite wrap_wrap.
Qed.

Lemma wrap_0 : wrap 0 = 0.
Proof. done. Qed.

End Sums.

Section LayerCounts.
Context `{LayerInterface}.

(** Whether a dynamic layer id counts as a layer of its own. *)
Lemma numLayers_sum (g : DynamicSceneGraph) :
  numLayers g
  = wrap (N.of_nat (size (layers_ g)) + 1
          + sumN ((λ l, if negb (bool_decide (is_Some (layers_ g !! l)))
                           && negb (l =? mesh_layer_id g)
                        then 1 else 0)
                    <$> elements (dom (dynamic_layers_ g)))).
Proof.
  unfold numLayers. rewrite wrap_add_l.
  apply wrap_add_proper; [done|].
  set (ind := λ l : N, if negb (bool_decide (is_Some (layers_ g !! l)))
                          && negb (l =? mesh_layer_id g) then 1 else 0).
  assert (Hfold : ∀ (l : list (N * gmap N DynamicSceneGraphLayer)) c,
            wrap (foldl (λ count p,
                           if negb (bool_decide (is_Some (layers_ g !! p.1)))
                              && negb (p.1 =? mesh_layer_id g)
                           then wrap (count + 1) else count) c l)
            = wrap (c + sumN (ind <$> l.*1))).
  { induction l as [|[k v] l IH]; intros c; simpl.
    - by rewrite N.add_0_r.
    - rewrite IH. unfold ind at 2.
      destruct (negb _ && negb _); simpl.
      + rewrite wrap_add_l. f_equal. by rewrite N.add_assoc.
      + by rewrite N.add_0_l. }
  rewrite Hfold, N.add_0_l. f_equal. apply sumN_perm, fmap_Permutation.
  rewrite dom_alt.
  symmetry. apply elements_list_to_set, NoDup_fst_map_to_list.
Qed.

(** X8: a dynamic layer created under a layer id that no static layer, no
    other dynamic layer and not the mesh layer uses adds one to
    [numLayers]; created under an id that is already in use it leaves
    [numLayers] as it was.  Either way it adds one to
    [numDynamicLayersOfType] of its id and to [numDynamicLayers] (each
    modulo 2^64). *)
Theorem createDynamicLayer_counts (g : DynamicSceneGraph) (l : LayerId)
    (p : LayerPrefix) :
  hasDynamicLayer g l p = false →
  let g' := (createDynamicLayer g l p).2 in
  numLayers g'
  = (if decide (is_Some (dynamic_layers_ g !! l)
                ∨ is_Some (layers_ g !! l) ∨ l = mesh_layer_id g)
     then numLayers g else wrap (numLayers g + 1))
  ∧ numDynamicLayersOfType g' l = numDynamicLayersOfType g l + 1
  ∧ (∀ l', l' ≠ l →
           numDynamicLayersOfType g' l' = numDynamicLayersOfType g l')
  ∧ numDynamicLayers g' = wrap (numDynamicLayers g + 1).
Proof.
  intros Hno g'.
  assert (Hg' : g' = set_dynamic_layers
                       (<[l := <[p := DynLayer.new l p]>
                                 (default ∅ (dynamic_layers_ g !! l))]>
                          (dynamic_layers_ g)) g).
  { unfold g'. rewrite createDynamicLayer_get; [done|].
    rewrite hasDynamicLayer_get in Hno. apply bool_decide_eq_false in Hno.
    by destruct (getDynamicLayer g l p); [exfalso; eauto|]. }
  assert (Hp : default ∅ (dynamic_layers_ g !! l) !! p = None).
  { unfold hasDynamicLayer in Hno.
    destruct (dynamic_layers_ g !! l) as [group|]; simpl; [|done].
    apply bool_decide_eq_false in Hno. by apply eq_None_not_Some. }
  split; [|split; [|split]].
  - rewrite !numLayers_sum, Hg'. simpl. rewrite dom_insert_L.
    destruct (dynamic_layers_ g !! l) as [group|] eqn:Hgroup.
    + rewrite decide_True by eauto.
      rewrite (subseteq_union_1_L {[l]});
        [done|by apply singleton_subseteq_l, elem_of_dom].
    + assert (Hperm : elements ({[l]} ∪ dom (dynamic_layers_ g))
                      ≡ₚ l :: elements (dom (dynamic_layers_ g))).
      { apply elements_union_singleton. by apply not_elem_of_dom. }
      rewrite (sumN_perm _ _ (fmap_Permutation _ _ _ Hperm)).
      simpl.
      destruct (decide (_ ∨ _ ∨ _)) as [[[? [=]]|[Hs|Hm]]|Hfree].
      * rewrite bool_decide_eq_true_2 by done. simpl. by rewrite N.add_0_l.
      * subst l. rewrite N.eqb_refl, andb_false_r. by rewrite N.add_0_l.
      * rewrite bool_decide_eq_false_2 by tauto.
        assert (Hm : (l =? mesh_layer_id g) = false)
          by (apply N.eqb_neq; tauto).
        rewrite Hm. simpl. rewrite wrap_add_l. f_equal. sum_lia.
  - rewrite Hg'. unfold numDynamicLayersOfType. simpl.
    rewrite lookup_insert_eq, map_size_insert_None by done.
    destruct (dynamic_layers_ g !! l); simpl;
      rewrite ?map_size_empty; lia.
  - intros l' Hne. rewrite Hg'. unfold numDynamicLayersOfType. simpl.
    by rewrite lookup_insert_ne.
  - unfold numDynamicLayers.
    rewrite !(foldl_add_size_wrapped (λ x, N.of_nat (size x.2))) by done.
    rewrite wrap_add_l, !N.add_0_l. rewrite Hg'. simpl.
    destruct (dynamic_layers_ g !! l) as [group|] eqn:Hgroup; simpl in *.
    + pose proof (sumN_map_insert_Some
                    (λ x : N * gmap N DynamicSceneGraphLayer,
                       N.of_nat (size x.2))
                    (dynamic_layers_ g) l group
                    (<[p := DynLayer.new l p]> group) Hgroup) as Hsum.
      simpl in Hsum. rewrite map_size_insert_None in Hsum by done.
      f_equal. sum_lia.
    + rewrite sumN_map_insert_None by done. simpl.
      rewrite map_size_insert_None by done. rewrite map_size_empty.
      f_equal. sum_lia.
Qed.

End LayerCounts.

(** ** Adding nodes to static layers *)

Section StaticNodes.
Context `{LayerInterface}.

Lemma putLayer_same (g : DynamicSceneGraph) (l : LayerId)
    (layer : SceneGraphLayer) :
  layers_ g !! l = Some layer → putLayer l layer g = g.
Proof.
  intros Hl. unfold putLayer. rewrite insert_id by done. apply set_layers_id.
Qed.

(** What a static [emplaceNode] that went through has done. *)
Lemma emplaceNode_true (g g' : DynamicSceneGraph) (l : LayerId) (n : NodeId)
    (attrs : NodeAttributes) :
  emplaceNode g l n attrs = (true, g') →
  ∃ layer,
    layers_ g !! l = Some layer
    ∧ node_lookup_ g !! n = None
    ∧ nodes_ layer !! n = None
    ∧ g' = set_node_lookup (<[n := static_key l]> (node_lookup_ g))
             (putLayer l
                (mkLayer (layer_id layer)
                   (<[n := mkNode n (layer_id layer) attrs None ∅ ∅]>
                      (nodes_ layer))
                   (<[n := New]> (nodes_status_ layer)) (edges_ layer))
                g).
Proof.
  unfold emplaceNode.
  destruct (layers_ g !! l) as [layer|] eqn:Hl; [|done].
  unfold hasNode.
  destruct (node_lookup_ g !! n) as [k|] eqn:Hn.
  { rewrite bool_decide_eq_true_2 by eauto. done. }
  rewrite bool_decide_eq_false_2 by (by intros [? ?]).
  unfold Layer.emplaceNode, Layer.insertNode, Layer.hasNode. simpl.
  destruct (nodes_ layer !! n) as [node|] eqn:Hnode.
  { rewrite bool_decide_eq_true_2 by eauto. done. }
  rewrite bool_decide_eq_false_2 by (by intros [? ?]).
  intros [= <-]. exists layer. done.
Qed.

Lemma emplaceNode_false (g g' : DynamicSceneGraph) (l : LayerId) (n : NodeId)
    (attrs : NodeAttributes) :
  emplaceNode g l n attrs = (false, g') → g' = g.
Proof.
  unfold emplaceNode.
  destruct (layers_ g !! l) as [layer|] eqn:Hl; [|by intros [= <-]].
  destruct (hasNode g n); [by intros [= <-]|].
  unfold Layer.emplaceNode, Layer.insertNode. simpl.
  destruct (Layer.hasNode layer n); [|done].
  intros [= <-]. by apply putLayer_same.
Qed.

(** X9: the static [emplaceNode] goes through exactly when the layer
    exists and the id is in use neither in the node index nor in the
    layer; a refused call leaves the graph as it was.  After an accepted
    call the id is registered under the layer's static key, [getNode]
    returns a node with the given attributes, no parent, no children and
    no siblings, and no other index entry, layer or node has changed. *)
Theorem emplaceNode_spec (g : DynamicSceneGraph) (l : LayerId) (n : NodeId)
    (attrs : NodeAttributes) :
  ((emplaceNode g l n attrs).1 = true
   ↔ ∃ layer, layers_ g !! l = Some layer
              ∧ hasNode g n = false ∧ Layer.hasNode layer n = false)
  ∧ ((emplaceNode g l n attrs).1 = false → (emplaceNode g l n attrs).2 = g)
  ∧ ((emplaceNode g l n attrs).1 = true →
     let g' := (emplaceNode g l n attrs).2 in
     getLayerForNode g' n = Some (static_key l)
     ∧ isDynamic g' n = false
     ∧ (∃ layer, layers_ g !! l = Some layer
                 ∧ getNode g' n
                   = Some (Some (mkNode n (layer_id layer) attrs None ∅ ∅)))
     ∧ getDynamicNode g' n = Some None
     ∧ (∀ n', n' ≠ n → getLayerForNode g' n' = getLayerForNode g n')
     ∧ (∀ n' k, n' ≠ n → getNodePtr g' n' k = getNodePtr g n' k)
     ∧ (∀ l', l' ≠ l → layers_ g' !! l' = layers_ g !! l')
     ∧ dynamic_layers_ g' = dynamic_layers_ g
     ∧ interlayer_edges_ g' = interlayer_edges_ g
     ∧ dynamic_interlayer_edges_ g' = dynamic_interlayer_edges_ g
     ∧ mesh_tables g' = mesh_tables g).
Proof.
  split; [|split].
  - unfold emplaceNode.
    destruct (layers_ g !! l) as [layer|] eqn:Hl; simpl.
    2:{ split; [done|]. by intros (? & ? & _). }
    destruct (hasNode g n) eqn:Hn; simpl.
    { split; [done|]. by intros (? & _ & ? & _). }
    unfold Layer.emplaceNode, Layer.insertNode. simpl.
    destruct (Layer.hasNode layer n) eqn:Hln; simpl.
    + split; [done|]. intros (layer' & [= <-] & _ & Hc). congruence.
    + split; [|done]. intros _. eauto.
  - destruct (emplaceNode g l n attrs) as [ok g'] eqn:Hem. simpl.
    intros ->. by apply emplaceNode_false in Hem.
  - destruct (emplaceNode g l n attrs) as [ok g'] eqn:Hem. simpl.
    intros ->.
    apply emplaceNode_true in Hem as (layer & Hl & Hn & Hnode & ->).
    unfold getLayerForNode, isDynamic, getNode, getDynamicNode. simpl.
    rewrite !lookup_insert_eq. simpl.
    split; [done|]. split; [done|]. split.
    { exists layer. split; [done|].
      unfold getNodePtr. simpl. rewrite lookup_insert_eq. simpl.
      by rewrite lookup_insert_eq. }
    split; [done|]. split.
    { intros n' Hne. by rewrite lookup_insert_ne. }
    split.
    { intros n' k Hne. unfold getNodePtr, getDynamicLayer. simpl.
      destruct (key_dynamic k); [done|].
      destruct (decide (key_layer k = l)) as [->|Hl'].
      - rewrite lookup_insert_eq, Hl. simpl. by rewrite lookup_insert_ne.
      - by rewrite lookup_insert_ne. }
    split.
    { intros l' Hne. by rewrite lookup_insert_ne. }
    done.
Qed.

(** X10: a static [emplaceNode] that goes through raises [numNodes] by
    exactly one (modulo 2^64). *)
Theorem emplaceNode_numNodes (g g' : DynamicSceneGraph) (l : LayerId)
    (n : NodeId) (attrs : NodeAttributes) :
  emplaceNode g l n attrs = (true, g') →
  numNodes g' = wrap (numNodes g + 1).
Proof.
  intros (layer & Hl & Hn & Hnode & ->)%emplaceNode_true.
  rewrite !numNodes_wrapped_sum, wrap_add_l.
  unfold static_node_count, dynamic_node_count, mesh_vertex_count. simpl.
  pose proof (sumN_map_insert_Some (λ p : N * SceneGraphLayer,
                                      Layer.numNodes p.2)
                (layers_ g) l layer
                (mkLayer (layer_id layer)
                   (<[n := mkNode n (layer_id layer) attrs None ∅ ∅]>
                      (nodes_ layer))
                   (<[n := New]> (nodes_status_ layer)) (edges_ layer))
                Hl) as Hsum.
  unfold Layer.numNodes in Hsum at 2 3. simpl in Hsum.
  rewrite map_size_insert_None in Hsum by done.
  f_equal. sum_lia.
Qed.

(** X11: the mesh layer id passes [hasLayer] once a mesh is set, but there
    is no layer behind it: [getLayer] throws for it, the static
    [emplaceNode] refuses it, and [insertNode] with a node of that layer
    gets past the [hasLayer] check and dereferences a layer that does not
    exist. *)
Theorem mesh_layer_is_no_layer (g : DynamicSceneGraph) :
  layers_ g !! mesh_layer_id g = None →
  hasMesh g = true →
  hasLayer g (mesh_layer_id g) = true
  ∧ getLayer g (mesh_layer_id g) = None
  ∧ (∀ n attrs, emplaceNode g (mesh_layer_id g) n attrs = (false, g))
  ∧ (∀ node, node_layer node = mesh_layer_id g →
             hasNode g (node_id node) = false →
             insertNode g (Some node) = None).
Proof.
  intros Hnone Hmesh.
  assert (Hhas : hasLayer g (mesh_layer_id g) = true).
  { unfold hasLayer. by rewrite N.eqb_refl. }
  split; [done|]. split.
  { unfold getLayer. by rewrite Hhas. }
  split.
  { intros n attrs. unfold emplaceNode. by rewrite Hnone. }
  intros node Hlayer Hfresh. unfold insertNode.
  rewrite Hfresh, Hlayer, Hhas. simpl. by rewrite Hnone.
Qed.

End StaticNodes.

(** ** Removing nodes *)

Section Unlinks.
Context `{LayerInterface}.

Lemma node_shrinks_refl (x : SceneGraphNode) : node_shrinks x x.
Proof. by repeat split; [..|left]. Qed.

Lemma node_shrinks_trans (x y z : SceneGraphNode) :
  node_shrinks x y → node_shrinks y z → node_shrinks x z.
Proof.
  intros (Hc1 & Hs1 & Hp1) (Hc2 & Hs2 & Hp2).
  split; [by etrans|]. split; [by etrans|].
  destruct Hp2 as [Hp2|Hp2]; [rewrite Hp2; exact Hp1|by right].
Qed.

Lemma node_shrinks_clearParent (x : SceneGraphNode) :
  node_shrinks x (clearParent x).
Proof. by repeat split; [..|right]. Qed.

Lemma node_shrinks_children (x : SceneGraphNode) (X : gset N) :
  node_shrinks x (with_children (λ c, c ∖ X) x).
Proof.
  split; [simpl; apply subseteq_difference_l; done|]. by split; [|left].
Qed.

Lemma node_shrinks_siblings (x : SceneGraphNode) (X : gset N) :
  node_shrinks x (with_siblings (λ c, c ∖ X) x).
Proof.
  split; [done|]. split; [simpl; apply subseteq_difference_l; done|by left].
Qed.

Lemma unlinks_refl (S : DynamicSceneGraph) : unlinks S S.
Proof.
  split; try done; try apply edges_sub_refl.
  intros x k node Hx. exists node. split; [done|apply node_shrinks_refl].
Qed.

Lemma unlinks_trans (S1 S2 S3 : DynamicSceneGraph) :
  unlinks S1 S2 → unlinks S2 S3 → unlinks S1 S3.
Proof.
  intros [Hl1 Hn1 Hi1 Hd1 Hm1] [Hl2 Hn2 Hi2 Hd2 Hm2]. split.
  - by rewrite Hl2.
  - intros x k node Hx. destruct (Hn1 _ _ _ Hx) as (node2 & Hx2 & Hs2).
    destruct (Hn2 _ _ _ Hx2) as (node3 & Hx3 & Hs3).
    exists node3. split; [done|]. by eapply node_shrinks_trans.
  - by eapply edges_sub_trans.
  - by eapply edges_sub_trans.
  - by rewrite Hm2.
Qed.

(** A write to one node is seen at another place either not at all or as
    the same write. *)
Lemma getNodePtr_modifyNode_cases (g : DynamicSceneGraph) (m x : NodeId)
    (k kx : LayerKey) (f : SceneGraphNode → SceneGraphNode) :
  getNodePtr (modifyNode m k f g) x kx = getNodePtr g x kx
  ∨ getNodePtr (modifyNode m k f g) x kx = f <$> getNodePtr g x kx.
Proof.
  unfold getNodePtr, modifyNode, getDynamicLayer.
  destruct (key_dynamic k) eqn:Hk, (key_dynamic kx) eqn:Hkx; simpl;
    try by left.
  - destruct (decide (key_layer k = key_layer kx)) as [Hl|Hl].
    2:{ left. by rewrite lookup_alter_ne. }
    rewrite Hl, lookup_alter_eq.
    destruct (dynamic_layers_ g !! key_layer kx) as [group|]; simpl;
      [|by left].
    destruct (decide (key_prefix k = key_prefix kx)) as [Hp|Hp].
    2:{ left. by rewrite lookup_alter_ne. }
    rewrite Hp, lookup_alter_eq.
    destruct (group !! key_prefix kx) as [layer|]; simpl; [|by left].
    destruct (decide (categoryId m = categoryId x)) as [Hc|Hc].
    + right. by rewrite Hc, lookup_alter_eq.
    + left. by rewrite lookup_alter_ne.
  - destruct (decide (key_layer k = key_layer kx)) as [Hl|Hl].
    2:{ left. by rewrite lookup_alter_ne. }
    rewrite Hl, lookup_alter_eq.
    destruct (layers_ g !! key_layer kx) as [layer|]; simpl; [|by left].
    destruct (decide (m = x)) as [->|Hc].
    + right. by rewrite lookup_alter_eq.
    + left. by rewrite lookup_alter_ne.
Qed.

Lemma modifyNode_mesh_tables (g : DynamicSceneGraph) (m : NodeId)
    (k : LayerKey) (f : SceneGraphNode → SceneGraphNode) :
  mesh_tables (modifyNode m k f g) = mesh_tables g.
Proof. unfold modifyNode. by destruct (key_dynamic k). Qed.

Lemma modifyNode_unlinks (g : DynamicSceneGraph) (m : NodeId) (k : LayerKey)
    (f : SceneGraphNode → SceneGraphNode) :
  (∀ x, node_shrinks x (f x)) → unlinks g (modifyNode m k f g).
Proof.
  intros Hf. split.
  - apply modifyNode_node_lookup.
  - intros x kx node Hx.
    destruct (getNodePtr_modifyNode_cases g m x k kx f) as [-> | ->];
      rewrite Hx; simpl; eexists; (split; [done|]);
      [apply node_shrinks_refl|apply Hf].
  - rewrite modifyNode_interlayer_edges. apply edges_sub_refl.
  - rewrite modifyNode_dynamic_interlayer_edges. apply edges_sub_refl.
  - apply modifyNode_mesh_tables.
Qed.

Lemma edges_sub_remove (c : EdgeContainer) (s t : NodeId) :
  edges_sub (Edges.remove c s t) c.
Proof.
  intros key [e He]. simpl in He.
  apply lookup_delete_Some in He as [_ He]. eauto.
Qed.

Lemma contains_remove (c : EdgeContainer) (s t : NodeId) :
  Edges.contains (Edges.remove c s t) s t = false.
Proof.
  unfold Edges.contains, Edges.remove. simpl.
  apply bool_decide_eq_false. rewrite lookup_delete_eq. by intros [? ?].
Qed.

Lemma contains_false_sub (c c' : EdgeContainer) (s t : NodeId) :
  edges_sub c' c → Edges.contains c s t = false →
  Edges.contains c' s t = false.
Proof.
  intros Hsub Hc. destruct (Edges.contains c' s t) eqn:Hc'; [|done].
  by rewrite (contains_sub _ _ _ _ Hsub Hc') in Hc.
Qed.

Lemma unlinks_container (S S' : DynamicSceneGraph) (ks kt : LayerKey)
    (s t : NodeId) :
  unlinks S S' →
  Edges.contains (interlayer_container ks kt S) s t = false →
  Edges.contains (interlayer_container ks kt S') s t = false.
Proof.
  intros Hu. unfold interlayer_container.
  destruct (key_dynamic ks || key_dynamic kt);
    apply contains_false_sub; apply Hu.
Qed.

Lemma removeAncestry_unlinks (S S' : DynamicSceneGraph) (s t : NodeId)
    (ks kt : LayerKey) :
  removeAncestry S s t ks kt = Some S' → unlinks S S'.
Proof.
  unfold removeAncestry.
  destruct (getNodePtr S s ks); simpl; [|done].
  destruct (getNodePtr S t kt); simpl; [|done].
  destruct (isParent ks kt); [|destruct (isParent kt ks)];
    intros [= <-];
    (eapply unlinks_trans; apply modifyNode_unlinks; intros x);
    auto using node_shrinks_clearParent, node_shrinks_children,
      node_shrinks_siblings.
Qed.

Lemma removeInterlayerEdge_unlinks (S S' : DynamicSceneGraph) (s t : NodeId)
    (ks kt : LayerKey) :
  removeInterlayerEdge S s t ks kt = Some S' →
  unlinks S S'
  ∧ Edges.contains (interlayer_container ks kt S') s t = false.
Proof.
  unfold removeInterlayerEdge, interlayer_container.
  destruct (removeAncestry S s t ks kt) as [S1|] eqn:Hra; simpl; [|done].
  apply removeAncestry_unlinks in Hra as [Hl Hn Hi Hd Hm].
  destruct (key_dynamic ks || key_dynamic kt); intros [= <-]; simpl;
    (split; [|apply contains_remove]).
  - split; simpl; try done.
    eapply edges_sub_trans; [apply edges_sub_remove|done].
  - split; simpl; try done.
    eapply edges_sub_trans; [apply edges_sub_remove|done].
Qed.

(** What one call of the two-argument [removeInterlayerEdge] does to a
    node [s] and a node [t] filed under another key. *)
Lemma removeInterlayerEdge2_effect (S : DynamicSceneGraph) (s t : NodeId)
    (ks kt : LayerKey) (ns nt : SceneGraphNode) :
  node_lookup_ S !! s = Some ks →
  node_lookup_ S !! t = Some kt →
  getNodePtr S s ks = Some ns →
  getNodePtr S t kt = Some nt →
  key_eqb ks kt = false →
  ∃ S',
    removeInterlayerEdge2 S s t = Some S'
    ∧ unlinks S S'
    ∧ Edges.contains (interlayer_container ks kt S') s t = false
    ∧ (isParent ks kt = true →
       getNodePtr S' t kt = Some (clearParent nt)
       ∧ getNodePtr S' s ks = Some (with_children (λ c, c ∖ {[t]}) ns))
    ∧ (isParent ks kt = false → isParent kt ks = true →
       getNodePtr S' t kt = Some (with_children (λ c, c ∖ {[s]}) nt)
       ∧ getNodePtr S' s ks = Some (clearParent ns)).
Proof.
  intros Hs Ht Hns Hnt Hk.
  assert (Hk' : key_eqb kt ks = false) by (by rewrite key_eqb_sym).
  unfold removeInterlayerEdge2. rewrite Hs, Ht. simpl.
  destruct (removeInterlayerEdge S s t ks kt) as [S'|] eqn:Hrm.
  2:{ exfalso. unfold removeInterlayerEdge, removeAncestry in Hrm.
      rewrite Hns, Hnt in Hrm. simpl in Hrm.
      destruct (isParent ks kt); [|destruct (isParent kt ks)];
        simpl in Hrm; destruct (key_dynamic ks || key_dynamic kt); done. }
  exists S'. split; [done|].
  destruct (removeInterlayerEdge_unlinks _ _ _ _ _ _ Hrm) as [Hu Hc].
  split; [done|]. split; [done|].
  unfold removeInterlayerEdge, removeAncestry in Hrm.
  rewrite Hns, Hnt in Hrm. simpl in Hrm.
  split.
  - intros Hpar. rewrite Hpar in Hrm. simpl in Hrm.
    assert (Hboth :
      getNodePtr (modifyNode t kt clearParent
        (modifyNode s ks (with_children (λ c, c ∖ {[t]})) S)) t kt
      = Some (clearParent nt)
      ∧ getNodePtr (modifyNode t kt clearParent
          (modifyNode s ks (with_children (λ c, c ∖ {[t]})) S)) s ks
        = Some (with_children (λ c, c ∖ {[t]}) ns)).
    { rewrite getNodePtr_modifyNode_same, getNodePtr_modifyNode_other, Hnt
        by done.
      rewrite getNodePtr_modifyNode_other, getNodePtr_modifyNode_same, Hns
        by done.
      done. }
    destruct (key_dynamic ks || key_dynamic kt); injection Hrm as <-;
      exact Hboth.
  - intros Hnpar Hpar. rewrite Hnpar, Hpar in Hrm. simpl in Hrm.
    assert (Hboth :
      getNodePtr (modifyNode s ks clearParent
        (modifyNode t kt (with_children (λ c, c ∖ {[s]})) S)) t kt
      = Some (with_children (λ c, c ∖ {[s]}) nt)
      ∧ getNodePtr (modifyNode s ks clearParent
          (modifyNode t kt (with_children (λ c, c ∖ {[s]})) S)) s ks
        = Some (clearParent ns)).
    { rewrite getNodePtr_modifyNode_other, getNodePtr_modifyNode_same, Hnt
        by done.
      rewrite getNodePtr_modifyNode_same, getNodePtr_modifyNode_other, Hns
        by done.
      done. }
    destruct (key_dynamic ks || key_dynamic kt); injection Hrm as <-;
      exact Hboth.
Qed.

Lemma child_link_ok_spec (g : DynamicSceneGraph) (info : LayerKey)
    (c : NodeId) :
  child_link_ok g info c = true
  ↔ ∃ kc, node_lookup_ g !! c = Some kc
          ∧ is_Some (getNodePtr g c kc)
          ∧ key_eqb info kc = false
          ∧ isParent info kc = true.
Proof.
  unfold child_link_ok. destruct (node_lookup_ g !! c) as [kc|].
  - rewrite !andb_true_iff, bool_decide_eq_true, negb_true_iff. split.
    + intros [[? ?] ?]. eauto.
    + intros (kc' & [= <-] & ? & ? & ?). done.
  - split; [done|]. by intros (? & ? & _).
Qed.

Lemma parent_link_ok_spec (g : DynamicSceneGraph) (info : LayerKey)
    (p : NodeId) :
  parent_link_ok g info p = true
  ↔ ∃ kp, node_lookup_ g !! p = Some kp
          ∧ is_Some (getNodePtr g p kp)
          ∧ key_eqb info kp = false
          ∧ isParent kp info = true
          ∧ isParent info kp = false.
Proof.
  unfold parent_link_ok. destruct (node_lookup_ g !! p) as [kp|].
  - rewrite !andb_true_iff, bool_decide_eq_true, !negb_true_iff. split.
    + intros [[[? ?] ?] ?]. eauto 6.
    + intros (kc' & [= <-] & ? & ? & ? & ?). done.
  - split; [done|]. by intros (? & ? & _).
Qed.

Lemma unlinks_is_Some (S S' : DynamicSceneGraph) (x : NodeId) (k : LayerKey) :
  unlinks S S' → is_Some (getNodePtr S x k) → is_Some (getNodePtr S' x k).
Proof.
  intros Hu [node Hx]. destruct (ul_nodes _ _ Hu _ _ _ Hx) as (? & ? & _).
  eauto.
Qed.

Lemma unlinks_child_link_ok (S S' : DynamicSceneGraph) (info : LayerKey)
    (c : NodeId) :
  unlinks S S' → child_link_ok S info c = true →
  child_link_ok S' info c = true.
Proof.
  intros Hu (kc & Hc & Hn & Hk & Hp)%child_link_ok_spec.
  apply child_link_ok_spec. exists kc.
  rewrite (ul_lookup _ _ Hu). eauto using unlinks_is_Some.
Qed.

(** The loop of [removeNode] over the children of the node. *)
Lemma remove_children_loop (n : NodeId) (info : LayerKey)
    (cs : list NodeId) :
  ∀ S : DynamicSceneGraph,
    node_lookup_ S !! n = Some info →
    is_Some (getNodePtr S n info) →
    (∀ c, c ∈ cs → child_link_ok S info c = true) →
    ∃ S',
      foldM (λ g' target, removeInterlayerEdge2 g' n target) cs S = Some S'
      ∧ unlinks S S'
      ∧ ∀ c kc, c ∈ cs → node_lookup_ S !! c = Some kc →
          Edges.contains (interlayer_container info kc S') n c = false
          ∧ ∃ cn, getNodePtr S' c kc = Some cn ∧ parent_ cn = None.
Proof.
  induction cs as [|c cs IH]; intros S Hn Hnode Hok; cbn [foldM].
  - exists S. split; [done|]. split; [apply unlinks_refl|].
    intros c kc Hc. by apply elem_of_nil in Hc.
  - destruct (proj1 (child_link_ok_spec S info c)
                (Hok c (list_elem_of_here _ _)))
      as (kc & Hc & [cn Hcn] & Hk & Hp).
    destruct Hnode as [node Hnode].
    destruct (removeInterlayerEdge2_effect S n c info kc node cn
                Hn Hc Hnode Hcn Hk)
      as (S1 & -> & Hu1 & Hcont & Hbranch & _).
    destruct (Hbranch Hp) as [Hcn1 Hn1]. simpl.
    destruct (IH S1) as (S' & Hrun & Hu & Hrest).
    { by rewrite (ul_lookup _ _ Hu1). }
    { eauto. }
    { intros c' Hc'. eapply unlinks_child_link_ok; [done|].
      apply Hok. by apply list_elem_of_further. }
    exists S'. split; [done|]. split; [by eapply unlinks_trans|].
    intros c' kc' [->|Hin]%elem_of_cons Hc'.
    + assert (kc' = kc) as -> by congruence.
      split; [by eapply unlinks_container|].
      destruct (ul_nodes _ _ Hu _ _ _ Hcn1) as (cn' & Hcn' & _ & _ & Hpar).
      exists cn'. split; [done|]. by destruct Hpar as [-> | ->].
    + apply Hrest; [done|]. by rewrite (ul_lookup _ _ Hu1).
Qed.

Lemma mesh_tables_fields (S S' : DynamicSceneGraph) :
  mesh_tables S' = mesh_tables S →
  mesh_edges_ S' = mesh_edges_ S
  ∧ mesh_edges_node_lookup_ S' = mesh_edges_node_lookup_ S
  ∧ mesh_edges_vertex_lookup_ S' = mesh_edges_vertex_lookup_ S
  ∧ next_mesh_edge_idx_ S' = next_mesh_edge_idx_ S.
Proof. unfold mesh_tables. by intros [= -> -> -> ->]. Qed.

Lemma mesh_tables_consistent (S S' : DynamicSceneGraph) :
  mesh_tables S' = mesh_tables S → mesh_consistent S → mesh_consistent S'.
Proof.
  intros (He & Hn & Hv & _)%mesh_tables_fields.
  unfold mesh_consistent, meshEdgeId, meshEdgeId_by_vertex.
  by rewrite He, Hn, Hv.
Qed.

Lemma mesh_tables_meshEdgeId (S S' : DynamicSceneGraph) (n w : N) :
  mesh_tables S' = mesh_tables S → meshEdgeId S' n w = meshEdgeId S n w.
Proof.
  intros (_ & Hn & _)%mesh_tables_fields. unfold meshEdgeId. by rewrite Hn.
Qed.

Lemma getNodePtr_layerFromKey (S : DynamicSceneGraph) (x : NodeId)
    (k : LayerKey) :
  is_Some (getNodePtr S x k) →
  ∃ b, layerFromKey S k = Some b
       ∧ match b with
         | StaticLayer _ => key_dynamic k = false
         | DynamicLayer _ => key_dynamic k = true
         end.
Proof.
  unfold getNodePtr, layerFromKey. destruct (key_dynamic k).
  - destruct (getDynamicLayer S _ _) as [d|]; simpl; [|by intros [? ?]].
    intros _. by exists (DynamicLayer d).
  - destruct (layers_ S !! _) as [l|]; simpl; [|by intros [? ?]].
    intros _. by exists (StaticLayer l).
Qed.

(** Replacing the layer behind one key is not seen through another key. *)
Lemma getNodePtr_storeLayer_other (S : DynamicSceneGraph) (info k : LayerKey)
    (b : BaseLayer) (x : NodeId) :
  match b with
  | StaticLayer _ => key_dynamic info = false
  | DynamicLayer _ => key_dynamic info = true
  end →
  key_eqb info k = false →
  getNodePtr (storeLayer info b S) x k = getNodePtr S x k.
Proof.
  intros Hb Hk. apply key_eqb_false_cases in Hk.
  unfold getNodePtr, storeLayer.
  destruct b as [l|d]; destruct (key_dynamic k) eqn:Hdk.
  - done.
  - simpl. rewrite lookup_insert_ne; [done|].
    destruct Hk as [?|[(_ & _ & ?)|(? & _)]]; congruence.
  - rewrite getDynamicLayer_put. rewrite decide_False; [done|].
    intros [= Hl Hp].
    destruct Hk as [?|[(? & _)|(_ & _ & [?|?])]]; congruence.
  - done.
Qed.

(** X12: a node that is in the graph, whose parent and children are nodes
    of the graph in the layers above and below its own, is removed without
    an exception.  Afterwards the id is out of the node index (and only
    this id), no mesh edge starts at it while every other mesh edge is
    kept, its parent no longer lists it as a child, its children have no
    parent, and the interlayer edges to the parent and to the children are
    gone. *)
Theorem removeNode_unlinks_node (g : DynamicSceneGraph) (n : NodeId)
    (info : LayerKey) (node : SceneGraphNode) :
  mesh_consistent g →
  node_lookup_ g !! n = Some info →
  getNodePtr g n info = Some node →
  links_ok g info node = true →
  ∃ g',
    removeNode g n = Some (true, g')
    ∧ node_lookup_ g' = delete n (node_lookup_ g)
    ∧ mesh_consistent g'
    ∧ (∀ m w, meshEdgeId g' m w
              = if decide (m = n) then None else meshEdgeId g m w)
    ∧ (∀ p kp, parent_ node = Some p → node_lookup_ g !! p = Some kp →
         Edges.contains (interlayer_container info kp g') n p = false
         ∧ ∃ pn, getNodePtr g' p kp = Some pn ∧ n ∉ children_ pn)
    ∧ (∀ c kc, c ∈ children_ node → node_lookup_ g !! c = Some kc →
         Edges.contains (interlayer_container info kc g') n c = false
         ∧ ∃ cn, getNodePtr g' c kc = Some cn ∧ parent_ cn = None).
Proof.
  intros Hcons Hinfo Hnode Hlinks.
  apply andb_true_iff in Hlinks as [Hparent Hchildren].
  rewrite forallb_forall in Hchildren.
  (* the mesh edges of the node *)
  assert (Hmesh : ∃ g1,
    match mesh_edges_node_lookup_ g !! n with
    | None => Some g
    | Some by_vertex =>
        foldM (λ g' vertex, removeMeshEdge_ g' (n, vertex))
              (map_to_list by_vertex).*1 g
    end = Some g1
    ∧ mesh_consistent g1 ∧ mesh_edges_only g g1
    ∧ ∀ m w, meshEdgeId g1 m w
             = if decide (m = n) then None else meshEdgeId g m w).
  { destruct (mesh_edges_node_lookup_ g !! n) as [by_vertex|] eqn:Hbv.
    - destruct (removeMeshEdge_pairs
                  ((λ v, (n, v)) <$> (map_to_list by_vertex).*1) g Hcons)
        as (g1 & Hrun & Hc1 & Honly & Hid & _).
      rewrite foldM_fmap in Hrun.
      exists g1. split; [done|]. split; [done|]. split; [done|].
      intros m w. rewrite Hid.
      destruct (decide (m = n)) as [->|Hne].
      + destruct (decide (_ ∈ _)) as [_|Hnin]; [done|].
        unfold meshEdgeId. rewrite Hbv. simpl.
        destruct (by_vertex !! w) as [i|] eqn:Hw; [|done].
        exfalso. apply Hnin. apply list_elem_of_fmap. exists w.
        split; [done|]. apply list_elem_of_fmap. exists (w, i).
        split; [done|]. by apply elem_of_map_to_list.
      + rewrite decide_False; [done|].
        intros (v & [= ? _] & _)%list_elem_of_fmap. done.
    - exists g. split; [done|]. split; [done|].
      split; [apply mesh_edges_only_refl|].
      intros m w. destruct (decide (m = n)) as [->|]; [|done].
      unfold meshEdgeId. by rewrite Hbv. }
  destruct Hmesh as (g1 & Hrun1 & Hcons1 & Honly & Hid1).
  unfold mesh_edges_only in Honly.
  assert (Hlook1 : node_lookup_ g1 = node_lookup_ g) by (by rewrite Honly).
  assert (Hptr1 : ∀ x k, getNodePtr g1 x k = getNodePtr g x k)
    by (by rewrite Honly).
  assert (Hcont1 : ∀ ks kt, interlayer_container ks kt g1
                            = interlayer_container ks kt g)
    by (by rewrite Honly).
  (* the parent edge *)
  assert (Hpar : ∃ g2,
    match parent_ node with
    | Some parent => removeInterlayerEdge2 g1 n parent
    | None => Some g1
    end = Some g2
    ∧ unlinks g1 g2
    ∧ (∃ node2, getNodePtr g2 n info = Some node2
                ∧ children_ node2 = children_ node)
    ∧ ∀ p kp, parent_ node = Some p → node_lookup_ g !! p = Some kp →
        Edges.contains (interlayer_container info kp g2) n p = false
        ∧ ∃ pn, getNodePtr g2 p kp = Some pn ∧ n ∉ children_ pn).
  { destruct (parent_ node) as [p|] eqn:Hp.
    - simpl in Hparent.
      apply parent_link_ok_spec in Hparent
        as (kp & Hkp & [pn Hpn] & Hk & Hup & Hdown).
      destruct (removeInterlayerEdge2_effect g1 n p info kp node pn)
        as (g2 & Hrm & Hu & Hc & _ & Hbranch); try (by rewrite ?Hlook1, ?Hptr1).
      destruct (Hbranch Hdown Hup) as [Hpn2 Hn2].
      exists g2. split; [done|]. split; [done|].
      split; [by exists (clearParent node)|].
      intros p' kp' [= <-] Hkp'.
      assert (kp' = kp) as -> by congruence.
      split; [done|]. eexists. split; [exact Hpn2|].
      simpl. apply not_elem_of_difference. right. by apply elem_of_singleton.
    - exists g1. split; [done|]. split; [apply unlinks_refl|].
      split; [exists node; by rewrite Hptr1|]. done. }
  destruct Hpar as (g2 & Hrun2 & Hu2 & (node2 & Hnode2 & Hch2) & Hpfacts).
  (* the child edges *)
  destruct (remove_children_loop n info (elements (children_ node2)) g2)
    as (g3 & Hrun3 & Hu3 & Hcfacts).
  { by rewrite (ul_lookup _ _ Hu2), Hlook1. }
  { eauto. }
  { intros c Hc. rewrite Hch2 in Hc.
    eapply unlinks_child_link_ok; [exact Hu2|].
    specialize (Hchildren c).
    assert (Hin : In c (elements (children_ node)))
      by (by apply list_elem_of_In).
    specialize (Hchildren Hin).
    apply child_link_ok_spec in Hchildren as (kc & ? & ? & ? & ?).
    apply child_link_ok_spec. exists kc.
    by rewrite Hlook1, Hptr1. }
  (* the node itself *)
  destruct (unlinks_is_Some _ _ n info Hu3 (ex_intro _ _ Hnode2)) as [node3 Hnode3].
  destruct (getNodePtr_layerFromKey g3 n info (ex_intro _ _ Hnode3))
    as (layer & Hlayer & Hvariant).
  set (g4 := storeLayer info (Base.removeNode layer n).2 g3).
  exists (set_node_lookup (delete n (node_lookup_ g4)) g4).
  assert (Hvariant' : match (Base.removeNode layer n).2 with
                      | StaticLayer _ => key_dynamic info = false
                      | DynamicLayer _ => key_dynamic info = true
                      end).
  { destruct layer as [l|d]; simpl.
    - by destruct (Layer.removeNode l n).
    - by destruct (DynLayer.removeNode d n). }
  assert (Hlook4 : node_lookup_ g4 = node_lookup_ g).
  { unfold g4. rewrite storeLayer_node_lookup.
    by rewrite (ul_lookup _ _ Hu3), (ul_lookup _ _ Hu2). }
  assert (Hmesh4 : mesh_tables g4 = mesh_tables g1).
  { unfold g4. rewrite <- (ul_mesh _ _ Hu2), <- (ul_mesh _ _ Hu3).
    by destruct (Base.removeNode layer n).2. }
  assert (Hcont4 : ∀ ks kt, interlayer_container ks kt g4
                            = interlayer_container ks kt g3).
  { intros ks kt. unfold g4. by destruct (Base.removeNode layer n).2. }
  split.
  { unfold removeNode. rewrite Hinfo. rewrite Hrun1. simpl.
    rewrite Hptr1, Hnode. simpl. rewrite Hrun2. simpl.
    rewrite Hnode2. simpl. rewrite Hrun3. simpl. rewrite Hlayer. done. }
  split; [simpl; by rewrite Hlook4|].
  split; [by apply (mesh_tables_consistent g1)|].
  split.
  { intros m w. rewrite <- Hid1. by apply mesh_tables_meshEdgeId. }
  split.
  - intros p kp Hp Hkp. destruct (Hpfacts p kp Hp Hkp) as [Hc (pn & Hpn & Hnin)].
    split.
    + change (Edges.contains (interlayer_container info kp g4) n p = false).
      rewrite Hcont4. by eapply unlinks_container.
    + rewrite Hp in Hparent. simpl in Hparent.
      apply parent_link_ok_spec in Hparent as (kp' & Hkp' & _ & Hk & _).
      assert (kp' = kp) as -> by congruence.
      destruct (ul_nodes _ _ Hu3 _ _ _ Hpn) as (pn' & Hpn' & Hsub & _).
      exists pn'. split; [|by intros ?%Hsub].
      change (getNodePtr g4 p kp = Some pn'). unfold g4.
      by rewrite getNodePtr_storeLayer_other.
  - intros c kc Hc Hkc.
    destruct (Hcfacts c kc) as [Hcont (cn & Hcn & Hnone)].
    { rewrite Hch2. by apply elem_of_elements. }
    { by rewrite (ul_lookup _ _ Hu2), Hlook1. }
    split.
    + change (Edges.contains (interlayer_container info kc g4) n c = false).
      by rewrite Hcont4.
    + exists cn. split; [|done].
      change (getNodePtr g4 c kc = Some cn). unfold g4.
      rewrite getNodePtr_storeLayer_other; [done|done|].
      assert (Hin : In c (elements (children_ node))).
      { apply list_elem_of_In. by apply elem_of_elements. }
      apply Hchildren, child_link_ok_spec in Hin as (kc' & ? & _ & ? & _).
      congruence.
Qed.

End Unlinks.

Section RoundTrip.
Context `{LayerInterface}.

(** X13: removing a node of a static layer right after [emplaceNode] put
    it there gives the graph back: the node index, the nodes of every
    layer, the dynamic layers, both interlayer edge sets and the mesh
    tables are as before.  What remains is the change marker of the id in
    its layer, which now reads removed, and the layer has lost any edge it
    still had on file for that id. *)
Theorem emplace_then_removeNode (g g1 : DynamicSceneGraph) (l : LayerId)
    (n : NodeId) (attrs : NodeAttributes) :
  emplaceNode g l n attrs = (true, g1) →
  (∀ v, hasMeshEdge g n v = false) →
  ∃ layer,
    layers_ g !! l = Some layer
    ∧ removeNode g1 n
      = Some (true,
              set_layers
                (<[l := mkLayer (layer_id layer) (nodes_ layer)
                          (<[n := Removed]> (nodes_status_ layer))
                          (drop_edges_of n (edges_ layer))]> (layers_ g))
                g).
Proof.
  intros (layer & Hl & Hn & Hnode & ->)%emplaceNode_true Hmesh.
  exists layer. split; [done|].
  set (node := mkNode n (layer_id layer) attrs None ∅ ∅).
  set (layer1 := mkLayer (layer_id layer) (<[n := node]> (nodes_ layer))
                         (<[n := New]> (nodes_status_ layer))
                         (edges_ layer)).
  set (g1 := set_node_lookup (<[n := static_key l]> (node_lookup_ g))
               (putLayer l layer1 g)).
  assert (Hlook : node_lookup_ g1 !! n = Some (static_key l))
    by apply lookup_insert_eq.
  assert (Hptr : getNodePtr g1 n (static_key l) = Some node).
  { unfold getNodePtr. simpl. rewrite lookup_insert_eq. simpl.
    apply lookup_insert_eq. }
  assert (Hloop : match mesh_edges_node_lookup_ g1 !! n with
                  | Some by_vertex =>
                      foldM (λ g' vertex, removeMeshEdge_ g' (n, vertex))
                            (map_to_list by_vertex).*1 g1
                  | None => Some g1
                  end = Some g1).
  { change (mesh_edges_node_lookup_ g1) with (mesh_edges_node_lookup_ g).
    destruct (mesh_edges_node_lookup_ g !! n) as [by_vertex|] eqn:Hbv; [|done].
    assert (by_vertex = ∅) as ->; [|by rewrite map_to_list_empty].
    apply map_empty. intros v. specialize (Hmesh v).
    unfold hasMeshEdge in Hmesh. rewrite Hbv in Hmesh.
    apply bool_decide_eq_false in Hmesh. by apply eq_None_not_Some. }
  assert (Hlayer : layerFromKey g1 (static_key l) = Some (StaticLayer layer1)).
  { unfold layerFromKey. simpl. by rewrite lookup_insert_eq. }
  assert (Hrm : (Base.removeNode (StaticLayer layer1) n).2
                = StaticLayer (mkLayer (layer_id layer) (nodes_ layer)
                                 (<[n := Removed]> (nodes_status_ layer))
                                 (drop_edges_of n (edges_ layer)))).
  { simpl. unfold Layer.removeNode, Layer.hasNode. simpl.
    rewrite lookup_insert_eq, bool_decide_eq_true_2 by eauto. simpl.
    by rewrite delete_insert_id, insert_insert_eq. }
  unfold removeNode. rewrite Hlook, Hloop. cbn [mbind option_bind].
  rewrite Hptr. cbn [mbind option_bind].
  change (parent_ node) with (@None N). cbn [mbind option_bind].
  rewrite Hptr. cbn [mbind option_bind].
  change (children_ node) with (∅ : gset N). rewrite elements_empty.
  cbn [foldM mbind option_bind]. rewrite Hlayer. cbn [mbind option_bind].
  rewrite Hrm. do 2 f_equal.
  unfold g1, storeLayer, set_node_lookup, putLayer, set_layers. simpl.
  rewrite delete_insert_id by done. by rewrite insert_insert_eq.
Qed.

End RoundTrip.

(** ** Edges: insertion, lookup, removal *)

Section SetFacts.

Lemma union_difference_singleton (t : N) (c : gset N) :
  t ∉ c → ({[t]} ∪ c) ∖ {[t]} = c.
Proof.
  intros Ht. apply set_eq. intros x.
  rewrite elem_of_difference, elem_of_union, !elem_of_singleton.
  split; [by intros [[->|?] ?]|].
  intros Hx. split; [by right|]. by intros ->.
Qed.

Lemma EdgeKey_sym (s t : NodeId) : EdgeKey s t = EdgeKey t s.
Proof. unfold EdgeKey. by rewrite N.min_comm, N.max_comm. Qed.

Lemma contains_sym (c : EdgeContainer) (s t : NodeId) :
  Edges.contains c s t = Edges.contains c t s.
Proof. unfold Edges.contains. by rewrite EdgeKey_sym. Qed.

Lemma get_sym (c : EdgeContainer) (s t : NodeId) :
  Edges.get c s t = Edges.get c t s.
Proof. unfold Edges.get. by rewrite EdgeKey_sym. Qed.

Lemma get_insert (c : EdgeContainer) (s t : NodeId) (a : EdgeAttributes) :
  Edges.get (Edges.insert c s t a) s t = Some (mkEdge s t a).
Proof. unfold Edges.get, Edges.insert. simpl. apply lookup_insert_eq. Qed.

Lemma contains_false_get (c : EdgeContainer) (s t : NodeId) :
  Edges.contains c s t = false → edges c !! EdgeKey s t = None.
Proof.
  unfold Edges.contains. intros Hc%bool_decide_eq_false.
  by apply eq_None_not_Some.
Qed.

Lemma remove_insert_edges (c : EdgeContainer) (s t : NodeId)
    (a : EdgeAttributes) :
  Edges.contains c s t = false →
  edges (Edges.remove (Edges.insert c s t a) s t) = edges c.
Proof.
  intros Hc%contains_false_get. simpl. by apply delete_insert_id.
Qed.

Lemma key_eqb_refl (k : LayerKey) : key_eqb k k = true.
Proof.
  unfold key_eqb. destruct k as [l p [|]]; simpl; by rewrite !N.eqb_refl.
Qed.

Lemma key_eqb_true_layerFromKey (g : DynamicSceneGraph) (k k' : LayerKey) :
  key_eqb k k' = true → layerFromKey g k = layerFromKey g k'.
Proof.
  unfold key_eqb, layerFromKey. destruct k as [l p d], k' as [l' p' d'].
  simpl. destruct d, d'; simpl; try done.
  - intros [->%N.eqb_eq ->%N.eqb_eq]%andb_true_iff. done.
  - intros ->%N.eqb_eq. done.
Qed.

Lemma key_eqb_true_dynamic (k k' : LayerKey) :
  key_eqb k k' = true → key_dynamic k = key_dynamic k'.
Proof.
  unfold key_eqb. destruct (key_dynamic k), (key_dynamic k'); done.
Qed.

End SetFacts.

Section EdgeQueries.
Context `{LayerInterface}.

Lemma base_hasEdge_sym (b : BaseLayer) (s t : NodeId) :
  Base.hasEdge b s t = Base.hasEdge b t s.
Proof. destruct b; apply contains_sym. Qed.

Lemma interlayer_container_sym (ks kt : LayerKey) (g : DynamicSceneGraph) :
  interlayer_container ks kt g = interlayer_container kt ks g.
Proof. unfold interlayer_container. by rewrite orb_comm. Qed.

(** X14: [hasEdge] does not depend on the order in which the two end
    points are given: asked the other way round it gives the same answer
    (and throws in the same cases), with the two keys it reports
    swapped. *)
Theorem hasEdge_sym (g : DynamicSceneGraph) (s t : NodeId) :
  hasEdge g t s
  = (λ r : bool * option (LayerKey * LayerKey),
       (r.1, (λ keys : LayerKey * LayerKey, (keys.2, keys.1)) <$> r.2))
      <$> hasEdge g s t.
Proof.
  unfold hasEdge.
  destruct (node_lookup_ g !! s) as [ks|], (node_lookup_ g !! t) as [kt|];
    try done.
  rewrite (key_eqb_sym kt ks).
  destruct (key_eqb ks kt) eqn:Hk.
  - rewrite <- (key_eqb_true_layerFromKey g ks kt Hk).
    destruct (layerFromKey g ks) as [layer|]; simpl; [|done].
    by rewrite base_hasEdge_sym.
  - rewrite (orb_comm (key_dynamic kt)).
    destruct (key_dynamic ks || key_dynamic kt); simpl;
      by rewrite contains_sym.
Qed.

(** The edge an accepted [insertEdge] has put on file. *)
Lemma insertEdge_true (g g' : DynamicSceneGraph) (s t : NodeId)
    (a : option EdgeAttributes) :
  insertEdge g s t a = Some (true, g') →
  ∃ ks kt,
    node_lookup_ g !! s = Some ks ∧ node_lookup_ g !! t = Some kt
    ∧ node_lookup_ g' = node_lookup_ g
    ∧ hasEdge g s t = Some (false, Some (ks, kt))
    ∧ if key_eqb ks kt
      then ∃ layer,
             layerFromKey g ks = Some layer
             ∧ Base.insertEdge layer s t (default default_edge_attributes a)
               = (true, (Base.insertEdge layer s t
                           (default default_edge_attributes a)).2)
             ∧ g' = storeLayer ks
                      (Base.insertEdge layer s t
                         (default default_edge_attributes a)).2 g
      else ∃ g1,
             addAncestry g s t ks kt = Some (true, g1)
             ∧ g' = if key_dynamic ks || key_dynamic kt
                    then set_dynamic_interlayer_edges
                           (Edges.insert (dynamic_interlayer_edges_ g1) s t
                              (default default_edge_attributes a)) g1
                    else set_interlayer_edges
                           (Edges.insert (interlayer_edges_ g1) s t
                              (default default_edge_attributes a)) g1.
Proof.
  unfold insertEdge.
  destruct (hasEdge g s t) as [[has keys]|] eqn:Hhas; simpl; [|done].
  destruct has; [done|]. destruct keys as [[ks kt]|]; [|done].
  pose proof (hasEdge_inv _ _ _ _ _ _ Hhas) as (Hs & Ht & _).
  intros Hins. exists ks, kt. split; [done|]. split; [done|].
  destruct (key_eqb ks kt) eqn:Hk.
  - destruct (layerFromKey g ks) as [layer|] eqn:Hlayer; simpl in Hins;
      [|done].
    destruct (Base.insertEdge layer s t _) as [ok layer'] eqn:Hb.
    injection Hins as -> <-.
    split; [apply storeLayer_node_lookup|]. split; [done|].
    exists layer. by rewrite Hb.
  - destruct (addAncestry g s t ks kt) as [[ok g1]|] eqn:Hadd;
      simpl in Hins; [|done].
    destruct ok; simpl in Hins; [|done].
    pose proof (addAncestry_same_nodes _ _ _ _ _ _ _ Hadd) as Hsame.
    split.
    { destruct (key_dynamic ks || key_dynamic kt); injection Hins as <-;
        simpl; apply Hsame. }
    split; [done|]. exists g1. split; [done|].
    by destruct (key_dynamic ks || key_dynamic kt); injection Hins as <-.
Qed.

Lemma base_insertEdge_true (b b' : BaseLayer) (s t : NodeId)
    (a : EdgeAttributes) :
  Base.insertEdge b s t a = (true, b') →
  Base.hasEdge b' s t = true
  ∧ Base_getEdge b' s t = Some (mkEdge s t a)
  ∧ match b, b' with
    | StaticLayer _, StaticLayer _ | DynamicLayer _, DynamicLayer _ => True
    | _, _ => False
    end.
Proof.
  destruct b as [l|d]; simpl.
  - unfold Layer.insertEdge. destruct (Layer.hasEdge l s t); [done|].
    destruct (Layer.hasNode l s && Layer.hasNode l t); [|done].
    intros [= <-]. simpl. unfold Layer.hasEdge. simpl.
    by rewrite contains_insert, get_insert.
  - unfold DynLayer.insertEdge. destruct (DynLayer.hasEdge d s t); [done|].
    destruct (DynLayer.hasNode d s && DynLayer.hasNode d t); [|done].
    intros [= <-]. simpl. unfold DynLayer.hasEdge. simpl.
    by rewrite contains_insert, get_insert.
Qed.

Lemma base_getEdge_sym (b : BaseLayer) (s t : NodeId) :
  Base_getEdge b s t = Base_getEdge b t s.
Proof. destruct b; apply get_sym. Qed.

(** [getEdge] for a pair [hasEdge] finds. *)
Lemma getEdge_found (g : DynamicSceneGraph) (s t : NodeId)
    (ks kt : LayerKey) :
  hasEdge g s t = Some (true, Some (ks, kt)) →
  getEdge g s t
  = if key_eqb ks kt
    then layer ← layerFromKey g ks; Some (Base_getEdge layer s t)
    else edge ← Edges.get (interlayer_container ks kt g) s t;
         Some (Some edge).
Proof.
  intros Hhas. unfold getEdge. rewrite Hhas. simpl.
  apply hasEdge_inv in Hhas as (-> & -> & _). simpl.
  unfold interlayer_container.
  destruct (key_eqb ks kt); [done|].
  by destruct (key_dynamic ks || key_dynamic kt).
Qed.

(** X15: after an accepted [insertEdge(s, t)] the edge is found by
    [hasEdge] and [getEdge] in either direction, with the attributes that
    were passed (or default ones), and a further [insertEdge] of the same
    pair, in either direction, is refused and changes nothing.  The node
    index is as before. *)
Theorem insertEdge_then_lookup (g g' : DynamicSceneGraph) (s t : NodeId)
    (a a' : option EdgeAttributes) :
  insertEdge g s t a = Some (true, g') →
  let edge := mkEdge s t (default default_edge_attributes a) in
  (∃ keys, hasEdge g' s t = Some (true, keys))
  ∧ (∃ keys, hasEdge g' t s = Some (true, keys))
  ∧ getEdge g' s t = Some (Some edge)
  ∧ getEdge g' t s = Some (Some edge)
  ∧ insertEdge g' s t a' = Some (false, g')
  ∧ insertEdge g' t s a' = Some (false, g')
  ∧ node_lookup_ g' = node_lookup_ g.
Proof.
  intros Hins edge.
  destruct (insertEdge_true _ _ _ _ _ Hins)
    as (ks & kt & Hs & Ht & Hlook & _ & Hcase).
  assert (Hs' : node_lookup_ g' !! s = Some ks) by (by rewrite Hlook).
  assert (Ht' : node_lookup_ g' !! t = Some kt) by (by rewrite Hlook).
  destruct (hasEdge_intro g' s t ks kt Hs' Ht') as [Hsame Hdiff].
  assert (Hfound : hasEdge g' s t = Some (true, Some (ks, kt))
                   ∧ getEdge g' s t = Some (Some edge)
                   ∧ getEdge g' t s = Some (Some edge)).
  { destruct (key_eqb ks kt) eqn:Hk.
    - destruct Hcase as (layer & Hlayer & Hb & Hg').
      apply base_insertEdge_true in Hb as (Hhas & Hget & Hvar).
      pose proof (layerFromKey_storeLayer g ks layer _ Hlayer Hvar) as Hl'.
      rewrite <- Hg' in Hl'.
      specialize (Hsame _ eq_refl Hl'). rewrite Hhas in Hsame.
      split; [done|].
      pose proof (hasEdge_sym g' s t) as Hsym. rewrite Hsame in Hsym.
      simpl in Hsym.
      rewrite (getEdge_found _ _ _ _ _ Hsame), (getEdge_found _ _ _ _ _ Hsym).
      rewrite (key_eqb_sym kt ks), Hk.
      rewrite <- (key_eqb_true_layerFromKey _ ks kt Hk), Hl'. simpl.
      by rewrite (base_getEdge_sym _ t s), Hget.
    - destruct Hcase as (g1 & Hadd & Hg').
      specialize (Hdiff eq_refl).
      assert (Hc : interlayer_container ks kt g'
                   = Edges.insert (interlayer_container ks kt g1) s t
                       (default default_edge_attributes a)).
      { rewrite Hg'. unfold interlayer_container.
        by destruct (key_dynamic ks || key_dynamic kt). }
      rewrite Hc, contains_insert in Hdiff. split; [done|].
      pose proof (hasEdge_sym g' s t) as Hsym. rewrite Hdiff in Hsym.
      simpl in Hsym.
      rewrite (getEdge_found _ _ _ _ _ Hdiff), (getEdge_found _ _ _ _ _ Hsym).
      rewrite (key_eqb_sym kt ks), Hk, (interlayer_container_sym kt ks), Hc.
      by rewrite (get_sym _ t s), get_insert. }
  destruct Hfound as (Hhas & Hget & Hget').
  pose proof (hasEdge_sym g' s t) as Hsym. rewrite Hhas in Hsym.
  simpl in Hsym.
  split; [eauto|]. split; [eauto|]. split; [done|]. split; [done|].
  split; [|split; [|done]].
  - unfold insertEdge. by rewrite Hhas.
  - unfold insertEdge. by rewrite Hsym.
Qed.

End EdgeQueries.

Section EdgeRoundTrip.
Context `{LayerInterface}.

Lemma modifyNode_set_interlayer_edges (g : DynamicSceneGraph) (m : NodeId)
    (k : LayerKey) (f : SceneGraphNode → SceneGraphNode) (c : EdgeContainer) :
  modifyNode m k f (set_interlayer_edges c g)
  = set_interlayer_edges c (modifyNode m k f g).
Proof. unfold modifyNode. by destruct (key_dynamic k). Qed.

Lemma modifyNode_set_dynamic_interlayer_edges (g : DynamicSceneGraph)
    (m : NodeId) (k : LayerKey) (f : SceneGraphNode → SceneGraphNode)
    (c : EdgeContainer) :
  modifyNode m k f (set_dynamic_interlayer_edges c g)
  = set_dynamic_interlayer_edges c (modifyNode m k f g).
Proof. unfold modifyNode. by destruct (key_dynamic k). Qed.

(** The two end points after [addAncestry] has linked them. *)
Lemma addAncestry_nodes (g gA : DynamicSceneGraph) (s t : NodeId)
    (ks kt : LayerKey) (ns nt : SceneGraphNode) :
  key_eqb ks kt = false →
  getNodePtr g s ks = Some ns →
  getNodePtr g t kt = Some nt →
  addAncestry g s t ks kt = Some (true, gA) →
  ∃ ns' nt',
    getNodePtr gA s ks = Some ns' ∧ getNodePtr gA t kt = Some nt'
    ∧ (isParent ks kt = true →
       parent_ nt = None
       ∧ ns' = with_children (λ c, {[t]} ∪ c) ns ∧ nt' = setParent s nt)
    ∧ (isParent ks kt = false → isParent kt ks = true →
       parent_ ns = None
       ∧ ns' = setParent t ns ∧ nt' = with_children (λ c, {[s]} ∪ c) nt)
    ∧ (isParent ks kt = false → isParent kt ks = false →
       ns' = with_siblings (λ c, {[t]} ∪ c) ns
       ∧ nt' = with_siblings (λ c, {[s]} ∪ c) nt).
Proof.
  intros Hk Hns Hnt.
  assert (Hk' : key_eqb kt ks = false) by (by rewrite key_eqb_sym).
  unfold addAncestry. rewrite Hns, Hnt. simpl.
  destruct (isParent ks kt) eqn:Hp; [|destruct (isParent kt ks) eqn:Hp'].
  - unfold hasParent. destruct (parent_ nt) eqn:Hpar; [done|].
    intros [= <-]. eexists _, _.
    rewrite getNodePtr_modifyNode_other, getNodePtr_modifyNode_same, Hns
      by done.
    rewrite getNodePtr_modifyNode_same, getNodePtr_modifyNode_other, Hnt
      by done.
    simpl. split; [done|]. split; [done|]. by repeat split.
  - unfold hasParent. destruct (parent_ ns) eqn:Hpar; [done|].
    intros [= <-]. eexists _, _.
    rewrite getNodePtr_modifyNode_same, getNodePtr_modifyNode_other, Hns
      by done.
    rewrite getNodePtr_modifyNode_other, getNodePtr_modifyNode_same, Hnt
      by done.
    simpl. split; [done|]. split; [done|]. by repeat split.
  - intros [= <-]. eexists _, _.
    rewrite getNodePtr_modifyNode_other, getNodePtr_modifyNode_same, Hns
      by done.
    rewrite getNodePtr_modifyNode_same, getNodePtr_modifyNode_other, Hnt
      by done.
    simpl. split; [done|]. split; [done|]. by repeat split.
Qed.

(** The two end points after [removeAncestry] has unlinked them. *)
Lemma removeAncestry_nodes (g : DynamicSceneGraph) (s t : NodeId)
    (ks kt : LayerKey) (ns nt : SceneGraphNode) :
  key_eqb ks kt = false →
  getNodePtr g s ks = Some ns →
  getNodePtr g t kt = Some nt →
  ∃ g' ns' nt',
    removeAncestry g s t ks kt = Some g'
    ∧ getNodePtr g' s ks = Some ns' ∧ getNodePtr g' t kt = Some nt'
    ∧ (isParent ks kt = true →
       ns' = with_children (λ c, c ∖ {[t]}) ns ∧ nt' = clearParent nt)
    ∧ (isParent ks kt = false → isParent kt ks = true →
       ns' = clearParent ns ∧ nt' = with_children (λ c, c ∖ {[s]}) nt)
    ∧ (isParent ks kt = false → isParent kt ks = false →
       ns' = with_siblings (λ c, c ∖ {[t]}) ns
       ∧ nt' = with_siblings (λ c, c ∖ {[s]}) nt).
Proof.
  intros Hk Hns Hnt.
  assert (Hk' : key_eqb kt ks = false) by (by rewrite key_eqb_sym).
  unfold removeAncestry. rewrite Hns, Hnt. simpl.
  destruct (isParent ks kt) eqn:Hp; [|destruct (isParent kt ks) eqn:Hp'];
    eexists _, _, _; (split; [done|]).
  - rewrite getNodePtr_modifyNode_other, getNodePtr_modifyNode_same, Hns
      by done.
    rewrite getNodePtr_modifyNode_same, getNodePtr_modifyNode_other, Hnt
      by done.
    simpl. split; [done|]. split; [done|]. by repeat split.
  - rewrite getNodePtr_modifyNode_same, getNodePtr_modifyNode_other, Hns
      by done.
    rewrite getNodePtr_modifyNode_other, getNodePtr_modifyNode_same, Hnt
      by done.
    simpl. split; [done|]. split; [done|]. by repeat split.
  - rewrite getNodePtr_modifyNode_other, getNodePtr_modifyNode_same, Hns
      by done.
    rewrite getNodePtr_modifyNode_same, getNodePtr_modifyNode_other, Hnt
      by done.
    simpl. split; [done|]. split; [done|]. by repeat split.
Qed.

Lemma unlink_children (t : N) (x : SceneGraphNode) :
  t ∉ children_ x →
  with_children (λ c, c ∖ {[t]}) (with_children (λ c, {[t]} ∪ c) x) = x.
Proof.
  intros Ht. destruct x. unfold with_children. simpl in *.
  by rewrite union_difference_singleton.
Qed.

Lemma unlink_siblings (t : N) (x : SceneGraphNode) :
  t ∉ siblings_ x →
  with_siblings (λ c, c ∖ {[t]}) (with_siblings (λ c, {[t]} ∪ c) x) = x.
Proof.
  intros Ht. destruct x. unfold with_siblings. simpl in *.
  by rewrite union_difference_singleton.
Qed.

Lemma unlink_parent (p : N) (x : SceneGraphNode) :
  parent_ x = None → clearParent (setParent p x) = x.
Proof. intros Hp. destruct x. unfold clearParent. simpl in *. by subst. Qed.

(** X16: for two nodes under different keys that do not already list each
    other as child or sibling, [removeEdge] undoes an accepted
    [insertEdge]: it returns true, both nodes have the parent, children and
    siblings they had before the insertion, both interlayer edge sets hold
    the edges they held before, and [hasEdge] no longer finds the pair. *)
Theorem insert_then_removeEdge (g g1 : DynamicSceneGraph) (s t : NodeId)
    (a : option EdgeAttributes) (ks kt : LayerKey)
    (ns nt : SceneGraphNode) :
  node_lookup_ g !! s = Some ks →
  node_lookup_ g !! t = Some kt →
  key_eqb ks kt = false →
  getNodePtr g s ks = Some ns →
  getNodePtr g t kt = Some nt →
  t ∉ children_ ns → t ∉ siblings_ ns →
  s ∉ children_ nt → s ∉ siblings_ nt →
  insertEdge g s t a = Some (true, g1) →
  ∃ g2,
    removeEdge g1 s t = Some (true, g2)
    ∧ getNodePtr g2 s ks = Some ns
    ∧ getNodePtr g2 t kt = Some nt
    ∧ edges (interlayer_edges_ g2) = edges (interlayer_edges_ g)
    ∧ edges (dynamic_interlayer_edges_ g2)
      = edges (dynamic_interlayer_edges_ g)
    ∧ node_lookup_ g2 = node_lookup_ g
    ∧ hasEdge g2 s t = Some (false, Some (ks, kt)).
Proof.
  intros Hs Ht Hk Hns Hnt Htc Hts Hsc Hss Hins.
  destruct (insertEdge_true _ _ _ _ _ Hins)
    as (ks' & kt' & Hs' & Ht' & Hlook & Hhas0 & Hcase).
  assert (ks' = ks) as -> by congruence.
  assert (kt' = kt) as -> by congruence.
  rewrite Hk in Hcase. destruct Hcase as (gA & Hadd & Hg1).
  rewrite (hasEdge_interlayer g s t ks kt) in Hhas0 by done.
  injection Hhas0 as Hfree.
  destruct (addAncestry_nodes _ _ _ _ _ _ _ _ Hk Hns Hnt Hadd)
    as (nsA & ntA & HnsA & HntA & Hb1 & Hb2 & Hb3).
  destruct (addAncestry_interlayer _ _ _ _ _ _ _ Hadd) as [HiA HdA].
  pose proof (sn_lookup _ _ (addAncestry_same_nodes _ _ _ _ _ _ _ Hadd))
    as HlA.
  assert (Hns1 : getNodePtr g1 s ks = Some nsA).
  { rewrite Hg1. by destruct (key_dynamic ks || key_dynamic kt). }
  assert (Hnt1 : getNodePtr g1 t kt = Some ntA).
  { rewrite Hg1. by destruct (key_dynamic ks || key_dynamic kt). }
  destruct (removeAncestry_nodes g1 s t ks kt nsA ntA Hk Hns1 Hnt1)
    as (gR & nsR & ntR & Hrem & HnsR & HntR & Hr1 & Hr2 & Hr3).
  assert (HR : nsR = ns ∧ ntR = nt).
  { destruct (isParent ks kt) eqn:Hp; [|destruct (isParent kt ks) eqn:Hp'].
    - destruct (Hb1 eq_refl) as (Hnone & -> & ->).
      destruct (Hr1 eq_refl) as [-> ->].
      by rewrite unlink_children, unlink_parent.
    - destruct (Hb2 eq_refl eq_refl) as (Hnone & -> & ->).
      destruct (Hr2 eq_refl eq_refl) as [-> ->].
      by rewrite unlink_children, unlink_parent.
    - destruct (Hb3 eq_refl eq_refl) as [-> ->].
      destruct (Hr3 eq_refl eq_refl) as [-> ->].
      by rewrite !unlink_siblings. }
  destruct HR as [-> ->].
  pose proof (removeAncestry_unlinks _ _ _ _ _ _ Hrem) as HuR.
  assert (Hhas1 : hasEdge g1 s t = Some (true, Some (ks, kt))).
  { rewrite (hasEdge_interlayer g1 s t ks kt) by (by rewrite ?Hlook).
    f_equal. f_equal. rewrite Hg1. unfold interlayer_container.
    destruct (key_dynamic ks || key_dynamic kt); apply contains_insert. }
  unfold removeEdge. rewrite Hhas1. simpl. rewrite Hk.
  unfold removeInterlayerEdge. rewrite Hrem. simpl.
  assert (HiR : interlayer_edges_ gR = interlayer_edges_ g1).
  { unfold removeAncestry in Hrem. rewrite Hns1, Hnt1 in Hrem. simpl in Hrem.
    destruct (isParent ks kt); [|destruct (isParent kt ks)];
      injection Hrem as <-; by rewrite !modifyNode_interlayer_edges. }
  assert (HdR : dynamic_interlayer_edges_ gR = dynamic_interlayer_edges_ g1).
  { unfold removeAncestry in Hrem. rewrite Hns1, Hnt1 in Hrem. simpl in Hrem.
    destruct (isParent ks kt); [|destruct (isParent kt ks)];
      injection Hrem as <-; by rewrite !modifyNode_dynamic_interlayer_edges. }
  unfold interlayer_container in Hfree.
  destruct (key_dynamic ks || key_dynamic kt) eqn:Hd; simpl;
    (eexists; split; [reflexivity|]); simpl;
    (split; [exact HnsR|]); (split; [exact HntR|]).
  - rewrite HiR, HdR, Hg1. simpl. rewrite HiA, HdA.
    split; [done|]. split; [by apply delete_insert_id, contains_false_get|].
    split; [by rewrite (ul_lookup _ _ HuR)|].
    rewrite (hasEdge_interlayer _ s t ks kt);
      [|simpl; by rewrite (ul_lookup _ _ HuR), Hlook..|done].
    unfold interlayer_container. rewrite Hd. simpl.
    by rewrite contains_remove.
  - rewrite HiR, HdR, Hg1. simpl. rewrite HiA, HdA.
    split; [by apply delete_insert_id, contains_false_get|]. split; [done|].
    split; [by rewrite (ul_lookup _ _ HuR)|].
    rewrite (hasEdge_interlayer _ s t ks kt);
      [|simpl; by rewrite (ul_lookup _ _ HuR), Hlook..|done].
    unfold interlayer_container. rewrite Hd. simpl.
    by rewrite contains_remove.
Qed.

(** X17: between two nodes under different keys whose layers are neither
    above nor below one another, [insertEdge] is never refused for reasons
    of ancestry: if no edge is on file yet it returns true, each node gets
    the other as a sibling and keeps its parent and children, and the edge
    is filed.  [removeEdge] then takes each node out of the other's
    siblings again. *)
Theorem insertEdge_siblings (g : DynamicSceneGraph) (s t : NodeId)
    (ks kt : LayerKey) (ns nt : SceneGraphNode)
    (info : option EdgeAttributes) :
  node_lookup_ g !! s = Some ks →
  node_lookup_ g !! t = Some kt →
  key_eqb ks kt = false →
  getNodePtr g s ks = Some ns →
  getNodePtr g t kt = Some nt →
  isParent ks kt = false →
  isParent kt ks = false →
  Edges.contains (interlayer_container ks kt g) s t = false →
  ∃ g',
    insertEdge g s t info = Some (true, g')
    ∧ getNodePtr g' s ks = Some (with_siblings (λ c, {[t]} ∪ c) ns)
    ∧ getNodePtr g' t kt = Some (with_siblings (λ c, {[s]} ∪ c) nt)
    ∧ Edges.contains (interlayer_container ks kt g') s t = true
    ∧ ∃ g2 ns2 nt2,
        removeEdge g' s t = Some (true, g2)
        ∧ getNodePtr g2 s ks = Some ns2 ∧ (t ∉ siblings_ ns2)
        ∧ getNodePtr g2 t kt = Some nt2 ∧ (s ∉ siblings_ nt2)
        ∧ Edges.contains (interlayer_container ks kt g2) s t = false.
Proof.
  intros Hs Ht Hk Hns Hnt Hp Hp' Hfree.
  assert (Hk' : key_eqb kt ks = false) by (by rewrite key_eqb_sym).
  set (gA := modifyNode t kt (with_siblings (λ c, {[s]} ∪ c))
               (modifyNode s ks (with_siblings (λ c, {[t]} ∪ c)) g)).
  assert (Hadd : addAncestry g s t ks kt = Some (true, gA)).
  { unfold addAncestry. by rewrite Hns, Hnt, Hp, Hp'. }
  assert (HnsA : getNodePtr gA s ks
                 = Some (with_siblings (λ c, {[t]} ∪ c) ns)).
  { unfold gA. by rewrite getNodePtr_modifyNode_other,
      getNodePtr_modifyNode_same, Hns. }
  assert (HntA : getNodePtr gA t kt
                 = Some (with_siblings (λ c, {[s]} ∪ c) nt)).
  { unfold gA. by rewrite getNodePtr_modifyNode_same,
      getNodePtr_modifyNode_other, Hnt. }
  assert (HlA : node_lookup_ gA = node_lookup_ g).
  { unfold gA. by rewrite !modifyNode_node_lookup. }
  set (attrs := default default_edge_attributes info).
  set (g' := if key_dynamic ks || key_dynamic kt
             then set_dynamic_interlayer_edges
                    (Edges.insert (dynamic_interlayer_edges_ gA) s t attrs) gA
             else set_interlayer_edges
                    (Edges.insert (interlayer_edges_ gA) s t attrs) gA).
  assert (Hins : insertEdge g s t info = Some (true, g')).
  { unfold insertEdge. rewrite (hasEdge_interlayer g s t ks kt) by done.
    simpl. rewrite Hfree, Hk, Hadd. simpl. unfold g'.
    by destruct (key_dynamic ks || key_dynamic kt). }
  assert (Hns' : getNodePtr g' s ks
                 = Some (with_siblings (λ c, {[t]} ∪ c) ns)).
  { unfold g'. by destruct (key_dynamic ks || key_dynamic kt). }
  assert (Hnt' : getNodePtr g' t kt
                 = Some (with_siblings (λ c, {[s]} ∪ c) nt)).
  { unfold g'. by destruct (key_dynamic ks || key_dynamic kt). }
  assert (Hl' : node_lookup_ g' = node_lookup_ g).
  { unfold g'. by destruct (key_dynamic ks || key_dynamic kt). }
  assert (Hc' : Edges.contains (interlayer_container ks kt g') s t = true).
  { unfold g', interlayer_container.
    destruct (key_dynamic ks || key_dynamic kt); apply contains_insert. }
  exists g'. split; [done|]. split; [done|]. split; [done|]. split; [done|].
  destruct (removeAncestry_nodes g' s t ks kt _ _ Hk Hns' Hnt')
    as (gR & nsR & ntR & Hrem & HnsR & HntR & _ & _ & Hr3).
  destruct (Hr3 Hp Hp') as [-> ->].
  assert (Hrm : ∃ g2, removeInterlayerEdge g' s t ks kt = Some g2
                      ∧ (∀ x k, getNodePtr g2 x k = getNodePtr gR x k)
                      ∧ Edges.contains (interlayer_container ks kt g2) s t
                        = false).
  { unfold removeInterlayerEdge, interlayer_container. rewrite Hrem. simpl.
    destruct (key_dynamic ks || key_dynamic kt); eexists;
      (split; [reflexivity|]); (split; [done|]); apply contains_remove. }
  destruct Hrm as (g2 & Hrm & Hptr & Hgone).
  exists g2. eexists _, _. split.
  { unfold removeEdge. rewrite (hasEdge_interlayer g' s t ks kt)
      by (by rewrite ?Hl').
    simpl. rewrite Hc', Hk. simpl. by rewrite Hrm. }
  rewrite !Hptr, HnsR, HntR.
  split; [done|]. split.
  { simpl. apply not_elem_of_difference. right. by apply elem_of_singleton. }
  split; [done|]. split; [|done].
  simpl. apply not_elem_of_difference. right. by apply elem_of_singleton.
Qed.

End EdgeRoundTrip.

(** ** Unknown nodes, rewiring and merging nodes *)

Section UnknownNodes.
Context `{LayerInterface}.

(** X18: an id that is not in the node index is turned down everywhere
    without an exception and without a change: [hasEdge], [getEdge],
    [insertEdge] and [removeEdge] with such an end point (in either
    position), [removeNode], [insertMeshEdge], [getNode], [getDynamicNode]
    and [isDynamic].  Only [rewireInterlayerEdge] throws when an old end
    point is unknown. *)
Theorem unknown_node_is_turned_down (g : DynamicSceneGraph) (n m : NodeId)
    (a : option EdgeAttributes) (v : N) (allow : bool) :
  node_lookup_ g !! n = None →
  hasEdge g n m = Some (false, None)
  ∧ hasEdge g m n = Some (false, None)
  ∧ getEdge g n m = Some None
  ∧ getEdge g m n = Some None
  ∧ insertEdge g n m a = Some (false, g)
  ∧ insertEdge g m n a = Some (false, g)
  ∧ removeEdge g n m = Some (false, g)
  ∧ removeEdge g m n = Some (false, g)
  ∧ removeNode g n = Some (false, g)
  ∧ insertMeshEdge g n v allow = (false, g)
  ∧ getNode g n = Some None
  ∧ getDynamicNode g n = Some None
  ∧ isDynamic g n = false
  ∧ (∀ n' m', (n =? n') && (m =? m') = false →
              rewireInterlayerEdge g n m n' m' = None)
  ∧ (∀ n' m', (m =? m') && (n =? n') = false →
              rewireInterlayerEdge g m n m' n' = None).
Proof.
  intros Hn.
  assert (H1 : hasEdge g n m = Some (false, None)).
  { unfold hasEdge. by rewrite Hn. }
  assert (H2 : hasEdge g m n = Some (false, None)).
  { unfold hasEdge. rewrite Hn. by destruct (node_lookup_ g !! m). }
  split; [done|]. split; [done|].
  split; [unfold getEdge; by rewrite H1|].
  split; [unfold getEdge; by rewrite H2|].
  split; [unfold insertEdge; by rewrite H1|].
  split; [unfold insertEdge; by rewrite H2|].
  split; [unfold removeEdge; by rewrite H1|].
  split; [unfold removeEdge; by rewrite H2|].
  split; [unfold removeNode; by rewrite Hn|].
  split.
  { unfold insertMeshEdge, hasNode. rewrite Hn.
    by rewrite bool_decide_eq_false_2 by (by intros [? ?]). }
  split; [unfold getNode; by rewrite Hn|].
  split; [unfold getDynamicNode; by rewrite Hn|].
  split; [unfold isDynamic; by rewrite Hn|].
  split.
  - intros n' m' Hne. unfold rewireInterlayerEdge. by rewrite Hne, Hn.
  - intros n' m' Hne. unfold rewireInterlayerEdge. rewrite Hne, Hn.
    by destruct (node_lookup_ g !! m).
Qed.

End UnknownNodes.

Section Rewire.
Context `{LayerInterface}.

Lemma addAncestry_total (g : DynamicSceneGraph) (s t : NodeId)
    (ks kt : LayerKey) :
  is_Some (getNodePtr g s ks) → is_Some (getNodePtr g t kt) →
  ∃ ok gA, addAncestry g s t ks kt = Some (ok, gA)
           ∧ node_lookup_ gA = node_lookup_ g
           ∧ interlayer_edges_ gA = interlayer_edges_ g
           ∧ dynamic_interlayer_edges_ gA = dynamic_interlayer_edges_ g.
Proof.
  intros [ns Hns] [nt Hnt].
  assert (Hsome : ∃ ok gA, addAncestry g s t ks kt = Some (ok, gA)).
  { unfold addAncestry. rewrite Hns, Hnt. simpl.
    destruct (isParent ks kt); [|destruct (isParent kt ks)];
      [destruct (hasParent nt)|destruct (hasParent ns)|]; eauto. }
  destruct Hsome as (ok & gA & Hadd). exists ok, gA. split; [done|].
  split; [apply (sn_lookup _ _ (addAncestry_same_nodes _ _ _ _ _ _ _ Hadd))|].
  by apply addAncestry_interlayer in Hadd.
Qed.

Lemma EdgeKey_fst_ne (s s' t : NodeId) : s ≠ s' → EdgeKey s t ≠ EdgeKey s' t.
Proof. unfold EdgeKey. intros Hne [= Hmin Hmax]. lia. Qed.

(** X19: rewiring an interlayer edge to a new source while the target
    stays, as [mergeNodes] does, moves the edge: the old pair is no longer
    on file, the new pair is on file in the interlayer set that goes with
    its keys, and it carries the attributes of the old edge.  The node
    index is unchanged. *)
Theorem rewire_to_new_source (g : DynamicSceneGraph) (s s' t : NodeId)
    (ks ks' kt : LayerKey) (e : SceneGraphEdge) :
  s ≠ s' →
  node_lookup_ g !! s = Some ks →
  node_lookup_ g !! s' = Some ks' →
  node_lookup_ g !! t = Some kt →
  key_eqb ks kt = false →
  key_eqb ks' kt = false →
  is_Some (getNodePtr g s ks) →
  is_Some (getNodePtr g s' ks') →
  is_Some (getNodePtr g t kt) →
  Edges.get (interlayer_container ks kt g) s t = Some e →
  Edges.contains (interlayer_container ks' kt g) s' t = false →
  ∃ g',
    rewireInterlayerEdge g s t s' t = Some g'
    ∧ Edges.get (interlayer_container ks' kt g') s' t
      = Some (mkEdge s' t (edge_info e))
    ∧ Edges.contains (interlayer_container ks kt g') s t = false
    ∧ node_lookup_ g' = node_lookup_ g.
Proof.
  intros Hne Hs Hs' Ht Hk Hk' [ns Hns] Hns' [nt Hnt] Hold Hfree.
  destruct (removeAncestry_nodes g s t ks kt ns nt Hk Hns Hnt)
    as (g1 & ns1 & nt1 & Hrem & _ & Hnt1 & _).
  pose proof (removeAncestry_unlinks _ _ _ _ _ _ Hrem) as Hu1.
  destruct (addAncestry_total g1 s' t ks' kt) as (ok & g2 & Hadd & Hl2 & Hi2 & Hd2).
  { by eapply unlinks_is_Some. }
  { eauto. }
  assert (Hi1 : interlayer_edges_ g1 = interlayer_edges_ g).
  { unfold removeAncestry in Hrem. rewrite Hns, Hnt in Hrem. simpl in Hrem.
    destruct (isParent ks kt); [|destruct (isParent kt ks)];
      injection Hrem as <-; by rewrite !modifyNode_interlayer_edges. }
  assert (Hd1 : dynamic_interlayer_edges_ g1 = dynamic_interlayer_edges_ g).
  { unfold removeAncestry in Hrem. rewrite Hns, Hnt in Hrem. simpl in Hrem.
    destruct (isParent ks kt); [|destruct (isParent kt ks)];
      injection Hrem as <-; by rewrite !modifyNode_dynamic_interlayer_edges. }
  assert (Hkey : EdgeKey s' t ≠ EdgeKey s t)
    by (apply EdgeKey_fst_ne; congruence).
  unfold rewireInterlayerEdge.
  assert (Hsame : (s =? s') && (t =? t) = false).
  { apply andb_false_iff. left. by apply N.eqb_neq. }
  rewrite Hsame, Hs, Ht. simpl.
  rewrite (hasEdge_interlayer g s' t ks' kt) by done. simpl.
  rewrite Hfree, Hrem. simpl. rewrite Hadd. simpl.
  unfold interlayer_container in *. unfold take_edge.
  rewrite Hi2, Hd2, Hi1, Hd1.
  destruct (key_dynamic ks || key_dynamic kt) eqn:Hd;
    rewrite Hold; simpl;
    destruct (key_dynamic ks' || key_dynamic kt) eqn:Hd';
    eexists; (split; [reflexivity|]); simpl;
    rewrite ?Hi2, ?Hd2, ?Hi1, ?Hd1;
    (split; [apply lookup_insert_eq|]);
    (split; [|by rewrite Hl2, (ul_lookup _ _ Hu1)]).
  - unfold Edges.contains. simpl. apply bool_decide_eq_false.
    rewrite lookup_insert_ne, lookup_delete_eq by done. by intros [? ?].
  - apply contains_remove.
  - apply contains_remove.
  - unfold Edges.contains. simpl. apply bool_decide_eq_false.
    rewrite lookup_insert_ne, lookup_delete_eq by done. by intros [? ?].
Qed.

End Rewire.

Section MergeNodes.
Context `{LayerInterface}.
Variable Layer_mergeNodes :
  SceneGraphLayer → NodeId → NodeId → SceneGraphLayer.

(** X20: whatever the layer's own [mergeNodes] does, the graph's
    [mergeNodes] returns false and changes nothing when one of the two
    ids is unknown, when the two ids are the same, and when the two nodes
    are filed under different keys.  For two distinct nodes under equal
    keys it looks [node_from] up in the static layer with the layer id of
    the key, also when the key is dynamic; when the node is not found
    there the lookup throws and the call does not return. *)
Theorem mergeNodes_refusals (g : DynamicSceneGraph)
    (node_from node_to : NodeId) :
  (hasNode g node_from = false ∨ hasNode g node_to = false
   ∨ node_from = node_to
   ∨ (∃ k k', node_lookup_ g !! node_from = Some k
              ∧ node_lookup_ g !! node_to = Some k'
              ∧ key_eqb k k' = false) →
   mergeNodes Layer_mergeNodes g node_from node_to = Some (false, g))
  ∧ (∀ k k', node_from ≠ node_to →
       node_lookup_ g !! node_from = Some k →
       node_lookup_ g !! node_to = Some k' →
       key_eqb k k' = true →
       (layers_ g !! key_layer k ≫= λ l, nodes_ l !! node_from) = None →
       mergeNodes Layer_mergeNodes g node_from node_to = None).
Proof.
  split.
  - unfold mergeNodes, hasNode.
    intros [Hn|[Hn|[->|(k & k' & Hk & Hk' & Hne)]]].
    + by rewrite Hn.
    + rewrite Hn. by rewrite orb_true_r.
    + destruct (negb _ || negb _); [done|]. by rewrite N.eqb_refl.
    + rewrite Hk, Hk'.
      rewrite !bool_decide_eq_true_2 by eauto. simpl.
      destruct (node_from =? node_to); [done|]. by rewrite Hne.
  - intros k k' Hne Hk Hk' Heq Hnone. unfold mergeNodes, hasNode.
    rewrite Hk, Hk'. rewrite !bool_decide_eq_true_2 by eauto. simpl.
    apply N.eqb_neq in Hne. rewrite Hne, Heq. simpl.
    destruct (layers_ g !! key_layer k) as [l|]; simpl in *; [|done].
    by rewrite Hnone.
Qed.

End MergeNodes.

(** [mergeNodes] on the example graph [Example.two_parents]: whatever the
    layer does with the two nodes, the graph first rewires the parent edge
    of [object1] to [object2], which gives [Example.parent_rewired], hands
    the two nodes to layer 2 and drops [object1] from the node index. *)
Section MergeNodesExample.
#[local] Existing Instance symbols.
Variable Layer_mergeNodes :
  SceneGraphLayer → NodeId → NodeId → SceneGraphLayer.

Lemma mergeNodes_rewires_parent_edge :
  ∃ layer,
    layers_ Example.parent_rewired !! 2 = Some layer
    ∧ mergeNodes Layer_mergeNodes Example.two_parents Example.object1
                 Example.object2
      = Some (true,
              set_node_lookup
                (delete Example.object1
                        (node_lookup_ Example.parent_rewired))
                (putLayer 2
                   (Layer_mergeNodes layer Example.object1 Example.object2)
                   Example.parent_rewired)).
Proof.
  eexists. split; [vm_compute; reflexivity|]. vm_compute. reflexivity.
Qed.

(** When the layer keeps the target node and its parent link (the parent
    links are the graph's business, not the layer's), the graph after
    [mergeNodes] still holds the edge from [place2] to [object2]; once that
    edge is removed [object2] has no parent, and [insertEdge] from
    [place1], a node of the coarser layer 3, is refused all the same. *)
Hypothesis keeps_parent : ∀ l node_from node_to node,
  nodes_ l !! node_to = Some node →
  ∃ node', nodes_ (Layer_mergeNodes l node_from node_to) !! node_to
           = Some node'
           ∧ parent_ node' = parent_ node.

Lemma merged_child_is_refused :
  ∃ g3 g4,
    mergeNodes Layer_mergeNodes Example.two_parents Example.object1
               Example.object2
    = Some (true, g3)
    ∧ removeEdge g3 Example.place2 Example.object2 = Some (true, g4)
    ∧ node_lookup_ g4 !! Example.place1 = Some (static_key 3)
    ∧ node_lookup_ g4 !! Example.object2 = Some (static_key 2)
    ∧ parent_ <$> getNodePtr g4 Example.object2 (static_key 2) = Some None
    ∧ insertEdge g4 Example.place1 Example.object2 None = Some (false, g4).
Proof.
  destruct mergeNodes_rewires_parent_edge as (layer & Hlayer & Hmerge).
  destruct (keeps_parent layer Example.object1 Example.object2
              (mkNode Example.object2 2 0 (Some Example.place2) ∅ ∅))
    as (node' & Hnode' & Hparent').
  { vm_compute in Hlayer. injection Hlayer as <-. vm_compute. reflexivity. }
  clear Hlayer.
  set (L := Layer_mergeNodes layer Example.object1 Example.object2) in *.
  set (g3 := set_node_lookup _ _) in Hmerge.
  assert (Hi21 : node_lookup_ g3 !! Example.place2 = Some (static_key 3))
    by (vm_compute; reflexivity).
  assert (Hi11 : node_lookup_ g3 !! Example.object2 = Some (static_key 2))
    by (vm_compute; reflexivity).
  assert (Hi20 : node_lookup_ g3 !! Example.place1 = Some (static_key 3))
    by (vm_compute; reflexivity).
  assert (Hn21 : is_Some (getNodePtr g3 Example.place2 (static_key 3)))
    by (vm_compute; eauto).
  assert (Hn11 : getNodePtr g3 Example.object2 (static_key 2) = Some node').
  { unfold getNodePtr, g3, putLayer. cbn [key_dynamic static_key key_layer
      layers_ set_node_lookup set_layers].
    rewrite lookup_insert_eq. exact Hnode'. }
  assert (He21 : Edges.contains (interlayer_edges_ g3) Example.place2
                                Example.object2 = true)
    by (vm_compute; reflexivity).
  assert (He20 : Edges.contains
                   (Edges.remove (interlayer_edges_ g3) Example.place2
                                 Example.object2)
                   Example.place1 Example.object2 = true)
    by (vm_compute; reflexivity).
  clearbody g3. destruct Hn21 as [n21 Hn21].
  set (g1 := modifyNode Example.object2 (static_key 2) clearParent
               (modifyNode Example.place2 (static_key 3)
                  (with_children (λ c, c ∖ {[Example.object2]})) g3)).
  set (g4 := set_interlayer_edges
               (Edges.remove (interlayer_edges_ g1) Example.place2
                             Example.object2) g1).
  assert (Hedges : interlayer_edges_ g1 = interlayer_edges_ g3)
    by (unfold g1; by rewrite !modifyNode_interlayer_edges).
  assert (Hindex : node_lookup_ g4 = node_lookup_ g3)
    by (unfold g4; cbn [node_lookup_ set_interlayer_edges]; unfold g1;
        by rewrite !modifyNode_node_lookup).
  assert (Hrm : removeEdge g3 Example.place2 Example.object2
                = Some (true, g4)).
  { unfold removeEdge.
    rewrite (hasEdge_interlayer g3 _ _ (static_key 3) (static_key 2))
      by done.
    unfold interlayer_container. simpl. rewrite He21. simpl.
    unfold removeInterlayerEdge, removeAncestry. rewrite Hn21, Hn11.
    reflexivity. }
  exists g3, g4. split; [exact Hmerge|]. split; [exact Hrm|].
  split; [by rewrite Hindex|]. split; [by rewrite Hindex|]. split.
  { unfold g4.
    change (getNodePtr (set_interlayer_edges ?c ?g) ?n ?k)
      with (getNodePtr g n k).
    unfold g1. rewrite getNodePtr_modifyNode_same.
    rewrite getNodePtr_modifyNode_other, Hn11 by done. done. }
  unfold insertEdge.
  rewrite (hasEdge_interlayer g4 _ _ (static_key 3) (static_key 2))
    by (by rewrite ?Hindex).
  assert (He4 : Edges.contains (interlayer_edges_ g4) Example.place1
                               Example.object2 = true).
  { unfold g4. cbn [interlayer_edges_ set_interlayer_edges].
    by rewrite Hedges. }
  unfold interlayer_container. cbn [key_dynamic static_key orb].
  by rewrite He4.
Qed.

End MergeNodesExample.

(** ** Updating a layer from another layer *)

Section UpdateFromLayer.
Context `{LayerInterface}.

(** What [updateFromLayer] makes of a node of the target layer ([mine])
    and a node of the other layer ([theirs]) under the same id. *)
Lemma updateNode_loop (l : list (N * SceneGraphNode)) :
  ∀ (L : SceneGraphLayer) (index : gmap N LayerKey),
    NoDup l.*1 →
    ∃ L' index',
      foldl updateNode (L, index) l = (L', index')
      ∧ layer_id L' = layer_id L
      ∧ edges_ L' = edges_ L
      ∧ (∀ n, nodes_ L' !! n
              = match nodes_ L !! n,
                      (list_to_map l : gmap N SceneGraphNode) !! n with
                | Some mine, Some theirs =>
                    Some (with_attributes (attributes_ theirs) mine)
                | Some mine, None => Some mine
                | None, theirs => theirs
                end)
      ∧ (∀ n, index' !! n
              = match nodes_ L !! n,
                      (list_to_map l : gmap N SceneGraphNode) !! n with
                | None, Some _ => Some (static_key (layer_id L))
                | _, _ => index !! n
                end)
      ∧ (∀ n, nodes_status_ L' !! n
              = match nodes_ L !! n,
                      (list_to_map l : gmap N SceneGraphNode) !! n with
                | None, Some _ => Some New
                | _, _ => nodes_status_ L !! n
                end).
Proof.
  induction l as [|[k v] l IH]; intros L index Hnd.
  - exists L, index. split; [done|]. split; [done|]. split; [done|].
    split; [|split]; intros n; rewrite list_to_map_nil, lookup_empty;
      by destruct (nodes_ L !! n).
  - apply NoDup_cons in Hnd as [Hk Hnd]. cbn [foldl].
    assert (Hlk : (list_to_map l : gmap N SceneGraphNode) !! k = None).
    { by apply not_elem_of_list_to_map_1. }
    destruct (updateNode (L, index) (k, v)) as [L1 index1] eqn:Hstep.
    destruct (IH L1 index1 Hnd) as (L' & index' & Hrun & Hid & He & Hn & Hi & Hst).
    exists L', index'. split; [done|].
    unfold updateNode in Hstep. cbn [fst snd] in Hstep.
    unfold Layer.hasNode in Hstep.
    destruct (nodes_ L !! k) as [mine|] eqn:Hmine.
    + rewrite bool_decide_eq_true_2 in Hstep by eauto.
      injection Hstep as <- <-.
      cbn [set_nodes layer_id edges_ nodes_ nodes_status_]
        in Hid, He, Hn, Hi, Hst.
      split; [done|]. split; [done|].
      split; [|split]; intros n;
        rewrite ?Hn, ?Hi, ?Hst, list_to_map_cons; cbn [fst snd];
        (destruct (decide (n = k)) as [->|Hne];
         [rewrite ?lookup_alter_eq, ?lookup_insert_eq, ?Hmine, ?Hlk
         |rewrite ?lookup_alter_ne, ?lookup_insert_ne by done]);
        simpl; try done.
    + rewrite bool_decide_eq_false_2 in Hstep by (by intros [? ?]).
      injection Hstep as <- <-.
      cbn [set_nodes layer_id edges_ nodes_ nodes_status_]
        in Hid, He, Hn, Hi, Hst.
      split; [done|]. split; [done|].
      split; [|split]; intros n;
        rewrite ?Hn, ?Hi, ?Hst, list_to_map_cons; cbn [fst snd];
        (destruct (decide (n = k)) as [->|Hne];
         [rewrite ?lookup_insert_eq, ?Hmine, ?Hlk
         |rewrite ?lookup_insert_ne by done]);
        simpl; try done;
        by destruct (nodes_ L !! n), (list_to_map l !! n).
Qed.

(** What [updateFromLayer] makes of the edge the target layer has under a
    key ([mine]) and the edge passed in under that key ([theirs]). *)
Lemma updateEdge_loop (l : list ((N * N) * SceneGraphEdge)) :
  ∀ L : SceneGraphLayer,
    NoDup l.*1 →
    (∀ k e, (k, e) ∈ l → k = EdgeKey (edge_source e) (edge_target e)) →
    ∃ L',
      foldM updateEdge l L = Some L'
      ∧ layer_id L' = layer_id L
      ∧ nodes_ L' = nodes_ L
      ∧ nodes_status_ L' = nodes_status_ L
      ∧ ∀ key, edges (edges_ L') !! key
               = match (list_to_map l : gmap (N * N) SceneGraphEdge) !! key,
                       edges (edges_ L) !! key with
                 | None, mine => mine
                 | Some theirs, Some mine =>
                     Some (mkEdge (edge_source mine) (edge_target mine)
                                  (edge_info theirs))
                 | Some theirs, None =>
                     if Layer.hasNode L (edge_source theirs)
                        && Layer.hasNode L (edge_target theirs)
                     then Some theirs else None
                 end.
Proof.
  induction l as [|[k e] l IH]; intros L Hnd Hproper.
  - exists L. repeat (split; [done|]). intros key.
    by rewrite list_to_map_nil, lookup_empty.
  - apply NoDup_cons in Hnd as [Hk Hnd]. cbn [foldM].
    assert (Hlk : (list_to_map l : gmap (N * N) SceneGraphEdge) !! k = None).
    { by apply not_elem_of_list_to_map_1. }
    pose proof (Hproper k e (list_elem_of_here _ _)) as Hkey.
    assert (Hstep : ∃ L1,
      updateEdge L (k, e) = Some L1
      ∧ layer_id L1 = layer_id L ∧ nodes_ L1 = nodes_ L
      ∧ nodes_status_ L1 = nodes_status_ L
      ∧ ∀ key, edges (edges_ L1) !! key
               = if decide (key = k)
                 then match edges (edges_ L) !! k with
                      | Some mine =>
                          Some (mkEdge (edge_source mine) (edge_target mine)
                                       (edge_info e))
                      | None =>
                          if Layer.hasNode L (edge_source e)
                             && Layer.hasNode L (edge_target e)
                          then Some e else None
                      end
                 else edges (edges_ L) !! key).
    { unfold updateEdge. cbn [fst snd].
      unfold Layer.hasEdge, Edges.contains. rewrite <- Hkey.
      destruct (edges (edges_ L) !! k) as [mine|] eqn:Hmine.
      - rewrite bool_decide_eq_true_2 by eauto. simpl.
        eexists. split; [reflexivity|]. simpl. repeat (split; [done|]).
        intros key. destruct (decide (key = k)) as [->|Hne].
        + apply lookup_insert_eq.
        + by apply lookup_insert_ne.
      - rewrite bool_decide_eq_false_2 by (by intros [? ?]).
        eexists. split; [reflexivity|].
        unfold Layer.insertEdge, Layer.hasEdge, Edges.contains.
        rewrite <- Hkey, Hmine.
        rewrite bool_decide_eq_false_2 by (by intros [? ?]).
        destruct (Layer.hasNode L (edge_source e)
                  && Layer.hasNode L (edge_target e)); simpl.
        + repeat (split; [done|]). intros key. rewrite <- Hkey.
          destruct (decide (key = k)) as [->|Hne].
          * rewrite lookup_insert_eq. by destruct e.
          * by apply lookup_insert_ne.
        + repeat (split; [done|]). intros key.
          by destruct (decide (key = k)) as [->|Hne]. }
    destruct Hstep as (L1 & -> & Hid1 & Hn1 & Hs1 & He1). cbn [mbind option_bind].
    destruct (IH L1 Hnd) as (L' & Hrun & Hid & Hn & Hs & He).
    { intros k' e' Hin. apply Hproper. by apply list_elem_of_further. }
    exists L'. split; [done|]. split; [congruence|]. split; [congruence|].
    split; [congruence|].
    intros key. rewrite He, He1, list_to_map_cons. cbn [fst snd].
    unfold Layer.hasNode. rewrite Hn1.
    destruct (decide (key = k)) as [->|Hne].
    + rewrite Hlk, lookup_insert_eq. done.
    + rewrite lookup_insert_ne by done. done.
Qed.

(** X21: [updateFromLayer] returns false and changes nothing when the
    graph has no layer with the id of the other layer.  Otherwise, with
    every passed edge filed under the key of its end points, it returns
    true and leaves the other layer empty.  A node the target layer
    already has keeps its parent, children and siblings and takes over the
    attributes of the other layer's node; a node it does not have is moved
    in as it is, marked new and registered in the node index under the
    layer's key, whatever the index said about that id before.  A passed
    edge the layer already has only replaces the attributes; one it does
    not have is inserted if both end points are nodes of the layer.
    Nothing else of the graph changes. *)
Theorem updateFromLayer_spec (g : DynamicSceneGraph)
    (other_layer : SceneGraphLayer)
    (edges_in : option (gmap (N * N) SceneGraphEdge)) :
  (layers_ g !! layer_id other_layer = None →
   updateFromLayer g other_layer edges_in = Some (false, g, other_layer))
  ∧ ∀ internal,
      layers_ g !! layer_id other_layer = Some internal →
      (∀ es k e, edges_in = Some es → es !! k = Some e →
                 k = EdgeKey (edge_source e) (edge_target e)) →
      ∃ internal' index',
        updateFromLayer g other_layer edges_in
        = Some (true,
                set_node_lookup index'
                  (putLayer (layer_id other_layer) internal' g),
                Layer_reset other_layer)
        ∧ layer_id internal' = layer_id internal
        ∧ (∀ n, nodes_ internal' !! n
                = match nodes_ internal !! n, nodes_ other_layer !! n with
                  | Some mine, Some theirs =>
                      Some (with_attributes (attributes_ theirs) mine)
                  | Some mine, None => Some mine
                  | None, theirs => theirs
                  end)
        ∧ (∀ n, index' !! n
                = match nodes_ internal !! n, nodes_ other_layer !! n with
                  | None, Some _ => Some (static_key (layer_id internal))
                  | _, _ => node_lookup_ g !! n
                  end)
        ∧ (∀ n, nodes_status_ internal' !! n
                = match nodes_ internal !! n, nodes_ other_layer !! n with
                  | None, Some _ => Some New
                  | _, _ => nodes_status_ internal !! n
                  end)
        ∧ (∀ key, edges (edges_ internal') !! key
                  = match edges_in ≫= (.!! key),
                          edges (edges_ internal) !! key with
                    | None, mine => mine
                    | Some theirs, Some mine =>
                        Some (mkEdge (edge_source mine) (edge_target mine)
                                     (edge_info theirs))
                    | Some theirs, None =>
                        if bool_decide
                             (is_Some (nodes_ internal' !! edge_source theirs))
                           && bool_decide
                                (is_Some
                                   (nodes_ internal' !! edge_target theirs))
                        then Some theirs else None
                    end).
Proof.
  split.
  { intros Hnone. unfold updateFromLayer. by rewrite Hnone. }
  intros internal Hl Hproper. unfold updateFromLayer. rewrite Hl.
  destruct (updateNode_loop (ascending (nodes_ other_layer)) internal
              (node_lookup_ g) (NoDup_fst_ascending _))
    as (L1 & index' & -> & Hid1 & He1 & Hn1 & Hi1 & Hs1).
  rewrite list_to_map_ascending in Hn1, Hi1, Hs1.
  destruct edges_in as [es|]; cbn [mbind option_bind].
  - destruct (updateEdge_loop (ascending_edges es) L1
                (NoDup_fst_ascending_edges _))
      as (L2 & -> & Hid2 & Hn2 & Hs2 & He2).
    { intros k e Hin%elem_of_ascending_edges. by eapply Hproper. }
    rewrite list_to_map_ascending_edges in He2.
    exists L2, index'. split; [done|]. split; [congruence|].
    split; [intros n; by rewrite Hn2|]. split; [done|].
    split; [intros n; by rewrite Hs2|].
    intros key. rewrite He2, He1. unfold Layer.hasNode. by rewrite Hn2.
  - exists L1, index'. split; [done|]. split; [done|].
    split; [done|]. split; [done|]. split; [done|].
    intros key. by rewrite He1.
Qed.

End UpdateFromLayer.

(** ** What a merge leaves alone *)

Section MergeFrame.
Context `{LayerInterface}.

Lemma same_geometry_refl (S : DynamicSceneGraph) : same_geometry S S.
Proof. by repeat split. Qed.

Lemma same_geometry_trans (S1 S2 S3 : DynamicSceneGraph) :
  same_geometry S1 S2 → same_geometry S2 S3 → same_geometry S1 S3.
Proof.
  intros (H1 & H2 & H3 & H4) (H1' & H2' & H3' & H4').
  repeat split; congruence.
Qed.

Lemma same_nodes_geometry (S S' : DynamicSceneGraph) :
  same_nodes S S' → same_geometry S S'.
Proof. intros [? ? ? ? ? ? ?]. by repeat split. Qed.

Lemma same_geometry_foldM {A : Type}
    (f : DynamicSceneGraph → A → option DynamicSceneGraph) (l : list A) :
  (∀ S x S', f S x = Some S' → same_geometry S S') →
  ∀ S S', foldM f l S = Some S' → same_geometry S S'.
Proof.
  intros Hf. induction l as [|x l IH]; intros S S'; cbn [foldM].
  - intros [= <-]. apply same_geometry_refl.
  - destruct (f S x) as [S1|] eqn:Hx; simpl; [|done].
    intros Hrest. eapply same_geometry_trans; [by eapply Hf|by apply IH].
Qed.

Lemma putLayer_geometry (S : DynamicSceneGraph) (L : LayerId)
    (l : SceneGraphLayer) :
  is_Some (layers_ S !! L) → same_geometry S (putLayer L l S).
Proof.
  intros Hl. repeat split; simpl. rewrite dom_insert_L.
  apply subseteq_union_1_L, singleton_subseteq_l. by apply elem_of_dom.
Qed.

Lemma removeNode_geometry (S S' : DynamicSceneGraph) (n : NodeId) (b : bool) :
  removeNode S n = Some (b, S') → same_geometry S S'.
Proof.
  unfold removeNode.
  destruct (node_lookup_ S !! n) as [info|];
    [|intros [= <- <-]; apply same_geometry_refl].
  destruct (match mesh_edges_node_lookup_ S !! n with
            | Some _ => _ | None => _ end) as [g1|] eqn:H1; simpl; [|done].
  assert (Hg1 : same_geometry S g1).
  { apply same_nodes_geometry. destruct (mesh_edges_node_lookup_ S !! n).
    - eapply same_nodes_foldM; [|exact H1]. intros S0 x S0' Hx.
      unfold removeMeshEdge_ in Hx.
      apply fmap_Some in Hx as ([b0 S1] & Hx & ->).
      by eapply mesh_edges_only_same_nodes, removeMeshEdge_mesh_edges_only.
    - injection H1 as <-. apply same_nodes_refl. }
  destruct (getNodePtr g1 n info) as [node|]; simpl; [|done].
  destruct (match parent_ node with Some parent => _ | None => _ end)
    as [g2|] eqn:H2; simpl; [|done].
  assert (Hg2 : same_geometry g1 g2).
  { apply same_nodes_geometry. destruct (parent_ node).
    - by eapply removeInterlayerEdge2_same_nodes.
    - injection H2 as <-. apply same_nodes_refl. }
  destruct (getNodePtr g2 n info) as [node'|]; simpl; [|done].
  destruct (foldM _ _ g2) as [g3|] eqn:H3; simpl; [|done].
  assert (Hg3 : same_geometry g2 g3).
  { apply same_nodes_geometry. eapply same_nodes_foldM; [|exact H3].
    intros S0 x S0'. apply removeInterlayerEdge2_same_nodes. }
  destruct (layerFromKey g3 info) as [layer|] eqn:Hlayer; simpl; [|done].
  intros [= <- <-].
  eapply same_geometry_trans; [exact Hg1|].
  eapply same_geometry_trans; [exact Hg2|].
  eapply same_geometry_trans; [exact Hg3|].
  unfold layerFromKey in Hlayer. unfold storeLayer.
  destruct (key_dynamic info).
  - destruct (getDynamicLayer g3 _ _) as [d|]; simpl in Hlayer; [|done].
    injection Hlayer as <-. simpl. by repeat split.
  - destruct (layers_ g3 !! key_layer info) as [l|] eqn:Hl; simpl in Hlayer;
      [|done].
    injection Hlayer as <-. simpl.
    destruct (putLayer_geometry g3 (key_layer info) (Layer.removeNode l n).2)
      as (? & ? & ? & ?); [eauto|]. by repeat split.
Qed.

(** X24: a merge that returns returns true, and it does not touch the
    geometry of the target: the mesh vertices and faces and the mesh layer
    id are as before, whatever mesh the other graph has.  It creates no
    static layer either: the target has the static layers it had, so the
    nodes of a static layer that only the other graph has are not taken
    over. *)
Theorem mergeGraph_keeps_geometry (g other g' : DynamicSceneGraph)
    (allow_invalid_mesh clear_mesh_edges : bool)
    (update_map : option (gmap N bool)) (update_dynamic b : bool) :
  mergeGraph g other allow_invalid_mesh clear_mesh_edges update_map
             update_dynamic
  = Some (b, g') →
  b = true
  ∧ mesh_layer_id g' = mesh_layer_id g
  ∧ mesh_vertices_ g' = mesh_vertices_ g
  ∧ mesh_faces_ g' = mesh_faces_ g
  ∧ hasMesh g' = hasMesh g
  ∧ dom (layers_ g') = dom (layers_ g)
  ∧ (∀ L, hasLayer g' L = hasLayer g L).
Proof.
  unfold mergeGraph. intros Hm.
  destruct (mergeDynamicLayers g other update_dynamic) as [g1|] eqn:HD;
    simpl in Hm; [|done].
  destruct (foldM (mergeStaticLayer update_map) _ (g1, []))
    as [[g2 removed]|] eqn:HS; simpl in Hm; [|done].
  destruct (foldM removeNode_ removed g2) as [g3|] eqn:HR;
    simpl in Hm; [|done].
  destruct (foldM insertEdge_ _ g3) as [g4|] eqn:HE1; simpl in Hm; [|done].
  destruct (foldM insertEdge_ _ g4) as [g5|] eqn:HE2; simpl in Hm; [|done].
  injection Hm as <- <-.
  assert (H1 : same_geometry g g1).
  { unfold mergeDynamicLayers in HD.
    eapply same_geometry_foldM; [|exact HD]. intros S [l group] S' Hgroup.
    eapply same_geometry_foldM; [|exact Hgroup].
    intros S0 [p d] S0'. unfold mergeDynamicLayer. simpl.
    set (S1 := if hasDynamicLayer S0 l p then S0
               else (createDynamicLayer S0 l p).2).
    assert (HS1 : same_geometry S0 S1).
    { unfold S1, createDynamicLayer.
      by destruct (hasDynamicLayer S0 l p). }
    destruct (getDynamicLayer S1 l p) as [mine|]; simpl; [|done].
    destruct (DynLayer_mergeLayer mine d (node_lookup_ S1) update_dynamic)
      as [mine' index'].
    intros [= <-]. destruct HS1 as (? & ? & ? & ?). by repeat split. }
  assert (H2 : same_geometry g1 g2).
  { clear -HS.
    assert (Hgen : ∀ items S r S' r',
              foldM (mergeStaticLayer update_map) items (S, r) = Some (S', r')
              → same_geometry S S').
    { induction items as [|[L lo] items IH]; intros S r S' r'; cbn [foldM].
      - intros [= <- <-]. apply same_geometry_refl.
      - destruct (mergeStaticLayer update_map (S, r) (L, lo))
          as [[S1 r1]|] eqn:Hstep; simpl; [|done].
        intros Hrest. eapply same_geometry_trans; [|by eapply IH].
        unfold mergeStaticLayer in Hstep. cbn [fst snd] in Hstep.
        destruct (hasLayer S L); cbn [negb] in Hstep;
          [|injection Hstep as <- <-; apply same_geometry_refl].
        destruct (layers_ S !! L) as [mine|] eqn:Hmine;
          cbn [mbind option_bind] in Hstep; [|done].
        destruct (Layer_mergeLayer mine lo (node_lookup_ S) _)
          as [mine' index'].
        injection Hstep as <- <-.
        destruct (putLayer_geometry S L mine') as (? & ? & ? & ?); [eauto|].
        by repeat split. }
    by eapply Hgen. }
  assert (H3 : same_geometry g2 g3).
  { eapply same_geometry_foldM; [|exact HR]. intros S x S' Hx.
    unfold removeNode_ in Hx. apply fmap_Some in Hx as ([b0 S1] & Hx & ->).
    by eapply removeNode_geometry. }
  assert (Hedges : ∀ es S S', foldM insertEdge_ es S = Some S' →
                              same_geometry S S').
  { intros es S S' Hrun. eapply same_geometry_foldM; [|exact Hrun].
    intros S0 e S0' He. unfold insertEdge_ in He.
    apply fmap_Some in He as ([b0 S1] & He & ->).
    by eapply same_nodes_geometry, insertEdge_same_nodes. }
  assert (H6 : same_geometry g5
                 (foldl (insertMeshEdge_ allow_invalid_mesh)
                    (if clear_mesh_edges then clearMeshEdges g5 else g5)
                    (ascending (mesh_edges_ other)).*2)).
  { apply same_nodes_geometry, mesh_edges_only_same_nodes.
    eapply mesh_edges_only_trans; [|apply mesh_loop].
    destruct clear_mesh_edges;
      [apply clearMeshEdges_mesh_edges_only|apply mesh_edges_only_refl]. }
  pose proof (same_geometry_trans _ _ _ H1
               (same_geometry_trans _ _ _ H2
                 (same_geometry_trans _ _ _ H3
                   (same_geometry_trans _ _ _ (Hedges _ _ _ HE1)
                     (same_geometry_trans _ _ _ (Hedges _ _ _ HE2) H6)))))
    as (Hid & Hv & Hf & Hdom).
  split; [done|]. split; [done|]. split; [done|]. split; [done|].
  assert (Hmesh : hasMesh (foldl (insertMeshEdge_ allow_invalid_mesh)
                             (if clear_mesh_edges then clearMeshEdges g5
                              else g5)
                             (ascending (mesh_edges_ other)).*2)
                  = hasMesh g).
  { unfold hasMesh. by rewrite Hv, Hf. }
  split; [done|]. split; [done|].
  intros L. unfold hasLayer. rewrite Hid, Hmesh.
  destruct (negb (L =? mesh_layer_id g)); [|done].
  apply bool_decide_ext. by rewrite <- !elem_of_dom, Hdom.
Qed.

End MergeFrame.

(** ** Counting edges *)

Section EdgeCounts.
Context `{LayerInterface}.

Lemma numEdges_sum (g : DynamicSceneGraph) :
  numEdges g
  = wrap (Edges.size (interlayer_edges_ g) + static_edge_count g
          + dynamic_edge_count g + N.of_nat (size (mesh_edges_ g))
          + Edges.size (dynamic_interlayer_edges_ g)).
Proof.
  unfold numEdges. rewrite wrap_add_l.
  apply wrap_add_proper; [|done]. apply wrap_add_proper; [|done].
  rewrite (foldl_nested_add_size (λ x, map_to_list x.2)
             (λ p, DynLayer.numEdges p.2)).
  apply wrap_add_proper; [|done].
  apply (foldl_add_size (λ p, Layer.numEdges p.2)).
Qed.

Lemma sumN_map_values {V : Type} (h : V → N) (m : gmap N V) :
  sumN ((λ p, h p.2) <$> map_to_list m) = sumN (map_to_list (h <$> m)).*2.
Proof.
  apply sumN_perm. rewrite map_to_list_fmap, <- list_fmap_compose.
  done.
Qed.

Lemma fmap_alter_same {V : Type} (h : V → N) (f : V → V) (k : N)
    (m : gmap N V) :
  (∀ x, m !! k = Some x → h (f x) = h x) → h <$> alter f k m = h <$> m.
Proof.
  intros Hf. apply map_eq. intros i. rewrite !lookup_fmap.
  destruct (decide (i = k)) as [->|Hne].
  - rewrite lookup_alter_eq. destruct (m !! k) as [x|] eqn:Hx; simpl; [|done].
    f_equal. by apply Hf.
  - by rewrite lookup_alter_ne.
Qed.

Lemma sumN_alter_same {V : Type} (h : V → N) (f : V → V) (k : N)
    (m : gmap N V) :
  (∀ x, m !! k = Some x → h (f x) = h x) →
  sumN ((λ p, h p.2) <$> map_to_list (alter f k m))
  = sumN ((λ p, h p.2) <$> map_to_list m).
Proof.
  intros Hf. rewrite !sumN_map_values. by rewrite fmap_alter_same.
Qed.

Lemma modifyNode_edge_counts (g : DynamicSceneGraph) (m : NodeId)
    (k : LayerKey) (f : SceneGraphNode → SceneGraphNode) :
  static_edge_count (modifyNode m k f g) = static_edge_count g
  ∧ dynamic_edge_count (modifyNode m k f g) = dynamic_edge_count g
  ∧ mesh_edges_ (modifyNode m k f g) = mesh_edges_ g.
Proof.
  unfold modifyNode, static_edge_count, dynamic_edge_count.
  destruct (key_dynamic k); simpl.
  - split; [done|]. split; [|done].
    apply (sumN_alter_same
             (λ group : gmap N DynamicSceneGraphLayer,
                sumN ((λ p, DynLayer.numEdges p.2) <$> map_to_list group))).
    intros group _.
    by apply (sumN_alter_same DynLayer.numEdges).
  - split; [|done].
    by apply (sumN_alter_same Layer.numEdges).
Qed.

Lemma addAncestry_edge_counts (g gA : DynamicSceneGraph) (s t : NodeId)
    (ks kt : LayerKey) (ok : bool) :
  addAncestry g s t ks kt = Some (ok, gA) →
  static_edge_count gA = static_edge_count g
  ∧ dynamic_edge_count gA = dynamic_edge_count g
  ∧ mesh_edges_ gA = mesh_edges_ g.
Proof.
  unfold addAncestry.
  destruct (getNodePtr g s ks) as [ns|]; [|done].
  destruct (getNodePtr g t kt) as [nt|]; [|done]. simpl.
  assert (Htwo : ∀ m1 k1 f1 m2 k2 f2,
            static_edge_count (modifyNode m1 k1 f1 (modifyNode m2 k2 f2 g))
            = static_edge_count g
            ∧ dynamic_edge_count
                (modifyNode m1 k1 f1 (modifyNode m2 k2 f2 g))
              = dynamic_edge_count g
            ∧ mesh_edges_ (modifyNode m1 k1 f1 (modifyNode m2 k2 f2 g))
              = mesh_edges_ g).
  { intros. destruct (modifyNode_edge_counts (modifyNode m2 k2 f2 g) m1 k1 f1)
      as (-> & -> & ->). apply modifyNode_edge_counts. }
  destruct (isParent ks kt); [|destruct (isParent kt ks)];
    [destruct (hasParent nt)|destruct (hasParent ns)|];
    intros [= <- <-]; auto.
Qed.

Lemma size_insert_edge (c : EdgeContainer) (s t : NodeId)
    (a : EdgeAttributes) :
  Edges.contains c s t = false →
  Edges.size (Edges.insert c s t a) = Edges.size c + 1.
Proof.
  intros Hc%contains_false_get. unfold Edges.size, Edges.insert. simpl.
  rewrite map_size_insert_None by done. lia.
Qed.

(** The edge count of a layer after an accepted insertion. *)
Lemma base_insertEdge_count (g : DynamicSceneGraph) (k : LayerKey)
    (b b' : BaseLayer) (s t : NodeId) (a : EdgeAttributes) :
  layerFromKey g k = Some b →
  Base.insertEdge b s t a = (true, b') →
  static_edge_count (storeLayer k b' g) + dynamic_edge_count (storeLayer k b' g)
  = static_edge_count g + dynamic_edge_count g + 1.
Proof.
  unfold layerFromKey, storeLayer, static_edge_count, dynamic_edge_count.
  destruct (key_dynamic k).
  - unfold getDynamicLayer.
    destruct (dynamic_layers_ g !! key_layer k) as [group|] eqn:Hgroup;
      simpl; [|done].
    destruct (group !! key_prefix k) as [d|] eqn:Hd; simpl; [|done].
    intros [= <-]. simpl. unfold DynLayer.insertEdge.
    destruct (DynLayer.hasEdge d s t) eqn:Hhas; [done|].
    destruct (DynLayer.hasNode d s && DynLayer.hasNode d t); [|done].
    intros [= <-]. simpl. rewrite Hgroup. simpl.
    set (count := λ x : N * gmap N DynamicSceneGraphLayer,
           sumN ((λ p, DynLayer.numEdges p.2) <$> map_to_list x.2)).
    pose proof (sumN_map_insert_Some count (dynamic_layers_ g) (key_layer k)
                  group
                  (<[key_prefix k :=
                       mkDynLayer (dyn_id d) (dyn_prefix d) (dyn_nodes_ d)
                         (dyn_status_ d) (times_ d) (next_node_ d)
                         (Edges.insert (dyn_edges_ d) s t a)]> group)
                  Hgroup) as Houter.
    pose proof (sumN_map_insert_Some
                  (λ p : N * DynamicSceneGraphLayer, DynLayer.numEdges p.2)
                  group (key_prefix k) d
                  (mkDynLayer (dyn_id d) (dyn_prefix d) (dyn_nodes_ d)
                     (dyn_status_ d) (times_ d) (next_node_ d)
                     (Edges.insert (dyn_edges_ d) s t a))
                  Hd) as Hinner.
    subst count. cbn beta iota delta [fst snd] in Houter, Hinner |- *.
    unfold DynLayer.numEdges in Hinner at 2 3.
    cbn [dyn_edges_] in Hinner.
    rewrite size_insert_edge in Hinner by done.
    fold (DynLayer.numEdges d) in Hinner.
    sum_lia.
  - destruct (layers_ g !! key_layer k) as [l|] eqn:Hl; simpl; [|done].
    intros [= <-]. simpl. unfold Layer.insertEdge.
    destruct (Layer.hasEdge l s t) eqn:Hhas; [done|].
    destruct (Layer.hasNode l s && Layer.hasNode l t); [|done].
    intros [= <-]. simpl.
    pose proof (sumN_map_insert_Some
                  (λ p : N * SceneGraphLayer, Layer.numEdges p.2)
                  (layers_ g) (key_layer k) l
                  (mkLayer (layer_id l) (nodes_ l) (nodes_status_ l)
                     (Edges.insert (edges_ l) s t a))
                  Hl) as Hsum.
    cbn beta iota delta [fst snd] in Hsum.
    unfold Layer.numEdges in Hsum at 2 3. cbn [edges_] in Hsum.
    rewrite size_insert_edge in Hsum by done.
    fold (Layer.numEdges l) in Hsum. sum_lia.
Qed.

Lemma size_alter {V : Type} (f : V → V) (k : N) (m : gmap N V) :
  size (alter f k m) = size m.
Proof. by rewrite <- !size_dom, dom_alter_L. Qed.

Lemma modifyNode_node_counts (g : DynamicSceneGraph) (m : NodeId)
    (k : LayerKey) (f : SceneGraphNode → SceneGraphNode) :
  static_node_count (modifyNode m k f g) = static_node_count g
  ∧ dynamic_node_count (modifyNode m k f g) = dynamic_node_count g
  ∧ mesh_vertex_count (modifyNode m k f g) = mesh_vertex_count g.
Proof.
  unfold modifyNode, static_node_count, dynamic_node_count.
  destruct (key_dynamic k); simpl.
  - split; [done|]. split; [|done].
    apply (sumN_alter_same
             (λ group : gmap N DynamicSceneGraphLayer,
                sumN ((λ p, DynLayer.numNodes p.2) <$> map_to_list group))).
    intros group _.
    apply (sumN_alter_same DynLayer.numNodes).
    intros d _. unfold DynLayer.numNodes. simpl. by rewrite size_alter.
  - split; [|done].
    apply (sumN_alter_same Layer.numNodes).
    intros l _. unfold Layer.numNodes. simpl. by rewrite size_alter.
Qed.

Lemma addAncestry_node_counts (g gA : DynamicSceneGraph) (s t : NodeId)
    (ks kt : LayerKey) (ok : bool) :
  addAncestry g s t ks kt = Some (ok, gA) →
  static_node_count gA = static_node_count g
  ∧ dynamic_node_count gA = dynamic_node_count g
  ∧ mesh_vertex_count gA = mesh_vertex_count g.
Proof.
  unfold addAncestry.
  destruct (getNodePtr g s ks) as [ns|]; [|done].
  destruct (getNodePtr g t kt) as [nt|]; [|done]. simpl.
  assert (Htwo : ∀ m1 k1 f1 m2 k2 f2,
            static_node_count (modifyNode m1 k1 f1 (modifyNode m2 k2 f2 g))
            = static_node_count g
            ∧ dynamic_node_count
                (modifyNode m1 k1 f1 (modifyNode m2 k2 f2 g))
              = dynamic_node_count g
            ∧ mesh_vertex_count (modifyNode m1 k1 f1 (modifyNode m2 k2 f2 g))
              = mesh_vertex_count g).
  { intros. destruct (modifyNode_node_counts (modifyNode m2 k2 f2 g) m1 k1 f1)
      as (-> & -> & ->). apply modifyNode_node_counts. }
  destruct (isParent ks kt); [|destruct (isParent kt ks)];
    [destruct (hasParent nt)|destruct (hasParent ns)|];
    intros [= <- <-]; auto.
Qed.

(** The node counts of the layers are not touched by an edge insertion in
    a layer. *)
Lemma base_insertEdge_node_count (g : DynamicSceneGraph) (k : LayerKey)
    (b : BaseLayer) (s t : NodeId) (a : EdgeAttributes) :
  layerFromKey g k = Some b →
  static_node_count (storeLayer k (Base.insertEdge b s t a).2 g)
  = static_node_count g
  ∧ dynamic_node_count (storeLayer k (Base.insertEdge b s t a).2 g)
    = dynamic_node_count g.
Proof.
  unfold layerFromKey, storeLayer, static_node_count, dynamic_node_count.
  destruct (key_dynamic k).
  - unfold getDynamicLayer.
    destruct (dynamic_layers_ g !! key_layer k) as [group|] eqn:Hgroup;
      simpl; [|done].
    destruct (group !! key_prefix k) as [d|] eqn:Hd; simpl; [|done].
    intros [= <-]. simpl. split; [done|]. rewrite Hgroup. simpl.
    set (count := λ x : N * gmap N DynamicSceneGraphLayer,
           sumN ((λ p, DynLayer.numNodes p.2) <$> map_to_list x.2)).
    pose proof (sumN_map_insert_Some count (dynamic_layers_ g) (key_layer k)
                  group
                  (<[key_prefix k := (DynLayer.insertEdge d s t a).2]> group)
                  Hgroup) as Houter.
    pose proof (sumN_map_insert_Some
                  (λ p : N * DynamicSceneGraphLayer, DynLayer.numNodes p.2)
                  group (key_prefix k) d (DynLayer.insertEdge d s t a).2
                  Hd) as Hinner.
    assert (Hsame : DynLayer.numNodes (DynLayer.insertEdge d s t a).2
                    = DynLayer.numNodes d).
    { unfold DynLayer.insertEdge. destruct (DynLayer.hasEdge d s t); [done|].
      by destruct (DynLayer.hasNode d s && DynLayer.hasNode d t). }
    subst count. cbn beta iota delta [fst snd] in Houter, Hinner |- *.
    rewrite Hsame in Hinner.
    destruct (DynLayer.insertEdge d s t a) as [ok d']. simpl in *.
    sum_lia.
  - destruct (layers_ g !! key_layer k) as [l|] eqn:Hl; simpl; [|done].
    intros [= <-]. simpl. split; [|done].
    pose proof (sumN_map_insert_Some
                  (λ p : N * SceneGraphLayer, Layer.numNodes p.2)
                  (layers_ g) (key_layer k) l (Layer.insertEdge l s t a).2
                  Hl) as Hsum.
    assert (Hsame : Layer.numNodes (Layer.insertEdge l s t a).2
                    = Layer.numNodes l).
    { unfold Layer.insertEdge. destruct (Layer.hasEdge l s t); [done|].
      by destruct (Layer.hasNode l s && Layer.hasNode l t). }
    cbn beta iota delta [fst snd] in Hsum. rewrite Hsame in Hsum.
    destruct (Layer.insertEdge l s t a) as [ok l']. simpl in *.
    sum_lia.
Qed.

(** X22: every accepted [insertEdge] raises [numEdges] by exactly one
    (modulo 2^64), whether the edge goes to a layer or to one of the two
    interlayer sets, and leaves [numNodes] as it is. *)
Theorem insertEdge_numEdges (g g' : DynamicSceneGraph) (s t : NodeId)
    (a : option EdgeAttributes) :
  insertEdge g s t a = Some (true, g') →
  numEdges g' = wrap (numEdges g + 1) ∧ numNodes g' = numNodes g.
Proof.
  intros Hins.
  destruct (insertEdge_true _ _ _ _ _ Hins)
    as (ks & kt & Hs & Ht & Hlook & Hhas & Hcase).
  rewrite !numEdges_sum, !numNodes_wrapped_sum, wrap_add_l.
  destruct (key_eqb ks kt) eqn:Hk.
  - destruct Hcase as (layer & Hlayer & Hb & ->).
    pose proof (base_insertEdge_count g ks layer _ s t _ Hlayer Hb) as Hcount.
    destruct (base_insertEdge_node_count g ks layer s t
                (default default_edge_attributes a) Hlayer) as [Hsn Hdn].
    assert (Hrest : interlayer_edges_ (storeLayer ks
                      (Base.insertEdge layer s t
                         (default default_edge_attributes a)).2 g)
                    = interlayer_edges_ g
                    ∧ dynamic_interlayer_edges_ (storeLayer ks
                        (Base.insertEdge layer s t
                           (default default_edge_attributes a)).2 g)
                      = dynamic_interlayer_edges_ g
                    ∧ mesh_edges_ (storeLayer ks
                        (Base.insertEdge layer s t
                           (default default_edge_attributes a)).2 g)
                      = mesh_edges_ g
                    ∧ mesh_vertex_count (storeLayer ks
                        (Base.insertEdge layer s t
                           (default default_edge_attributes a)).2 g)
                      = mesh_vertex_count g).
    { by destruct (Base.insertEdge layer s t _).2. }
    destruct Hrest as (-> & -> & -> & ->). rewrite Hsn, Hdn.
    split; [|done]. f_equal. lia.
  - destruct Hcase as (gA & Hadd & ->).
    rewrite (hasEdge_interlayer g s t ks kt) in Hhas by done.
    injection Hhas as Hfree.
    destruct (addAncestry_edge_counts _ _ _ _ _ _ _ Hadd) as (Hsc & Hdc & Hm).
    destruct (addAncestry_node_counts _ _ _ _ _ _ _ Hadd) as (Hsn & Hdn & Hv).
    destruct (addAncestry_interlayer _ _ _ _ _ _ _ Hadd) as [Hi Hd].
    unfold interlayer_container in Hfree.
    destruct (key_dynamic ks || key_dynamic kt).
    + change (static_edge_count (set_dynamic_interlayer_edges ?c gA))
        with (static_edge_count gA).
      change (dynamic_edge_count (set_dynamic_interlayer_edges ?c gA))
        with (dynamic_edge_count gA).
      change (static_node_count (set_dynamic_interlayer_edges ?c gA))
        with (static_node_count gA).
      change (dynamic_node_count (set_dynamic_interlayer_edges ?c gA))
        with (dynamic_node_count gA).
      change (mesh_vertex_count (set_dynamic_interlayer_edges ?c gA))
        with (mesh_vertex_count gA).
      simpl. rewrite Hsc, Hdc, Hm, Hi, Hd, Hsn, Hdn, Hv,
        size_insert_edge by done.
      split; [|done]. f_equal. lia.
    + change (static_edge_count (set_interlayer_edges ?c gA))
        with (static_edge_count gA).
      change (dynamic_edge_count (set_interlayer_edges ?c gA))
        with (dynamic_edge_count gA).
      change (static_node_count (set_interlayer_edges ?c gA))
        with (static_node_count gA).
      change (dynamic_node_count (set_interlayer_edges ?c gA))
        with (dynamic_node_count gA).
      change (mesh_vertex_count (set_interlayer_edges ?c gA))
        with (mesh_vertex_count gA).
      simpl. rewrite Hsc, Hdc, Hm, Hi, Hd, Hsn, Hdn, Hv,
        size_insert_edge by done.
      split; [|done]. f_equal. lia.
Qed.

(** X23: on consistent mesh tables an accepted [insertMeshEdge] raises
    [numEdges] by exactly one (modulo 2^64) when the id it takes from the
    counter is not in use, and an accepted [removeMeshEdge] lowers it by
    exactly one; neither changes [numNodes]. *)
Theorem mesh_edge_numEdges (g g' : DynamicSceneGraph) (s v : N) :
  mesh_consistent g →
  (∀ a, mesh_ids_below g → insertMeshEdge g s v a = (true, g') →
        numEdges g' = wrap (numEdges g + 1) ∧ numNodes g' = numNodes g)
  ∧ (removeMeshEdge g s v = Some (true, g') →
     wrap (numEdges g' + 1) = numEdges g ∧ numNodes g' = numNodes g).
Proof.
  intros Hcons.
  assert (Hcount : ∀ S e bn bv next,
            numEdges (set_mesh_edges e bn bv next S)
            = wrap (Edges.size (interlayer_edges_ S) + static_edge_count S
                    + dynamic_edge_count S + N.of_nat (size e)
                    + Edges.size (dynamic_interlayer_edges_ S))).
  { intros. by rewrite numEdges_sum. }
  split.
  - intros a Hbelow Hins.
    pose proof (mesh_ids_below_fresh g Hbelow) as Hfresh.
    pose proof Hins as (_ & _ & Hg1 & _)%insertMeshEdge_tables.
    split; [|by rewrite Hg1].
    rewrite Hg1, Hcount, numEdges_sum, wrap_add_l.
    unfold map_emplace. rewrite Hfresh.
    rewrite map_size_insert_None by done. f_equal. lia.
  - unfold removeMeshEdge.
    destruct (hasMeshEdge g s v); simpl; [|done].
    destruct (mesh_edges_node_lookup_ g !! s) as [by_vertex|] eqn:Hbv;
      simpl; [|done].
    destruct (by_vertex !! v) as [idx|] eqn:Hidx; simpl; [|done].
    destruct (mesh_edges_vertex_lookup_ g !! v) as [by_node|]; simpl; [|done].
    intros [= <-]. split; [|done].
    apply mesh_consistent_alt in Hcons as (H1 & _).
    destruct (H1 s v idx) as [He _].
    { unfold meshEdgeId. by rewrite Hbv. }
    rewrite Hcount, numEdges_sum, wrap_add_l.
    assert (Hsize : size (mesh_edges_ g)
                    = S (size (delete idx (mesh_edges_ g)))).
    { rewrite <- (insert_delete_id _ _ _ He) at 1.
      by rewrite map_size_insert_None by apply lookup_delete_eq. }
    f_equal. lia.
Qed.

End EdgeCounts.

(** ** The statements of the second part at concrete graphs *)

Section MoreWitnesses.

#[local] Existing Instance symbols.

Lemma mesh_ops_keep_tables_consistent_witness :
  ∃ log g',
    run_mesh_ops Example.mesh_ops Example.with_mesh_edges = Some (log, g')
    ∧ mesh_consistent g' ∧ mesh_ids_below g'.
Proof.
  apply (mesh_ops_keep_tables_consistent Example.mesh_ops
           Example.with_mesh_edges).
  - apply (bool_decide_unpack _). vm_compute. reflexivity.
  - apply (bool_decide_unpack _). vm_compute. reflexivity.
  - vm_compute. reflexivity.
Defined.

Lemma insert_then_remove_mesh_edge_witness :
  ∃ g1 g2,
    insertMeshEdge Example.with_mesh_edges Example.object2 1 false
    = (true, g1)
    ∧ removeMeshEdge g1 Example.object2 1 = Some (true, g2)
    ∧ mesh_edges_ g2 = mesh_edges_ Example.with_mesh_edges
    ∧ next_mesh_edge_idx_ Example.with_mesh_edges = 3
    ∧ next_mesh_edge_idx_ g2 = 5.
Proof.
  exists (insertMeshEdge Example.with_mesh_edges Example.object2 1 false).2.
  destruct (insert_then_remove_mesh_edge Example.with_mesh_edges
              (insertMeshEdge Example.with_mesh_edges Example.object2 1
                              false).2
              Example.object2 1 false)
    as (g2 & Hrm & He & _ & _ & Hc & _).
  - apply (bool_decide_unpack _). vm_compute. reflexivity.
  - apply (bool_decide_unpack _). vm_compute. reflexivity.
  - vm_compute. reflexivity.
  - exists g2. split; [vm_compute; reflexivity|].
    split; [exact Hrm|]. split; [exact He|].
    split; [vm_compute; reflexivity|].
    rewrite Hc. vm_compute. reflexivity.
Defined.

Lemma invalidateMeshVertex_purges_vertex_witness :
  ∃ g',
    invalidateMeshVertex Example.with_mesh_edges 0 = Some g'
    ∧ meshEdgeId Example.with_mesh_edges Example.object1 0 = Some 0
    ∧ meshEdgeId g' Example.object1 0 = None
    ∧ meshEdgeId g' Example.object1 2 = Some 2.
Proof.
  destruct (invalidateMeshVertex_purges_vertex Example.with_mesh_edges 0)
    as (g' & Hinv & _ & _ & Hid & _).
  { apply (bool_decide_unpack _). vm_compute. reflexivity. }
  exists g'. split; [exact Hinv|]. split; [vm_compute; reflexivity|].
  split; rewrite Hid; vm_compute; reflexivity.
Defined.

Lemma createDynamicLayer_counts_witness :
  numLayers Example.with_agent = 3
  ∧ numLayers (createDynamicLayer Example.with_agent 5 98).2 = 4
  ∧ numLayers (createDynamicLayer Example.with_agent 3 98).2 = 3
  ∧ numDynamicLayers (createDynamicLayer Example.with_agent 3 98).2 = 2.
Proof.
  pose proof (createDynamicLayer_counts Example.with_agent 5 98) as Hnew.
  lapply Hnew; [clear Hnew; intros Hnew|vm_compute; reflexivity].
  pose proof (createDynamicLayer_counts Example.with_agent 3 98) as Hold.
  lapply Hold; [clear Hold; intros Hold|vm_compute; reflexivity].
  cbv zeta in Hnew, Hold.
  destruct Hnew as (Hnew & _). destruct Hold as (Hold & _ & _ & Hdyn).
  split; [vm_compute; reflexivity|].
  split; [rewrite Hnew; vm_compute; reflexivity|].
  split; [rewrite Hold; vm_compute; reflexivity|].
  rewrite Hdyn. vm_compute. reflexivity.
Defined.

Lemma emplaceNode_numNodes_witness :
  numNodes House.house = 9
  ∧ numNodes (emplaceNode House.house 2 13 0).2 = 10.
Proof.
  split; [vm_compute; reflexivity|].
  rewrite (emplaceNode_numNodes House.house
             (emplaceNode House.house 2 13 0).2 2 13 0);
    vm_compute; reflexivity.
Defined.

Lemma mesh_layer_is_no_layer_witness :
  hasLayer House.house 1 = true
  ∧ getLayer House.house 1 = None
  ∧ emplaceNode House.house 1 40 0 = (false, House.house)
  ∧ insertNode House.house (Some (mkNode 40 1 0 None ∅ ∅)) = None.
Proof.
  destruct (mesh_layer_is_no_layer House.house) as (H1 & H2 & H3 & H4);
    [vm_compute; reflexivity..|].
  split; [exact H1|]. split; [exact H2|]. split; [exact (H3 40 0)|].
  apply H4; vm_compute; reflexivity.
Defined.

Lemma removeNode_unlinks_node_witness :
  ∃ g',
    removeNode House.house House.place1 = Some (true, g')
    ∧ node_lookup_ g' !! House.place1 = None
    ∧ meshEdgeId g' House.place1 1 = None
    ∧ meshEdgeId g' House.object1 0 = Some 0
    ∧ parent_ <$> getNodePtr g' House.object1 (static_key 2) = Some None
    ∧ Edges.contains (interlayer_edges_ g') House.place1 House.object1
      = false
    ∧ Edges.contains (interlayer_edges_ g') House.place1 House.room = false.
Proof.
  destruct (removeNode_unlinks_node House.house House.place1 (static_key 3)
              House.place1_node)
    as (g' & Hrm & Hindex & _ & Hmesh & Hparent & Hchildren).
  - apply (bool_decide_unpack _). vm_compute. reflexivity.
  - vm_compute. reflexivity.
  - vm_compute. reflexivity.
  - vm_compute. reflexivity.
  - exists g'. split; [exact Hrm|].
    split; [rewrite Hindex; apply lookup_delete_eq|].
    split; [rewrite Hmesh; vm_compute; reflexivity|].
    split; [rewrite Hmesh; vm_compute; reflexivity|].
    destruct (Hchildren House.object1 (static_key 2))
      as (Hedge & cn & Hcn & Hnone).
    { apply (bool_decide_unpack _). vm_compute. reflexivity. }
    { vm_compute. reflexivity. }
    split; [rewrite Hcn; simpl; by rewrite Hnone|].
    split; [exact Hedge|].
    destruct (Hparent House.room (static_key 4)) as (Hup & _);
      [reflexivity|vm_compute; reflexivity|exact Hup].
Defined.

Lemma emplace_then_removeNode_witness :
  ∃ g2,
    removeNode (emplaceNode House.house 2 13 0).2 13 = Some (true, g2)
    ∧ node_lookup_ g2 = node_lookup_ House.house
    ∧ nodes_ <$> layers_ g2 !! 2 = nodes_ <$> layers_ House.house !! 2
    ∧ (λ l, nodes_status_ l !! 13) <$> layers_ g2 !! 2
      = Some (Some Removed).
Proof.
  destruct (emplace_then_removeNode House.house
              (emplaceNode House.house 2 13 0).2 2 13 0)
    as (layer & Hlayer & Hrm).
  - vm_compute. reflexivity.
  - intros v. vm_compute. reflexivity.
  - vm_compute in Hlayer. injection Hlayer as <-.
    eexists. split; [exact Hrm|]. repeat split; vm_compute; reflexivity.
Defined.

Lemma insertEdge_then_lookup_witness :
  ∃ g',
    insertEdge House.house House.room House.place2 None = Some (true, g')
    ∧ getEdge g' House.place2 House.room
      = Some (Some (mkEdge House.room House.place2 default_edge_attributes))
    ∧ insertEdge g' House.place2 House.room None = Some (false, g').
Proof.
  set (g' := Example.after House.house
               (insertEdge House.house House.room House.place2 None)).
  assert (Hins : insertEdge House.house House.room House.place2 None
                 = Some (true, g')) by (vm_compute; reflexivity).
  pose proof (insertEdge_then_lookup House.house g' House.room House.place2
                None None Hins) as Hthm.
  cbv zeta in Hthm. destruct Hthm as (_ & _ & _ & Hget & _ & Hagain & _).
  exists g'. split; [exact Hins|]. split; [exact Hget|exact Hagain].
Defined.

Lemma insert_then_removeEdge_witness :
  ∃ g1 g2,
    insertEdge House.house House.room House.place2 None = Some (true, g1)
    ∧ removeEdge g1 House.room House.place2 = Some (true, g2)
    ∧ getNodePtr g2 House.room (static_key 4)
      = getNodePtr House.house House.room (static_key 4)
    ∧ edges (interlayer_edges_ g2) = edges (interlayer_edges_ House.house)
    ∧ hasEdge g2 House.room House.place2
      = Some (false, Some (static_key 4, static_key 3)).
Proof.
  set (g1 := Example.after House.house
               (insertEdge House.house House.room House.place2 None)).
  destruct (insert_then_removeEdge House.house g1 House.room House.place2
              None (static_key 4) (static_key 3)
              (mkNode House.room 4 0 None {[House.place1]} ∅)
              (mkNode House.place2 3 0 None ∅ ∅))
    as (g2 & Hrm & Hs & _ & He & _ & _ & Hhas).
  1-5: vm_compute; reflexivity.
  1-4: apply (bool_decide_unpack _); vm_compute; reflexivity.
  - vm_compute. reflexivity.
  - exists g1, g2. split; [vm_compute; reflexivity|].
    split; [exact Hrm|]. split; [rewrite Hs; vm_compute; reflexivity|].
    split; [exact He|exact Hhas].
Defined.

Lemma insertEdge_siblings_witness :
  ∃ g',
    insertEdge Example.with_agent Example.object1 Example.agent0 None
    = Some (true, g')
    ∧ siblings_ <$> getNodePtr g' Example.object1 (static_key 2)
      = Some {[Example.agent0]}
    ∧ siblings_ <$> getNodePtr g' Example.agent0 (dynamic_key 2 97)
      = Some {[Example.object1]}
    ∧ Edges.contains (dynamic_interlayer_edges_ g') Example.object1
                     Example.agent0
      = true.
Proof.
  destruct (getNodePtr Example.with_agent Example.agent0 (dynamic_key 2 97))
    as [nt|] eqn:Hnt; [|vm_compute in Hnt; discriminate].
  destruct (insertEdge_siblings Example.with_agent Example.object1
              Example.agent0 (static_key 2) (dynamic_key 2 97)
              (mkNode Example.object1 2 0 None ∅ ∅) nt None)
    as (g' & Hins & Hs & Ht & Hedge & _).
  1-4: vm_compute; reflexivity.
  1: exact Hnt.
  1-3: vm_compute; reflexivity.
  exists g'. split; [exact Hins|].
  split; [rewrite Hs; vm_compute; reflexivity|].
  split; [|exact Hedge].
  rewrite Ht. vm_compute in Hnt. injection Hnt as <-.
  vm_compute. reflexivity.
Defined.

Lemma unknown_node_is_turned_down_witness :
  insertEdge House.house 99 House.place1 None = Some (false, House.house)
  ∧ removeEdge House.house House.place1 99 = Some (false, House.house)
  ∧ removeNode House.house 99 = Some (false, House.house)
  ∧ rewireInterlayerEdge House.house 99 House.place1 House.place2
                         House.place1
    = None.
Proof.
  destruct (unknown_node_is_turned_down House.house 99 House.place1 None 0
              false)
    as (_ & _ & _ & _ & Hins & _ & _ & Hrm & Hnode & _ & _ & _ & _ & Hrw & _).
  { vm_compute. reflexivity. }
  split; [exact Hins|]. split; [exact Hrm|]. split; [exact Hnode|].
  apply Hrw. reflexivity.
Defined.

Lemma rewire_to_new_source_witness :
  ∃ g',
    rewireInterlayerEdge House.house House.place1 House.object1
                         House.place2 House.object1
    = Some g'
    ∧ Edges.get (interlayer_edges_ g') House.place2 House.object1
      = Some (mkEdge House.place2 House.object1 default_edge_attributes)
    ∧ Edges.contains (interlayer_edges_ g') House.place1 House.object1
      = false.
Proof.
  destruct (rewire_to_new_source House.house House.place1 House.place2
              House.object1 (static_key 3) (static_key 3) (static_key 2)
              (mkEdge House.place1 House.object1 default_edge_attributes))
    as (g' & Hrw & Hget & Hold & _).
  - by intros [=].
  - vm_compute. reflexivity.
  - vm_compute. reflexivity.
  - vm_compute. reflexivity.
  - reflexivity.
  - reflexivity.
  - apply (bool_decide_unpack _). vm_compute. reflexivity.
  - apply (bool_decide_unpack _). vm_compute. reflexivity.
  - apply (bool_decide_unpack _). vm_compute. reflexivity.
  - vm_compute. reflexivity.
  - vm_compute. reflexivity.
  - exists g'. split; [exact Hrw|]. split; [exact Hget|exact Hold].
Defined.

Lemma insertEdge_numEdges_witness :
  ∃ g',
    insertEdge House.house House.room House.place2 None = Some (true, g')
    ∧ numEdges House.house = 5
    ∧ numEdges g' = 6
    ∧ numNodes g' = 9.
Proof.
  set (g' := Example.after House.house
               (insertEdge House.house House.room House.place2 None)).
  assert (Hins : insertEdge House.house House.room House.place2 None
                 = Some (true, g')) by (vm_compute; reflexivity).
  destruct (insertEdge_numEdges House.house g' House.room House.place2 None
              Hins) as (Hedges & Hnodes).
  exists g'. split; [exact Hins|]. split; [vm_compute; reflexivity|].
  split; [rewrite Hedges|rewrite Hnodes]; vm_compute; reflexivity.
Defined.

Lemma mesh_edge_numEdges_witness :
  numEdges House.house = 5
  ∧ numEdges (insertMeshEdge House.house House.object2 2 false).2 = 6
  ∧ ∃ g', removeMeshEdge House.house House.object1 0 = Some (true, g')
          ∧ wrap (numEdges g' + 1) = 5.
Proof.
  assert (Hok : mesh_consistent House.house)
    by (apply (bool_decide_unpack _); vm_compute; reflexivity).
  split; [vm_compute; reflexivity|]. split.
  - destruct (mesh_edge_numEdges House.house
                (insertMeshEdge House.house House.object2 2 false).2
                House.object2 2 Hok) as (Hins & _).
    destruct (Hins false) as (Hcount & _).
    + apply (bool_decide_unpack _). vm_compute. reflexivity.
    + vm_compute. reflexivity.
    + rewrite Hcount. vm_compute. reflexivity.
  - set (g' := Example.after House.house
                 (removeMeshEdge House.house House.object1 0)).
    assert (Hrm : removeMeshEdge House.house House.object1 0
                  = Some (true, g')) by (vm_compute; reflexivity).
    destruct (mesh_edge_numEdges House.house g' House.object1 0 Hok)
      as (_ & Hcount).
    exists g'. split; [exact Hrm|].
    destruct (Hcount Hrm) as (-> & _). vm_compute. reflexivity.
Defined.

Lemma mergeGraph_keeps_geometry_witness :
  ∃ g',
    mergeGraph Example.merge_target House.house true false None true
    = Some (true, g')
    ∧ hasMesh House.house = true
    ∧ hasMesh g' = false
    ∧ hasLayer House.house 4 = true
    ∧ hasLayer g' 4 = false
    ∧ dom (layers_ g') = {[2; 3]}.
Proof.
  destruct (mergeGraph Example.merge_target House.house true false None true)
    as [[b g']|] eqn:Hmerge; [|vm_compute in Hmerge; discriminate].
  destruct (mergeGraph_keeps_geometry Example.merge_target House.house g'
              true false None true b Hmerge)
    as (-> & _ & _ & _ & Hmesh & Hdom & Hlayer).
  exists g'. split; [reflexivity|]. split; [vm_compute; reflexivity|].
  split; [rewrite Hmesh; vm_compute; reflexivity|].
  split; [vm_compute; reflexivity|].
  split; [rewrite Hlayer; vm_compute; reflexivity|].
  rewrite Hdom. vm_compute. reflexivity.
Defined.

End MoreWitnesses.
